(** * The virtual-memory core of the kernel (lab3/vm.c)

    A shallow embedding of the Sv39 page-table code: physical memory is a
    byte-addressed store, page-table entries are 64-bit little-endian words
    read from and written to that store, and every kernel routine is a
    computation in a state-and-panic monad over the store and the page
    allocator's free list. *)

From Stdlib Require Import ZArith List Lia String Bool Permutation.
Import ListNotations.
Open Scope Z_scope.

(** ** Machine integers *)

(** [uint64] arithmetic wraps modulo 2^64. *)
Definition u64 (x : Z) : Z := x mod 2 ^ 64.

(** Conversion of a value to [int] (32-bit two's complement). *)
Definition s32 (x : Z) : Z := (x + 2 ^ 31) mod 2 ^ 32 - 2 ^ 31.

(** ** riscv.h: the Sv39 layout *)

(** Modelled from the spec: riscv.h is not part of the source unit; the page
    size, the 9-bit index and 12-bit offset split and the 10-bit flag field
    are the ones the spec and the comments of vm.c give, and the positions of
    the Valid/Read/Write/Execute/User bits are those of the Sv39 entry
    format. *)
Definition PGSIZE : Z := 4096.
Definition PGSHIFT : Z := 12.

Definition PGROUNDUP (sz : Z) : Z := Z.land (u64 (sz + PGSIZE - 1)) (Z.lnot (PGSIZE - 1)).
Definition PGROUNDDOWN (a : Z) : Z := Z.land a (Z.lnot (PGSIZE - 1)).

Definition PTE_V : Z := Z.shiftl 1 0.
Definition PTE_R : Z := Z.shiftl 1 1.
Definition PTE_W : Z := Z.shiftl 1 2.
Definition PTE_X : Z := Z.shiftl 1 3.
Definition PTE_U : Z := Z.shiftl 1 4.

Definition PA2PTE (pa : Z) : Z := u64 (Z.shiftl (Z.shiftr pa 12) 10).
Definition PTE2PA (pte : Z) : Z := u64 (Z.shiftl (Z.shiftr pte 10) 12).
Definition PTE_FLAGS (pte : Z) : Z := Z.land pte 1023.

Definition PXMASK : Z := 511.
Definition PXSHIFT (level : Z) : Z := PGSHIFT + 9 * level.
Definition PX (level va : Z) : Z := Z.land (Z.shiftr va (PXSHIFT level)) PXMASK.

(** ** Physical memory *)

(** One cell per byte address; a load reduces the cell to a byte. *)
Definition memory : Type := Z -> Z.

Definition read8 (m : memory) (a : Z) : Z := m a mod 256.

Definition write8 (m : memory) (a v : Z) : memory :=
  fun x => if x =? a then v mod 256 else m x.

(** A [uint64] access, little-endian. *)
Definition read64 (m : memory) (a : Z) : Z :=
  read8 m a + 256 * (read8 m (a + 1) + 256 * (read8 m (a + 2) + 256 * (read8 m (a + 3)
  + 256 * (read8 m (a + 4) + 256 * (read8 m (a + 5) + 256 * (read8 m (a + 6)
  + 256 * read8 m (a + 7))))))).

Definition write64 (m : memory) (a v : Z) : memory :=
  fun x => if (a <=? x) && (x <? a + 8) then Z.shiftr v (8 * (x - a)) mod 256 else m x.

Definition mem_set (m : memory) (dst c n : Z) : memory :=
  fun x => if (dst <=? x) && (x <? dst + n) then c mod 256 else m x.

Definition mem_move (m : memory) (dst src n : Z) : memory :=
  fun x => if (dst <=? x) && (x <? dst + n) then m (src + (x - dst)) else m x.

(** ** Kernel state and the monad of kernel routines *)

Record kstate : Type := mkState {
  ram : memory;          (* physical memory *)
  freelist : list Z      (* the allocator's free pages *)
}.

Inductive outcome (A : Type) : Type :=
| Done (a : A) (s : kstate)      (* the routine returned *)
| Panic (msg : string)           (* panic(): the kernel stopped *)
| Spin.                          (* the routine is still running *)
Arguments Done {A} a s.
Arguments Panic {A} msg.
Arguments Spin {A}.

Definition M (A : Type) : Type := kstate -> outcome A.

Definition ret {A} (a : A) : M A := fun s => Done a s.

Definition bind {A B} (c : M A) (k : A -> M B) : M B :=
  fun s => match c s with
           | Done a s' => k a s'
           | Panic msg => Panic msg
           | Spin => Spin
           end.

Definition panic {A} (msg : string) : M A := fun _ => Panic msg.
Definition spin {A} : M A := fun _ => Spin.

Declare Scope kern_scope.
Delimit Scope kern_scope with kern.
Notation "x <- c ;; k" := (bind c (fun x => k))
  (at level 61, c at next level, right associativity) : kern_scope.
Notation "c ;; k" := (bind c (fun _ => k))
  (at level 61, right associativity) : kern_scope.
Open Scope kern_scope.

Definition load64 (a : Z) : M Z := fun s => Done (read64 (ram s) a) s.
Definition store64 (a v : Z) : M unit :=
  fun s => Done tt (mkState (write64 (ram s) a v) (freelist s)).
Definition load8 (a : Z) : M Z := fun s => Done (read8 (ram s) a) s.
Definition store8 (a v : Z) : M unit :=
  fun s => Done tt (mkState (write8 (ram s) a v) (freelist s)).
Definition memset (dst c n : Z) : M unit :=
  fun s => Done tt (mkState (mem_set (ram s) dst c n) (freelist s)).
Definition memmove (dst src n : Z) : M unit :=
  fun s => Done tt (mkState (mem_move (ram s) dst src n) (freelist s)).

(** ** The page allocator *)

(** Modelled from the spec: the physical-page allocator is an external
    collaborator ([alloc_page() -> page | exhausted], [free_page(page)]) whose
    code is not part of the source unit.  It hands out the pages of a free
    list, returns the null pointer when none is left, and takes a freed page
    back at the head of the list. *)
Definition kalloc : M Z :=
  fun s => match freelist s with
           | [] => Done 0 s
           | p :: l => Done p (mkState (ram s) l)
           end.

Definition kfree (pa : Z) : M unit :=
  fun s => Done tt (mkState (ram s) (pa :: freelist s)).

(** ** vm.c *)

Section VM.

(** Modelled from the spec: [MAXVA] is defined in riscv.h, which is not part
    of the source unit; it is one bound on virtual addresses, kept as a
    parameter of the development. *)
Variable MAXVA : Z.

(** The two upper levels of [walk]: [level] counts the levels still to
    descend (the [for] loop runs for level 2, then level 1). *)
Fixpoint walk_levels (level : nat) (pagetable va alloc : Z) : M Z :=
  match level with
  | O => ret (pagetable + 8 * PX 0 va)
  | S l =>
      let pte := pagetable + 8 * PX (Z.of_nat level) va in
      v <- load64 pte ;;
      if negb (Z.land v PTE_V =? 0) then
        walk_levels l (PTE2PA v) va alloc
      else if alloc =? 0 then ret 0
      else
        p <- kalloc ;;
        if p =? 0 then ret 0
        else
          memset p 0 PGSIZE ;;
          store64 pte (Z.lor (PA2PTE p) PTE_V) ;;
          walk_levels l p va alloc
  end.

Definition walk (pagetable va alloc : Z) : M Z :=
  if MAXVA <=? va then panic "walk"
  else walk_levels 2 pagetable va alloc.

Definition walkaddr (pagetable va : Z) : M Z :=
  if MAXVA <=? va then ret 0
  else
    pte <- walk pagetable va 0 ;;
    if pte =? 0 then ret 0
    else
      v <- load64 pte ;;
      if Z.land v PTE_V =? 0 then ret 0
      else if Z.land v PTE_U =? 0 then ret 0
      else ret (PTE2PA v).

(** The body of the [for(;;)] loop of [mappages]. *)
Fixpoint mappages_loop (fuel : nat) (pagetable a last pa perm : Z) : M Z :=
  match fuel with
  | O => spin
  | S f =>
      pte <- walk pagetable a 1 ;;
      if pte =? 0 then ret (-1)
      else
        v <- load64 pte ;;
        if negb (Z.land v PTE_V =? 0) then panic "mappages: remap"
        else
          store64 pte (Z.lor (Z.lor (PA2PTE pa) (u64 perm)) PTE_V) ;;
          if a =? last then ret 0
          else mappages_loop f pagetable (u64 (a + PGSIZE)) last (u64 (pa + PGSIZE)) perm
  end.

Definition mappages (pagetable va size pa perm : Z) : M Z :=
  if size =? 0 then panic "mappages: size"
  else
    let a := PGROUNDDOWN va in
    let last := PGROUNDDOWN (u64 (va + size - 1)) in
    mappages_loop (S (Z.to_nat (u64 (last - a) / PGSIZE))) pagetable a last pa perm.

Definition kvmmap (kpgtbl va pa sz perm : Z) : M unit :=
  r <- mappages kpgtbl va sz pa perm ;;
  if negb (r =? 0) then panic "kvmmap" else ret tt.

Fixpoint uvmunmap_loop (fuel : nat) (pagetable a bound do_free : Z) : M unit :=
  if a <? bound then
    match fuel with
    | O => spin
    | S f =>
        pte <- walk pagetable a 0 ;;
        if pte =? 0 then panic "uvmunmap: walk"
        else
          v <- load64 pte ;;
          if Z.land v PTE_V =? 0 then panic "uvmunmap: not mapped"
          else if PTE_FLAGS v =? PTE_V then panic "uvmunmap: not a leaf"
          else
            (if negb (do_free =? 0) then kfree (PTE2PA v) else ret tt) ;;
            store64 pte 0 ;;
            uvmunmap_loop f pagetable (u64 (a + PGSIZE)) bound do_free
    end
  else ret tt.

Definition uvmunmap (pagetable va npages do_free : Z) : M unit :=
  if negb (va mod PGSIZE =? 0) then panic "uvmunmap: not aligned"
  else uvmunmap_loop (Z.to_nat npages) pagetable va (u64 (va + npages * PGSIZE)) do_free.

Definition uvmcreate : M Z :=
  pagetable <- kalloc ;;
  if pagetable =? 0 then ret 0
  else memset pagetable 0 PGSIZE ;; ret pagetable.

Definition uvminit (pagetable src sz : Z) : M unit :=
  if PGSIZE <=? sz then panic "inituvm: more than a page"
  else
    mem <- kalloc ;;
    memset mem 0 PGSIZE ;;
    mappages pagetable 0 PGSIZE mem (Z.lor (Z.lor (Z.lor PTE_W PTE_R) PTE_X) PTE_U) ;;
    memmove mem src sz.

Definition uvmdealloc (pagetable oldsz newsz : Z) : M Z :=
  if oldsz <=? newsz then ret oldsz
  else
    (if PGROUNDUP newsz <? PGROUNDUP oldsz then
       let npages := s32 (u64 (PGROUNDUP oldsz - PGROUNDUP newsz) / PGSIZE) in
       uvmunmap pagetable (PGROUNDUP newsz) (u64 npages) 1
     else ret tt) ;;
    ret newsz.

Fixpoint uvmalloc_loop (fuel : nat) (pagetable oldsz a newsz : Z) : M Z :=
  if a <? newsz then
    match fuel with
    | O => spin
    | S f =>
        mem <- kalloc ;;
        if mem =? 0 then
          uvmdealloc pagetable a oldsz ;; ret 0
        else
          memset mem 0 PGSIZE ;;
          r <- mappages pagetable a PGSIZE mem
                 (Z.lor (Z.lor (Z.lor PTE_W PTE_X) PTE_R) PTE_U) ;;
          if negb (r =? 0) then
            kfree mem ;; uvmdealloc pagetable a oldsz ;; ret 0
          else uvmalloc_loop f pagetable oldsz (u64 (a + PGSIZE)) newsz
    end
  else ret newsz.

Definition uvmalloc (pagetable oldsz newsz : Z) : M Z :=
  if newsz <? oldsz then ret oldsz
  else
    let oldsz := PGROUNDUP oldsz in
    uvmalloc_loop (S (Z.to_nat (newsz / PGSIZE))) pagetable oldsz oldsz newsz.

(** The 512 iterations of the loop of [freewalk], from entry [i] on;
    [child] is the recursive call. *)
Fixpoint freewalk_entries (child : Z -> M unit) (n : nat) (pagetable i : Z) : M unit :=
  match n with
  | O => ret tt
  | S n' =>
      pte <- load64 (pagetable + 8 * i) ;;
      (if negb (Z.land pte PTE_V =? 0)
          && (Z.land pte (Z.lor (Z.lor PTE_R PTE_W) PTE_X) =? 0) then
         child (PTE2PA pte) ;;
         store64 (pagetable + 8 * i) 0
       else if negb (Z.land pte PTE_V =? 0) then panic "freewalk: leaf"
       else ret tt) ;;
      freewalk_entries child n' pagetable (i + 1)
  end.

(** [depth] bounds the nesting of the recursive calls. *)
Fixpoint freewalk (depth : nat) (pagetable : Z) : M unit :=
  match depth with
  | O => spin
  | S d =>
      freewalk_entries (freewalk d) 512 pagetable 0 ;;
      kfree pagetable
  end.

Definition uvmfree (depth : nat) (pagetable sz : Z) : M unit :=
  (if 0 <? sz then uvmunmap pagetable 0 (PGROUNDUP sz / PGSIZE) 1 else ret tt) ;;
  freewalk depth pagetable.

(** The loop of [uvmcopy]; [inl i] is a jump to [err] with the loop
    counter at [i]. *)
Fixpoint uvmcopy_loop (fuel : nat) (old new i sz : Z) : M (Z + unit) :=
  if i <? sz then
    match fuel with
    | O => spin
    | S f =>
        pte <- walk old i 0 ;;
        if pte =? 0 then panic "uvmcopy: pte should exist"
        else
          v <- load64 pte ;;
          if Z.land v PTE_V =? 0 then panic "uvmcopy: page not present"
          else
            let pa := PTE2PA v in
            let flags := PTE_FLAGS v in
            mem <- kalloc ;;
            if mem =? 0 then ret (inl i)
            else
              memmove mem pa PGSIZE ;;
              r <- mappages new i PGSIZE mem flags ;;
              if negb (r =? 0) then kfree mem ;; ret (inl i)
              else uvmcopy_loop f old new (u64 (i + PGSIZE)) sz
    end
  else ret (inr tt).

Definition uvmcopy (old new sz : Z) : M Z :=
  r <- uvmcopy_loop (S (Z.to_nat (sz / PGSIZE))) old new 0 sz ;;
  match r with
  | inr _ => ret 0
  | inl i => uvmunmap new 0 (i / PGSIZE) 1 ;; ret (-1)
  end.

Definition uvmclear (pagetable va : Z) : M unit :=
  pte <- walk pagetable va 0 ;;
  if pte =? 0 then panic "uvmclear"
  else
    v <- load64 pte ;;
    store64 pte (Z.land v (u64 (Z.lnot PTE_U))).

Fixpoint copyout_loop (fuel : nat) (pagetable dstva src len : Z) : M Z :=
  if 0 <? len then
    match fuel with
    | O => spin
    | S f =>
        let va0 := PGROUNDDOWN dstva in
        pa0 <- walkaddr pagetable va0 ;;
        if pa0 =? 0 then ret (-1)
        else
          let n := PGSIZE - (dstva - va0) in
          let n := if len <? n then len else n in
          memmove (pa0 + (dstva - va0)) src n ;;
          copyout_loop f pagetable (u64 (va0 + PGSIZE)) (src + n) (len - n)
    end
  else ret 0.

Definition copyout (pagetable dstva src len : Z) : M Z :=
  copyout_loop (S (Z.to_nat (len / PGSIZE + 1))) pagetable dstva src len.

Fixpoint copyin_loop (fuel : nat) (pagetable dst srcva len : Z) : M Z :=
  if 0 <? len then
    match fuel with
    | O => spin
    | S f =>
        let va0 := PGROUNDDOWN srcva in
        pa0 <- walkaddr pagetable va0 ;;
        if pa0 =? 0 then ret (-1)
        else
          let n := PGSIZE - (srcva - va0) in
          let n := if len <? n then len else n in
          memmove dst (pa0 + (srcva - va0)) n ;;
          copyin_loop f pagetable (dst + n) (u64 (va0 + PGSIZE)) (len - n)
    end
  else ret 0.

Definition copyin (pagetable dst srcva len : Z) : M Z :=
  copyin_loop (S (Z.to_nat (len / PGSIZE + 1))) pagetable dst srcva len.

(** The inner [while(n > 0)] loop of [copyinstr]: returns [got_null] and the
    advanced [dst] and [max]. *)
Fixpoint copyinstr_page (n : nat) (p dst max : Z) : M (bool * Z * Z) :=
  match n with
  | O => ret (false, dst, max)
  | S n' =>
      c <- load8 p ;;
      if c =? 0 then store8 dst 0 ;; ret (true, dst, max)
      else
        store8 dst c ;;
        copyinstr_page n' (p + 1) (dst + 1) (max - 1)
  end.

Fixpoint copyinstr_loop (fuel : nat) (pagetable dst srcva max : Z) (got_null : bool) : M Z :=
  if negb got_null && (0 <? max) then
    match fuel with
    | O => spin
    | S f =>
        let va0 := PGROUNDDOWN srcva in
        pa0 <- walkaddr pagetable va0 ;;
        if pa0 =? 0 then ret (-1)
        else
          let n := PGSIZE - (srcva - va0) in
          let n := if max <? n then max else n in
          r <- copyinstr_page (Z.to_nat n) (pa0 + (srcva - va0)) dst max ;;
          let '(g, dst', max') := r in
          copyinstr_loop f pagetable dst' (u64 (va0 + PGSIZE)) max' g
    end
  else if got_null then ret 0 else ret (-1).

Definition copyinstr (pagetable dst srcva max : Z) : M Z :=
  copyinstr_loop (S (Z.to_nat (max / PGSIZE + 1))) pagetable dst srcva max false.

End VM.

(** ** The shape of a page-table tree in memory *)

Definition pte_valid (v : Z) : bool := negb (Z.land v PTE_V =? 0).

Definition page_aligned (a : Z) : Prop := a mod PGSIZE = 0.

(** A byte address lies in the page that starts at [p]. *)
Definition in_page (p x : Z) : Prop := p <= x < p + PGSIZE.

(** The table reached from table [t] by following the valid entries with the
    indices of [path] (level-2 index first). *)
Fixpoint table_at (m : memory) (t : Z) (path : list Z) : option Z :=
  match path with
  | [] => Some t
  | i :: rest =>
      let v := read64 m (t + 8 * i) in
      if pte_valid v then table_at m (PTE2PA v) rest else None
  end.

Definition index_ok (i : Z) : Prop := 0 <= i < 512.

Definition path_ok (k : nat) (p : list Z) : Prop :=
  (List.length p <= k)%nat /\ Forall index_ok p.

(** [t] is one of the page-table pages of the tree rooted at [root]. *)
Definition is_table (m : memory) (root t : Z) : Prop :=
  exists p, path_ok 2 p /\ table_at m root p = Some t.

(** What [walk] returns without allocation, as a function of memory. *)
Fixpoint walk_ro (level : nat) (m : memory) (pagetable va : Z) : Z :=
  match level with
  | O => pagetable + 8 * PX 0 va
  | S l =>
      let v := read64 m (pagetable + 8 * PX (Z.of_nat level) va) in
      if pte_valid v then walk_ro l m (PTE2PA v) va else 0
  end.

(** The valid level-0 entry that translates [va], if there is one. *)
Definition lookup (m : memory) (root va : Z) : option Z :=
  let x := walk_ro 2 m root va in
  if x =? 0 then None
  else let v := read64 m x in if pte_valid v then Some v else None.

(** A well-formed tree: a page-aligned root, no table page at address 0, and
    no page-table page reached by two different index paths. *)
Record wf_tree (m : memory) (root : Z) : Prop := {
  wf_root_aligned : page_aligned root;
  wf_root_range : 0 < root < 2 ^ 64;
  wf_nonnull : forall p t, path_ok 2 p -> table_at m root p = Some t -> t <> 0;
  wf_inj : forall p q t, path_ok 2 p -> path_ok 2 q ->
      table_at m root p = Some t -> table_at m root q = Some t -> p = q
}.

(** The free list holds distinct page-aligned pages, none of them null and
    none of them a page-table page of the tree. *)
Record wf_free (m : memory) (root : Z) (fl : list Z) : Prop := {
  wf_free_nodup : NoDup fl;
  wf_free_pages : forall p, In p fl ->
      page_aligned p /\ 0 < p < 2 ^ 64 /\ ~ is_table m root p
}.

Definition wf (s : kstate) (root : Z) : Prop :=
  wf_tree (ram s) root /\ wf_free (ram s) root (freelist s).

(** Memory after [walk] has zeroed the fresh page [N] and linked it from
    entry [i] of table [t]. *)
Definition link_mem (m : memory) (t i N : Z) : memory :=
  write64 (mem_set m N 0 PGSIZE) (t + 8 * i) (Z.lor (PA2PTE N) PTE_V).

(** What holds when [walk] links the fresh page [N]: the entry it fills is
    an invalid entry of a table above level 0, and [N] is a free page. *)
Record link_pre (m : memory) (root : Z) (p0 : list Z) (t i N : Z) : Prop := {
  lp_wf : wf_tree m root;
  lp_path : path_ok 1 p0;
  lp_table : table_at m root p0 = Some t;
  lp_index : index_ok i;
  lp_invalid : pte_valid (read64 m (t + 8 * i)) = false;
  lp_aligned : page_aligned N;
  lp_range : 0 < N < 2 ^ 64;
  lp_fresh : ~ is_table m root N
}.

(** The indices of [va] into the two upper levels. *)
Definition vpath (va : Z) : list Z := [PX 2 va; PX 1 va].

(** Two virtual addresses that select the same level-0 entry. *)
Definition same_entry (va va' : Z) : Prop :=
  PX 2 va = PX 2 va' /\ PX 1 va = PX 1 va' /\ PX 0 va = PX 0 va'.

(** [s'] is [s] after [walk] allocated page-table pages for the tree at
    [root]: translations and old tables are kept, the new tables come from
    the head of the free list, and no byte outside the tables changed. *)
Record extends (root : Z) (s s' : kstate) : Prop := {
  ext_lookup : forall va, lookup (ram s') root va = lookup (ram s) root va;
  ext_tables : forall p t, path_ok 2 p ->
      table_at (ram s) root p = Some t -> table_at (ram s') root p = Some t;
  ext_slots : forall p t j, path_ok 2 p -> List.length p = 2%nat ->
      table_at (ram s) root p = Some t -> index_ok j ->
      read64 (ram s') (t + 8 * j) = read64 (ram s) (t + 8 * j);
  ext_free : exists used, freelist s = used ++ freelist s' /\
      forall u, In u used -> is_table (ram s') root u;
  ext_new : forall t, is_table (ram s') root t ->
      is_table (ram s) root t \/ In t (freelist s);
  ext_frame : forall x, (forall t, is_table (ram s') root t -> ~ in_page t x) ->
      ram s' x = ram s x
}.

(** The indices [walk] has used when [level] levels are left to descend. *)
Definition vprefix (level : nat) (va : Z) : list Z := firstn (2 - level) (vpath va).

(** The level-0 entry [mappages] writes for physical address [pa]. *)
Definition leaf_pte (pa perm : Z) : Z := Z.lor (Z.lor (PA2PTE pa) (u64 perm)) PTE_V.

(** The structural part of [extends], which also holds when level-0
    entries were written: old tables are kept, the new tables come from the
    head of the free list, and no byte outside the tables changed. *)
Record grows (root : Z) (s s' : kstate) : Prop := {
  gr_tables : forall p t, path_ok 2 p ->
      table_at (ram s) root p = Some t -> table_at (ram s') root p = Some t;
  gr_free : exists used, freelist s = used ++ freelist s' /\
      forall u, In u used -> is_table (ram s') root u;
  gr_new : forall t, is_table (ram s') root t ->
      is_table (ram s) root t \/ In t (freelist s);
  gr_frame : forall x, (forall t, is_table (ram s') root t -> ~ in_page t x) ->
      ram s' x = ram s x
}.

(** The physical pages of the [n] pages mapped from [a] on. *)
Definition mapped_pa (m : memory) (root va : Z) : Z :=
  match lookup m root va with
  | Some v => PTE2PA v
  | None => 0
  end.

Fixpoint range_pas (m : memory) (root a : Z) (n : nat) : list Z :=
  match n with
  | O => []
  | S n' => mapped_pa m root a :: range_pas m root (a + PGSIZE) n'
  end.

(** What [walkaddr] returns, as a function of memory. *)
Definition walkaddr_ro (MAXVA : Z) (m : memory) (root va : Z) : Z :=
  if MAXVA <=? va then 0
  else match lookup m root va with
       | Some v => if Z.land v PTE_U =? 0 then 0 else PTE2PA v
       | None => 0
       end.

(** ** Observing outcomes *)

Definition result_of {A} (o : outcome A) : option A :=
  match o with Done a _ => Some a | _ => None end.

Definition state_of {A} (o : outcome A) (dflt : kstate) : kstate :=
  match o with Done _ s => s | _ => dflt end.

(** ** A freshly booted machine *)

(** Zeroed memory and a list of free pages. *)
Definition boot (fl : list Z) : kstate := mkState (fun _ => 0) fl.

Definition page_okb (p : Z) : bool :=
  (p mod PGSIZE =? 0) && (0 <? p) && (p <? 2 ^ 64).

Fixpoint distinctb (l : list Z) : bool :=
  match l with
  | [] => true
  | x :: r => negb (existsb (Z.eqb x) r) && distinctb r
  end.

(** [root] and the free pages are distinct well-placed pages. *)
Definition boot_okb (root : Z) (fl : list Z) : bool :=
  forallb page_okb (root :: fl) && distinctb (root :: fl).

(** ** Statements used by the claims *)

(** Install a range and remove it again: the shape of the tree (which
    page-table page hangs where) is the one from before the install. *)
Definition roundtrip_restores (MAXVA root va npages pa perm : Z) (s : kstate) : Prop :=
  forall s1 s2,
    mappages MAXVA root va (npages * PGSIZE) pa perm s = Done 0 s1 ->
    uvmunmap MAXVA root va npages 1 s1 = Done tt s2 ->
    forall p, path_ok 2 p -> table_at (ram s2) root p = table_at (ram s) root p.

(** [m'] agrees with [m] on every byte of every page-table page of the
    tree at [root]. *)
Definition tables_agree (m m' : memory) (root : Z) : Prop :=
  forall t x, is_table m root t -> in_page t x -> m' x = m x.

(** [s'] is [s] after pages were taken from the free list, as data pages or
    as page-table pages of the tree at [root]: old tables are kept, new
    tables and everything written lie in pages that were free in [s] or in
    page-table pages. *)
Record allocs (root : Z) (s s' : kstate) : Prop := {
  al_tables : forall p t, path_ok 2 p ->
      table_at (ram s) root p = Some t -> table_at (ram s') root p = Some t;
  al_new : forall t, is_table (ram s') root t ->
      is_table (ram s) root t \/ In t (freelist s);
  al_free : forall p, In p (freelist s') -> In p (freelist s);
  al_frame : forall x, (forall t, is_table (ram s') root t -> ~ in_page t x) ->
      (forall p, In p (freelist s) -> ~ in_page p x) -> ram s' x = ram s x
}.

(** The permissions [uvmalloc] maps its pages with. *)
Definition UVM_PERM : Z := Z.lor (Z.lor (Z.lor PTE_W PTE_X) PTE_R) PTE_U.

(** [s'] is [s] grown by the [n] pages from [a] on: each page is mapped with
    [perm] to its own page of the old free list, and nothing else is mapped
    differently. *)
Definition grown (root perm a n : Z) (s s' : kstate) : Prop :=
  wf s' root /\ allocs root s s' /\
  exists mems,
    Z.of_nat (List.length mems) = n /\ NoDup mems /\
    (forall k, 0 <= k < n ->
       lookup (ram s') root (a + PGSIZE * k)
       = Some (leaf_pte (nth (Z.to_nat k) mems 0) perm)) /\
    (forall mem, In mem mems ->
       In mem (freelist s) /\ ~ In mem (freelist s') /\ ~ is_table (ram s') root mem) /\
    (forall va', (forall k, 0 <= k < n -> ~ same_entry (a + PGSIZE * k) va') ->
       lookup (ram s') root va' = lookup (ram s) root va').

(** [s'] is [s] after a failed growth was undone: the [d] pages from [a0]
    on that were mapped in [s] and the [n] pages after them are unmapped,
    no other translation changed, the physical pages of the [d] pages are
    free, and every page that was free in [s] is free or a page-table
    page. *)
Definition rolled_back (root a0 d n : Z) (s s' : kstate) : Prop :=
  wf_tree (ram s') root /\
  (forall k, 0 <= k < d + n -> lookup (ram s') root (a0 + PGSIZE * k) = None) /\
  (forall va', (forall k, 0 <= k < d + n -> ~ same_entry (a0 + PGSIZE * k) va') ->
     lookup (ram s') root va' = lookup (ram s) root va') /\
  (forall k, 0 <= k < d -> In (mapped_pa (ram s) root (a0 + PGSIZE * k)) (freelist s')) /\
  (forall p, In p (freelist s) -> In p (freelist s') \/ is_table (ram s') root p) /\
  (forall t, is_table (ram s) root t -> is_table (ram s') root t).

(** ** The user buffers of the copy routines *)

(** [a] is one of the pages that hold the bytes [va .. va+len). *)
Definition touches (va len a : Z) : Prop :=
  page_aligned a /\ PGROUNDDOWN va <= a < va + len.

(** The physical address the copy routines use for the user address [va]:
    the page [walkaddr] returns for the page of [va], plus the offset of
    [va] in its page. *)
Definition user_pa (MAXVA : Z) (m : memory) (root va : Z) : Z :=
  walkaddr_ro MAXVA m root (PGROUNDDOWN va) + (va - PGROUNDDOWN va).

(** The byte a copy routine reads from the user address [va]. *)
Definition user_byte (MAXVA : Z) (m : memory) (root va : Z) : Z :=
  read8 m (user_pa MAXVA m root va).

(** ** A machine with user memory *)

(** The booted machine after [mappages] mapped the user pages at 0 and 4096
    to the physical pages at 40960 and 45056 (read, write, user). *)
Definition two_page_state : kstate :=
  state_of (mappages (2 ^ 38) 4096 0 8192 40960 22 (boot [8192; 12288])) (boot []).

(** The same machine with the bytes "hi" at the user addresses 4095 and
    4096 (followed by a zero byte) and "xy" at 8190 and 8191, the last two
    bytes of the mapped range. *)
Definition string_state : kstate :=
  mkState (write8 (write8 (write8 (write8 (ram two_page_state) 45055 104) 45056 105)
                     49150 120) 49151 121)
          (freelist two_page_state).

(** ** What [freewalk] sees of a tree *)

(** The entry indices [i .. i+n) of a table, in the order [freewalk] visits
    them. *)
Definition entries_from (i n : nat) : list Z := map Z.of_nat (seq i n).
Definition entries : list Z := entries_from 0 512.

Definition PTE_RWX : Z := Z.lor (Z.lor PTE_R PTE_W) PTE_X.

(** [freewalk] follows a valid entry without R, W and X as a link to a lower
    table. *)
Definition pte_link (v : Z) : bool := pte_valid v && (Z.land v PTE_RWX =? 0).

(** The pages below entry [i] of table [t]; [below] lists the pages of a
    lower table. *)
Definition child_pages (below : Z -> list Z) (m : memory) (t i : Z) : list Z :=
  let v := read64 m (t + 8 * i) in if pte_link v then below (PTE2PA v) else [].

(** The pages [freewalk] frees for table [t] with [level] levels of tables
    below it, in the order it frees them. *)
Fixpoint subtree_pages (level : nat) (m : memory) (t : Z) : list Z :=
  match level with
  | O => [t]
  | S l => flat_map (child_pages (subtree_pages l m) m t) entries ++ [t]
  end.

(** Entry [i] of table [t] is invalid, or a link to a table that [below]
    accepts. *)
Definition entry_freeable (below : Z -> bool) (m : memory) (t i : Z) : bool :=
  let v := read64 m (t + 8 * i) in
  if pte_valid v then pte_link v && below (PTE2PA v) else true.

(** Nothing is mapped below [t]: its valid entries are links to tables of
    which the same holds, and the last tables have no valid entry. *)
Fixpoint freeableb (level : nat) (m : memory) (t : Z) : bool :=
  match level with
  | O => forallb (fun i => negb (pte_valid (read64 m (t + 8 * i)))) entries
  | S l => forallb (entry_freeable (freeableb l m) m t) entries
  end.

Definition entry_marked (below : Z -> bool) (m : memory) (t i : Z) : bool :=
  let v := read64 m (t + 8 * i) in if pte_link v then below (PTE2PA v) else true.

(** The valid entries of the last tables are leaves: each has one of R, W
    and X. *)
Fixpoint leaves_markedb (level : nat) (m : memory) (t : Z) : bool :=
  match level with
  | O => forallb (fun i => negb (pte_link (read64 m (t + 8 * i)))) entries
  | S l => forallb (entry_marked (leaves_markedb l m) m t) entries
  end.

(** Every valid entry of the [level] upper levels below [t] is a link: it
    has none of R, W and X. *)
Fixpoint linksb (level : nat) (m : memory) (t : Z) : bool :=
  match level with
  | O => true
  | S l => forallb (entry_freeable (linksb l m) m t) entries
  end.

(** [s'] is [s] after [uvmcopy] copied the [n] pages from page number [d]
    on of the tree at [old] into the tree at [new]: each of these pages is
    mapped in [new], with the flags of the entry of [old], to a page of its
    own from the old free list, which holds the bytes of the page of [old];
    nothing else is mapped differently in [new], and every page that was
    free is still free, a page-table page of [new], or one of the copies. *)
Definition copied (old new d n : Z) (s s' : kstate) : Prop :=
  wf s' new /\ allocs new s s' /\
  exists mems,
    Z.of_nat (List.length mems) = n /\ NoDup mems /\
    (forall k, 0 <= k < n ->
       exists v, lookup (ram s) old (PGSIZE * (d + k)) = Some v /\
         lookup (ram s') new (PGSIZE * (d + k))
           = Some (leaf_pte (nth (Z.to_nat k) mems 0) (PTE_FLAGS v)) /\
         (forall off, 0 <= off < PGSIZE ->
            ram s' (nth (Z.to_nat k) mems 0 + off) = ram s (PTE2PA v + off))) /\
    (forall mem, In mem mems ->
       In mem (freelist s) /\ ~ In mem (freelist s') /\ ~ is_table (ram s') new mem) /\
    (forall va', (forall k, 0 <= k < n -> ~ same_entry (PGSIZE * (d + k)) va') ->
       lookup (ram s') new va' = lookup (ram s) new va') /\
    (forall p, In p (freelist s) ->
       In p (freelist s') \/ is_table (ram s') new p \/ In p mems).

(** The booted machine with the two user pages of [two_page_state] mapped
    in the tree at 4096 and [fl] left on the free list; the page at 16384
    is zero: the root of an empty tree. *)
Definition fork_state (fl : list Z) : kstate :=
  state_of (mappages (2 ^ 38) 4096 0 8192 40960 22 (boot (8192 :: 12288 :: fl))) (boot []).

(** ** The diagnostic dump *)

(** Modelled from the spec: the diagnostic-print primitive is an external
    collaborator; a call of [printf] is recorded as its format string with
    its arguments, and a routine that prints returns the calls it made, in
    order. *)
Definition printf_call : Type := (string * list Z)%type.

(** The line feed (character 10) that ends a format string. *)
Definition newline : string := String (Ascii.ascii_of_nat 10) EmptyString.

Definition level_prefix (level : Z) : string :=
  if level =? 2 then ".." else if level =? 1 then ".. .." else ".. .. ..".

(** The three calls of [printf] for one valid entry. *)
Definition entry_lines (level i pte : Z) : list printf_call :=
  [(level_prefix level, []); ("%d: "%string, [i]);
   (("pte %p pa %p" ++ newline)%string, [pte; PTE2PA pte])].

(** The loop of [printwalk] from entry [i] on; [child] is the recursive
    call. *)
Fixpoint printwalk_entries (child : Z -> M (list printf_call)) (n : nat)
    (pagetable level i : Z) : M (list printf_call) :=
  match n with
  | O => ret []
  | S n' =>
      pte <- load64 (pagetable + 8 * i) ;;
      here <- (if negb (Z.land pte PTE_V =? 0) then
                 sub <- (if negb (level =? 0) then child (PTE2PA pte) else ret []) ;;
                 ret (entry_lines level i pte ++ sub)
               else ret []) ;;
      rest <- printwalk_entries child n' pagetable level (i + 1) ;;
      ret (here ++ rest)
  end.

(** [depth] bounds the nesting of the recursive calls. *)
Fixpoint printwalk (depth : nat) (pagetable level : Z) : M (list printf_call) :=
  match depth with
  | O => spin
  | S d =>
      printwalk_entries (fun c => printwalk d c (s32 (level - 1))) 512 pagetable level 0
  end.

Definition vmprint (pagetable : Z) : M (list printf_call) :=
  out <- printwalk 3 pagetable 2 ;;
  ret ((("page table %p" ++ newline)%string, [pagetable]) :: out).

(** What [printwalk] prints for the table [t] with [level] levels below
    it, as a function of memory. *)
Fixpoint dump (level : nat) (m : memory) (t : Z) : list printf_call :=
  flat_map (fun i => let pte := read64 m (t + 8 * i) in
                     if pte_valid pte then
                       entry_lines (Z.of_nat level) i pte
                         ++ match level with
                            | O => []
                            | S l => dump l m (PTE2PA pte)
                            end
                     else [])
           entries.


(** A failed growth frees every page that was allocated during the call:
    every page that was free before the call is free again after it. *)
Definition uvmalloc_frees_all (MAXVA root oldsz newsz : Z) (s : kstate) : Prop :=
  forall s', uvmalloc MAXVA root oldsz newsz s = Done 0 s' ->
    forall p, In p (freelist s) -> In p (freelist s').

(** A failed duplication frees everything that was installed in the
    destination: every page that was free before the call is free again
    after it. *)
Definition uvmcopy_frees_all (MAXVA old new sz : Z) (s : kstate) : Prop :=
  forall s', uvmcopy MAXVA old new sz s = Done (-1) s' ->
    forall p, In p (freelist s) -> In p (freelist s').

(** * Proofs *)

(** ** Arithmetic of the layout macros *)

Lemma PGROUNDDOWN_eq a : PGROUNDDOWN a = PGSIZE * (a / PGSIZE).
Proof.
  unfold PGROUNDDOWN, PGSIZE. change (4096 - 1) with (Z.ones 12).
  rewrite <- Z.ldiff_land, Z.ldiff_ones_r by lia.
  rewrite Z.shiftl_mul_pow2, Z.shiftr_div_pow2 by lia.
  change (2 ^ 12) with 4096. lia.
Qed.

Lemma PGROUNDUP_eq sz : PGROUNDUP sz = PGSIZE * (u64 (sz + PGSIZE - 1) / PGSIZE).
Proof. unfold PGROUNDUP. apply PGROUNDDOWN_eq. Qed.

Lemma PGROUNDDOWN_aligned a : page_aligned (PGROUNDDOWN a).
Proof.
  unfold page_aligned. rewrite PGROUNDDOWN_eq, Z.mul_comm. apply Z.mod_mul.
  unfold PGSIZE. lia.
Qed.

Lemma PGROUNDDOWN_bounds a : PGROUNDDOWN a <= a < PGROUNDDOWN a + PGSIZE.
Proof.
  rewrite PGROUNDDOWN_eq. unfold PGSIZE.
  pose proof (Z.div_mod a 4096). pose proof (Z.mod_pos_bound a 4096). lia.
Qed.

Lemma PGROUNDDOWN_id a : page_aligned a -> PGROUNDDOWN a = a.
Proof.
  unfold page_aligned. rewrite PGROUNDDOWN_eq. unfold PGSIZE. intros H.
  pose proof (Z.div_mod a 4096). lia.
Qed.

Lemma page_aligned_mul a : page_aligned a <-> a = PGSIZE * (a / PGSIZE).
Proof.
  unfold page_aligned, PGSIZE. pose proof (Z.div_mod a 4096). lia.
Qed.

Lemma land_PTE_V v : Z.land v PTE_V = v mod 2.
Proof. change PTE_V with (Z.ones 1). now rewrite Z.land_ones by lia. Qed.

Lemma PTE_FLAGS_eq v : PTE_FLAGS v = v mod 1024.
Proof. unfold PTE_FLAGS. change 1023 with (Z.ones 10). now rewrite Z.land_ones by lia. Qed.

Lemma PX_eq l va : 0 <= l -> PX l va = (va / 2 ^ (12 + 9 * l)) mod 512.
Proof.
  intros. unfold PX, PXMASK, PXSHIFT, PGSHIFT. change 511 with (Z.ones 9).
  rewrite Z.land_ones, Z.shiftr_div_pow2 by lia. reflexivity.
Qed.

Lemma PX_range l va : index_ok (PX l va).
Proof.
  unfold index_ok, PX, PXMASK. change 511 with (Z.ones 9). rewrite Z.land_ones by lia.
  apply Z.mod_pos_bound. lia.
Qed.

Lemma PA2PTE_eq pa : 0 <= pa < 2 ^ 64 -> PA2PTE pa = 1024 * (pa / 4096).
Proof.
  intros. unfold PA2PTE, u64. rewrite Z.shiftl_mul_pow2, Z.shiftr_div_pow2 by lia.
  change (2 ^ 12) with 4096. change (2 ^ 10) with 1024.
  assert (0 <= pa / 4096 < 2 ^ 52).
  { split; [apply Z.div_pos; lia | apply Z.div_lt_upper_bound; lia]. }
  rewrite Z.mod_small; lia.
Qed.

Lemma PTE2PA_eq v : PTE2PA v = u64 (4096 * (v / 1024)).
Proof.
  unfold PTE2PA. rewrite Z.shiftl_mul_pow2, Z.shiftr_div_pow2 by lia.
  f_equal. change (2 ^ 12) with 4096. change (2 ^ 10) with 1024. lia.
Qed.

Lemma PTE2PA_range v : 0 <= PTE2PA v < 2 ^ 64.
Proof. unfold PTE2PA, u64. apply Z.mod_pos_bound. lia. Qed.

Lemma PTE2PA_aligned v : page_aligned (PTE2PA v).
Proof.
  unfold page_aligned. rewrite PTE2PA_eq. unfold u64, PGSIZE.
  change (2 ^ 64) with (4096 * 2 ^ 52).
  rewrite Z.rem_mul_r by lia.
  rewrite (Z.mul_comm 4096 (v / 1024)), Z.mod_mul by lia.
  rewrite Z.add_0_l, Z.mul_comm, Z.mod_mul; lia.
Qed.

(** An entry made of a page number and ten flag bits. *)
Lemma lor_flags q f : 0 <= q -> 0 <= f < 1024 -> Z.lor (1024 * q) f = 1024 * q + f.
Proof.
  intros Hq Hf.
  assert (Hl : Z.land (1024 * q) f = 0).
  { apply Z.bits_inj'. intros n Hn. rewrite Z.land_spec, Z.bits_0.
    destruct (Z.ltb_spec n 10).
    - replace (1024 * q) with (q * 2 ^ 10) by lia.
      rewrite Z.mul_pow2_bits_low by lia. reflexivity.
    - replace (Z.testbit f n) with false; [apply andb_false_r|].
      symmetry. destruct (Z.eq_dec f 0) as [->|]; [apply Z.bits_0|].
      apply Z.bits_above_log2; [lia|].
      assert (Z.log2 f < 10) by (apply Z.log2_lt_pow2; lia). lia. }
  rewrite <- Z.lxor_lor by exact Hl. symmetry. apply Z.add_nocarry_lxor. exact Hl.
Qed.

Lemma lor_small a b : 0 <= a < 1024 -> 0 <= b < 1024 -> 0 <= Z.lor a b < 1024.
Proof.
  intros Ha Hb. split; [apply Z.lor_nonneg; lia|].
  destruct (Z.eq_dec (Z.lor a b) 0) as [->|Hn]; [lia|].
  assert (0 <= Z.lor a b) by (apply Z.lor_nonneg; lia).
  apply Z.log2_lt_cancel. rewrite Z.log2_lor by lia.
  change (Z.log2 1024) with 10.
  destruct (Z.eq_dec a 0) as [->|]; destruct (Z.eq_dec b 0) as [->|];
    cbn [Z.log2]; try lia.
  - assert (Z.log2 b < 10) by (apply Z.log2_lt_pow2; lia). lia.
  - assert (Z.log2 a < 10) by (apply Z.log2_lt_pow2; lia). lia.
  - assert (Z.log2 a < 10) by (apply Z.log2_lt_pow2; lia).
    assert (Z.log2 b < 10) by (apply Z.log2_lt_pow2; lia). lia.
Qed.

(** The entry that [mappages] writes, as page number plus flags. *)
Lemma leaf_pte_eq pa perm :
  0 <= pa < 2 ^ 64 -> 0 <= perm < 1024 ->
  Z.lor (Z.lor (PA2PTE pa) (u64 perm)) PTE_V
  = 1024 * (pa / 4096) + Z.lor perm PTE_V.
Proof.
  intros Hpa Hperm. unfold u64. rewrite (Z.mod_small perm) by lia.
  rewrite <- Z.lor_assoc, PA2PTE_eq by lia.
  apply lor_flags; [apply Z.div_pos; lia|].
  apply lor_small; [lia | unfold PTE_V; cbn; lia].
Qed.

Lemma land_bit v k :
  0 <= k -> Z.land v (Z.shiftl 1 k) = if Z.testbit v k then 2 ^ k else 0.
Proof.
  intros Hk. rewrite Z.shiftl_1_l.
  apply Z.bits_inj'. intros n Hn. rewrite Z.land_spec.
  destruct (Z.eq_dec n k) as [->|Hne].
  - rewrite Z.pow2_bits_true by lia. rewrite andb_true_r.
    destruct (Z.testbit v k) eqn:E; [now rewrite Z.pow2_bits_true by lia | now rewrite Z.bits_0].
  - rewrite Z.pow2_bits_false by lia. rewrite andb_false_r.
    destruct (Z.testbit v k); [now rewrite Z.pow2_bits_false by lia | now rewrite Z.bits_0].
Qed.

Lemma bit_test v k :
  0 <= k -> (Z.land v (Z.shiftl 1 k) =? 0) = negb (Z.testbit v k).
Proof.
  intros Hk. rewrite land_bit by lia.
  destruct (Z.testbit v k); cbn [negb]; [apply Z.eqb_neq | reflexivity].
  assert (0 < 2 ^ k) by (apply Z.pow_pos_nonneg; lia). lia.
Qed.

Lemma pte_valid_testbit v : pte_valid v = Z.testbit v 0.
Proof. unfold pte_valid, PTE_V. rewrite bit_test by lia. apply negb_involutive. Qed.

Lemma pte_valid_0 : pte_valid 0 = false.
Proof. reflexivity. Qed.

Lemma testbit_pte q f k :
  0 <= q -> 0 <= f < 1024 -> 0 <= k < 10 ->
  Z.testbit (1024 * q + f) k = Z.testbit f k.
Proof.
  intros Hq Hf Hk. rewrite <- lor_flags by lia. rewrite Z.lor_spec.
  replace (1024 * q) with (q * 2 ^ 10) by lia.
  rewrite Z.mul_pow2_bits_low by lia. reflexivity.
Qed.

Lemma PTE2PA_pte q f :
  0 <= q < 2 ^ 52 -> 0 <= f < 1024 -> PTE2PA (1024 * q + f) = 4096 * q.
Proof.
  intros Hq Hf. rewrite PTE2PA_eq.
  replace ((1024 * q + f) / 1024) with q.
  - unfold u64. apply Z.mod_small. lia.
  - apply Z.div_unique with f; lia.
Qed.

Lemma PTE_FLAGS_pte q f : 0 <= f < 1024 -> PTE_FLAGS (1024 * q + f) = f.
Proof.
  intros Hf. rewrite PTE_FLAGS_eq. symmetry. apply Z.mod_unique with q; lia.
Qed.

Lemma div_page_range pa : 0 <= pa < 2 ^ 64 -> 0 <= pa / 4096 < 2 ^ 52.
Proof.
  intros. split; [apply Z.div_pos; lia | apply Z.div_lt_upper_bound; lia].
Qed.

(** The entry that links a fresh table page. *)
Lemma link_pte_eq p :
  0 <= p < 2 ^ 64 -> Z.lor (PA2PTE p) PTE_V = 1024 * (p / 4096) + 1.
Proof.
  intros Hp. rewrite PA2PTE_eq by lia. apply lor_flags; [apply Z.div_pos; lia|].
  unfold PTE_V; cbn; lia.
Qed.

Lemma link_pte_valid p : 0 <= p < 2 ^ 64 -> pte_valid (Z.lor (PA2PTE p) PTE_V) = true.
Proof.
  intros Hp. rewrite link_pte_eq, pte_valid_testbit by lia.
  rewrite testbit_pte by (try apply Z.div_pos; lia). reflexivity.
Qed.

Lemma link_pte_pa p :
  0 <= p < 2 ^ 64 -> page_aligned p -> PTE2PA (Z.lor (PA2PTE p) PTE_V) = p.
Proof.
  intros Hp Ha. rewrite link_pte_eq by lia.
  rewrite PTE2PA_pte by (try apply div_page_range; lia).
  apply page_aligned_mul in Ha. unfold PGSIZE in Ha. lia.
Qed.

(** ** Memory *)

Lemma read8_range m a : 0 <= read8 m a < 256.
Proof. unfold read8. apply Z.mod_pos_bound. lia. Qed.

Lemma read64_range m a : 0 <= read64 m a < 2 ^ 64.
Proof.
  unfold read64.
  pose proof (read8_range m a). pose proof (read8_range m (a + 1)).
  pose proof (read8_range m (a + 2)). pose proof (read8_range m (a + 3)).
  pose proof (read8_range m (a + 4)). pose proof (read8_range m (a + 5)).
  pose proof (read8_range m (a + 6)). pose proof (read8_range m (a + 7)).
  lia.
Qed.

Lemma read64_ext m m' a :
  (forall x, a <= x < a + 8 -> m' x = m x) -> read64 m' a = read64 m a.
Proof. intros H. unfold read64, read8. rewrite !H by lia. reflexivity. Qed.

Lemma read64_write64_same m a v : read64 (write64 m a v) a = u64 v.
Proof.
  unfold read64, read8, write64, u64.
  replace (a <=? a) with true by (symmetry; apply Z.leb_le; lia).
  repeat match goal with
  | |- context [(a <=? a + ?k)] =>
      replace (a <=? a + k) with true by (symmetry; apply Z.leb_le; lia)
  | |- context [(a + ?k <? a + 8)] =>
      replace (a + k <? a + 8) with true by (symmetry; apply Z.ltb_lt; lia)
  | |- context [(a <? a + 8)] =>
      replace (a <? a + 8) with true by (symmetry; apply Z.ltb_lt; lia)
  end.
  cbn [andb].
  replace (a - a) with 0 by lia.
  repeat match goal with
  | |- context [a + ?k - a] => replace (a + k - a) with k by lia
  end.
  rewrite !Z.shiftr_div_pow2 by lia.
  rewrite !Z.mod_mod by lia.
  change (8 * 0) with 0. change (2 ^ 0) with 1. rewrite Z.div_1_r.
  change (2 ^ 64) with (256 * (256 * (256 * (256 * (256 * (256 * (256 * 256))))))).
  rewrite !Z.rem_mul_r by lia.
  rewrite !Z.div_div by lia.
  reflexivity.
Qed.

Lemma write64_other m a v x : x < a \/ a + 8 <= x -> write64 m a v x = m x.
Proof.
  intros H. unfold write64.
  destruct (Z.leb_spec a x); destruct (Z.ltb_spec x (a + 8)); cbn [andb]; try reflexivity; lia.
Qed.

Lemma read64_write64_other m a v b :
  b + 8 <= a \/ a + 8 <= b -> read64 (write64 m a v) b = read64 m b.
Proof. intros H. apply read64_ext. intros x Hx. apply write64_other. lia. Qed.

Lemma mem_set_in m dst c n x : dst <= x < dst + n -> mem_set m dst c n x = c mod 256.
Proof.
  intros H. unfold mem_set.
  destruct (Z.leb_spec dst x); destruct (Z.ltb_spec x (dst + n)); cbn [andb]; try reflexivity; lia.
Qed.

Lemma mem_set_other m dst c n x : x < dst \/ dst + n <= x -> mem_set m dst c n x = m x.
Proof.
  intros H. unfold mem_set.
  destruct (Z.leb_spec dst x); destruct (Z.ltb_spec x (dst + n)); cbn [andb]; try reflexivity; lia.
Qed.

Lemma read64_mem_set_zero m dst n a :
  dst <= a -> a + 8 <= dst + n -> read64 (mem_set m dst 0 n) a = 0.
Proof.
  intros H1 H2. unfold read64, read8. rewrite !mem_set_in by lia. reflexivity.
Qed.

Lemma read64_mem_set_other m dst c n a :
  a + 8 <= dst \/ dst + n <= a -> read64 (mem_set m dst c n) a = read64 m a.
Proof. intros H. apply read64_ext. intros x Hx. apply mem_set_other. lia. Qed.

Lemma mem_move_in m dst src n x :
  dst <= x < dst + n -> mem_move m dst src n x = m (src + (x - dst)).
Proof.
  intros H. unfold mem_move.
  destruct (Z.leb_spec dst x); destruct (Z.ltb_spec x (dst + n)); cbn [andb]; try reflexivity; lia.
Qed.

Lemma mem_move_other m dst src n x :
  x < dst \/ dst + n <= x -> mem_move m dst src n x = m x.
Proof.
  intros H. unfold mem_move.
  destruct (Z.leb_spec dst x); destruct (Z.ltb_spec x (dst + n)); cbn [andb]; try reflexivity; lia.
Qed.

Lemma write8_same m a v : read8 (write8 m a v) a = v mod 256.
Proof. unfold read8, write8. rewrite Z.eqb_refl. apply Z.mod_mod. lia. Qed.

Lemma write8_other m a v x : x <> a -> write8 m a v x = m x.
Proof. intros H. unfold write8. destruct (Z.eqb_spec x a); [contradiction | reflexivity]. Qed.

(** Entries of page-aligned tables occupy disjoint 8-byte slots. *)
Lemma slot_disjoint t i t' i' :
  page_aligned t -> page_aligned t' -> index_ok i -> index_ok i' ->
  t <> t' \/ i <> i' ->
  t + 8 * i + 8 <= t' + 8 * i' \/ t' + 8 * i' + 8 <= t + 8 * i.
Proof.
  unfold index_ok. intros Ht Ht' Hi Hi' Hne.
  apply page_aligned_mul in Ht, Ht'. unfold PGSIZE in *. lia.
Qed.

Lemma slot_in_page t i x : index_ok i -> t + 8 * i <= x < t + 8 * i + 8 -> in_page t x.
Proof. unfold index_ok, in_page, PGSIZE. lia. Qed.

Lemma pages_disjoint t t' x :
  page_aligned t -> page_aligned t' -> t <> t' -> in_page t x -> ~ in_page t' x.
Proof.
  unfold in_page. intros Ht Ht' Hne H1 H2.
  apply page_aligned_mul in Ht, Ht'. unfold PGSIZE in *. lia.
Qed.

(** ** Page-table trees *)

Lemma table_at_aligned m p : forall r t,
  page_aligned r -> table_at m r p = Some t -> page_aligned t.
Proof.
  induction p as [|i p IH]; cbn; intros r t Hr H.
  - now inversion H; subst.
  - destruct (pte_valid _); [|discriminate]. eapply IH; [apply PTE2PA_aligned | eassumption].
Qed.

Lemma table_at_range m p : forall r t,
  0 <= r < 2 ^ 64 -> table_at m r p = Some t -> 0 <= t < 2 ^ 64.
Proof.
  induction p as [|i p IH]; cbn; intros r t Hr H.
  - now inversion H; subst.
  - destruct (pte_valid _); [|discriminate]. eapply IH; [apply PTE2PA_range | eassumption].
Qed.

Lemma path_ok_nil k : path_ok k [].
Proof. split; [cbn; lia | constructor]. Qed.

Lemma path_ok_cons k i p : path_ok (S k) (i :: p) <-> index_ok i /\ path_ok k p.
Proof.
  unfold path_ok. cbn [List.length]. split.
  - intros [Hl Hf]. inversion Hf; subst. split; [assumption | split; [lia | assumption]].
  - intros [Hi [Hl Hf]]. split; [lia | now constructor].
Qed.

Lemma path_ok_weaken k k' p : (k <= k')%nat -> path_ok k p -> path_ok k' p.
Proof. unfold path_ok. intros Hk [Hl Hf]. split; [lia | assumption]. Qed.

(** [table_at] reads only entries of the tables met on the way. *)
Lemma table_at_frame m m' : forall k p root,
  (forall q t i, path_ok k q -> table_at m root q = Some t -> index_ok i ->
                 read64 m' (t + 8 * i) = read64 m (t + 8 * i)) ->
  path_ok (S k) p -> table_at m' root p = table_at m root p.
Proof.
  induction k as [|k IH]; intros p root Hrd Hp.
  - destruct p as [|i p]; [reflexivity|].
    apply path_ok_cons in Hp. destruct Hp as [Hi [Hl _]].
    destruct p; [|cbn in Hl; lia].
    cbn [table_at]. rewrite (Hrd [] root i); [reflexivity|apply path_ok_nil|reflexivity|assumption].
  - destruct p as [|i p]; [reflexivity|].
    apply path_ok_cons in Hp. destruct Hp as [Hi Hp].
    cbn [table_at]. rewrite (Hrd [] root i); [|apply path_ok_nil|reflexivity|assumption].
    destruct (pte_valid (read64 m (root + 8 * i))) eqn:Ev; [|reflexivity].
    apply IH; [|assumption].
    intros q t j Hq Ht Hj. apply (Hrd (i :: q)); [| |assumption].
    + apply path_ok_cons. split; assumption.
    + cbn [table_at]. rewrite Ev. assumption.
Qed.

Lemma wf_tree_ext m m' root :
  (forall p, path_ok 2 p -> table_at m' root p = table_at m root p) ->
  wf_tree m root -> wf_tree m' root.
Proof.
  intros He [H1 H2 H3 H4]. split; try assumption.
  - intros p t Hp. rewrite He by assumption. now apply H3.
  - intros p q t Hp Hq. rewrite !He by assumption. now apply H4.
Qed.

Lemma is_table_ext m m' root t :
  (forall p, path_ok 2 p -> table_at m' root p = table_at m root p) ->
  is_table m' root t <-> is_table m root t.
Proof.
  intros He. unfold is_table. split; intros [p [Hp Ht]]; exists p; split; try assumption.
  - now rewrite <- He.
  - now rewrite He.
Qed.

Lemma is_table_root m root : is_table m root root.
Proof. exists []. split; [apply path_ok_nil | reflexivity]. Qed.

Lemma wf_table_page m root t :
  wf_tree m root -> is_table m root t -> page_aligned t /\ 0 < t < 2 ^ 64.
Proof.
  intros Hwf [p [Hp Ht]]. split.
  - eapply table_at_aligned; [apply (wf_root_aligned _ _ Hwf) | eassumption].
  - pose proof (wf_root_range _ _ Hwf).
    assert (0 <= t < 2 ^ 64) by (eapply table_at_range; [|eassumption]; lia).
    pose proof (wf_nonnull _ _ Hwf p t Hp Ht). lia.
Qed.

(** Entries of two tables of a well-formed tree are disjoint slots. *)
Lemma wf_slot_disjoint m root p q t t' i i' :
  wf_tree m root -> path_ok 2 p -> path_ok 2 q ->
  table_at m root p = Some t -> table_at m root q = Some t' ->
  index_ok i -> index_ok i' -> p <> q \/ i <> i' ->
  t + 8 * i + 8 <= t' + 8 * i' \/ t' + 8 * i' + 8 <= t + 8 * i.
Proof.
  intros Hwf Hp Hq Ht Ht' Hi Hi' Hne.
  apply slot_disjoint; try assumption.
  - eapply wf_table_page; [eassumption | exists p; eauto].
  - eapply wf_table_page; [eassumption | exists q; eauto].
  - destruct Hne as [Hne|Hne]; [left | now right].
    intros ->. apply Hne. eapply wf_inj; eauto.
Qed.

(** Writing one entry leaves every other entry of the tree as it was. *)
Lemma write_slot_other m root p t i v q t' j :
  wf_tree m root -> path_ok 2 p -> table_at m root p = Some t -> index_ok i ->
  path_ok 2 q -> table_at m root q = Some t' -> index_ok j ->
  p <> q \/ i <> j ->
  read64 (write64 m (t + 8 * i) v) (t' + 8 * j) = read64 m (t' + 8 * j).
Proof.
  intros Hwf Hp Ht Hi Hq Ht' Hj Hne.
  apply read64_write64_other.
  pose proof (wf_slot_disjoint m root p q t t' i j Hwf Hp Hq Ht Ht' Hi Hj Hne). lia.
Qed.

(** Writing a level-0 entry does not change the shape of the tree. *)
Lemma write_leaf_tables m root p t i v :
  wf_tree m root -> path_ok 2 p -> List.length p = 2%nat ->
  table_at m root p = Some t -> index_ok i ->
  forall q, path_ok 2 q ->
    table_at (write64 m (t + 8 * i) v) root q = table_at m root q.
Proof.
  intros Hwf Hp Hl Ht Hi q Hq.
  apply table_at_frame with (k := 1%nat); [|assumption].
  intros q' t' j Hq' Ht' Hj.
  apply (write_slot_other m root p t i v q' t' j); try assumption.
  - eapply path_ok_weaken; [|eassumption]. lia.
  - left. intros ->. destruct Hq' as [Hl' _]. lia.
Qed.

Lemma link_other_slot m root p0 t i N q t' j :
  link_pre m root p0 t i N ->
  path_ok 2 q -> table_at m root q = Some t' -> index_ok j ->
  q <> p0 \/ j <> i ->
  read64 (link_mem m t i N) (t' + 8 * j) = read64 m (t' + 8 * j).
Proof.
  intros [Hwf Hp0 Ht Hi Hinv HNa HNr HNt] Hq Ht' Hj Hne. unfold link_mem.
  assert (Hp0' : path_ok 2 p0) by (eapply path_ok_weaken; [|eassumption]; lia).
  rewrite read64_write64_other.
  - apply read64_mem_set_other.
    assert (Hpg : page_aligned t' /\ 0 < t' < 2 ^ 64)
      by (eapply wf_table_page; [eassumption | exists q; eauto]).
    assert (t' <> N) by (intros ->; apply HNt; exists q; eauto).
    destruct Hpg as [Ha _]. apply page_aligned_mul in Ha, HNa.
    unfold index_ok, PGSIZE in *. lia.
  - pose proof (wf_slot_disjoint m root p0 q t t' i j Hwf Hp0' Hq Ht Ht' Hi Hj) as Hd.
    destruct Hd; [destruct Hne; [left; congruence | right; congruence] | |]; lia.
Qed.

Lemma link_new_slot m root p0 t i N :
  link_pre m root p0 t i N ->
  read64 (link_mem m t i N) (t + 8 * i) = Z.lor (PA2PTE N) PTE_V.
Proof.
  intros [Hwf Hp0 Ht Hi Hinv HNa HNr HNt].
  unfold link_mem. rewrite read64_write64_same. unfold u64.
  rewrite link_pte_eq by lia. apply Z.mod_small.
  pose proof (div_page_range N). lia.
Qed.

Lemma link_fresh_zero m root p0 t i N j :
  link_pre m root p0 t i N ->
  index_ok j -> read64 (link_mem m t i N) (N + 8 * j) = 0.
Proof.
  intros [Hwf Hp0 Ht Hi Hinv HNa HNr HNt] Hj. unfold link_mem.
  assert (Hp0' : path_ok 2 p0) by (eapply path_ok_weaken; [|eassumption]; lia).
  assert (Hpg : page_aligned t /\ 0 < t < 2 ^ 64)
    by (eapply wf_table_page; [eassumption | exists p0; eauto]).
  assert (t <> N) by (intros ->; apply HNt; exists p0; eauto).
  destruct Hpg as [Ha _].
  rewrite read64_write64_other.
  - apply read64_mem_set_zero; unfold index_ok, PGSIZE in *; lia.
  - pose proof (slot_disjoint t i N j Ha HNa Hi Hj). lia.
Qed.

Lemma link_table_new m root p0 t i N :
  link_pre m root p0 t i N ->
  table_at (link_mem m t i N) root (p0 ++ [i]) = Some N.
Proof.
  intros Hpre. pose proof Hpre as [Hwf Hp0 Ht Hi Hinv HNa HNr HNt].
  assert (Hlink : pte_valid (Z.lor (PA2PTE N) PTE_V) = true) by (apply link_pte_valid; lia).
  assert (Hpa : PTE2PA (Z.lor (PA2PTE N) PTE_V) = N) by (apply link_pte_pa; [lia | assumption]).
  destruct Hp0 as [Hl Hf]. destruct p0 as [|i2 [|? ?]]; [| |cbn in Hl; lia].
  - assert (Ht0 : root = t) by (cbn [table_at] in Ht; congruence). subst t. cbn [app table_at].
    rewrite (link_new_slot _ _ _ _ _ _ Hpre), Hlink, Hpa. reflexivity.
  - cbn [app]. inversion Hf as [|? ? Hi2 _]; subst.
    cbn [table_at] in Ht.
    destruct (pte_valid (read64 m (root + 8 * i2))) eqn:Ev; [|discriminate].
    assert (Ht1 : PTE2PA (read64 m (root + 8 * i2)) = t) by congruence.
    cbn [table_at].
    rewrite (link_other_slot _ _ _ _ _ _ [] root i2 Hpre);
      [| apply path_ok_nil | reflexivity | assumption | left; discriminate].
    rewrite Ev, Ht1. rewrite (link_new_slot _ _ _ _ _ _ Hpre), Hlink, Hpa. reflexivity.
Qed.

Lemma link_table_old m root p0 t i N q :
  link_pre m root p0 t i N ->
  path_ok 2 q -> q <> p0 ++ [i] ->
  table_at (link_mem m t i N) root q = table_at m root q.
Proof.
  intros Hpre Hq Hne. pose proof Hpre as [Hwf Hp0 Ht Hi Hinv HNa HNr HNt].
  assert (Hlink : pte_valid (Z.lor (PA2PTE N) PTE_V) = true) by (apply link_pte_valid; lia).
  assert (Hpa : PTE2PA (Z.lor (PA2PTE N) PTE_V) = N) by (apply link_pte_pa; [lia | assumption]).
  destruct q as [|j q]; [reflexivity|].
  destruct Hq as [Hlq Hfq]. inversion Hfq as [|? ? Hj Hfq']; subst.
  destruct Hp0 as [Hl Hf]. destruct p0 as [|i2 [|? ?]]; [| |cbn in Hl; lia].
  - (* the new table hangs off the root *)
    assert (Ht0 : root = t) by (cbn [table_at] in Ht; congruence). subst t. cbn [app] in Hne.
    destruct (Z.eq_dec j i) as [->|Hji].
    + destruct q as [|k q]; [congruence|].
      destruct q; [|cbn in Hlq; lia]. inversion Hfq' as [|? ? Hk _]; subst.
      cbn [table_at]. rewrite (link_new_slot _ _ _ _ _ _ Hpre), Hlink, Hpa, Hinv.
      rewrite (link_fresh_zero _ _ _ _ _ _ _ Hpre) by assumption. reflexivity.
    + cbn [table_at].
      rewrite (link_other_slot _ _ _ _ _ _ [] root j Hpre);
        [| apply path_ok_nil | reflexivity | assumption | right; assumption].
      destruct (pte_valid (read64 m (root + 8 * j))) eqn:Ev; [|reflexivity].
      destruct q as [|k q]; [reflexivity|].
      destruct q; [|cbn in Hlq; lia]. inversion Hfq' as [|? ? Hk _]; subst.
      cbn [table_at].
      rewrite (link_other_slot _ _ _ _ _ _ [j] (PTE2PA (read64 m (root + 8 * j))) k Hpre);
        [reflexivity | | | assumption | left; discriminate].
      * apply path_ok_cons; split; [assumption | apply path_ok_nil].
      * cbn [table_at]. rewrite Ev. reflexivity.
  - (* the new table hangs off a level-1 table *)
    cbn [app] in Hne. inversion Hf as [|? ? Hi2 _]; subst.
    cbn [table_at].
    rewrite (link_other_slot _ _ _ _ _ _ [] root j Hpre);
      [| apply path_ok_nil | reflexivity | assumption | left; discriminate].
    destruct (pte_valid (read64 m (root + 8 * j))) eqn:Ev; [|reflexivity].
    destruct q as [|k q]; [reflexivity|].
    destruct q; [|cbn in Hlq; lia]. inversion Hfq' as [|? ? Hk _]; subst.
    cbn [table_at].
    rewrite (link_other_slot _ _ _ _ _ _ [j] (PTE2PA (read64 m (root + 8 * j))) k Hpre);
      [reflexivity | | | assumption | ].
    + apply path_ok_cons; split; [assumption | apply path_ok_nil].
    + cbn [table_at]. rewrite Ev. reflexivity.
    + destruct (Z.eq_dec j i2) as [->|]; [|left; congruence].
      destruct (Z.eq_dec k i) as [->|]; [congruence | right; assumption].
Qed.

Lemma table_at_snoc m p i : forall root,
  table_at m root (p ++ [i]) =
  match table_at m root p with
  | Some t =>
      if pte_valid (read64 m (t + 8 * i)) then Some (PTE2PA (read64 m (t + 8 * i))) else None
  | None => None
  end.
Proof.
  induction p as [|j p IH]; intros root; cbn [app table_at]; [reflexivity|].
  destruct (pte_valid (read64 m (root + 8 * j))); [apply IH | reflexivity].
Qed.

Lemma path_ok_snoc p i : path_ok 1 p -> index_ok i -> path_ok 2 (p ++ [i]).
Proof.
  intros [Hl Hf] Hi. split.
  - rewrite length_app. cbn. lia.
  - apply Forall_app. split; [assumption | constructor; [assumption | constructor]].
Qed.

Lemma link_old_none m root p0 t i N :
  link_pre m root p0 t i N -> table_at m root (p0 ++ [i]) = None.
Proof.
  intros [Hwf Hp0 Ht Hi Hinv HNa HNr HNt].
  rewrite table_at_snoc, Ht, Hinv. reflexivity.
Qed.

Lemma link_wf_tree m root p0 t i N :
  link_pre m root p0 t i N -> wf_tree (link_mem m t i N) root.
Proof.
  intros Hpre. pose proof Hpre as [Hwf Hp0 Ht Hi Hinv HNa HNr HNt].
  pose proof (link_table_new _ _ _ _ _ _ Hpre) as Hnew.
  split.
  - apply (wf_root_aligned _ _ Hwf).
  - apply (wf_root_range _ _ Hwf).
  - intros p x Hp Hx.
    destruct (list_eq_dec Z.eq_dec p (p0 ++ [i])) as [->|Hne].
    + rewrite Hnew in Hx. injection Hx as <-. lia.
    + rewrite (link_table_old _ _ _ _ _ _ _ Hpre Hp Hne) in Hx.
      eapply wf_nonnull; eassumption.
  - intros p q x Hp Hq Hx Hy.
    destruct (list_eq_dec Z.eq_dec p (p0 ++ [i])) as [Ep|Hnp];
      destruct (list_eq_dec Z.eq_dec q (p0 ++ [i])) as [Eq|Hnq].
    + congruence.
    + exfalso. subst p. rewrite Hnew in Hx. injection Hx as <-.
      rewrite (link_table_old _ _ _ _ _ _ _ Hpre Hq Hnq) in Hy.
      apply HNt. exists q. auto.
    + exfalso. subst q. rewrite Hnew in Hy. injection Hy as <-.
      rewrite (link_table_old _ _ _ _ _ _ _ Hpre Hp Hnp) in Hx.
      apply HNt. exists p. auto.
    + rewrite (link_table_old _ _ _ _ _ _ _ Hpre Hp Hnp) in Hx.
      rewrite (link_table_old _ _ _ _ _ _ _ Hpre Hq Hnq) in Hy.
      eapply wf_inj; eassumption.
Qed.

Lemma link_is_table m root p0 t i N x :
  link_pre m root p0 t i N ->
  is_table (link_mem m t i N) root x <-> x = N \/ is_table m root x.
Proof.
  intros Hpre. pose proof Hpre as [Hwf Hp0 Ht Hi Hinv HNa HNr HNt].
  pose proof (link_table_new _ _ _ _ _ _ Hpre) as Hnew.
  split.
  - intros [p [Hp Hx]].
    destruct (list_eq_dec Z.eq_dec p (p0 ++ [i])) as [->|Hne].
    + left. congruence.
    + right. exists p. split; [assumption|].
      now rewrite <- (link_table_old _ _ _ _ _ _ _ Hpre Hp Hne).
  - intros [->|[p [Hp Hx]]].
    + exists (p0 ++ [i]). split; [now apply path_ok_snoc | assumption].
    + exists p. split; [assumption|].
      rewrite (link_table_old _ _ _ _ _ _ _ Hpre Hp); [assumption|].
      intros ->. rewrite (link_old_none _ _ _ _ _ _ Hpre) in Hx. discriminate.
Qed.

Lemma link_wf_free m root p0 t i N fl :
  link_pre m root p0 t i N -> wf_free m root (N :: fl) ->
  wf_free (link_mem m t i N) root fl.
Proof.
  intros Hpre [Hnd Hpg]. split.
  - now inversion Hnd.
  - intros p Hp. destruct (Hpg p (or_intror Hp)) as [Ha [Hr Hnt]].
    repeat split; try assumption; try lia.
    rewrite (link_is_table _ _ _ _ _ _ _ Hpre). intros [->|H]; [|contradiction].
    inversion Hnd; contradiction.
Qed.

Lemma link_frame m t i N x :
  index_ok i -> ~ in_page t x -> ~ in_page N x -> link_mem m t i N x = m x.
Proof.
  unfold link_mem, in_page, index_ok, PGSIZE. intros Hi Ht HN.
  rewrite write64_other by lia. apply mem_set_other. lia.
Qed.

(** ** Lookups *)

Lemma vpath_ok va : path_ok 2 (vpath va).
Proof.
  split; [cbn; lia|]. unfold vpath. constructor; [apply PX_range|]. constructor; [apply PX_range | constructor].
Qed.

Lemma vpath_length va : List.length (vpath va) = 2%nat.
Proof. reflexivity. Qed.

Lemma walk_ro_eq m root va :
  walk_ro 2 m root va =
  match table_at m root (vpath va) with
  | Some t => t + 8 * PX 0 va
  | None => 0
  end.
Proof.
  unfold vpath. cbn [walk_ro table_at]. change (Z.of_nat 2) with 2. change (Z.of_nat 1) with 1.
  destruct (pte_valid (read64 m (root + 8 * PX 2 va))); [|reflexivity].
  destruct (pte_valid _); reflexivity.
Qed.

Lemma slot_nonzero t i : 0 < t -> index_ok i -> (t + 8 * i =? 0) = false.
Proof. unfold index_ok. intros. apply Z.eqb_neq. lia. Qed.

Lemma lookup_eq m root va :
  wf_tree m root ->
  lookup m root va =
  match table_at m root (vpath va) with
  | Some t =>
      let v := read64 m (t + 8 * PX 0 va) in if pte_valid v then Some v else None
  | None => None
  end.
Proof.
  intros Hwf. unfold lookup. rewrite walk_ro_eq.
  destruct (table_at m root (vpath va)) as [t|] eqn:Et; [|reflexivity].
  rewrite slot_nonzero; [reflexivity | | apply PX_range].
  eapply wf_table_page; [eassumption | exists (vpath va); split; [apply vpath_ok | eassumption]].
Qed.

Lemma link_lookup m root p0 t i N va :
  link_pre m root p0 t i N ->
  lookup (link_mem m t i N) root va = lookup m root va.
Proof.
  intros Hpre. pose proof Hpre as [Hwf Hp0 Ht Hi Hinv HNa HNr HNt].
  rewrite !lookup_eq by (try apply (link_wf_tree _ _ _ _ _ _ Hpre); assumption).
  destruct (list_eq_dec Z.eq_dec (vpath va) (p0 ++ [i])) as [E|Hne].
  - rewrite E, (link_table_new _ _ _ _ _ _ Hpre), (link_old_none _ _ _ _ _ _ Hpre).
    cbv zeta. rewrite (link_fresh_zero _ _ _ _ _ _ _ Hpre) by apply PX_range. reflexivity.
  - rewrite (link_table_old _ _ _ _ _ _ _ Hpre (vpath_ok va) Hne).
    destruct (table_at m root (vpath va)) as [t0|] eqn:Et; [|reflexivity].
    cbv zeta.
    rewrite (link_other_slot _ _ _ _ _ _ (vpath va) t0 (PX 0 va) Hpre);
      [reflexivity | apply vpath_ok | assumption | apply PX_range |].
    left. intros E. destruct Hp0 as [Hl _]. rewrite <- E in Hl. cbn in Hl. lia.
Qed.

(** ** Growing a tree *)

Lemma extends_refl root s : extends root s s.
Proof.
  split; auto.
  exists []. split; [reflexivity | intros u []].
Qed.

Lemma extends_trans root s1 s2 s3 :
  extends root s1 s2 -> extends root s2 s3 -> extends root s1 s3.
Proof.
  intros [L1 T1 S1 [u1 [F1 U1]] N1 R1] [L2 T2 S2 [u2 [F2 U2]] N2 R2]. split.
  - intros va. now rewrite L2.
  - intros p t Hp Ht. apply T2; [assumption|]. now apply T1.
  - intros p t j Hp Hl Ht Hj.
    rewrite (S2 p t j Hp Hl (T1 p t Hp Ht) Hj). apply (S1 p t j Hp Hl Ht Hj).
  - exists (u1 ++ u2). split.
    + rewrite F1, F2. apply app_assoc.
    + intros u Hu. apply in_app_or in Hu. destruct Hu as [Hu|Hu]; [|auto].
      destruct (U1 u Hu) as [p [Hp Ht]]. exists p. auto.
  - intros t Ht. destruct (N2 t Ht) as [H|H].
    + destruct (N1 t H) as [H'|H']; auto.
    + right. rewrite F1. apply in_or_app. now right.
  - intros x Hx. rewrite R2 by assumption. apply R1.
    intros t [p [Hp Ht]]. apply Hx. exists p. auto.
Qed.

Lemma extends_link root s p0 t i N fl :
  link_pre (ram s) root p0 t i N -> freelist s = N :: fl ->
  extends root s (mkState (link_mem (ram s) t i N) fl).
Proof.
  intros Hpre Hfl. pose proof Hpre as [Hwf Hp0 Ht Hi Hinv HNa HNr HNt].
  split; cbn [ram freelist].
  - intros va. now apply link_lookup with (p0 := p0).
  - intros p x Hp Hx. rewrite (link_table_old _ _ _ _ _ _ _ Hpre Hp); [assumption|].
    intros ->. rewrite (link_old_none _ _ _ _ _ _ Hpre) in Hx. discriminate.
  - intros p x j Hp Hl Hx Hj.
    apply (link_other_slot _ _ _ _ _ _ p x j Hpre); try assumption.
    left. intros ->. destruct Hp0 as [Hl0 _]. lia.
  - exists [N]. split; [now rewrite Hfl|].
    intros u [<-|[]]. apply (link_is_table _ _ _ _ _ _ _ Hpre). now left.
  - intros x Hx. apply (link_is_table _ _ _ _ _ _ _ Hpre) in Hx.
    destruct Hx as [->|Hx]; [right; rewrite Hfl; now left | now left].
  - intros x Hx. apply link_frame; [assumption | |].
    + apply Hx. apply (link_is_table _ _ _ _ _ _ _ Hpre). right.
      exists p0. split; [eapply path_ok_weaken; [|eassumption]; lia | assumption].
    + apply Hx. apply (link_is_table _ _ _ _ _ _ _ Hpre). now left.
Qed.

(** ** Running the monad *)

Lemma bind_Done {A B} (c : M A) (k : A -> M B) s a s' :
  c s = Done a s' -> bind c k s = k a s'.
Proof. unfold bind. now intros ->. Qed.

Lemma Done_inj {A} (a a' : A) s s' : Done a s = Done a' s' -> a = a' /\ s = s'.
Proof. intros H. inversion H. split; reflexivity. Qed.

Lemma PX_compose i j k :
  index_ok i -> index_ok j -> index_ok k ->
  let va := i * 2 ^ 30 + j * 2 ^ 21 + k * 2 ^ 12 in
  PX 2 va = i /\ PX 1 va = j /\ PX 0 va = k.
Proof.
  unfold index_ok. intros Hi Hj Hk. cbv zeta.
  rewrite !PX_eq by lia.
  change (2 ^ (12 + 9 * 2)) with (2 ^ 30). change (2 ^ (12 + 9 * 1)) with (2 ^ 21).
  change (2 ^ (12 + 9 * 0)) with (2 ^ 12).
  change (2 ^ 30) with 1073741824. change (2 ^ 21) with 2097152. change (2 ^ 12) with 4096.
  split; [|split].
  - assert (E : (i * 1073741824 + j * 2097152 + k * 4096) / 1073741824 = i).
    { symmetry. apply Z.div_unique with (r := j * 2097152 + k * 4096); lia. }
    rewrite E. apply Z.mod_small. lia.
  - assert (E : (i * 1073741824 + j * 2097152 + k * 4096) / 2097152 = i * 512 + j).
    { symmetry. apply Z.div_unique with (r := k * 4096); lia. }
    rewrite E. rewrite Z.add_comm, Z.mod_add by lia. apply Z.mod_small. lia.
  - assert (E : (i * 1073741824 + j * 2097152 + k * 4096) / 4096 = (i * 512 + j) * 512 + k).
    { symmetry. apply Z.div_unique with (r := 0); lia. }
    rewrite E. rewrite Z.add_comm, Z.mod_add by lia. apply Z.mod_small. lia.
Qed.

Lemma bind_ret {A B} (a : A) (k : A -> M B) s : bind (ret a) k s = k a s.
Proof. reflexivity. Qed.

Lemma bind_load64 {B} a (k : Z -> M B) s : bind (load64 a) k s = k (read64 (ram s) a) s.
Proof. reflexivity. Qed.

Lemma bind_store64 {B} a v (k : unit -> M B) s :
  bind (store64 a v) k s = k tt (mkState (write64 (ram s) a v) (freelist s)).
Proof. reflexivity. Qed.

Lemma bind_memset {B} d c n (k : unit -> M B) s :
  bind (memset d c n) k s = k tt (mkState (mem_set (ram s) d c n) (freelist s)).
Proof. reflexivity. Qed.

Lemma bind_memmove {B} d src n (k : unit -> M B) s :
  bind (memmove d src n) k s = k tt (mkState (mem_move (ram s) d src n) (freelist s)).
Proof. reflexivity. Qed.

Lemma bind_kfree {B} pa (k : unit -> M B) s :
  bind (kfree pa) k s = k tt (mkState (ram s) (pa :: freelist s)).
Proof. reflexivity. Qed.

Lemma bind_kalloc_nil {B} (k : Z -> M B) s :
  freelist s = [] -> bind kalloc k s = k 0 s.
Proof. unfold bind, kalloc. now intros ->. Qed.

Lemma bind_kalloc_cons {B} (k : Z -> M B) s p fl :
  freelist s = p :: fl -> bind kalloc k s = k p (mkState (ram s) fl).
Proof. unfold bind, kalloc. now intros ->. Qed.

Lemma valid_test v : negb (Z.land v PTE_V =? 0) = pte_valid v.
Proof. reflexivity. Qed.

Lemma invalid_test v : (Z.land v PTE_V =? 0) = negb (pte_valid v).
Proof. unfold pte_valid. now rewrite negb_involutive. Qed.

(** ** [walk] *)

Section Walk.

Variable MAXVA : Z.

Lemma walk_levels_ro level : forall pt va s,
  walk_levels level pt va 0 s = Done (walk_ro level (ram s) pt va) s.
Proof.
  induction level as [|l IH]; intros pt va s; [reflexivity|].
  cbn [walk_levels walk_ro]. rewrite bind_load64, valid_test.
  destruct (pte_valid _); [apply IH | reflexivity].
Qed.

Lemma walk_ro_spec pt va s :
  va < MAXVA -> walk MAXVA pt va 0 s = Done (walk_ro 2 (ram s) pt va) s.
Proof.
  intros H. unfold walk.
  destruct (Z.leb_spec MAXVA va); [lia|]. apply walk_levels_ro.
Qed.

Lemma bind_walk_ro {B} pt va (k : Z -> M B) s :
  va < MAXVA -> bind (walk MAXVA pt va 0) k s = k (walk_ro 2 (ram s) pt va) s.
Proof. intros H. apply bind_Done. now apply walk_ro_spec. Qed.

Lemma vprefix_step l va :
  (l < 2)%nat -> vprefix (S l) va ++ [PX (Z.of_nat (S l)) va] = vprefix l va.
Proof. intros Hl. destruct l as [|[|l]]; [reflexivity | reflexivity | lia]. Qed.

Lemma vprefix_ok l va : path_ok 1 (vprefix (S l) va).
Proof.
  unfold vprefix, vpath. destruct l as [|l]; cbn.
  - split; [cbn; lia | constructor; [apply PX_range | constructor]].
  - apply path_ok_nil.
Qed.

Lemma walk_levels_alloc root va alloc :
  alloc <> 0 ->
  forall level pt s,
  (level <= 2)%nat -> wf s root ->
  table_at (ram s) root (vprefix level va) = Some pt ->
  exists r s',
    walk_levels level pt va alloc s = Done r s' /\
    wf s' root /\ extends root s s' /\
    (r <> 0 -> exists t, table_at (ram s') root (vpath va) = Some t /\ r = t + 8 * PX 0 va) /\
    (r = 0 -> freelist s' = [] /\ (List.length (freelist s) < level)%nat).
Proof.
  intros Halloc. induction level as [|l IH]; intros pt s Hl Hws Hpt; pose proof Hws as [Hwt Hwf].
  - exists (pt + 8 * PX 0 va), s. cbn [walk_levels].
    assert (Hpg : page_aligned pt /\ 0 < pt < 2 ^ 64).
    { eapply wf_table_page; [eassumption|]. exists (vprefix 0 va). split; [apply vpath_ok | assumption]. }
    pose proof (PX_range 0 va) as Hi. unfold index_ok in Hi.
    split; [reflexivity|]. split; [assumption|]. split; [apply extends_refl|].
    split; [|lia]. intros _. exists pt. split; [assumption | reflexivity].
  - cbn [walk_levels]. rewrite bind_load64, valid_test.
    set (i := PX (Z.of_nat (S l)) va) in *.
    assert (Hi : index_ok i) by apply PX_range.
    destruct (pte_valid (read64 (ram s) (pt + 8 * i))) eqn:Ev.
    + destruct (IH (PTE2PA (read64 (ram s) (pt + 8 * i))) s) as [r [s' [Hrun [Hwf' [Hext [Hr Hz]]]]]];
        [lia | assumption | |].
      { rewrite <- (vprefix_step l va) by lia.
        rewrite table_at_snoc, Hpt. fold i. rewrite Ev. reflexivity. }
      exists r, s'. split; [assumption|]. split; [assumption|]. split; [assumption|].
      split; [assumption|]. intros Hr0. destruct (Hz Hr0). split; [assumption | lia].
    + destruct (Z.eqb_spec alloc 0) as [|_]; [contradiction|].
      destruct (freelist s) as [|N fl] eqn:Efl.
      * rewrite bind_kalloc_nil by assumption. cbn [Z.eqb].
        exists 0, s. split; [reflexivity|]. split; [assumption|].
        split; [apply extends_refl|]. split; [congruence|].
        intros _. split; [assumption | cbn; lia].
      * rewrite (bind_kalloc_cons _ _ N fl) by assumption.
        destruct (wf_free_pages _ _ _ Hwf N (or_introl eq_refl)) as [HNa [HNr HNt]].
        destruct (Z.eqb_spec N 0) as [|_]; [lia|].
        rewrite bind_memset, bind_store64. cbn [ram freelist].
        fold (link_mem (ram s) pt i N).
        assert (Hpre : link_pre (ram s) root (vprefix (S l) va) pt i N).
        { split; try assumption. apply vprefix_ok. }
        set (s1 := mkState (link_mem (ram s) pt i N) fl).
        assert (Hwf1 : wf s1 root).
        { split; cbn [ram freelist s1].
          - apply (link_wf_tree _ _ _ _ _ _ Hpre).
          - apply (link_wf_free _ _ _ _ _ _ fl Hpre). assumption. }
        destruct (IH N s1) as [r [s' [Hrun [Hwf' [Hext [Hr Hz]]]]]]; [lia | assumption | |].
        { rewrite <- (vprefix_step l va) by lia. apply (link_table_new _ _ _ _ _ _ Hpre). }
        exists r, s'. split; [assumption|]. split; [assumption|].
        split; [|split; [assumption|]].
        { eapply extends_trans; [|eassumption].
          apply extends_link with (p0 := vprefix (S l) va); assumption. }
        intros Hr0. destruct (Hz Hr0) as [Hz1 Hz2]. split; [assumption|].
        cbn [List.length]. unfold s1 in Hz2; cbn [freelist] in Hz2. lia.
Qed.

End Walk.

(** ** Level-0 entries *)

Lemma lor_bound n a b : 0 <= n -> 0 <= a < 2 ^ n -> 0 <= b < 2 ^ n -> 0 <= Z.lor a b < 2 ^ n.
Proof.
  intros Hn Ha Hb. split; [apply Z.lor_nonneg; lia|].
  destruct (Z.eq_dec (Z.lor a b) 0) as [->|Hne]; [lia|].
  assert (0 <= Z.lor a b) by (apply Z.lor_nonneg; lia).
  assert (Hpos : 0 < Z.lor a b) by lia.
  apply (proj2 (Z.log2_lt_pow2 _ _ Hpos)). rewrite Z.log2_lor by lia.
  assert (Hlog : forall c, 0 <= c < 2 ^ n -> Z.lor a b <> 0 -> Z.log2 c < n \/ c = 0).
  { intros c Hc _. destruct (Z.eq_dec c 0) as [->|]; [now right | left].
    apply Z.log2_lt_pow2; lia. }
  assert (0 < n).
  { destruct (Z.eq_dec n 0) as [->|]; [|lia]. change (2 ^ 0) with 1 in *.
    assert (a = 0) by lia. assert (b = 0) by lia. subst. cbn in Hne. lia. }
  apply Z.max_lub_lt.
  - destruct (Hlog a Ha Hne) as [ | -> ]; [assumption | cbn; lia].
  - destruct (Hlog b Hb Hne) as [ | -> ]; [assumption | cbn; lia].
Qed.

Lemma u64_range x : 0 <= u64 x < 2 ^ 64.
Proof. unfold u64. apply Z.mod_pos_bound. lia. Qed.

Lemma u64_small x : 0 <= x < 2 ^ 64 -> u64 x = x.
Proof. unfold u64. apply Z.mod_small. Qed.

Lemma leaf_pte_range pa perm : 0 <= leaf_pte pa perm < 2 ^ 64.
Proof.
  unfold leaf_pte. apply lor_bound; [lia | | unfold PTE_V; cbn; lia].
  apply lor_bound; [lia | apply u64_range | apply u64_range].
Qed.

Lemma leaf_pte_valid pa perm : pte_valid (leaf_pte pa perm) = true.
Proof.
  rewrite pte_valid_testbit. unfold leaf_pte. rewrite Z.lor_spec.
  unfold PTE_V. cbn. apply orb_true_r.
Qed.

Lemma leaf_pte_pa pa perm :
  0 <= pa < 2 ^ 64 -> page_aligned pa -> 0 <= perm < 1024 ->
  PTE2PA (leaf_pte pa perm) = pa.
Proof.
  intros Hpa Ha Hperm. unfold leaf_pte. rewrite leaf_pte_eq by lia.
  rewrite PTE2PA_pte.
  - apply page_aligned_mul in Ha. unfold PGSIZE in Ha. lia.
  - apply div_page_range. lia.
  - apply lor_small; [lia | unfold PTE_V; cbn; lia].
Qed.

Lemma leaf_pte_flags pa perm :
  0 <= pa < 2 ^ 64 -> 0 <= perm < 1024 ->
  PTE_FLAGS (leaf_pte pa perm) = Z.lor perm PTE_V.
Proof.
  intros Hpa Hperm. unfold leaf_pte. rewrite leaf_pte_eq by lia.
  apply PTE_FLAGS_pte. apply lor_small; [lia | unfold PTE_V; cbn; lia].
Qed.

Lemma leaf_pte_user pa perm :
  0 <= pa < 2 ^ 64 -> 0 <= perm < 1024 ->
  (Z.land (leaf_pte pa perm) PTE_U =? 0) = (Z.land perm PTE_U =? 0).
Proof.
  intros Hpa Hperm. unfold leaf_pte. rewrite leaf_pte_eq by lia.
  unfold PTE_U. rewrite !bit_test by lia. f_equal.
  rewrite testbit_pte; [| apply Z.div_pos; lia | apply lor_small; [lia | unfold PTE_V; cbn; lia] | lia].
  rewrite Z.lor_spec. unfold PTE_V. cbn. apply orb_false_r.
Qed.

(** ** Virtual page numbers *)

Lemma same_entry_refl va : same_entry va va.
Proof. repeat split. Qed.

Lemma same_entry_sym va va' : same_entry va va' -> same_entry va' va.
Proof. intros [H1 [H2 H3]]. repeat split; congruence. Qed.

Lemma same_entry_vpath va va' :
  same_entry va va' <-> vpath va = vpath va' /\ PX 0 va = PX 0 va'.
Proof.
  unfold same_entry, vpath. split.
  - intros [H1 [H2 H3]]. split; congruence.
  - intros [H1 H2]. injection H1 as H1 H1'. auto.
Qed.

Lemma same_entry_dec va va' : {same_entry va va'} + {~ same_entry va va'}.
Proof.
  unfold same_entry.
  destruct (Z.eq_dec (PX 2 va) (PX 2 va')); [|right; tauto].
  destruct (Z.eq_dec (PX 1 va) (PX 1 va')); [|right; tauto].
  destruct (Z.eq_dec (PX 0 va) (PX 0 va')); [left; tauto | right; tauto].
Qed.

(** Below 2^39 the three indices determine the page. *)
Lemma vpn_split va :
  0 <= va < 2 ^ 39 ->
  va / 4096 = PX 0 va + 512 * (PX 1 va + 512 * PX 2 va).
Proof.
  intros Hva. rewrite !PX_eq by lia.
  change (2 ^ (12 + 9 * 0)) with 4096.
  change (2 ^ (12 + 9 * 1)) with (4096 * 512).
  change (2 ^ (12 + 9 * 2)) with (4096 * (512 * 512)).
  rewrite <- !Z.div_div by lia.
  set (q := va / 4096).
  assert (Hq : 0 <= q < 2 ^ 27).
  { unfold q. split; [apply Z.div_pos; lia | apply Z.div_lt_upper_bound; lia]. }
  assert (0 <= q / 512 / 512 < 512).
  { split; [apply Z.div_pos; [apply Z.div_pos|]; lia|].
    apply Z.div_lt_upper_bound; [lia|]. apply Z.div_lt_upper_bound; lia. }
  rewrite (Z.mod_small (q / 512 / 512)) by lia.
  pose proof (Z.div_mod q 512). pose proof (Z.div_mod (q / 512) 512). lia.
Qed.

Lemma same_entry_page va va' :
  0 <= va < 2 ^ 39 -> 0 <= va' < 2 ^ 39 ->
  same_entry va va' <-> va / 4096 = va' / 4096.
Proof.
  intros Hva Hva'. split.
  - intros [H2 [H1 H0]]. rewrite !vpn_split by assumption. lia.
  - intros H. unfold same_entry. rewrite !PX_eq by lia.
    change (2 ^ (12 + 9 * 0)) with 4096.
    change (2 ^ (12 + 9 * 1)) with (4096 * 512).
    change (2 ^ (12 + 9 * 2)) with (4096 * (512 * 512)).
    rewrite <- !Z.div_div by lia. rewrite H. auto.
Qed.

Lemma same_entry_aligned va va' :
  0 <= va < 2 ^ 39 -> 0 <= va' < 2 ^ 39 -> page_aligned va -> page_aligned va' ->
  same_entry va va' -> va = va'.
Proof.
  intros Hva Hva' Ha Ha' H. apply same_entry_page in H; try assumption.
  apply page_aligned_mul in Ha, Ha'. unfold PGSIZE in *. lia.
Qed.


Lemma lookup_same_entry m root va va' :
  same_entry va va' -> lookup m root va = lookup m root va'.
Proof.
  intros [H2 [H1 H0]]. unfold lookup. cbn [walk_ro].
  change (Z.of_nat 2) with 2. change (Z.of_nat 1) with 1.
  rewrite H2, H1, H0. reflexivity.
Qed.

(** ** Writing a level-0 entry *)

Lemma write_leaf_wf m root va t v :
  wf_tree m root -> table_at m root (vpath va) = Some t ->
  wf_tree (write64 m (t + 8 * PX 0 va) v) root.
Proof.
  intros Hwf Ht. apply wf_tree_ext with (m := m); [|assumption].
  apply (write_leaf_tables m root (vpath va) t (PX 0 va) v Hwf (vpath_ok va)
           (vpath_length va) Ht (PX_range 0 va)).
Qed.

Lemma write_leaf_same m root va t v :
  wf_tree m root -> table_at m root (vpath va) = Some t ->
  lookup (write64 m (t + 8 * PX 0 va) v) root va
  = if pte_valid (u64 v) then Some (u64 v) else None.
Proof.
  intros Hwf Ht. rewrite lookup_eq by (eapply write_leaf_wf; eassumption).
  rewrite (write_leaf_tables m root (vpath va) t (PX 0 va) v Hwf (vpath_ok va)
             (vpath_length va) Ht (PX_range 0 va)) by apply vpath_ok.
  rewrite Ht. cbv zeta. rewrite read64_write64_same. reflexivity.
Qed.

Lemma write_leaf_other m root va t v va' :
  wf_tree m root -> table_at m root (vpath va) = Some t ->
  ~ same_entry va va' ->
  lookup (write64 m (t + 8 * PX 0 va) v) root va' = lookup m root va'.
Proof.
  intros Hwf Ht Hne. rewrite !lookup_eq by (try eapply write_leaf_wf; eassumption).
  rewrite (write_leaf_tables m root (vpath va) t (PX 0 va) v Hwf (vpath_ok va)
             (vpath_length va) Ht (PX_range 0 va)) by apply vpath_ok.
  destruct (table_at m root (vpath va')) as [t'|] eqn:Et'; [|reflexivity].
  cbv zeta.
  rewrite (write_slot_other m root (vpath va) t (PX 0 va) v (vpath va') t' (PX 0 va'));
    try assumption; try apply vpath_ok; try apply PX_range; [reflexivity|].
  destruct (list_eq_dec Z.eq_dec (vpath va) (vpath va')) as [E|]; [|now left].
  right. intros E0. apply Hne. apply same_entry_vpath. auto.
Qed.

Lemma write_leaf_frame m t i v x :
  index_ok i -> ~ in_page t x -> write64 m (t + 8 * i) v x = m x.
Proof.
  unfold in_page, index_ok, PGSIZE. intros Hi Hx. apply write64_other. lia.
Qed.

(** ** The structural order *)

Lemma grows_refl root s : grows root s s.
Proof.
  split; auto.
  exists []. split; [reflexivity | intros u []].
Qed.

Lemma grows_trans root s1 s2 s3 :
  grows root s1 s2 -> grows root s2 s3 -> grows root s1 s3.
Proof.
  intros [T1 [u1 [F1 U1]] N1 R1] [T2 [u2 [F2 U2]] N2 R2]. split.
  - intros p t Hp Ht. apply T2; [assumption|]. now apply T1.
  - exists (u1 ++ u2). split.
    + rewrite F1, F2. apply app_assoc.
    + intros u Hu. apply in_app_or in Hu. destruct Hu as [Hu|Hu]; [|auto].
      destruct (U1 u Hu) as [p [Hp Ht]]. exists p. auto.
  - intros t Ht. destruct (N2 t Ht) as [H|H].
    + destruct (N1 t H) as [H'|H']; auto.
    + right. rewrite F1. apply in_or_app. now right.
  - intros x Hx. rewrite R2 by assumption. apply R1.
    intros t [p [Hp Ht]]. apply Hx. exists p. auto.
Qed.

Lemma extends_grows root s s' : extends root s s' -> grows root s s'.
Proof. intros [L T S F N R]. split; assumption. Qed.

Lemma wf_free_ext m m' root fl :
  (forall p, path_ok 2 p -> table_at m' root p = table_at m root p) ->
  wf_free m root fl -> wf_free m' root fl.
Proof.
  intros He [Hnd Hpg]. split; [assumption|].
  intros p Hp. destruct (Hpg p Hp) as [Ha [Hr Hnt]].
  split; [assumption|]. split; [assumption|].
  now rewrite (is_table_ext m m' root p He).
Qed.

Lemma store_leaf_grows root s va t v :
  wf_tree (ram s) root -> table_at (ram s) root (vpath va) = Some t ->
  grows root s (mkState (write64 (ram s) (t + 8 * PX 0 va) v) (freelist s)).
Proof.
  intros Hwf Ht.
  pose proof (write_leaf_tables (ram s) root (vpath va) t (PX 0 va) v Hwf (vpath_ok va)
                (vpath_length va) Ht (PX_range 0 va)) as He.
  split; cbn [ram freelist].
  - intros p x Hp Hx. now rewrite He.
  - exists []. split; [reflexivity | intros u []].
  - intros x Hx. left. now apply (is_table_ext (ram s) _ root x He).
  - intros x Hx. apply write_leaf_frame; [apply PX_range|].
    apply Hx. apply (is_table_ext (ram s) _ root t He).
    exists (vpath va). split; [apply vpath_ok | assumption].
Qed.

Lemma store_leaf_wf root s va t v :
  wf s root -> table_at (ram s) root (vpath va) = Some t ->
  wf (mkState (write64 (ram s) (t + 8 * PX 0 va) v) (freelist s)) root.
Proof.
  intros [Hwt Hwf] Ht. split; cbn [ram freelist].
  - eapply write_leaf_wf; eassumption.
  - apply wf_free_ext with (m := ram s); [|assumption].
    apply (write_leaf_tables (ram s) root (vpath va) t (PX 0 va) v Hwt (vpath_ok va)
             (vpath_length va) Ht (PX_range 0 va)).
Qed.

(** ** [mappages] *)

Section Mappages.

Variable MAXVA : Z.
Hypothesis MAXVA_sv39 : MAXVA <= 2 ^ 39.

(** The call of [walk] that opens an iteration of [mappages]. *)
Lemma walk_for_map root a s :
  wf s root -> a < MAXVA -> lookup (ram s) root a = None ->
  (exists s1, walk MAXVA root a 1 s = Done 0 s1 /\
     wf s1 root /\ extends root s s1 /\ freelist s1 = []) \/
  (exists s1 t, walk MAXVA root a 1 s = Done (t + 8 * PX 0 a) s1 /\
     (t + 8 * PX 0 a =? 0) = false /\
     wf s1 root /\ extends root s s1 /\
     table_at (ram s1) root (vpath a) = Some t /\
     pte_valid (read64 (ram s1) (t + 8 * PX 0 a)) = false).
Proof.
  intros Hwf Ha Hlk. unfold walk. destruct (Z.leb_spec MAXVA a); [lia|].
  destruct (walk_levels_alloc root a 1 ltac:(lia) 2%nat root s)
    as [r [s1 [Hrun [Hwf1 [Hext [Hr Hz]]]]]]; [lia | assumption | reflexivity |].
  destruct (Z.eq_dec r 0) as [->|Hne].
  - left. exists s1. destruct (Hz eq_refl). auto.
  - right. destruct (Hr Hne) as [t [Ht ->]]. exists s1, t.
    split; [assumption|]. split; [now apply Z.eqb_neq|].
    split; [assumption|]. split; [assumption|]. split; [assumption|].
    pose proof (ext_lookup _ _ _ Hext a) as Hl. rewrite Hlk in Hl.
    rewrite lookup_eq in Hl by apply Hwf1. rewrite Ht in Hl. cbv zeta in Hl.
    destruct (pte_valid _); [discriminate | reflexivity].
Qed.

Lemma page_succ_aligned a : page_aligned a -> page_aligned (a + PGSIZE).
Proof.
  unfold page_aligned, PGSIZE. intros H.
  rewrite <- Zplus_mod_idemp_l, H. reflexivity.
Qed.

Lemma page_offset_aligned a k : page_aligned a -> page_aligned (a + PGSIZE * k).
Proof.
  unfold page_aligned, PGSIZE. intros H.
  rewrite <- Zplus_mod_idemp_l, H, Z.add_0_l, Z.mul_comm. apply Z.mod_mul. lia.
Qed.

Lemma pages_differ a k k' :
  page_aligned a -> 0 <= a + PGSIZE * k < 2 ^ 39 -> 0 <= a + PGSIZE * k' < 2 ^ 39 ->
  k <> k' -> ~ same_entry (a + PGSIZE * k) (a + PGSIZE * k').
Proof.
  intros Ha Hk Hk' Hne H.
  apply same_entry_aligned in H; try assumption; try now apply page_offset_aligned.
  unfold PGSIZE in *. lia.
Qed.

Lemma u64_add_l x y : u64 (u64 x + y) = u64 (x + y).
Proof. unfold u64. apply Zplus_mod_idemp_l. Qed.

Lemma mappages_loop_spec root perm : forall (n fuel : nat) a pa s,
  (n < fuel)%nat -> wf s root -> page_aligned a -> 0 <= a ->
  a + PGSIZE * Z.of_nat n < MAXVA -> 0 <= pa < 2 ^ 64 ->
  (forall k, 0 <= k <= Z.of_nat n -> lookup (ram s) root (a + PGSIZE * k) = None) ->
  exists r s' j,
    mappages_loop MAXVA fuel root a (a + PGSIZE * Z.of_nat n) pa perm s = Done r s' /\
    wf s' root /\ grows root s s' /\
    0 <= j <= Z.of_nat n + 1 /\
    (forall k, 0 <= k < j ->
       lookup (ram s') root (a + PGSIZE * k) = Some (leaf_pte (u64 (pa + PGSIZE * k)) perm)) /\
    (forall va', (forall k, 0 <= k < j -> ~ same_entry (a + PGSIZE * k) va') ->
       lookup (ram s') root va' = lookup (ram s) root va') /\
    ((r = 0 /\ j = Z.of_nat n + 1) \/ (r = -1 /\ j <= Z.of_nat n /\ freelist s' = [])).
Proof.
  induction n as [|n IH]; intros fuel a pa s Hfuel Hwf Ha Ha0 Hmax Hpa Hfree;
    (destruct fuel as [|f]; [lia|]); cbn [mappages_loop].
  - (* the last page *)
    destruct (walk_for_map root a s Hwf) as [[s1 [Hrun [Hwf1 [Hext Hfl]]]]
      | [s1 [t [Hrun [Hnz [Hwf1 [Hext [Ht Hinv]]]]]]]].
    { unfold PGSIZE in *. lia. }
    { rewrite <- (Hfree 0) by lia. f_equal. lia. }
    + rewrite (bind_Done _ _ _ _ _ Hrun). cbn [Z.eqb].
      exists (-1), s1, 0. split; [reflexivity|]. split; [assumption|].
      split; [now apply extends_grows|]. split; [lia|].
      split; [intros; lia|]. split; [intros; apply (ext_lookup _ _ _ Hext)|].
      right. auto with zarith.
    + rewrite (bind_Done _ _ _ _ _ Hrun), Hnz, bind_load64, valid_test, Hinv.
      cbn [negb]. rewrite bind_store64.
      replace (a =? a + PGSIZE * Z.of_nat 0) with true by (symmetry; apply Z.eqb_eq; lia).
      fold (leaf_pte pa perm).
      set (s2 := mkState (write64 (ram s1) (t + 8 * PX 0 a) (leaf_pte pa perm)) (freelist s1)).
      exists 0, s2, 1. split; [reflexivity|].
      split; [now apply store_leaf_wf|].
      split; [eapply grows_trans; [apply extends_grows; eassumption | apply store_leaf_grows; [apply Hwf1 | assumption]]|].
      split; [lia|]. split; [|split; [|left; split; [reflexivity | lia]]].
      * intros k Hk. replace k with 0 by lia. rewrite Z.mul_0_r, !Z.add_0_r.
        unfold s2; cbn [ram]. rewrite write_leaf_same by (try apply Hwf1; assumption).
        rewrite (u64_small (leaf_pte pa perm)) by apply leaf_pte_range.
        rewrite leaf_pte_valid, (u64_small pa) by assumption. reflexivity.
      * intros va' Hva'. unfold s2; cbn [ram].
        rewrite write_leaf_other; [apply (ext_lookup _ _ _ Hext) | apply Hwf1 | assumption |].
        specialize (Hva' 0 ltac:(lia)). now rewrite Z.mul_0_r, Z.add_0_r in Hva'.
  - (* a page followed by others *)
    assert (Hn : Z.of_nat (S n) = Z.of_nat n + 1) by lia.
    destruct (walk_for_map root a s Hwf) as [[s1 [Hrun [Hwf1 [Hext Hfl]]]]
      | [s1 [t [Hrun [Hnz [Hwf1 [Hext [Ht Hinv]]]]]]]].
    { unfold PGSIZE in *. lia. }
    { rewrite <- (Hfree 0) by lia. f_equal. lia. }
    + rewrite (bind_Done _ _ _ _ _ Hrun). cbn [Z.eqb].
      exists (-1), s1, 0. split; [reflexivity|]. split; [assumption|].
      split; [now apply extends_grows|]. split; [lia|].
      split; [intros; lia|]. split; [intros; apply (ext_lookup _ _ _ Hext)|].
      right. auto with zarith.
    + rewrite (bind_Done _ _ _ _ _ Hrun), Hnz, bind_load64, valid_test, Hinv.
      cbn [negb]. rewrite bind_store64.
      replace (a =? a + PGSIZE * Z.of_nat (S n)) with false
        by (symmetry; apply Z.eqb_neq; unfold PGSIZE; lia).
      fold (leaf_pte pa perm).
      set (s2 := mkState (write64 (ram s1) (t + 8 * PX 0 a) (leaf_pte pa perm)) (freelist s1)).
      assert (Hwf2 : wf s2 root) by now apply store_leaf_wf.
      assert (Hua : u64 (a + PGSIZE) = a + PGSIZE).
      { apply u64_small. unfold PGSIZE in *. lia. }
      rewrite Hua.
      replace (a + PGSIZE * Z.of_nat (S n)) with (a + PGSIZE + PGSIZE * Z.of_nat n) by lia.
      assert (Hlk2 : forall va', ~ same_entry a va' ->
                 lookup (ram s2) root va' = lookup (ram s) root va').
      { intros va' Hva'. unfold s2; cbn [ram].
        rewrite write_leaf_other; [apply (ext_lookup _ _ _ Hext) | apply Hwf1 | assumption | assumption]. }
      assert (Hdiff : forall k, 0 <= k <= Z.of_nat n ->
                 ~ same_entry a (a + PGSIZE + PGSIZE * k)).
      { intros k Hk. replace (a + PGSIZE + PGSIZE * k) with (a + PGSIZE * (k + 1)) by lia.
        replace a with (a + PGSIZE * 0) at 1 by lia.
        apply pages_differ; try assumption; unfold PGSIZE in *; lia. }
      destruct (IH f (a + PGSIZE) (u64 (pa + PGSIZE)) s2)
        as [r [s' [j [Hrun' [Hwf' [Hgr [Hj [Hin [Hout Hres]]]]]]]]].
      { lia. }
      { assumption. }
      { now apply page_succ_aligned. }
      { unfold PGSIZE in *. lia. }
      { unfold PGSIZE in *. lia. }
      { apply u64_range. }
      { intros k Hk. rewrite Hlk2 by now apply Hdiff.
        replace (a + PGSIZE + PGSIZE * k) with (a + PGSIZE * (k + 1)) by lia.
        apply Hfree. lia. }
      exists r, s', (j + 1). split; [assumption|]. split; [assumption|].
      split; [eapply grows_trans; [|eassumption];
              eapply grows_trans; [apply extends_grows; eassumption
                                  | apply store_leaf_grows; [apply Hwf1 | assumption]]|].
      split; [lia|]. split; [|split].
      * intros k Hk. destruct (Z.eq_dec k 0) as [->|Hk0].
        -- rewrite Z.mul_0_r, !Z.add_0_r. rewrite Hout.
           ++ unfold s2; cbn [ram]. rewrite write_leaf_same by (try apply Hwf1; assumption).
              rewrite (u64_small (leaf_pte pa perm)) by apply leaf_pte_range.
              rewrite leaf_pte_valid, (u64_small pa) by assumption. reflexivity.
           ++ intros k' Hk' H. apply same_entry_sym in H. revert H. apply Hdiff. lia.
        -- replace (a + PGSIZE * k) with (a + PGSIZE + PGSIZE * (k - 1)) by lia.
           rewrite Hin by lia. rewrite u64_add_l. do 3 f_equal. lia.
      * intros va' Hva'. rewrite Hout.
        -- apply Hlk2. specialize (Hva' 0 ltac:(lia)). now rewrite Z.mul_0_r, Z.add_0_r in Hva'.
        -- intros k Hk. replace (a + PGSIZE + PGSIZE * k) with (a + PGSIZE * (k + 1)) by lia.
           apply Hva'. lia.
      * destruct Hres as [[-> ->]|[-> [Hjn Hfl]]]; [left | right]; auto with zarith.
Qed.

End Mappages.

Section MappagesCall.

Variable MAXVA : Z.
Hypothesis MAXVA_sv39 : MAXVA <= 2 ^ 39.

(** The number of pages after the first that a range touches. *)
Lemma range_pages va size :
  0 <= va -> 0 < size ->
  exists n, 0 <= n /\
    PGROUNDDOWN (va + size - 1) = PGROUNDDOWN va + PGSIZE * n /\
    n = (va + size - 1) / PGSIZE - va / PGSIZE.
Proof.
  intros Hva Hsz. exists ((va + size - 1) / PGSIZE - va / PGSIZE).
  rewrite !PGROUNDDOWN_eq. unfold PGSIZE.
  assert (va / 4096 <= (va + size - 1) / 4096) by (apply Z.div_le_mono; lia).
  repeat split; lia.
Qed.

Lemma mappages_spec root va size pa perm s :
  wf s root -> 0 <= va -> 0 < size -> va + size <= MAXVA -> 0 <= pa < 2 ^ 64 ->
  let a := PGROUNDDOWN va in
  let n := (va + size - 1) / PGSIZE - va / PGSIZE in
  (forall k, 0 <= k <= n -> lookup (ram s) root (a + PGSIZE * k) = None) ->
  exists r s' j,
    mappages MAXVA root va size pa perm s = Done r s' /\
    wf s' root /\ grows root s s' /\
    0 <= j <= n + 1 /\
    (forall k, 0 <= k < j ->
       lookup (ram s') root (a + PGSIZE * k) = Some (leaf_pte (u64 (pa + PGSIZE * k)) perm)) /\
    (forall va', (forall k, 0 <= k < j -> ~ same_entry (a + PGSIZE * k) va') ->
       lookup (ram s') root va' = lookup (ram s) root va') /\
    ((r = 0 /\ j = n + 1) \/ (r = -1 /\ j <= n /\ freelist s' = [])).
Proof.
  intros Hwf Hva Hsz Hmax Hpa a n Hfree.
  destruct (range_pages va size Hva Hsz) as [n' [Hn0 [Hlast Hn']]].
  fold n in Hn'. subst n'. fold a in Hlast.
  unfold mappages. destruct (Z.eqb_spec size 0); [lia|].
  rewrite (u64_small (va + size - 1)) by lia.
  fold a. rewrite Hlast.
  replace (a + PGSIZE * n - a) with (PGSIZE * n) by lia.
  pose proof (PGROUNDDOWN_bounds va) as Hb. fold a in Hb.
  pose proof (PGROUNDDOWN_bounds (va + size - 1)) as Hb'. rewrite Hlast in Hb'.
  assert (Ha0 : 0 <= a).
  { unfold a. rewrite PGROUNDDOWN_eq. unfold PGSIZE.
    assert (0 <= va / 4096) by (apply Z.div_pos; lia). lia. }
  rewrite (u64_small (PGSIZE * n)) by (unfold PGSIZE in *; lia).
  rewrite (Z.mul_comm PGSIZE n), Z.div_mul by (unfold PGSIZE; lia).
  rewrite (Z.mul_comm n PGSIZE).
  replace (a + PGSIZE * n) with (a + PGSIZE * Z.of_nat (Z.to_nat n))
    by (rewrite Z2Nat.id; lia).
  destruct (mappages_loop_spec MAXVA MAXVA_sv39 root perm (Z.to_nat n) (S (Z.to_nat n)) a pa s)
    as [r [s' [j H]]]; try assumption.
  - lia.
  - apply PGROUNDDOWN_aligned.
  - rewrite Z2Nat.id by lia. lia.
  - intros k Hk. apply Hfree. lia.
  - rewrite Z2Nat.id in H |- * by lia. exists r, s', j. exact H.
Qed.

End MappagesCall.

(** ** [uvmunmap] *)

Lemma Some_inj {A} (x y : A) : Some x = Some y -> x = y.
Proof. intros H. congruence. Qed.

Lemma lookup_Some m root va v :
  lookup m root va = Some v ->
  (walk_ro 2 m root va =? 0) = false /\ read64 m (walk_ro 2 m root va) = v /\
  pte_valid v = true.
Proof.
  unfold lookup. destruct (walk_ro 2 m root va =? 0); [discriminate|].
  destruct (pte_valid (read64 m (walk_ro 2 m root va))) eqn:E; [|discriminate].
  intros H. apply Some_inj in H. subst v. split; [reflexivity|]. split; [reflexivity | exact E].
Qed.

Lemma range_pas_ext m m' root n : forall a,
  (forall k, 0 <= k < Z.of_nat n ->
     lookup m' root (a + PGSIZE * k) = lookup m root (a + PGSIZE * k)) ->
  range_pas m' root a n = range_pas m root a n.
Proof.
  induction n as [|n IH]; intros a H; [reflexivity|]. cbn [range_pas]. f_equal.
  - unfold mapped_pa. specialize (H 0 ltac:(lia)). rewrite Z.mul_0_r, Z.add_0_r in H.
    now rewrite H.
  - apply IH. intros k Hk.
    replace (a + PGSIZE + PGSIZE * k) with (a + PGSIZE * (k + 1)) by lia.
    apply H. lia.
Qed.

Section Uvmunmap.

Variable MAXVA : Z.
Hypothesis MAXVA_sv39 : MAXVA <= 2 ^ 39.

Lemma uvmunmap_loop_spec root do_free : forall (n fuel : nat) a s,
  (n <= fuel)%nat -> wf_tree (ram s) root -> page_aligned a -> 0 <= a ->
  a + PGSIZE * Z.of_nat n <= MAXVA ->
  (forall k, 0 <= k < Z.of_nat n ->
     exists v, lookup (ram s) root (a + PGSIZE * k) = Some v /\ PTE_FLAGS v <> PTE_V) ->
  exists s',
    uvmunmap_loop MAXVA fuel root a (a + PGSIZE * Z.of_nat n) do_free s = Done tt s' /\
    wf_tree (ram s') root /\
    (forall p, path_ok 2 p -> table_at (ram s') root p = table_at (ram s) root p) /\
    (forall k, 0 <= k < Z.of_nat n -> lookup (ram s') root (a + PGSIZE * k) = None) /\
    (forall va', (forall k, 0 <= k < Z.of_nat n -> ~ same_entry (a + PGSIZE * k) va') ->
       lookup (ram s') root va' = lookup (ram s) root va') /\
    freelist s' =
      (if do_free =? 0 then [] else rev (range_pas (ram s) root a n)) ++ freelist s /\
    (forall x, (forall t, is_table (ram s) root t -> ~ in_page t x) -> ram s' x = ram s x).
Proof.
  induction n as [|n IH]; intros fuel a s Hfuel Hwf Ha Ha0 Hmax Hmapped.
  - exists s. replace (a + PGSIZE * Z.of_nat 0) with a by lia.
    destruct fuel; cbn [uvmunmap_loop]; rewrite Z.ltb_irrefl;
      (split; [reflexivity|]); (split; [assumption|]); (split; [reflexivity|]);
      (split; [intros; lia|]); (split; [reflexivity|]);
      (split; [|reflexivity]); cbn [range_pas rev]; destruct (do_free =? 0); reflexivity.
  - destruct fuel as [|f]; [lia|]. cbn [uvmunmap_loop].
    replace (a <? a + PGSIZE * Z.of_nat (S n)) with true
      by (symmetry; apply Z.ltb_lt; unfold PGSIZE; lia).
    destruct (Hmapped 0 ltac:(lia)) as [v [Hv Hleaf]].
    rewrite Z.mul_0_r, Z.add_0_r in Hv.
    destruct (lookup_Some _ _ _ _ Hv) as [Hnz [Hrd Hvalid]].
    rewrite bind_walk_ro by (unfold PGSIZE in *; lia).
    rewrite Hnz, bind_load64, Hrd, invalid_test, Hvalid. cbn [negb].
    destruct (Z.eqb_spec (PTE_FLAGS v) PTE_V) as [|_]; [contradiction|].
    assert (Htab : exists t, table_at (ram s) root (vpath a) = Some t /\
                             walk_ro 2 (ram s) root a = t + 8 * PX 0 a).
    { rewrite walk_ro_eq in Hnz |- *.
      destruct (table_at (ram s) root (vpath a)) as [t|]; [eauto | discriminate]. }
    destruct Htab as [t [Ht Hslot]]. rewrite Hslot.
    set (fl2 := if do_free =? 0 then freelist s else PTE2PA v :: freelist s).
    set (s2 := mkState (write64 (ram s) (t + 8 * PX 0 a) 0) fl2).
    assert (Hrun : forall k : M unit,
      bind (if negb (do_free =? 0) then kfree (PTE2PA v) else ret tt)
           (fun _ => bind (store64 (t + 8 * PX 0 a) 0) (fun _ => k)) s = k s2).
    { intros k. unfold s2, fl2. destruct (do_free =? 0); reflexivity. }
    rewrite Hrun. clear Hrun.
    assert (Hua : u64 (a + PGSIZE) = a + PGSIZE).
    { apply u64_small. unfold PGSIZE in *. lia. }
    rewrite Hua.
    replace (a + PGSIZE * Z.of_nat (S n)) with (a + PGSIZE + PGSIZE * Z.of_nat n) by lia.
    assert (Hwf2 : wf_tree (ram s2) root) by (eapply write_leaf_wf; eassumption).
    assert (Hlk2 : forall va', ~ same_entry a va' ->
               lookup (ram s2) root va' = lookup (ram s) root va').
    { intros va' Hva'. now apply write_leaf_other. }
    assert (Hdiff : forall k, 0 <= k < Z.of_nat n ->
               ~ same_entry a (a + PGSIZE + PGSIZE * k)).
    { intros k Hk. replace (a + PGSIZE + PGSIZE * k) with (a + PGSIZE * (k + 1)) by lia.
      replace a with (a + PGSIZE * 0) at 1 by lia.
      apply pages_differ; try assumption; unfold PGSIZE in *; lia. }
    destruct (IH f (a + PGSIZE) s2) as [s' [Hrun [Hwf' [Htabs [Hin [Hout [Hfl Hfr]]]]]]].
    { lia. }
    { assumption. }
    { now apply page_succ_aligned. }
    { unfold PGSIZE in *. lia. }
    { unfold PGSIZE in *. lia. }
    { intros k Hk. rewrite Hlk2 by now apply Hdiff.
      replace (a + PGSIZE + PGSIZE * k) with (a + PGSIZE * (k + 1)) by lia.
      apply Hmapped. lia. }
    pose proof (write_leaf_tables (ram s) root (vpath a) t (PX 0 a) 0 Hwf (vpath_ok a)
                  (vpath_length a) Ht (PX_range 0 a)) as He.
    exists s'. split; [assumption|]. split; [assumption|].
    split; [intros p Hp; rewrite Htabs by assumption; now apply He|].
    split; [|split; [|split]].
    + intros k Hk. destruct (Z.eq_dec k 0) as [->|Hk0].
      * rewrite Z.mul_0_r, Z.add_0_r. rewrite Hout.
        -- unfold s2; cbn [ram]. rewrite write_leaf_same by assumption. reflexivity.
        -- intros k' Hk' H. apply same_entry_sym in H. revert H. now apply Hdiff.
      * replace (a + PGSIZE * k) with (a + PGSIZE + PGSIZE * (k - 1)) by lia.
        apply Hin. lia.
    + intros va' Hva'. rewrite Hout.
      * apply Hlk2. specialize (Hva' 0 ltac:(lia)). now rewrite Z.mul_0_r, Z.add_0_r in Hva'.
      * intros k Hk. replace (a + PGSIZE + PGSIZE * k) with (a + PGSIZE * (k + 1)) by lia.
        apply Hva'. lia.
    + rewrite Hfl. unfold s2, fl2; cbn [freelist ram].
      destruct (do_free =? 0); [reflexivity|].
      cbn [range_pas rev]. unfold mapped_pa. rewrite Hv.
      rewrite (range_pas_ext (ram s) (write64 (ram s) (t + 8 * PX 0 a) 0)).
      * rewrite <- app_assoc. reflexivity.
      * intros k Hk. fold (ram s2). apply Hlk2. now apply Hdiff.
    + intros x Hx. rewrite Hfr.
      * unfold s2; cbn [ram]. apply write_leaf_frame; [apply PX_range|].
        apply Hx. exists (vpath a). split; [apply vpath_ok | assumption].
      * intros t' Ht'. apply Hx. now apply (is_table_ext (ram s) (ram s2) root t' He).
Qed.

End Uvmunmap.

(** ** Outcomes and booted machines *)

Lemma done_state {A} (o : outcome A) a dflt :
  result_of o = Some a -> o = Done a (state_of o dflt).
Proof. destruct o; cbn; intros H; try discriminate. now injection H as ->. Qed.

Lemma distinctb_NoDup l : distinctb l = true -> NoDup l.
Proof.
  induction l as [|x l IH]; cbn [distinctb]; intros H; [constructor|].
  apply andb_prop in H. destruct H as [Hx Hl]. constructor; [|auto].
  intros Hin. apply negb_true_iff in Hx.
  assert (existsb (Z.eqb x) l = true); [|congruence].
  apply existsb_exists. exists x. split; [assumption | apply Z.eqb_refl].
Qed.

Lemma page_okb_spec p : page_okb p = true -> page_aligned p /\ 0 < p < 2 ^ 64.
Proof.
  unfold page_okb, page_aligned. intros H.
  apply andb_prop in H. destruct H as [H H3]. apply andb_prop in H. destruct H as [H1 H2].
  apply Z.eqb_eq in H1. apply Z.ltb_lt in H2, H3. auto.
Qed.

Lemma table_at_zero m root p t :
  (forall i, index_ok i -> read64 m (root + 8 * i) = 0) ->
  Forall index_ok p -> table_at m root p = Some t -> p = [] /\ t = root.
Proof.
  intros Hz Hp Ht. destruct p as [|i p]; cbn [table_at] in Ht.
  - injection Ht as <-. auto.
  - inversion Hp; subst. rewrite Hz in Ht by assumption. discriminate.
Qed.

Lemma wf_tree_zero m root :
  (forall i, index_ok i -> read64 m (root + 8 * i) = 0) ->
  page_aligned root -> 0 < root < 2 ^ 64 -> wf_tree m root.
Proof.
  intros Hz Ha Hr. split; try assumption.
  - intros p t [_ Hp] Ht. destruct (table_at_zero m root p t Hz Hp Ht) as [_ ->]. lia.
  - intros p q t [_ Hp] [_ Hq] Ht Ht'.
    destruct (table_at_zero m root p t Hz Hp Ht) as [-> _].
    destruct (table_at_zero m root q t Hz Hq Ht') as [-> _]. reflexivity.
Qed.

Lemma is_table_zero m root t :
  (forall i, index_ok i -> read64 m (root + 8 * i) = 0) ->
  is_table m root t -> t = root.
Proof.
  intros Hz [p [[_ Hp] Ht]]. now destruct (table_at_zero m root p t Hz Hp Ht).
Qed.

Lemma wf_boot root fl : boot_okb root fl = true -> wf (boot fl) root.
Proof.
  unfold boot_okb. intros H. apply andb_prop in H. destruct H as [Hpg Hd].
  cbn [forallb] in Hpg. apply andb_prop in Hpg. destruct Hpg as [Hroot Hfl].
  apply page_okb_spec in Hroot. destruct Hroot as [Ha Hr].
  assert (Hz : forall i, index_ok i -> read64 (ram (boot fl)) (root + 8 * i) = 0)
    by reflexivity.
  apply distinctb_NoDup in Hd. inversion Hd as [|? ? Hnin Hnd]; subst.
  split.
  - now apply wf_tree_zero.
  - split; [assumption|]. intros p Hp. cbn [boot freelist] in Hp.
    rewrite forallb_forall in Hfl. destruct (page_okb_spec p (Hfl p Hp)) as [Hpa Hpr].
    split; [assumption|]. split; [assumption|].
    intros Ht. apply (is_table_zero _ _ _ Hz) in Ht. subst p. contradiction.
Qed.

(** ** [walkaddr] *)

Lemma walkaddr_spec MAXVA root va s :
  walkaddr MAXVA root va s = Done (walkaddr_ro MAXVA (ram s) root va) s.
Proof.
  unfold walkaddr, walkaddr_ro. destruct (Z.leb_spec MAXVA va); [reflexivity|].
  rewrite bind_walk_ro by assumption. unfold lookup.
  destruct (walk_ro 2 (ram s) root va =? 0); [reflexivity|].
  rewrite bind_load64, invalid_test.
  destruct (pte_valid _); cbn [negb]; [|reflexivity].
  destruct (Z.land _ PTE_U =? 0); reflexivity.
Qed.

Lemma bounded_search (P : Z -> Prop) (n : nat) :
  (forall k, P k \/ ~ P k) ->
  (forall k, 0 <= k <= Z.of_nat n -> P k) \/
  (exists k, 0 <= k <= Z.of_nat n /\ ~ P k).
Proof.
  intros Hdec. induction n as [|n IH].
  - destruct (Hdec 0) as [H|H].
    + left. intros k Hk. now replace k with 0 by lia.
    + right. exists 0. split; [lia | assumption].
  - destruct IH as [IH|[k [Hk Hn]]].
    + destruct (Hdec (Z.of_nat (S n))) as [H|H].
      * left. intros k Hk. destruct (Z.eq_dec k (Z.of_nat (S n))) as [->|]; [assumption|].
        apply IH. lia.
      * right. exists (Z.of_nat (S n)). split; [lia | assumption].
    + right. exists k. split; [lia | assumption].
Qed.

Section Remap.

Variable MAXVA : Z.
Hypothesis MAXVA_sv39 : MAXVA <= 2 ^ 39.

(** [mappages] does not succeed over a page that is already mapped. *)
Lemma mappages_loop_remap root perm : forall (n fuel : nat) a pa s,
  wf s root -> page_aligned a -> 0 <= a ->
  a + PGSIZE * Z.of_nat n < MAXVA -> 0 <= pa < 2 ^ 64 ->
  (exists k, 0 <= k <= Z.of_nat n /\ lookup (ram s) root (a + PGSIZE * k) <> None) ->
  forall s', mappages_loop MAXVA fuel root a (a + PGSIZE * Z.of_nat n) pa perm s <> Done 0 s'.
Proof.
  induction n as [|n IH]; intros fuel a pa s Hwf Ha Ha0 Hmax Hpa [k [Hk Hmapped]] s';
    (destruct fuel as [|f]; [discriminate|]); cbn [mappages_loop].
  - replace k with 0 in Hmapped by lia. rewrite Z.mul_0_r, Z.add_0_r in Hmapped.
    unfold walk. destruct (Z.leb_spec MAXVA a); [unfold PGSIZE in *; lia|].
    destruct (walk_levels_alloc root a 1 ltac:(lia) 2%nat root s)
      as [r [s1 [Hrun [Hwf1 [Hext [Hr Hz]]]]]]; [lia | assumption | reflexivity |].
    rewrite (bind_Done _ _ _ _ _ Hrun).
    destruct (Z.eqb_spec r 0) as [|Hne]; [discriminate|].
    destruct (Hr Hne) as [t [Ht ->]].
    rewrite bind_load64, valid_test.
    pose proof (ext_lookup _ _ _ Hext a) as Hl.
    rewrite lookup_eq in Hl by apply Hwf1. rewrite Ht in Hl. cbv zeta in Hl.
    destruct (pte_valid (read64 (ram s1) (t + 8 * PX 0 a))); [discriminate|].
    congruence.
  - destruct (lookup (ram s) root a) as [v|] eqn:Ela.
    + unfold walk. destruct (Z.leb_spec MAXVA a); [unfold PGSIZE in *; lia|].
      destruct (walk_levels_alloc root a 1 ltac:(lia) 2%nat root s)
        as [r [s1 [Hrun [Hwf1 [Hext [Hr Hz]]]]]]; [lia | assumption | reflexivity |].
      rewrite (bind_Done _ _ _ _ _ Hrun).
      destruct (Z.eqb_spec r 0) as [|Hne]; [discriminate|].
      destruct (Hr Hne) as [t [Ht ->]].
      rewrite bind_load64, valid_test.
      pose proof (ext_lookup _ _ _ Hext a) as Hl. rewrite Ela in Hl.
      rewrite lookup_eq in Hl by apply Hwf1. rewrite Ht in Hl. cbv zeta in Hl.
      destruct (pte_valid (read64 (ram s1) (t + 8 * PX 0 a))); discriminate.
    + destruct (walk_for_map MAXVA root a s Hwf) as [[s1 [Hrun [Hwf1 [Hext Hfl]]]]
        | [s1 [t [Hrun [Hnz [Hwf1 [Hext [Ht Hinv]]]]]]]].
      { unfold PGSIZE in *. lia. }
      { assumption. }
      * rewrite (bind_Done _ _ _ _ _ Hrun). discriminate.
      * rewrite (bind_Done _ _ _ _ _ Hrun), Hnz, bind_load64, valid_test, Hinv.
        cbn [negb]. rewrite bind_store64.
        replace (a =? a + PGSIZE * Z.of_nat (S n)) with false
          by (symmetry; apply Z.eqb_neq; unfold PGSIZE; lia).
        rewrite (u64_small (a + PGSIZE)) by (unfold PGSIZE in *; lia).
        replace (a + PGSIZE * Z.of_nat (S n)) with (a + PGSIZE + PGSIZE * Z.of_nat n) by lia.
        apply IH.
        -- now apply store_leaf_wf.
        -- now apply page_succ_aligned.
        -- unfold PGSIZE in *; lia.
        -- unfold PGSIZE in *; lia.
        -- apply u64_range.
        -- assert (k <> 0).
           { intros ->. rewrite Z.mul_0_r, Z.add_0_r in Hmapped. contradiction. }
           exists (k - 1). split; [lia|]. cbn [ram].
           replace (a + PGSIZE + PGSIZE * (k - 1)) with (a + PGSIZE * k) by lia.
           rewrite write_leaf_other; [| apply Hwf1 | assumption |].
           ++ now rewrite (ext_lookup _ _ _ Hext).
           ++ replace a with (a + PGSIZE * 0) at 1 by lia.
              apply pages_differ; try assumption; unfold PGSIZE in *; lia.
Qed.

Lemma mappages_remap root va size pa perm s :
  wf s root -> 0 <= va -> 0 < size -> va + size <= MAXVA -> 0 <= pa < 2 ^ 64 ->
  (exists k, 0 <= k <= (va + size - 1) / PGSIZE - va / PGSIZE /\
     lookup (ram s) root (PGROUNDDOWN va + PGSIZE * k) <> None) ->
  forall s', mappages MAXVA root va size pa perm s <> Done 0 s'.
Proof.
  intros Hwf Hva Hsz Hmax Hpa Hmapped s'.
  destruct (range_pages va size Hva Hsz) as [n [Hn0 [Hlast Hn]]].
  rewrite <- Hn in Hmapped.
  unfold mappages. destruct (Z.eqb_spec size 0); [lia|].
  rewrite (u64_small (va + size - 1)) by lia. rewrite Hlast.
  pose proof (PGROUNDDOWN_bounds va) as Hb.
  pose proof (PGROUNDDOWN_bounds (va + size - 1)) as Hb'. rewrite Hlast in Hb'.
  assert (Ha0 : 0 <= PGROUNDDOWN va).
  { rewrite PGROUNDDOWN_eq. unfold PGSIZE.
    assert (0 <= va / 4096) by (apply Z.div_pos; lia). lia. }
  replace (PGROUNDDOWN va + PGSIZE * n) with (PGROUNDDOWN va + PGSIZE * Z.of_nat (Z.to_nat n))
    by (rewrite Z2Nat.id; lia).
  apply mappages_loop_remap; try assumption.
  - apply PGROUNDDOWN_aligned.
  - rewrite Z2Nat.id by lia. lia.
  - rewrite Z2Nat.id by lia. assumption.
Qed.

(** A successful [mappages] found its range unmapped. *)
Lemma mappages_success_unmapped root va size pa perm s s' :
  wf s root -> 0 <= va -> 0 < size -> va + size <= MAXVA -> 0 <= pa < 2 ^ 64 ->
  mappages MAXVA root va size pa perm s = Done 0 s' ->
  forall k, 0 <= k <= (va + size - 1) / PGSIZE - va / PGSIZE ->
    lookup (ram s) root (PGROUNDDOWN va + PGSIZE * k) = None.
Proof.
  intros Hwf Hva Hsz Hmax Hpa Hrun.
  destruct (range_pages va size Hva Hsz) as [n [Hn0 [_ Hn]]]. rewrite <- Hn.
  destruct (bounded_search
              (fun k => lookup (ram s) root (PGROUNDDOWN va + PGSIZE * k) = None)
              (Z.to_nat n)) as [Hall|[k [Hk Hm]]].
  - intros k. destruct (lookup (ram s) root (PGROUNDDOWN va + PGSIZE * k)); [right | left]; congruence.
  - intros k Hk. apply Hall. rewrite Z2Nat.id by lia. assumption.
  - exfalso. apply (mappages_remap root va size pa perm s Hwf Hva Hsz Hmax Hpa) with (s' := s');
      [|assumption].
    exists k. rewrite <- Hn. split; [rewrite Z2Nat.id in Hk by lia; lia | assumption].
Qed.

Lemma uvmunmap_spec root va npages do_free s :
  wf_tree (ram s) root -> page_aligned va -> 0 <= va -> 0 <= npages ->
  va + PGSIZE * npages <= MAXVA ->
  (forall k, 0 <= k < npages ->
     exists v, lookup (ram s) root (va + PGSIZE * k) = Some v /\ PTE_FLAGS v <> PTE_V) ->
  exists s',
    uvmunmap MAXVA root va npages do_free s = Done tt s' /\
    wf_tree (ram s') root /\
    (forall p, path_ok 2 p -> table_at (ram s') root p = table_at (ram s) root p) /\
    (forall k, 0 <= k < npages -> lookup (ram s') root (va + PGSIZE * k) = None) /\
    (forall va', (forall k, 0 <= k < npages -> ~ same_entry (va + PGSIZE * k) va') ->
       lookup (ram s') root va' = lookup (ram s) root va') /\
    freelist s' =
      (if do_free =? 0 then [] else rev (range_pas (ram s) root va (Z.to_nat npages)))
        ++ freelist s /\
    (forall x, (forall t, is_table (ram s) root t -> ~ in_page t x) -> ram s' x = ram s x).
Proof.
  intros Hwf Ha Hva Hn Hmax Hmapped. unfold uvmunmap.
  rewrite Ha. cbn [Z.eqb negb].
  rewrite (u64_small (va + npages * PGSIZE)) by (unfold PGSIZE in *; lia).
  replace (va + npages * PGSIZE) with (va + PGSIZE * Z.of_nat (Z.to_nat npages))
    by (rewrite Z2Nat.id; lia).
  destruct (uvmunmap_loop_spec MAXVA MAXVA_sv39 root do_free (Z.to_nat npages)
              (Z.to_nat npages) va s) as [s' H]; try assumption.
  - lia.
  - rewrite Z2Nat.id by lia. assumption.
  - rewrite Z2Nat.id by lia. assumption.
  - rewrite Z2Nat.id in H |- * by lia. exists s'. exact H.
Qed.

End Remap.

(** * The claims *)

(** ** C10 *)

(** C10: for every page table and every virtual address at or beyond
    [MAXVA], [walkaddr] returns 0 and leaves the state alone, where [walk]
    itself would panic. *)
Theorem walkaddr_beyond_maxva MAXVA pagetable va alloc s :
  MAXVA <= va ->
  walkaddr MAXVA pagetable va s = Done 0 s /\
  walk MAXVA pagetable va alloc s = Panic "walk".
Proof.
  intros H. unfold walkaddr, walk.
  destruct (Z.leb_spec MAXVA va); [split; reflexivity | lia].
Qed.

Lemma walkaddr_beyond_maxva_witness :
  walkaddr (2 ^ 38) 4096 (2 ^ 38) (boot []) = Done 0 (boot []) /\
  walk (2 ^ 38) 4096 (2 ^ 38) 0 (boot []) = Panic "walk".
Proof. apply (walkaddr_beyond_maxva (2 ^ 38) 4096 (2 ^ 38) 0 (boot [])). lia. Defined.

(** ** C9 *)

(** C9: with length 0, [copyout] and [copyin] return 0 for every page table
    and every address, and the state is the one they started from. *)
Theorem copy_nothing MAXVA pagetable va buf s :
  copyout MAXVA pagetable va buf 0 s = Done 0 s /\
  copyin MAXVA pagetable buf va 0 s = Done 0 s.
Proof. split; reflexivity. Qed.

(** ** C3 *)

Lemma u64_aligned x : page_aligned x -> page_aligned (u64 x).
Proof.
  unfold page_aligned, u64, PGSIZE. intros H.
  change (2 ^ 64) with (4096 * 2 ^ 52). rewrite Z.rem_mul_r by lia.
  rewrite H, Z.add_0_l, Z.mul_comm. apply Z.mod_mul. lia.
Qed.

(** C3: after a successful [mappages] whose permissions include [PTE_U],
    [walkaddr] on every page-aligned address of the range returns the
    physical address at the same offset from [pa]. *)
Theorem mappages_then_walkaddr MAXVA root va size pa perm s s' :
  MAXVA <= 2 ^ 39 -> wf s root ->
  0 <= va -> 0 < size -> va + size <= MAXVA ->
  0 <= pa < 2 ^ 64 -> page_aligned pa ->
  0 <= perm < 1024 -> Z.land perm PTE_U <> 0 ->
  mappages MAXVA root va size pa perm s = Done 0 s' ->
  forall a, page_aligned a -> PGROUNDDOWN va <= a < va + size ->
    walkaddr MAXVA root a s' = Done (u64 (pa + (a - PGROUNDDOWN va))) s'.
Proof.
  intros Hmaxva Hwf Hva Hsz Hmax Hpa Hpaa Hperm Huser Hrun a Ha Hrange.
  pose proof (mappages_success_unmapped MAXVA Hmaxva root va size pa perm s s'
                Hwf Hva Hsz Hmax Hpa Hrun) as Hfree.
  destruct (mappages_spec MAXVA Hmaxva root va size pa perm s Hwf Hva Hsz Hmax Hpa Hfree)
    as [r [s'' [j [Hrun' [Hwf' [Hgr [Hj [Hin [Hout Hres]]]]]]]]].
  rewrite Hrun in Hrun'. injection Hrun' as <- <-.
  destruct Hres as [[_ ->]|[Hr _]]; [|lia].
  set (k := a / PGSIZE - va / PGSIZE).
  assert (Hk : a = PGROUNDDOWN va + PGSIZE * k).
  { unfold k. rewrite PGROUNDDOWN_eq. apply page_aligned_mul in Ha. lia. }
  assert (Hk0 : 0 <= k < (va + size - 1) / PGSIZE - va / PGSIZE + 1).
  { unfold k. rewrite PGROUNDDOWN_eq in Hrange. unfold PGSIZE in *.
    apply page_aligned_mul in Ha. unfold PGSIZE in Ha.
    assert (a / 4096 <= (va + size - 1) / 4096) by (apply Z.div_le_mono; lia).
    assert (va / 4096 <= a / 4096) by lia. lia. }
  rewrite walkaddr_spec. unfold walkaddr_ro.
  destruct (Z.leb_spec MAXVA a); [lia|].
  rewrite Hk at 1. rewrite Hin by assumption.
  rewrite leaf_pte_user by (try apply u64_range; assumption).
  destruct (Z.eqb_spec (Z.land perm PTE_U) 0); [contradiction|].
  rewrite leaf_pte_pa; [| apply u64_range | | assumption].
  - do 3 f_equal. lia.
  - apply u64_aligned. now apply page_offset_aligned.
Qed.

Lemma mappages_then_walkaddr_witness :
  let s := boot [8192; 12288; 16384] in
  let s' := state_of (mappages (2 ^ 38) 4096 0 8192 (2 ^ 20) 18 s) s in
  walkaddr (2 ^ 38) 4096 4096 s' = Done (u64 (2 ^ 20 + (4096 - PGROUNDDOWN 0))) s'.
Proof.
  intros s s'.
  apply (mappages_then_walkaddr (2 ^ 38) 4096 0 8192 (2 ^ 20) 18 s s').
  - lia.
  - apply wf_boot. reflexivity.
  - lia.
  - lia.
  - lia.
  - lia.
  - reflexivity.
  - lia.
  - discriminate.
  - apply done_state. vm_compute. reflexivity.
  - reflexivity.
  - vm_compute. split; [discriminate | reflexivity].
Defined.

(** ** C2 *)

(** C2, as stated, fails: after installing one page in an empty table and
    removing it again, entry 0 of the root still links the level-1 table
    that [walk] allocated, where there was none before the install. *)
Lemma roundtrip_restores_counterexample :
  ~ roundtrip_restores (2 ^ 38) 4096 0 1 (2 ^ 20) 2 (boot [8192; 12288; 16384]).
Proof.
  intros H.
  set (s := boot [8192; 12288; 16384]) in *.
  set (s1 := state_of (mappages (2 ^ 38) 4096 0 (1 * PGSIZE) (2 ^ 20) 2 s) s).
  set (s2 := state_of (uvmunmap (2 ^ 38) 4096 0 1 1 s1) s).
  assert (H1 : mappages (2 ^ 38) 4096 0 (1 * PGSIZE) (2 ^ 20) 2 s = Done 0 s1)
    by (apply done_state; vm_compute; reflexivity).
  assert (H2 : uvmunmap (2 ^ 38) 4096 0 1 1 s1 = Done tt s2)
    by (apply done_state; vm_compute; reflexivity).
  specialize (H s1 s2 H1 H2 [0]).
  assert (Hp : path_ok 2 [0]).
  { split; [cbn; lia | constructor; [unfold index_ok; lia | constructor]]. }
  specialize (H Hp).
  assert (E0 : table_at (ram s) 4096 [0] = None) by (vm_compute; reflexivity).
  assert (E2 : table_at (ram s2) 4096 [0] = Some 8192) by (vm_compute; reflexivity).
  rewrite E0, E2 in H. discriminate H.
Qed.

(** C2, amended: installing a page-aligned range with [mappages] and removing
    it with [uvmunmap] (freeing the pages) leaves every entry of the range
    invalid and every translation as it was before the install; the
    page-table pages, those from before and those the install allocated,
    stay where they are. *)
Theorem install_remove_roundtrip MAXVA root va npages pa perm s s1 :
  MAXVA <= 2 ^ 39 -> wf s root ->
  page_aligned va -> 0 <= va -> 0 < npages -> va + npages * PGSIZE <= MAXVA ->
  0 <= pa < 2 ^ 64 -> 0 <= perm < 1024 -> Z.lor perm PTE_V <> PTE_V ->
  mappages MAXVA root va (npages * PGSIZE) pa perm s = Done 0 s1 ->
  exists s2,
    uvmunmap MAXVA root va npages 1 s1 = Done tt s2 /\
    (forall k, 0 <= k < npages -> lookup (ram s2) root (va + PGSIZE * k) = None) /\
    (forall va', lookup (ram s2) root va' = lookup (ram s) root va') /\
    (forall p, path_ok 2 p -> table_at (ram s2) root p = table_at (ram s1) root p) /\
    (forall p t, path_ok 2 p -> table_at (ram s) root p = Some t ->
                 table_at (ram s2) root p = Some t).
Proof.
  intros Hmaxva Hwf Ha Hva Hn Hmax Hpa Hperm Hleaf Hrun.
  assert (Hsz : 0 < npages * PGSIZE) by (unfold PGSIZE; lia).
  pose proof (mappages_success_unmapped MAXVA Hmaxva root va (npages * PGSIZE) pa perm s s1
                Hwf Hva Hsz Hmax Hpa Hrun) as Hfree.
  destruct (mappages_spec MAXVA Hmaxva root va (npages * PGSIZE) pa perm s
              Hwf Hva Hsz Hmax Hpa Hfree)
    as [r [s'' [j [Hrun' [Hwf' [Hgr [Hj [Hin [Hout Hres]]]]]]]]].
  rewrite Hrun in Hrun'. injection Hrun' as <- <-.
  destruct Hres as [[_ ->]|[Hr _]]; [|lia].
  rewrite (PGROUNDDOWN_id va Ha) in *.
  assert (Hcount : (va + npages * PGSIZE - 1) / PGSIZE - va / PGSIZE + 1 = npages).
  { apply page_aligned_mul in Ha. unfold PGSIZE in *.
    replace (va + npages * 4096 - 1) with ((va / 4096 + npages - 1) * 4096 + 4095) by lia.
    rewrite Z.div_add_l by lia. change (4095 / 4096) with 0. lia. }
  rewrite Hcount in *.
  destruct (uvmunmap_spec MAXVA Hmaxva root va npages 1 s1)
    as [s2 [Hrun2 [Hwf2 [Htabs [Hin2 [Hout2 _]]]]]]; try assumption; try lia.
  { apply Hwf'. }
  { intros k Hk. exists (leaf_pte (u64 (pa + PGSIZE * k)) perm).
    split; [now apply Hin|].
    rewrite leaf_pte_flags by (try apply u64_range; assumption). assumption. }
  exists s2. split; [assumption|]. split; [assumption|]. split; [|split].
  - intros va'.
    destruct (bounded_search (fun k => ~ same_entry (va + PGSIZE * k) va') (Z.to_nat (npages - 1)))
      as [Hall|[k [Hk Hsame]]].
    + intros k. destruct (same_entry_dec (va + PGSIZE * k) va'); [right | left]; tauto.
    + assert (Hall' : forall k, 0 <= k < npages -> ~ same_entry (va + PGSIZE * k) va').
      { intros k Hk. apply Hall. rewrite Z2Nat.id by lia. lia. }
      rewrite Hout2 by assumption. now apply Hout.
    + rewrite Z2Nat.id in Hk by lia.
      destruct (same_entry_dec (va + PGSIZE * k) va') as [Hs|]; [|contradiction].
      rewrite <- !(lookup_same_entry _ root _ _ Hs).
      rewrite Hin2 by lia. symmetry. apply Hfree. lia.
  - assumption.
  - intros p t Hp Ht. rewrite Htabs by assumption. now apply (gr_tables _ _ _ Hgr).
Qed.

Lemma install_remove_roundtrip_witness :
  let s := boot [8192; 12288; 16384] in
  let s1 := state_of (mappages (2 ^ 38) 4096 0 (2 * PGSIZE) (2 ^ 20) 2 s) s in
  exists s2,
    uvmunmap (2 ^ 38) 4096 0 2 1 s1 = Done tt s2 /\
    (forall k, 0 <= k < 2 -> lookup (ram s2) 4096 (0 + PGSIZE * k) = None) /\
    (forall va', lookup (ram s2) 4096 va' = lookup (ram s) 4096 va') /\
    (forall p, path_ok 2 p -> table_at (ram s2) 4096 p = table_at (ram s1) 4096 p) /\
    (forall p t, path_ok 2 p -> table_at (ram s) 4096 p = Some t ->
                 table_at (ram s2) 4096 p = Some t).
Proof.
  intros s s1.
  apply (install_remove_roundtrip (2 ^ 38) 4096 0 2 (2 ^ 20) 2 s s1).
  - lia.
  - apply wf_boot. reflexivity.
  - reflexivity.
  - lia.
  - lia.
  - vm_compute. discriminate.
  - lia.
  - lia.
  - discriminate.
  - apply done_state. vm_compute. reflexivity.
Defined.

(** ** What [walk] installs *)

(** The first link [walk] makes when the root entry is invalid. *)
Lemma walk_link_root root va s N fl :
  wf s root -> freelist s = N :: fl ->
  pte_valid (read64 (ram s) (root + 8 * PX 2 va)) = false ->
  link_pre (ram s) root [] root (PX 2 va) N.
Proof.
  intros [Hwt Hwf] Hfl Hinv.
  destruct (wf_free_pages _ _ _ Hwf N) as [Ha [Hr Hnt]]; [rewrite Hfl; now left|].
  split; try assumption.
  - apply path_ok_nil.
  - reflexivity.
  - apply PX_range.
Qed.

(** The link [walk] makes when the root entry is valid and the level-1
    entry is not. *)
Lemma walk_link_mid root va s N fl :
  wf s root -> freelist s = N :: fl ->
  pte_valid (read64 (ram s) (root + 8 * PX 2 va)) = true ->
  pte_valid (read64 (ram s) (PTE2PA (read64 (ram s) (root + 8 * PX 2 va)) + 8 * PX 1 va)) = false ->
  link_pre (ram s) root [PX 2 va] (PTE2PA (read64 (ram s) (root + 8 * PX 2 va))) (PX 1 va) N.
Proof.
  intros [Hwt Hwf] Hfl Hv Hinv.
  destruct (wf_free_pages _ _ _ Hwf N) as [Ha [Hr Hnt]]; [rewrite Hfl; now left|].
  split; try assumption.
  - apply path_ok_cons. split; [apply PX_range | apply path_ok_nil].
  - cbn [table_at]. now rewrite Hv.
  - apply PX_range.
Qed.

(** The second link, below a table that was linked just before. *)
Lemma walk_link_below root va s N N' fl :
  wf s root -> freelist s = N :: N' :: fl ->
  pte_valid (read64 (ram s) (root + 8 * PX 2 va)) = false ->
  link_pre (link_mem (ram s) root (PX 2 va) N) root [PX 2 va] N (PX 1 va) N'.
Proof.
  intros Hws Hfl Hinv. pose proof Hws as [Hwt Hwf].
  pose proof (walk_link_root root va s N (N' :: fl) Hws Hfl Hinv) as Hpre.
  destruct (wf_free_pages _ _ _ Hwf N') as [Ha [Hr Hnt]]; [rewrite Hfl; right; now left|].
  pose proof (wf_free_nodup _ _ _ Hwf) as Hnd. rewrite Hfl in Hnd.
  split.
  - apply (link_wf_tree _ _ _ _ _ _ Hpre).
  - apply path_ok_cons. split; [apply PX_range | apply path_ok_nil].
  - exact (link_table_new _ _ _ _ _ _ Hpre).
  - apply PX_range.
  - rewrite (link_fresh_zero _ _ _ _ _ _ _ Hpre) by apply PX_range. apply pte_valid_0.
  - assumption.
  - assumption.
  - rewrite (link_is_table _ _ _ _ _ _ _ Hpre). intros [->|H]; [|contradiction].
    inversion Hnd as [|? ? Hnin _]; subst. apply Hnin. now left.
Qed.

(** [walk] with allocation, run by hand: the final state in each case. *)
Lemma walk_alloc_exact MAXVA root va alloc s :
  wf s root -> va < MAXVA -> alloc <> 0 ->
  let e2 := read64 (ram s) (root + 8 * PX 2 va) in
  let e1 := read64 (ram s) (PTE2PA e2 + 8 * PX 1 va) in
  walk MAXVA root va alloc s =
    if pte_valid e2 then
      if pte_valid e1 then Done (PTE2PA e1 + 8 * PX 0 va) s
      else match freelist s with
           | [] => Done 0 s
           | N :: fl =>
               Done (N + 8 * PX 0 va) (mkState (link_mem (ram s) (PTE2PA e2) (PX 1 va) N) fl)
           end
    else match freelist s with
         | [] => Done 0 s
         | [N] => Done 0 (mkState (link_mem (ram s) root (PX 2 va) N) [])
         | N :: N' :: fl =>
             Done (N' + 8 * PX 0 va)
                  (mkState (link_mem (link_mem (ram s) root (PX 2 va) N) N (PX 1 va) N') fl)
         end.
Proof.
  intros Hws Hva Halloc e2 e1. pose proof Hws as [Hwt Hwf].
  unfold walk. destruct (Z.leb_spec MAXVA va); [lia|].
  cbn [walk_levels]. change (Z.of_nat 2) with 2. change (Z.of_nat 1) with 1.
  rewrite bind_load64, valid_test. fold e2.
  destruct (Z.eqb_spec alloc 0) as [|_]; [contradiction|].
  destruct (pte_valid e2) eqn:Hv2.
  - rewrite bind_load64, valid_test. fold e1.
    destruct (pte_valid e1) eqn:Hv1; [reflexivity|].
    destruct (freelist s) as [|N fl] eqn:Hfl.
    + rewrite bind_kalloc_nil by assumption. reflexivity.
    + rewrite (bind_kalloc_cons _ _ N fl) by assumption.
      destruct (wf_free_pages _ _ _ Hwf N) as [_ [Hr _]]; [now left|].
      destruct (Z.eqb_spec N 0); [lia|]. reflexivity.
  - destruct (freelist s) as [|N fl] eqn:Hfl.
    + rewrite bind_kalloc_nil by assumption. reflexivity.
    + rewrite (bind_kalloc_cons _ _ N fl) by assumption.
      destruct (wf_free_pages _ _ _ Hwf N) as [_ [Hr _]]; [now left|].
      destruct (Z.eqb_spec N 0); [lia|].
      rewrite bind_memset, bind_store64. cbn [ram freelist].
      fold (link_mem (ram s) root (PX 2 va) N).
      pose proof (walk_link_root root va s N fl Hws Hfl Hv2) as Hpre.
      rewrite bind_load64, valid_test. cbn [ram].
      rewrite (link_fresh_zero _ _ _ _ _ _ _ Hpre) by apply PX_range.
      rewrite pte_valid_0.
      destruct fl as [|N' fl'].
      * rewrite bind_kalloc_nil by reflexivity. reflexivity.
      * rewrite (bind_kalloc_cons _ _ N' fl') by reflexivity.
        destruct (wf_free_pages _ _ _ Hwf N') as [_ [Hr' _]]; [right; now left|].
        destruct (Z.eqb_spec N' 0); [lia|]. reflexivity.
Qed.

(** The flags of a link are the valid bit alone. *)
Lemma link_pte_flags p : 0 <= p < 2 ^ 64 -> PTE_FLAGS (Z.lor (PA2PTE p) PTE_V) = PTE_V.
Proof.
  intros Hp. rewrite link_pte_eq by lia. change PTE_V with 1. apply PTE_FLAGS_pte. lia.
Qed.

(** A link adds one table, at one place. *)
Lemma link_fresh m root p0 t i N p i' N0 :
  link_pre m root p0 t i N -> path_ok 1 p -> index_ok i' ->
  table_at m root (p ++ [i']) = None ->
  table_at (link_mem m t i N) root (p ++ [i']) = Some N0 ->
  p = p0 /\ i' = i /\ N0 = N.
Proof.
  intros Hpre Hp Hi' Hold Hnew.
  destruct (list_eq_dec Z.eq_dec (p ++ [i']) (p0 ++ [i])) as [E|Hne].
  - apply app_inj_tail in E. destruct E as [-> ->].
    rewrite (link_table_new _ _ _ _ _ _ Hpre) in Hnew. apply Some_inj in Hnew. auto.
  - rewrite (link_table_old _ _ _ _ _ _ _ Hpre) in Hnew; [congruence | | assumption].
    now apply path_ok_snoc.
Qed.

Lemma link_table_prefix m root p0 t i N :
  link_pre m root p0 t i N -> table_at (link_mem m t i N) root p0 = Some t.
Proof.
  intros Hpre. rewrite (link_table_old _ _ _ _ _ _ _ Hpre).
  - apply (lp_table _ _ _ _ _ _ Hpre).
  - eapply path_ok_weaken; [|apply (lp_path _ _ _ _ _ _ Hpre)]. lia.
  - intros E. apply (f_equal (@List.length Z)) in E. rewrite length_app in E. cbn in E. lia.
Qed.

(** ** C8 *)

(** C8: [walk] panics for every [va] at or beyond [MAXVA].  Below it, without
    allocation it descends level 2 then level 1 through valid entries and
    returns the null pointer at the first invalid one, else the address of
    the level-0 entry; with allocation, on a well-formed tree, it returns
    normally, links fresh pages from the free list without changing any
    translation, returns the address of the level-0 entry of [va] in the
    grown tree, and returns the null pointer only when the free list ran
    out.  Every table it adds lies on the path of [va], was the head of the
    free list, and is installed as an internal node: its entry in the table
    above is exactly the page number of the new page with the valid bit
    (no R, W, X or U), and the new page reads as zero, but for a link that
    the same call made below it.  The final state is given case by case:
    nothing changes when both upper entries are valid or no page is free,
    and else memory is the old one with each fresh page zeroed and
    linked. *)
Theorem walk_behaviour MAXVA root va alloc s :
  wf s root ->
  (MAXVA <= va -> walk MAXVA root va alloc s = Panic "walk") /\
  (va < MAXVA -> alloc = 0 ->
     let e2 := read64 (ram s) (root + 8 * PX 2 va) in
     let e1 := read64 (ram s) (PTE2PA e2 + 8 * PX 1 va) in
     walk MAXVA root va alloc s =
     Done (if pte_valid e2 then if pte_valid e1 then PTE2PA e1 + 8 * PX 0 va else 0 else 0) s) /\
  (va < MAXVA -> alloc <> 0 ->
     exists r s',
       walk MAXVA root va alloc s = Done r s' /\
       wf s' root /\ extends root s s' /\
       (r <> 0 -> r = walk_ro 2 (ram s') root va /\
                  exists t, table_at (ram s') root (vpath va) = Some t /\ r = t + 8 * PX 0 va) /\
       (r = 0 -> freelist s' = [] /\ (List.length (freelist s) < 2)%nat) /\
       (forall p i N, path_ok 1 p -> index_ok i ->
          table_at (ram s) root (p ++ [i]) = None ->
          table_at (ram s') root (p ++ [i]) = Some N ->
          p ++ [i] = firstn (S (List.length p)) (vpath va) /\
          In N (freelist s) /\ ~ In N (freelist s') /\
          exists t, table_at (ram s') root p = Some t /\
            read64 (ram s') (t + 8 * i) = Z.lor (PA2PTE N) PTE_V /\
            PTE_FLAGS (read64 (ram s') (t + 8 * i)) = PTE_V /\
            PTE2PA (read64 (ram s') (t + 8 * i)) = N /\
            (forall j, index_ok j ->
               read64 (ram s') (N + 8 * j) = 0 \/ (p = [] /\ j = PX 1 va /\ r <> 0))) /\
       (let e2 := read64 (ram s) (root + 8 * PX 2 va) in
        let e1 := read64 (ram s) (PTE2PA e2 + 8 * PX 1 va) in
        Done r s' =
          if pte_valid e2 then
            if pte_valid e1 then Done (PTE2PA e1 + 8 * PX 0 va) s
            else match freelist s with
                 | [] => Done 0 s
                 | N :: fl =>
                     Done (N + 8 * PX 0 va)
                          (mkState (write64 (mem_set (ram s) N 0 PGSIZE)
                                      (PTE2PA e2 + 8 * PX 1 va) (Z.lor (PA2PTE N) PTE_V)) fl)
                 end
          else match freelist s with
               | [] => Done 0 s
               | [N] =>
                   Done 0 (mkState (write64 (mem_set (ram s) N 0 PGSIZE)
                                      (root + 8 * PX 2 va) (Z.lor (PA2PTE N) PTE_V)) [])
               | N :: N' :: fl =>
                   Done (N' + 8 * PX 0 va)
                        (mkState
                           (write64
                              (mem_set
                                 (write64 (mem_set (ram s) N 0 PGSIZE)
                                    (root + 8 * PX 2 va) (Z.lor (PA2PTE N) PTE_V))
                                 N' 0 PGSIZE)
                              (N + 8 * PX 1 va) (Z.lor (PA2PTE N') PTE_V)) fl)
               end)).
Proof.
  intros Hwf. split; [|split].
  - intros H. unfold walk. destruct (Z.leb_spec MAXVA va); [reflexivity | lia].
  - intros H -> e2 e1. rewrite walk_ro_spec by assumption. reflexivity.
  - intros H Halloc.
    destruct (walk_levels_alloc root va alloc Halloc 2%nat root s)
      as [r [s' [Hrun [Hwf' [Hext [Hr Hz]]]]]]; [lia | assumption | reflexivity |].
    assert (Hwalk : walk MAXVA root va alloc s = Done r s').
    { unfold walk. destruct (Z.leb_spec MAXVA va); [lia | exact Hrun]. }
    pose proof (walk_alloc_exact MAXVA root va alloc s Hwf H Halloc) as Hex.
    cbv zeta in Hex. rewrite Hwalk in Hex.
    exists r, s'. split; [assumption|]. split; [assumption|]. split; [assumption|].
    split; [|split; [assumption|split; [|exact Hex]]].
    { intros Hne. destruct (Hr Hne) as [t [Ht ->]]. split; [|eauto].
      rewrite walk_ro_eq, Ht. reflexivity. }
    intros p i N0 Hp Hi Hold Hnew.
    pose proof (wf_free_nodup _ _ _ (proj2 Hwf)) as Hnd.
    destruct (pte_valid (read64 (ram s) (root + 8 * PX 2 va))) eqn:Hv2.
    + destruct (pte_valid (read64 (ram s)
                  (PTE2PA (read64 (ram s) (root + 8 * PX 2 va)) + 8 * PX 1 va))) eqn:Hv1.
      { apply Done_inj in Hex. destruct Hex as [_ ->]. congruence. }
      destruct (freelist s) as [|N fl] eqn:Hfl.
      { apply Done_inj in Hex. destruct Hex as [_ ->]. congruence. }
      pose proof (walk_link_mid root va s N fl Hwf Hfl Hv2 Hv1) as Hpre.
      apply Done_inj in Hex. destruct Hex as [-> ->]. cbn [ram freelist] in *.
      fold (link_mem (ram s) (PTE2PA (read64 (ram s) (root + 8 * PX 2 va))) (PX 1 va) N)
        in Hnew |- *.
      destruct (link_fresh _ _ _ _ _ _ _ _ _ Hpre Hp Hi Hold Hnew) as [-> [-> ->]].
      split; [reflexivity|]. split; [now left|].
      split; [now inversion Hnd|].
      exists (PTE2PA (read64 (ram s) (root + 8 * PX 2 va))).
      split; [exact (link_table_prefix _ _ _ _ _ _ Hpre)|].
      rewrite (link_new_slot _ _ _ _ _ _ Hpre).
      pose proof (lp_range _ _ _ _ _ _ Hpre) as HNr.
      split; [reflexivity|]. split; [apply link_pte_flags; lia|].
      split; [apply link_pte_pa; [lia | exact (lp_aligned _ _ _ _ _ _ Hpre)]|].
      intros j Hj. left. exact (link_fresh_zero _ _ _ _ _ _ _ Hpre Hj).
    + destruct (freelist s) as [|N [|N' fl]] eqn:Hfl.
      { apply Done_inj in Hex. destruct Hex as [_ ->]. congruence. }
      * pose proof (walk_link_root root va s N [] Hwf Hfl Hv2) as Hpre.
        apply Done_inj in Hex. destruct Hex as [-> ->]. cbn [ram freelist] in *.
        fold (link_mem (ram s) root (PX 2 va) N) in Hnew |- *.
        destruct (link_fresh _ _ _ _ _ _ _ _ _ Hpre Hp Hi Hold Hnew) as [-> [-> ->]].
        split; [reflexivity|]. split; [now left|]. split; [intros []|].
        exists root. split; [reflexivity|].
        rewrite (link_new_slot _ _ _ _ _ _ Hpre).
        pose proof (lp_range _ _ _ _ _ _ Hpre) as HNr.
        split; [reflexivity|]. split; [apply link_pte_flags; lia|].
        split; [apply link_pte_pa; [lia | exact (lp_aligned _ _ _ _ _ _ Hpre)]|].
        intros j Hj. left. exact (link_fresh_zero _ _ _ _ _ _ _ Hpre Hj).
      * pose proof (walk_link_root root va s N (N' :: fl) Hwf Hfl Hv2) as Hpre1.
        pose proof (walk_link_below root va s N N' fl Hwf Hfl Hv2) as Hpre2.
        apply Done_inj in Hex. destruct Hex as [-> ->]. cbn [ram freelist] in *.
        fold (link_mem (ram s) root (PX 2 va) N) in Hnew, Hpre2 |- *.
        fold (link_mem (link_mem (ram s) root (PX 2 va) N) N (PX 1 va) N') in Hnew |- *.
        pose proof (lp_range _ _ _ _ _ _ Hpre1) as HNr.
        pose proof (lp_range _ _ _ _ _ _ Hpre2) as HNr'.
        inversion Hnd as [|? ? Hnin Hnd']; subst.
        inversion Hnd' as [|? ? Hnin' _]; subst.
        destruct (table_at (link_mem (ram s) root (PX 2 va) N) root (p ++ [i])) as [X|] eqn:E1.
        -- destruct (link_fresh _ _ _ _ _ _ _ _ _ Hpre1 Hp Hi Hold E1) as [-> [-> ->]].
           cbn [app] in Hnew.
           rewrite (link_table_prefix _ _ _ _ _ _ Hpre2) in Hnew. apply Some_inj in Hnew.
           subst N0.
           split; [reflexivity|]. split; [now left|].
           split; [intros Hin; apply Hnin; now right|].
           exists root. split; [reflexivity|].
           rewrite (link_other_slot _ _ _ _ _ _ [] root (PX 2 va) Hpre2);
             [| apply path_ok_nil | reflexivity | apply PX_range | left; discriminate].
           rewrite (link_new_slot _ _ _ _ _ _ Hpre1).
           split; [reflexivity|]. split; [apply link_pte_flags; lia|].
           split; [apply link_pte_pa; [lia | exact (lp_aligned _ _ _ _ _ _ Hpre1)]|].
           intros j Hj. destruct (Z.eq_dec j (PX 1 va)) as [->|Hne].
           ++ right. split; [reflexivity|]. split; [reflexivity|].
              pose proof (PX_range 0 va) as H0. unfold index_ok in H0. lia.
           ++ left.
              rewrite (link_other_slot _ _ _ _ _ _ [PX 2 va] N j Hpre2);
                [| eapply path_ok_weaken; [|apply (lp_path _ _ _ _ _ _ Hpre2)]; lia
                 | exact (lp_table _ _ _ _ _ _ Hpre2)
                 | assumption | right; assumption].
              exact (link_fresh_zero _ _ _ _ _ _ _ Hpre1 Hj).
        -- destruct (link_fresh _ _ _ _ _ _ _ _ _ Hpre2 Hp Hi E1 Hnew) as [-> [-> ->]].
           split; [reflexivity|]. split; [right; now left|].
           split; [assumption|].
           exists N. split; [exact (link_table_prefix _ _ _ _ _ _ Hpre2)|].
           rewrite (link_new_slot _ _ _ _ _ _ Hpre2).
           split; [reflexivity|]. split; [apply link_pte_flags; lia|].
           split; [apply link_pte_pa; [lia | exact (lp_aligned _ _ _ _ _ _ Hpre2)]|].
           intros j Hj. left. exact (link_fresh_zero _ _ _ _ _ _ _ Hpre2 Hj).
Qed.

Lemma walk_behaviour_witness :
  let s := boot [8192; 12288] in
  ((2 ^ 38) <= 0 -> walk (2 ^ 38) 4096 0 1 s = Panic "walk") /\
  (0 < (2 ^ 38) -> 1 = 0 ->
     let e2 := read64 (ram s) (4096 + 8 * PX 2 0) in
     let e1 := read64 (ram s) (PTE2PA e2 + 8 * PX 1 0) in
     walk (2 ^ 38) 4096 0 1 s =
     Done (if pte_valid e2 then if pte_valid e1 then PTE2PA e1 + 8 * PX 0 0 else 0 else 0) s) /\
  (0 < (2 ^ 38) -> 1 <> 0 ->
     exists r s',
       walk (2 ^ 38) 4096 0 1 s = Done r s' /\
       wf s' 4096 /\ extends 4096 s s' /\
       (r <> 0 -> r = walk_ro 2 (ram s') 4096 0 /\
                  exists t, table_at (ram s') 4096 (vpath 0) = Some t /\ r = t + 8 * PX 0 0) /\
       (r = 0 -> freelist s' = [] /\ (List.length (freelist s) < 2)%nat) /\
       (forall p i N, path_ok 1 p -> index_ok i ->
          table_at (ram s) 4096 (p ++ [i]) = None ->
          table_at (ram s') 4096 (p ++ [i]) = Some N ->
          p ++ [i] = firstn (S (List.length p)) (vpath 0) /\
          In N (freelist s) /\ ~ In N (freelist s') /\
          exists t, table_at (ram s') 4096 p = Some t /\
            read64 (ram s') (t + 8 * i) = Z.lor (PA2PTE N) PTE_V /\
            PTE_FLAGS (read64 (ram s') (t + 8 * i)) = PTE_V /\
            PTE2PA (read64 (ram s') (t + 8 * i)) = N /\
            (forall j, index_ok j ->
               read64 (ram s') (N + 8 * j) = 0 \/ (p = [] /\ j = PX 1 0 /\ r <> 0))) /\
       (let e2 := read64 (ram s) (4096 + 8 * PX 2 0) in
        let e1 := read64 (ram s) (PTE2PA e2 + 8 * PX 1 0) in
        Done r s' =
          if pte_valid e2 then
            if pte_valid e1 then Done (PTE2PA e1 + 8 * PX 0 0) s
            else match freelist s with
                 | [] => Done 0 s
                 | N :: fl =>
                     Done (N + 8 * PX 0 0)
                          (mkState (write64 (mem_set (ram s) N 0 PGSIZE)
                                      (PTE2PA e2 + 8 * PX 1 0) (Z.lor (PA2PTE N) PTE_V)) fl)
                 end
          else match freelist s with
               | [] => Done 0 s
               | [N] =>
                   Done 0 (mkState (write64 (mem_set (ram s) N 0 PGSIZE)
                                      (4096 + 8 * PX 2 0) (Z.lor (PA2PTE N) PTE_V)) [])
               | N :: N' :: fl =>
                   Done (N' + 8 * PX 0 0)
                        (mkState
                           (write64
                              (mem_set
                                 (write64 (mem_set (ram s) N 0 PGSIZE)
                                    (4096 + 8 * PX 2 0) (Z.lor (PA2PTE N) PTE_V))
                                 N' 0 PGSIZE)
                              (N + 8 * PX 1 0) (Z.lor (PA2PTE N') PTE_V)) fl)
               end)).
Proof.
  intros s. apply (walk_behaviour (2 ^ 38) 4096 0 1 s).
  apply wf_boot. reflexivity.
Defined.

(** * Further properties of the code *)

(** ** Memory outside the page tables does not matter to translation *)

Lemma tables_agree_table_at m m' root :
  wf_tree m root -> tables_agree m m' root ->
  forall p, path_ok 2 p -> table_at m' root p = table_at m root p.
Proof.
  intros Hwf Hag p Hp. apply table_at_frame with (k := 1%nat); [|assumption].
  intros q t i Hq Ht Hi. apply read64_ext. intros x Hx.
  apply (Hag t x).
  - exists q. split; [eapply path_ok_weaken; [|eassumption]; lia | assumption].
  - eapply slot_in_page; eassumption.
Qed.

Lemma tables_agree_wf m m' root :
  wf_tree m root -> tables_agree m m' root -> wf_tree m' root.
Proof.
  intros Hwf Hag. apply wf_tree_ext with (m := m); [|assumption].
  now apply tables_agree_table_at.
Qed.

Lemma tables_agree_lookup m m' root va :
  wf_tree m root -> tables_agree m m' root ->
  lookup m' root va = lookup m root va.
Proof.
  intros Hwf Hag.
  rewrite !lookup_eq by (first [eassumption | eapply tables_agree_wf; eassumption]).
  rewrite (tables_agree_table_at m m' root Hwf Hag) by apply vpath_ok.
  destruct (table_at m root (vpath va)) as [t|] eqn:Et; [|reflexivity].
  cbv zeta. replace (read64 m' (t + 8 * PX 0 va)) with (read64 m (t + 8 * PX 0 va));
    [reflexivity|].
  symmetry. apply read64_ext. intros x Hx. apply (Hag t x).
  - exists (vpath va). split; [apply vpath_ok | assumption].
  - eapply slot_in_page; [apply PX_range | eassumption].
Qed.

Lemma tables_agree_is_table m m' root t :
  wf_tree m root -> tables_agree m m' root ->
  is_table m' root t <-> is_table m root t.
Proof.
  intros Hwf Hag. apply is_table_ext. now apply tables_agree_table_at.
Qed.

Lemma tables_agree_refl m root : tables_agree m m root.
Proof. intros t x _ _. reflexivity. Qed.

Lemma tables_agree_trans m1 m2 m3 root :
  wf_tree m1 root -> tables_agree m1 m2 root -> tables_agree m2 m3 root ->
  tables_agree m1 m3 root.
Proof.
  intros Hwf H12 H23 t x Ht Hx. rewrite (H23 t x); [exact (H12 t x Ht Hx) | | assumption].
  now apply (tables_agree_is_table m1 m2 root t Hwf H12).
Qed.

(** ** [walk] on a path that exists *)

Lemma walk_levels_existing level : forall pt va alloc s,
  walk_ro level (ram s) pt va <> 0 ->
  walk_levels level pt va alloc s = Done (walk_ro level (ram s) pt va) s.
Proof.
  induction level as [|l IH]; intros pt va alloc s H; [reflexivity|].
  cbn [walk_levels walk_ro] in *. rewrite bind_load64, valid_test.
  destruct (pte_valid (read64 (ram s) (pt + 8 * PX (Z.of_nat (S l)) va)));
    [now apply IH | congruence].
Qed.

(** X1: [mappages] never overwrites a mapping: when the first page of the
    range already has a valid entry it panics with "mappages: remap",
    whatever the allocator holds. *)
Theorem mappages_remap_panics MAXVA root va size pa perm s v :
  size <> 0 -> PGROUNDDOWN va < MAXVA ->
  lookup (ram s) root (PGROUNDDOWN va) = Some v ->
  mappages MAXVA root va size pa perm s = Panic "mappages: remap".
Proof.
  intros Hsz Hmax Hv. unfold mappages.
  destruct (Z.eqb_spec size 0); [contradiction|].
  cbn [mappages_loop]. unfold walk.
  destruct (Z.leb_spec MAXVA (PGROUNDDOWN va)); [lia|].
  destruct (lookup_Some _ _ _ _ Hv) as [Hnz [Hrd Hvalid]].
  rewrite (bind_Done _ _ _ _ _ (walk_levels_existing 2 root (PGROUNDDOWN va) 1 s
                                  ltac:(now apply Z.eqb_neq))).
  rewrite Hnz, bind_load64, Hrd, valid_test, Hvalid. reflexivity.
Qed.

Lemma mappages_remap_panics_witness :
  let s := state_of (mappages (2 ^ 38) 4096 0 4096 (2 ^ 20) 6
                       (boot [8192; 12288])) (boot []) in
  mappages (2 ^ 38) 4096 100 4096 (2 ^ 21) 2 s = Panic "mappages: remap".
Proof.
  intros s.
  apply (mappages_remap_panics (2 ^ 38) 4096 100 4096 (2 ^ 21) 2 s 262151).
  - discriminate.
  - vm_compute. reflexivity.
  - vm_compute. reflexivity.
Defined.

(** X2: [uvmunmap] insists on mapped leaves: when the first page of a
    non-empty range has no valid entry it panics ("uvmunmap: walk" when the
    level-0 table is missing, "uvmunmap: not mapped" otherwise), and when the
    entry is valid with no flag besides [PTE_V] it panics with "uvmunmap: not
    a leaf". *)
Theorem uvmunmap_requires_leaf MAXVA root va npages do_free s :
  page_aligned va -> 0 <= va < MAXVA -> 0 < npages ->
  va + npages * PGSIZE < 2 ^ 64 ->
  (lookup (ram s) root va = None ->
     uvmunmap MAXVA root va npages do_free s = Panic "uvmunmap: walk" \/
     uvmunmap MAXVA root va npages do_free s = Panic "uvmunmap: not mapped") /\
  (forall v, lookup (ram s) root va = Some v -> PTE_FLAGS v = PTE_V ->
     uvmunmap MAXVA root va npages do_free s = Panic "uvmunmap: not a leaf").
Proof.
  intros Ha Hva Hn Hbound.
  assert (Hstart : uvmunmap MAXVA root va npages do_free s =
    bind (walk MAXVA root va 0) (fun pte =>
      if pte =? 0 then panic "uvmunmap: walk"
      else bind (load64 pte) (fun v =>
        if Z.land v PTE_V =? 0 then panic "uvmunmap: not mapped"
        else if PTE_FLAGS v =? PTE_V then panic "uvmunmap: not a leaf"
        else bind (if negb (do_free =? 0) then kfree (PTE2PA v) else ret tt) (fun _ =>
             bind (store64 pte 0) (fun _ =>
             uvmunmap_loop MAXVA (Nat.pred (Z.to_nat npages)) root (u64 (va + PGSIZE))
               (u64 (va + npages * PGSIZE)) do_free)))) s).
  { unfold uvmunmap. rewrite Ha. cbn [Z.eqb negb].
    destruct (Z.to_nat npages) as [|f] eqn:Ef; [lia|].
    cbn [uvmunmap_loop Nat.pred].
    rewrite (u64_small (va + npages * PGSIZE)) by (unfold PGSIZE in *; lia).
    replace (va <? va + npages * PGSIZE) with true
      by (symmetry; apply Z.ltb_lt; unfold PGSIZE; lia).
    reflexivity. }
  rewrite Hstart. rewrite bind_walk_ro by lia. split.
  - intros Hnone. unfold lookup in Hnone.
    destruct (walk_ro 2 (ram s) root va =? 0); [now left|].
    rewrite bind_load64, invalid_test.
    destruct (pte_valid (read64 (ram s) (walk_ro 2 (ram s) root va))); [discriminate Hnone|].
    now right.
  - intros v Hv Hflags.
    destruct (lookup_Some _ _ _ _ Hv) as [Hnz [Hrd Hvalid]].
    rewrite Hnz, bind_load64, Hrd, invalid_test, Hvalid. cbn [negb].
    rewrite Hflags, Z.eqb_refl. reflexivity.
Qed.

Lemma uvmunmap_requires_leaf_witness :
  (lookup (ram (boot [])) 4096 0 = None ->
     uvmunmap (2 ^ 38) 4096 0 1 1 (boot []) = Panic "uvmunmap: walk" \/
     uvmunmap (2 ^ 38) 4096 0 1 1 (boot []) = Panic "uvmunmap: not mapped") /\
  (forall v, lookup (ram (boot [])) 4096 0 = Some v -> PTE_FLAGS v = PTE_V ->
     uvmunmap (2 ^ 38) 4096 0 1 1 (boot []) = Panic "uvmunmap: not a leaf").
Proof.
  apply (uvmunmap_requires_leaf (2 ^ 38) 4096 0 1 1 (boot [])).
  - reflexivity.
  - lia.
  - lia.
  - vm_compute. reflexivity.
Defined.

(** X3: [walkaddr] never panics and never changes the state, for any table
    and any address; a non-zero result is the page of a valid entry that
    carries [PTE_U], at an address below [MAXVA]. *)
Theorem walkaddr_total MAXVA root va s :
  exists r,
    walkaddr MAXVA root va s = Done r s /\
    page_aligned r /\
    (r <> 0 -> va < MAXVA /\
       exists v, lookup (ram s) root va = Some v /\
                 Z.land v PTE_U <> 0 /\ r = PTE2PA v).
Proof.
  exists (walkaddr_ro MAXVA (ram s) root va). split; [apply walkaddr_spec|].
  unfold walkaddr_ro. destruct (Z.leb_spec MAXVA va).
  - split; [reflexivity | congruence].
  - destruct (lookup (ram s) root va) as [v|]; [|split; [reflexivity | congruence]].
    destruct (Z.eqb_spec (Z.land v PTE_U) 0).
    + split; [reflexivity | congruence].
    + split; [apply PTE2PA_aligned|]. intros _. split; [assumption|]. exists v. auto.
Qed.

(** ** [uvmcreate] *)

(** X4: [uvmcreate] returns the null pointer and changes nothing when the
    allocator is exhausted; otherwise it takes the first free page, zeroes
    it and returns it as a well-formed table in which no address is mapped
    and whose only page-table page is the root, leaving all other memory
    alone. *)
Theorem uvmcreate_empty_table s :
  (freelist s = [] -> uvmcreate s = Done 0 s) /\
  (forall p fl, freelist s = p :: fl -> page_aligned p -> 0 < p < 2 ^ 64 ->
     exists s',
       uvmcreate s = Done p s' /\ freelist s' = fl /\
       wf_tree (ram s') p /\
       (forall va, lookup (ram s') p va = None) /\
       (forall t, is_table (ram s') p t -> t = p) /\
       (forall x, ~ in_page p x -> ram s' x = ram s x)).
Proof.
  split.
  - intros Hfl. unfold uvmcreate. rewrite bind_kalloc_nil by assumption. reflexivity.
  - intros p fl Hfl Ha Hr. unfold uvmcreate.
    rewrite (bind_kalloc_cons _ _ p fl) by assumption.
    destruct (Z.eqb_spec p 0); [lia|]. rewrite bind_memset. cbn [ram freelist].
    set (m' := mem_set (ram s) p 0 PGSIZE).
    assert (Hz : forall i, index_ok i -> read64 m' (p + 8 * i) = 0).
    { intros i Hi. apply read64_mem_set_zero; unfold index_ok, PGSIZE in *; lia. }
    assert (Hwf : wf_tree m' p) by now apply wf_tree_zero.
    exists (mkState m' fl). split; [reflexivity|]. split; [reflexivity|].
    cbn [ram]. split; [assumption|]. split; [|split].
    + intros va. rewrite lookup_eq by assumption. unfold vpath. cbn [table_at].
      rewrite Hz by apply PX_range. reflexivity.
    + intros t Ht. now apply (is_table_zero m' p t Hz).
    + intros x Hx. apply mem_set_other. unfold in_page in Hx. lia.
Qed.

Lemma uvmcreate_empty_table_witness :
  (freelist (boot [4096; 8192]) = [] ->
     uvmcreate (boot [4096; 8192]) = Done 0 (boot [4096; 8192])) /\
  (forall p fl, freelist (boot [4096; 8192]) = p :: fl -> page_aligned p -> 0 < p < 2 ^ 64 ->
     exists s',
       uvmcreate (boot [4096; 8192]) = Done p s' /\ freelist s' = fl /\
       wf_tree (ram s') p /\
       (forall va, lookup (ram s') p va = None) /\
       (forall t, is_table (ram s') p t -> t = p) /\
       (forall x, ~ in_page p x -> ram s' x = ram (boot [4096; 8192]) x)).
Proof. exact (uvmcreate_empty_table (boot [4096; 8192])). Defined.

(** ** [kvmmap] *)

Section Kvmmap.

Variable MAXVA : Z.
Hypothesis MAXVA_sv39 : MAXVA <= 2 ^ 39.

(** X5: [kvmmap] never returns with a partial mapping: whenever it returns,
    every page of the range translates to its page of [pa] with the given
    permissions, every translation outside the range is kept and the state
    is well formed; when [mappages] reports failure it panics with
    "kvmmap". *)
Theorem kvmmap_all_or_panic root va pa sz perm s :
  wf s root -> 0 <= va -> 0 < sz -> va + sz <= MAXVA -> 0 <= pa < 2 ^ 64 ->
  (forall r s1, mappages MAXVA root va sz pa perm s = Done r s1 -> r <> 0 ->
     kvmmap MAXVA root va pa sz perm s = Panic "kvmmap") /\
  (forall s', kvmmap MAXVA root va pa sz perm s = Done tt s' ->
     wf s' root /\
     (forall k, 0 <= k <= (va + sz - 1) / PGSIZE - va / PGSIZE ->
        lookup (ram s') root (PGROUNDDOWN va + PGSIZE * k)
        = Some (leaf_pte (u64 (pa + PGSIZE * k)) perm)) /\
     (forall va', (forall k, 0 <= k <= (va + sz - 1) / PGSIZE - va / PGSIZE ->
                     ~ same_entry (PGROUNDDOWN va + PGSIZE * k) va') ->
        lookup (ram s') root va' = lookup (ram s) root va')).
Proof.
  intros Hwf Hva Hsz Hmax Hpa. split.
  - intros r s1 Hrun Hr. unfold kvmmap. rewrite (bind_Done _ _ _ _ _ Hrun).
    destruct (Z.eqb_spec r 0); [contradiction | reflexivity].
  - intros s' Hk. unfold kvmmap, bind in Hk.
    destruct (mappages MAXVA root va sz pa perm s) as [r s1| |] eqn:Hrun;
      [|discriminate Hk|discriminate Hk].
    destruct (Z.eqb_spec r 0) as [->|]; [|discriminate Hk].
    cbn [negb] in Hk. unfold ret in Hk. assert (s1 = s') by congruence. subst s1.
    pose proof (mappages_success_unmapped MAXVA MAXVA_sv39 root va sz pa perm s s'
                  Hwf Hva Hsz Hmax Hpa Hrun) as Hfree.
    destruct (mappages_spec MAXVA MAXVA_sv39 root va sz pa perm s Hwf Hva Hsz Hmax Hpa Hfree)
      as [r [s'' [j [Hrun' [Hwf' [Hgr [Hj [Hin [Hout Hres]]]]]]]]].
    rewrite Hrun in Hrun'. assert (r = 0 /\ s'' = s') as [-> ->].
    { split; congruence. }
    destruct Hres as [[_ ->]|[Hr _]]; [|lia].
    split; [assumption|]. split.
    + intros k Hk'. apply Hin. lia.
    + intros va' Hva'. apply Hout. intros k Hk'. apply Hva'. lia.
Qed.

End Kvmmap.

Lemma kvmmap_all_or_panic_witness :
  let s := boot [8192; 12288] in
  (forall r s1, mappages (2 ^ 38) 4096 0 4096 (2 ^ 20) 6 s = Done r s1 -> r <> 0 ->
     kvmmap (2 ^ 38) 4096 0 (2 ^ 20) 4096 6 s = Panic "kvmmap") /\
  (forall s', kvmmap (2 ^ 38) 4096 0 (2 ^ 20) 4096 6 s = Done tt s' ->
     wf s' 4096 /\
     (forall k, 0 <= k <= (0 + 4096 - 1) / PGSIZE - 0 / PGSIZE ->
        lookup (ram s') 4096 (PGROUNDDOWN 0 + PGSIZE * k)
        = Some (leaf_pte (u64 (2 ^ 20 + PGSIZE * k)) 6)) /\
     (forall va', (forall k, 0 <= k <= (0 + 4096 - 1) / PGSIZE - 0 / PGSIZE ->
                     ~ same_entry (PGROUNDDOWN 0 + PGSIZE * k) va') ->
        lookup (ram s') 4096 va' = lookup (ram s) 4096 va')).
Proof.
  intros s. apply (kvmmap_all_or_panic (2 ^ 38) ltac:(lia) 4096 0 (2 ^ 20) 4096 6 s).
  - apply wf_boot. reflexivity.
  - lia.
  - lia.
  - lia.
  - lia.
Defined.

(** ** [uvmclear] *)

Lemma clear_user_bits v n :
  0 <= v < 2 ^ 64 -> 0 <= n ->
  Z.testbit (Z.land v (u64 (Z.lnot PTE_U))) n = Z.testbit v n && negb (n =? 4).
Proof.
  intros Hv Hn. rewrite Z.land_spec.
  change (u64 (Z.lnot PTE_U)) with (Z.ldiff (Z.ones 64) (2 ^ 4)).
  rewrite Z.ldiff_spec.
  destruct (Z.ltb_spec n 64).
  - rewrite Z.ones_spec_low by lia. cbn [andb].
    destruct (Z.eqb_spec n 4) as [->|Hne].
    + rewrite Z.pow2_bits_true by lia. reflexivity.
    + rewrite Z.pow2_bits_false by lia. reflexivity.
  - rewrite Z.ones_spec_high by lia. cbn [andb]. rewrite andb_false_r.
    replace (Z.testbit v n) with false; [reflexivity|].
    symmetry. destruct (Z.eq_dec v 0) as [->|]; [apply Z.bits_0|].
    apply Z.bits_above_log2; [lia|].
    assert (Z.log2 v < 64) by (apply Z.log2_lt_pow2; lia). lia.
Qed.

Lemma clear_user_range v :
  0 <= v < 2 ^ 64 -> 0 <= Z.land v (u64 (Z.lnot PTE_U)) < 2 ^ 64.
Proof.
  intros Hv. assert (H0 : 0 <= Z.land v (u64 (Z.lnot PTE_U))) by (apply Z.land_nonneg; lia).
  split; [assumption|].
  destruct (Z.eq_dec (Z.land v (u64 (Z.lnot PTE_U))) 0) as [->|Hne]; [lia|].
  assert (Hpos : 0 < Z.land v (u64 (Z.lnot PTE_U))) by lia.
  apply (proj2 (Z.log2_lt_pow2 _ _ Hpos)).
  pose proof (Z.log2_land v (u64 (Z.lnot PTE_U)) ltac:(lia) ltac:(vm_compute; discriminate)) as Hl.
  change (Z.log2 (u64 (Z.lnot PTE_U))) with 63 in Hl. lia.
Qed.

Lemma clear_user_pa v :
  0 <= v < 2 ^ 64 -> PTE2PA (Z.land v (u64 (Z.lnot PTE_U))) = PTE2PA v.
Proof.
  intros Hv. unfold PTE2PA. do 2 f_equal.
  apply Z.bits_inj'. intros n Hn. rewrite !Z.shiftr_spec by lia.
  rewrite clear_user_bits by lia.
  destruct (Z.eqb_spec (n + 10) 4); [lia|]. apply andb_true_r.
Qed.

(** X6: [uvmclear] turns a mapped page into a guard page: the entry stays
    valid and keeps its physical page and every flag except [PTE_U], after
    which [walkaddr] returns 0 for the address; no other translation and no
    free page changes.  Without a level-0 table for the address it panics
    with "uvmclear". *)
Theorem uvmclear_guard MAXVA root va s :
  wf_tree (ram s) root -> va < MAXVA ->
  (walk_ro 2 (ram s) root va = 0 -> uvmclear MAXVA root va s = Panic "uvmclear") /\
  (forall v, lookup (ram s) root va = Some v ->
     exists s' v',
       uvmclear MAXVA root va s = Done tt s' /\
       lookup (ram s') root va = Some v' /\
       PTE2PA v' = PTE2PA v /\
       (forall n, 0 <= n -> Z.testbit v' n = Z.testbit v n && negb (n =? 4)) /\
       walkaddr MAXVA root va s' = Done 0 s' /\
       (forall va', ~ same_entry va va' ->
          lookup (ram s') root va' = lookup (ram s) root va') /\
       freelist s' = freelist s).
Proof.
  intros Hwf Hva. unfold uvmclear. rewrite bind_walk_ro by assumption. split.
  - intros ->. reflexivity.
  - intros v Hv. destruct (lookup_Some _ _ _ _ Hv) as [Hnz [Hrd Hvalid]].
    rewrite Hnz, bind_load64, Hrd.
    assert (Hvr : 0 <= v < 2 ^ 64) by (rewrite <- Hrd; apply read64_range).
    set (v' := Z.land v (u64 (Z.lnot PTE_U))).
    assert (Htab : exists t, table_at (ram s) root (vpath va) = Some t /\
                             walk_ro 2 (ram s) root va = t + 8 * PX 0 va).
    { rewrite walk_ro_eq in Hnz |- *.
      destruct (table_at (ram s) root (vpath va)) as [t|]; [eauto | discriminate Hnz]. }
    destruct Htab as [t [Ht Hslot]]. rewrite Hslot.
    set (s' := mkState (write64 (ram s) (t + 8 * PX 0 va) v') (freelist s)).
    assert (Hv'valid : pte_valid v' = true).
    { rewrite pte_valid_testbit. unfold v'. rewrite clear_user_bits by lia.
      rewrite <- pte_valid_testbit, Hvalid. reflexivity. }
    assert (Hlk : lookup (ram s') root va = Some v').
    { unfold s'; cbn [ram]. rewrite write_leaf_same by assumption.
      rewrite (u64_small v') by (apply clear_user_range; assumption).
      rewrite Hv'valid. reflexivity. }
    exists s', v'. split; [reflexivity|]. split; [assumption|].
    split; [now apply clear_user_pa|].
    split; [intros n Hn; now apply clear_user_bits|].
    split; [|split; [|reflexivity]].
    + rewrite walkaddr_spec. unfold walkaddr_ro.
      destruct (Z.leb_spec MAXVA va); [reflexivity|]. rewrite Hlk.
      unfold PTE_U. rewrite bit_test by lia. unfold v'.
      rewrite clear_user_bits by lia. cbn [Z.eqb negb]. rewrite andb_false_r. reflexivity.
    + intros va' Hne. unfold s'; cbn [ram]. now apply write_leaf_other.
Qed.

Lemma uvmclear_guard_witness :
  let s := state_of (mappages (2 ^ 38) 4096 0 4096 (2 ^ 20) 22
                       (boot [8192; 12288])) (boot []) in
  (walk_ro 2 (ram s) 4096 0 = 0 -> uvmclear (2 ^ 38) 4096 0 s = Panic "uvmclear") /\
  (forall v, lookup (ram s) 4096 0 = Some v ->
     exists s' v',
       uvmclear (2 ^ 38) 4096 0 s = Done tt s' /\
       lookup (ram s') 4096 0 = Some v' /\
       PTE2PA v' = PTE2PA v /\
       (forall n, 0 <= n -> Z.testbit v' n = Z.testbit v n && negb (n =? 4)) /\
       walkaddr (2 ^ 38) 4096 0 s' = Done 0 s' /\
       (forall va', ~ same_entry 0 va' ->
          lookup (ram s') 4096 va' = lookup (ram s) 4096 va') /\
       freelist s' = freelist s).
Proof.
  intros s. apply (uvmclear_guard (2 ^ 38) 4096 0 s).
  - assert (Hwf : wf s 4096); [|apply Hwf].
    destruct (mappages_spec (2 ^ 38) ltac:(lia) 4096 0 4096 (2 ^ 20) 22 (boot [8192; 12288]))
      as [r [s' [j [Hrun [Hwf' _]]]]].
    + apply wf_boot. reflexivity.
    + lia.
    + lia.
    + lia.
    + lia.
    + intros k Hk. reflexivity.
    + unfold s. rewrite Hrun. exact Hwf'.
  - lia.
Defined.

(** ** Mapping one page *)

Section OnePage.

Variable MAXVA : Z.
Hypothesis MAXVA_sv39 : MAXVA <= 2 ^ 39.

Lemma mappages_one root a pa perm s :
  wf s root -> page_aligned a -> 0 <= a -> a + PGSIZE <= MAXVA ->
  0 <= pa < 2 ^ 64 -> lookup (ram s) root a = None ->
  exists r s',
    mappages MAXVA root a PGSIZE pa perm s = Done r s' /\
    wf s' root /\ grows root s s' /\
    ((r = 0 /\ lookup (ram s') root a = Some (leaf_pte pa perm) /\
      (forall va', ~ same_entry a va' -> lookup (ram s') root va' = lookup (ram s) root va'))
     \/
     (r = -1 /\ (List.length (freelist s) < 2)%nat /\ freelist s' = [] /\
      (forall va', lookup (ram s') root va' = lookup (ram s) root va'))).
Proof.
  intros Hwf Ha Ha0 Hmax Hpa Hnone.
  unfold mappages. change (PGSIZE =? 0) with false. cbv iota.
  rewrite (PGROUNDDOWN_id a Ha).
  rewrite (u64_small (a + PGSIZE - 1)) by (unfold PGSIZE in *; lia).
  assert (Hlast : PGROUNDDOWN (a + PGSIZE - 1) = a).
  { rewrite PGROUNDDOWN_eq. apply page_aligned_mul in Ha. unfold PGSIZE in *.
    replace (a + 4096 - 1) with (a / 4096 * 4096 + 4095) by lia.
    rewrite Z.div_add_l by lia. change (4095 / 4096) with 0. lia. }
  rewrite Hlast, Z.sub_diag. change (u64 0 / PGSIZE) with 0.
  cbn [Z.to_nat mappages_loop]. unfold walk.
  destruct (Z.leb_spec MAXVA a); [unfold PGSIZE in *; lia|].
  destruct (walk_levels_alloc root a 1 ltac:(lia) 2%nat root s)
    as [r [s1 [Hrun [Hwf1 [Hext [Hr Hz]]]]]]; [lia | assumption | reflexivity |].
  rewrite (bind_Done _ _ _ _ _ Hrun).
  destruct (Z.eqb_spec r 0) as [->|Hne].
  - destruct (Hz eq_refl) as [Hfl Hlen].
    exists (-1), s1. split; [reflexivity|]. split; [assumption|].
    split; [now apply extends_grows|]. right.
    split; [reflexivity|]. split; [assumption|]. split; [assumption|].
    apply (ext_lookup _ _ _ Hext).
  - destruct (Hr Hne) as [t [Ht ->]].
    rewrite bind_load64, valid_test.
    pose proof (ext_lookup _ _ _ Hext a) as Hl. rewrite Hnone in Hl.
    rewrite lookup_eq in Hl by apply Hwf1. rewrite Ht in Hl. cbv zeta in Hl.
    destruct (pte_valid (read64 (ram s1) (t + 8 * PX 0 a))) eqn:Ev; [discriminate Hl|].
    cbn [negb]. rewrite bind_store64, Z.eqb_refl. fold (leaf_pte pa perm).
    set (s2 := mkState (write64 (ram s1) (t + 8 * PX 0 a) (leaf_pte pa perm)) (freelist s1)).
    exists 0, s2. split; [reflexivity|].
    split; [now apply store_leaf_wf|].
    split; [eapply grows_trans; [apply extends_grows; eassumption
                                | apply store_leaf_grows; [apply Hwf1 | assumption]]|].
    left. split; [reflexivity|]. split.
    + unfold s2; cbn [ram]. rewrite write_leaf_same by (try apply Hwf1; assumption).
      rewrite (u64_small (leaf_pte pa perm)) by apply leaf_pte_range.
      rewrite leaf_pte_valid. reflexivity.
    + intros va' Hva'. unfold s2; cbn [ram].
      rewrite write_leaf_other; [apply (ext_lookup _ _ _ Hext) | apply Hwf1 | assumption | assumption].
Qed.

End OnePage.

(** ** Writing into a page that is not a page-table page *)

Lemma data_page_agree root m m' mem :
  wf_tree m root -> page_aligned mem -> ~ is_table m root mem ->
  (forall x, ~ in_page mem x -> m' x = m x) ->
  tables_agree m m' root.
Proof.
  intros Hwf Ha Hnt Hout t x Ht Hx. apply Hout.
  apply (pages_disjoint t mem x); try assumption.
  - apply (wf_table_page m root t Hwf Ht).
  - intros ->. contradiction.
Qed.

Lemma data_page_write root s m' mem :
  wf s root -> page_aligned mem -> ~ is_table (ram s) root mem ->
  (forall x, ~ in_page mem x -> m' x = ram s x) ->
  wf (mkState m' (freelist s)) root.
Proof.
  intros [Hwt Hwf] Ha Hnt Hout.
  pose proof (data_page_agree root (ram s) m' mem Hwt Ha Hnt Hout) as Hag.
  split; cbn [ram freelist].
  - eapply tables_agree_wf; eassumption.
  - apply wf_free_ext with (m := ram s); [|assumption].
    now apply tables_agree_table_at.
Qed.

Lemma wf_kalloc root s mem fl :
  wf s root -> freelist s = mem :: fl ->
  wf (mkState (ram s) fl) root /\
  page_aligned mem /\ 0 < mem < 2 ^ 64 /\ ~ is_table (ram s) root mem /\ ~ In mem fl.
Proof.
  intros [Hwt [Hnd Hpg]] Hfl. rewrite Hfl in Hnd, Hpg.
  destruct (Hpg mem (or_introl eq_refl)) as [Ha [Hr Hnt]].
  inversion Hnd as [|? ? Hnin Hnd']; subst.
  split; [|auto].
  split; [assumption|]. split; [assumption|].
  intros p Hp. apply Hpg. now right.
Qed.

(** ** [uvminit] *)

Section Uvminit.

Variable MAXVA : Z.
Hypothesis MAXVA_sv39 : MAXVA <= 2 ^ 39.

(** X7: [uvminit] seeds the first process: on a well-formed table with
    address 0 unmapped and three free pages it maps the first free page at
    virtual address 0 with W|R|X|U, so that [walkaddr] returns that page,
    which holds the [sz] bytes of the blob followed by zeroes; no other
    translation changes.  A blob of a page or more makes it panic. *)
Theorem uvminit_seeds root src sz s mem fl :
  wf s root -> PGSIZE <= MAXVA ->
  freelist s = mem :: fl -> (2 <= List.length fl)%nat ->
  lookup (ram s) root 0 = None ->
  (forall x, src <= x < src + sz ->
     (forall p, In p (freelist s) -> ~ in_page p x) /\
     (forall t, is_table (ram s) root t -> ~ in_page t x)) ->
  (PGSIZE <= sz -> uvminit MAXVA root src sz s = Panic "inituvm: more than a page") /\
  (0 <= sz < PGSIZE ->
   exists s',
     uvminit MAXVA root src sz s = Done tt s' /\
     wf s' root /\
     walkaddr MAXVA root 0 s' = Done mem s' /\
     lookup (ram s') root 0
       = Some (leaf_pte mem (Z.lor (Z.lor (Z.lor PTE_W PTE_R) PTE_X) PTE_U)) /\
     PTE_FLAGS (leaf_pte mem (Z.lor (Z.lor (Z.lor PTE_W PTE_R) PTE_X) PTE_U))
       = Z.lor (Z.lor (Z.lor (Z.lor PTE_W PTE_R) PTE_X) PTE_U) PTE_V /\
     PTE2PA (leaf_pte mem (Z.lor (Z.lor (Z.lor PTE_W PTE_R) PTE_X) PTE_U)) = mem /\
     ~ In mem (freelist s') /\
     (forall p, In p (freelist s') -> In p fl) /\
     (forall i, 0 <= i < sz -> ram s' (mem + i) = ram s (src + i)) /\
     (forall i, sz <= i < PGSIZE -> ram s' (mem + i) = 0) /\
     (forall va', ~ same_entry 0 va' ->
        lookup (ram s') root va' = lookup (ram s) root va')).
Proof.
  intros Hwf Hmaxva Hfl Hlen Hnone Hsrc. split.
  { intros Hsz. unfold uvminit. destruct (Z.leb_spec PGSIZE sz); [reflexivity | lia]. }
  intros Hsz. unfold uvminit. destruct (Z.leb_spec PGSIZE sz); [lia|].
  rewrite (bind_kalloc_cons _ _ mem fl) by assumption. rewrite bind_memset. cbn [ram freelist].
  destruct (wf_kalloc root s mem fl Hwf Hfl) as [Hwf1 [Hma [Hmr [Hmnt Hmnin]]]].
  set (m2 := mem_set (ram s) mem 0 PGSIZE).
  assert (Hout2 : forall x, ~ in_page mem x -> m2 x = ram s x).
  { intros x Hx. apply mem_set_other. unfold in_page in Hx. lia. }
  assert (Hwf2 : wf (mkState m2 fl) root).
  { apply (data_page_write root (mkState (ram s) fl) m2 mem); assumption. }
  assert (Hag2 : tables_agree (ram s) m2 root).
  { apply (data_page_agree root (ram s) m2 mem); try assumption. apply Hwf. }
  assert (Hnone2 : lookup m2 root 0 = None).
  { rewrite (tables_agree_lookup (ram s) m2 root 0); [assumption | apply Hwf | assumption]. }
  change (Z.lor (Z.lor (Z.lor PTE_W PTE_R) PTE_X) PTE_U) with 30.
  destruct (mappages_one MAXVA MAXVA_sv39 root 0 mem 30 (mkState m2 fl))
    as [r [s3 [Hrun [Hwf3 [Hgr Hres]]]]]; try assumption; try lia.
  { reflexivity. }
  rewrite (bind_Done _ _ _ _ _ Hrun).
  destruct Hres as [[-> [Hlk3 Hout3]]|[_ [Hbad _]]]; [|cbn [freelist] in Hbad; lia].
  cbn [ram freelist] in *.
  assert (Htab3 : forall t, is_table (ram s3) root t -> t <> mem /\
            (is_table (ram s) root t \/ In t fl)).
  { intros t Ht. destruct (gr_new _ _ _ Hgr t Ht) as [Hold|Hnew]; cbn [ram freelist] in *.
    - apply (tables_agree_is_table (ram s) m2 root t) in Hold; [|apply Hwf|assumption].
      split; [intros ->; contradiction | now left].
    - split; [intros ->; contradiction | now right]. }
  assert (Hmnt3 : ~ is_table (ram s3) root mem).
  { intros Ht. now destruct (Htab3 mem Ht). }
  set (m4 := mem_move (ram s3) mem src sz).
  assert (Hout4 : forall x, ~ in_page mem x -> m4 x = ram s3 x).
  { intros x Hx. apply mem_move_other. unfold in_page, PGSIZE in *. lia. }
  assert (Hwf4 : wf (mkState m4 (freelist s3)) root).
  { apply (data_page_write root s3 m4 mem); assumption. }
  assert (Hag4 : tables_agree (ram s3) m4 root).
  { apply (data_page_agree root (ram s3) m4 mem); try assumption. apply Hwf3. }
  assert (Hmem3 : forall x, in_page mem x -> ram s3 x = m2 x).
  { intros x Hx. apply (gr_frame _ _ _ Hgr). intros t Ht.
    destruct (Htab3 t Ht) as [Hne _].
    intros Hin. revert Hx. apply (pages_disjoint t mem x); try assumption.
    apply (wf_table_page (ram s3) root t); [apply Hwf3 | assumption]. }
  exists (mkState m4 (freelist s3)). unfold memmove. fold m4.
  assert (Hfl3 : forall p, In p (freelist s3) -> In p fl).
  { intros p Hp. destruct (gr_free _ _ _ Hgr) as [used [Hused _]]. cbn [freelist] in Hused.
    rewrite Hused. apply in_or_app. now right. }
  split; [reflexivity|]. split; [assumption|]. cbn [ram freelist].
  split; [|split; [|split; [|split; [|split; [|split; [|split; [|split]]]]]]].
  - rewrite walkaddr_spec. unfold walkaddr_ro. cbn [ram].
    destruct (Z.leb_spec MAXVA 0); [unfold PGSIZE in *; lia|].
    rewrite (tables_agree_lookup (ram s3) m4 root 0); [|apply Hwf3|assumption].
    rewrite Hlk3. rewrite leaf_pte_user by lia. cbn [Z.land Z.eqb PTE_U Z.shiftl].
    rewrite leaf_pte_pa by (try assumption; lia). reflexivity.
  - rewrite (tables_agree_lookup (ram s3) m4 root 0); [|apply Hwf3|assumption].
    exact Hlk3.
  - change (Z.lor (Z.lor (Z.lor PTE_W PTE_R) PTE_X) PTE_U) with 30.
    rewrite leaf_pte_flags by lia. reflexivity.
  - change (Z.lor (Z.lor (Z.lor PTE_W PTE_R) PTE_X) PTE_U) with 30.
    apply leaf_pte_pa; [lia | assumption | lia].
  - intros Hin. apply Hmnin. now apply Hfl3.
  - exact Hfl3.
  - intros i Hi. unfold m4. rewrite mem_move_in by lia.
    replace (src + (mem + i - mem)) with (src + i) by lia.
    destruct (Hsrc (src + i) ltac:(lia)) as [Hnf Hnt].
    rewrite (gr_frame _ _ _ Hgr).
    + cbn [ram]. apply Hout2. apply Hnf. rewrite Hfl. now left.
    + intros t Ht. destruct (Htab3 t Ht) as [_ [Hold|Hnew]]; [now apply Hnt|].
      apply Hnf. rewrite Hfl. now right.
  - intros i Hi. unfold m4. rewrite mem_move_other by lia.
    rewrite Hmem3 by (unfold in_page; lia).
    unfold m2. rewrite mem_set_in by lia. reflexivity.
  - intros va' Hne.
    rewrite (tables_agree_lookup (ram s3) m4 root va'); [|apply Hwf3|assumption].
    rewrite Hout3 by assumption.
    apply (tables_agree_lookup (ram s) m2 root va'); [apply Hwf | assumption].
Qed.

End Uvminit.

Lemma uvminit_seeds_witness :
  let s := boot [8192; 12288; 16384] in
  (PGSIZE <= 11 -> uvminit (2 ^ 38) 4096 (2 ^ 20) 11 s = Panic "inituvm: more than a page") /\
  (0 <= 11 < PGSIZE ->
   exists s',
     uvminit (2 ^ 38) 4096 (2 ^ 20) 11 s = Done tt s' /\
     wf s' 4096 /\
     walkaddr (2 ^ 38) 4096 0 s' = Done 8192 s' /\
     lookup (ram s') 4096 0
       = Some (leaf_pte 8192 (Z.lor (Z.lor (Z.lor PTE_W PTE_R) PTE_X) PTE_U)) /\
     PTE_FLAGS (leaf_pte 8192 (Z.lor (Z.lor (Z.lor PTE_W PTE_R) PTE_X) PTE_U))
       = Z.lor (Z.lor (Z.lor (Z.lor PTE_W PTE_R) PTE_X) PTE_U) PTE_V /\
     PTE2PA (leaf_pte 8192 (Z.lor (Z.lor (Z.lor PTE_W PTE_R) PTE_X) PTE_U)) = 8192 /\
     ~ In 8192 (freelist s') /\
     (forall p, In p (freelist s') -> In p [12288; 16384]) /\
     (forall i, 0 <= i < 11 -> ram s' (8192 + i) = ram s (2 ^ 20 + i)) /\
     (forall i, 11 <= i < PGSIZE -> ram s' (8192 + i) = 0) /\
     (forall va', ~ same_entry 0 va' ->
        lookup (ram s') 4096 va' = lookup (ram s) 4096 va')).
Proof.
  intros s.
  apply (uvminit_seeds (2 ^ 38) ltac:(lia) 4096 (2 ^ 20) 11 s 8192 [12288; 16384]).
  - apply wf_boot. reflexivity.
  - vm_compute. discriminate.
  - reflexivity.
  - cbn. lia.
  - reflexivity.
  - intros x Hx. split.
    + intros p Hp. unfold in_page, PGSIZE. cbn in Hp. lia.
    + intros t Ht. apply (is_table_zero (ram s) 4096 t) in Ht; [|reflexivity].
      subst t. unfold in_page, PGSIZE. lia.
Defined.

(** ** [uvmdealloc] *)

Lemma PGROUNDUP_small x :
  0 <= x -> x + PGSIZE <= 2 ^ 64 ->
  PGROUNDUP x = PGSIZE * ((x + PGSIZE - 1) / PGSIZE).
Proof.
  intros H0 H1. rewrite PGROUNDUP_eq. rewrite u64_small by (unfold PGSIZE in *; lia).
  reflexivity.
Qed.

Lemma PGROUNDUP_aligned x : page_aligned (PGROUNDUP x).
Proof. unfold PGROUNDUP. apply PGROUNDDOWN_aligned. Qed.

Lemma PGROUNDUP_bounds x :
  0 <= x -> x + PGSIZE <= 2 ^ 64 -> x <= PGROUNDUP x < x + PGSIZE.
Proof.
  intros H0 H1. rewrite PGROUNDUP_small by assumption. unfold PGSIZE.
  pose proof (Z.div_mod (x + 4096 - 1) 4096 ltac:(lia)).
  pose proof (Z.mod_pos_bound (x + 4096 - 1) 4096 ltac:(lia)). lia.
Qed.

Lemma PGROUNDUP_id x :
  0 <= x -> x + PGSIZE <= 2 ^ 64 -> page_aligned x -> PGROUNDUP x = x.
Proof.
  intros H0 H1 Ha. rewrite PGROUNDUP_small by assumption.
  apply page_aligned_mul in Ha. unfold PGSIZE in *.
  replace (x + 4096 - 1) with (x / 4096 * 4096 + 4095) by lia.
  rewrite Z.div_add_l by lia. change (4095 / 4096) with 0. lia.
Qed.

Lemma PGROUNDUP_mono x y :
  0 <= x <= y -> y + PGSIZE <= 2 ^ 64 -> PGROUNDUP x <= PGROUNDUP y.
Proof.
  intros Hxy Hy. rewrite !PGROUNDUP_small by lia. unfold PGSIZE.
  assert ((x + 4096 - 1) / 4096 <= (y + 4096 - 1) / 4096) by (apply Z.div_le_mono; lia).
  lia.
Qed.

Lemma s32_small x : 0 <= x < 2 ^ 31 -> s32 x = x.
Proof. intros H. unfold s32. rewrite Z.mod_small by lia. lia. Qed.

Lemma range_pas_In m root : forall (n : nat) a k,
  0 <= k < Z.of_nat n -> In (mapped_pa m root (a + PGSIZE * k)) (range_pas m root a n).
Proof.
  induction n as [|n IH]; intros a k Hk; [lia|]. cbn [range_pas].
  destruct (Z.eq_dec k 0) as [->|Hk0].
  - left. f_equal. lia.
  - right. replace (a + PGSIZE * k) with (a + PGSIZE + PGSIZE * (k - 1)) by lia.
    apply IH. lia.
Qed.

Lemma range_pas_length m root : forall n a, List.length (range_pas m root a n) = n.
Proof. induction n as [|n IH]; intros a; cbn [range_pas List.length]; [reflexivity | now rewrite IH]. Qed.

Lemma range_pas_nth m root : forall (n : nat) a (k : nat),
  (k < n)%nat -> nth k (range_pas m root a n) 0 = mapped_pa m root (a + PGSIZE * Z.of_nat k).
Proof.
  induction n as [|n IH]; intros a k Hk; [lia|]. cbn [range_pas].
  destruct k as [|k]; cbn [nth].
  - f_equal. lia.
  - rewrite IH by lia. f_equal. lia.
Qed.

Lemma range_pas_inv m root : forall n a p,
  In p (range_pas m root a n) ->
  exists k, 0 <= k < Z.of_nat n /\ p = mapped_pa m root (a + PGSIZE * k).
Proof.
  induction n as [|n IH]; intros a p Hp; [contradiction|].
  cbn [range_pas] in Hp. destruct Hp as [<-|Hp].
  - exists 0. split; [lia|]. now rewrite Z.mul_0_r, Z.add_0_r.
  - destruct (IH _ _ Hp) as [k [Hk ->]]. exists (k + 1). split; [lia|].
    f_equal. lia.
Qed.

Section Uvmdealloc.

Variable MAXVA : Z.
Hypothesis MAXVA_sv39 : MAXVA <= 2 ^ 39.

Lemma uvmdealloc_spec root oldsz newsz s :
  wf_tree (ram s) root -> 0 <= newsz < oldsz -> PGROUNDUP oldsz <= MAXVA ->
  oldsz + PGSIZE <= 2 ^ 64 ->
  let lo := PGROUNDUP newsz in
  let n := (PGROUNDUP oldsz - lo) / PGSIZE in
  (forall k, 0 <= k < n ->
     exists v, lookup (ram s) root (lo + PGSIZE * k) = Some v /\ PTE_FLAGS v <> PTE_V) ->
  0 <= n /\ PGROUNDUP oldsz = lo + PGSIZE * n /\
  exists s',
    uvmdealloc MAXVA root oldsz newsz s = Done newsz s' /\
    wf_tree (ram s') root /\
    (forall p, path_ok 2 p -> table_at (ram s') root p = table_at (ram s) root p) /\
    (forall k, 0 <= k < n -> lookup (ram s') root (lo + PGSIZE * k) = None) /\
    (forall va', (forall k, 0 <= k < n -> ~ same_entry (lo + PGSIZE * k) va') ->
       lookup (ram s') root va' = lookup (ram s) root va') /\
    freelist s' = rev (range_pas (ram s) root lo (Z.to_nat n)) ++ freelist s /\
    (forall x, (forall t, is_table (ram s) root t -> ~ in_page t x) -> ram s' x = ram s x).
Proof.
  intros Hwf Hsz Hmax Hov lo n Hmapped.
  assert (Elo : PGROUNDUP newsz = lo) by reflexivity.
  assert (En : (PGROUNDUP oldsz - lo) / PGSIZE = n) by reflexivity.
  clearbody n. clearbody lo.
  pose proof (PGROUNDUP_mono newsz oldsz ltac:(lia) Hov) as Hmono. rewrite Elo in Hmono.
  pose proof (PGROUNDUP_aligned newsz) as Hlo. rewrite Elo in Hlo.
  pose proof (PGROUNDUP_aligned oldsz) as Hhi.
  pose proof (PGROUNDUP_bounds newsz ltac:(lia) ltac:(lia)) as Hlob. rewrite Elo in Hlob.
  assert (Hn : PGROUNDUP oldsz = lo + PGSIZE * n).
  { rewrite <- En. apply page_aligned_mul in Hlo, Hhi. unfold PGSIZE in *.
    replace (PGROUNDUP oldsz - lo) with ((PGROUNDUP oldsz / 4096 - lo / 4096) * 4096) by lia.
    rewrite Z.div_mul by lia. lia. }
  assert (Hn0 : 0 <= n) by (unfold PGSIZE in *; lia).
  split; [assumption|]. split; [assumption|].
  unfold uvmdealloc. destruct (Z.leb_spec oldsz newsz); [lia|]. rewrite Elo.
  destruct (Z.ltb_spec lo (PGROUNDUP oldsz)) as [Hlt|Hge].
  - rewrite (u64_small (PGROUNDUP oldsz - lo)) by lia. rewrite En.
    assert (Hnb : 0 <= n <= 2 ^ 27) by (unfold PGSIZE in *; lia).
    rewrite s32_small by lia. rewrite u64_small by lia.
    destruct (uvmunmap_spec MAXVA MAXVA_sv39 root lo n 1 s)
      as [s' [Hrun Hpost]]; try assumption; try lia.
    rewrite (bind_Done _ _ _ _ _ Hrun). exists s'. split; [reflexivity | exact Hpost].
  - assert (n = 0) by (unfold PGSIZE in *; lia).
    exists s. rewrite bind_ret. split; [reflexivity|]. split; [assumption|].
    split; [reflexivity|]. split; [intros; lia|]. split; [reflexivity|].
    split; [|reflexivity]. replace n with 0 by lia. reflexivity.
Qed.

(** X8: [uvmdealloc] returns the old size and changes nothing when asked to
    grow; when asked to shrink it returns the new size after unmapping and
    freeing exactly the pages between the two page-rounded sizes (none when
    they round to the same page): those addresses become unmapped, their
    physical pages go to the head of the free list, and every other
    translation and every page-table page stays. *)
Theorem uvmdealloc_shrinks root oldsz newsz s :
  wf_tree (ram s) root -> 0 <= newsz -> PGROUNDUP oldsz <= MAXVA ->
  oldsz + PGSIZE <= 2 ^ 64 ->
  (forall a, page_aligned a -> PGROUNDUP newsz <= a < PGROUNDUP oldsz ->
     exists v, lookup (ram s) root a = Some v /\ PTE_FLAGS v <> PTE_V) ->
  (oldsz <= newsz -> uvmdealloc MAXVA root oldsz newsz s = Done oldsz s) /\
  (newsz < oldsz ->
   exists s',
     uvmdealloc MAXVA root oldsz newsz s = Done newsz s' /\
     (forall a, page_aligned a -> PGROUNDUP newsz <= a < PGROUNDUP oldsz ->
        lookup (ram s') root a = None /\ In (mapped_pa (ram s) root a) (freelist s')) /\
     (forall a, page_aligned a -> 0 <= a < 2 ^ 39 ->
        ~ (PGROUNDUP newsz <= a < PGROUNDUP oldsz) ->
        lookup (ram s') root a = lookup (ram s) root a) /\
     (forall p, In p (freelist s) -> In p (freelist s')) /\
     (forall p, path_ok 2 p -> table_at (ram s') root p = table_at (ram s) root p) /\
     freelist s' =
       rev (range_pas (ram s) root (PGROUNDUP newsz)
              (Z.to_nat ((PGROUNDUP oldsz - PGROUNDUP newsz) / PGSIZE))) ++ freelist s /\
     (forall p, In p (freelist s') <->
        In p (freelist s) \/
        exists a, page_aligned a /\ PGROUNDUP newsz <= a < PGROUNDUP oldsz /\
                  p = mapped_pa (ram s) root a) /\
     Z.of_nat (List.length (freelist s')) =
       Z.of_nat (List.length (freelist s)) + (PGROUNDUP oldsz - PGROUNDUP newsz) / PGSIZE /\
     (forall x, (forall t, is_table (ram s) root t -> ~ in_page t x) -> ram s' x = ram s x)).
Proof.
  intros Hwf Hnew Hmax Hov Hmapped. split.
  { intros Hle. unfold uvmdealloc. destruct (Z.leb_spec oldsz newsz); [reflexivity | lia]. }
  intros Hlt.
  destruct (uvmdealloc_spec root oldsz newsz s Hwf ltac:(lia) Hmax Hov)
    as [Hn0 [Hhi [s' [Hrun [Hwf' [Htabs [Hin [Hout [Hfl Hframe]]]]]]]]].
  { intros k Hk. apply Hmapped; [apply page_offset_aligned, PGROUNDUP_aligned|].
    remember ((PGROUNDUP oldsz - PGROUNDUP newsz) / PGSIZE) as n eqn:En.
    assert (PGROUNDUP oldsz = PGROUNDUP newsz + PGSIZE * n).
    { pose proof (PGROUNDUP_mono newsz oldsz ltac:(lia) Hov).
      pose proof (PGROUNDUP_aligned newsz) as Hlo. pose proof (PGROUNDUP_aligned oldsz) as Hh.
      rewrite En. apply page_aligned_mul in Hlo, Hh. unfold PGSIZE in *.
      replace (PGROUNDUP oldsz - PGROUNDUP newsz)
        with ((PGROUNDUP oldsz / 4096 - PGROUNDUP newsz / 4096) * 4096) by lia.
      rewrite Z.div_mul by lia. lia. }
    unfold PGSIZE in *. lia. }
  pose proof (PGROUNDUP_aligned newsz) as Hlo.
  pose proof (PGROUNDUP_bounds newsz ltac:(lia) ltac:(lia)) as Hlob.
  remember (PGROUNDUP newsz) as lo eqn:Elo.
  remember ((PGROUNDUP oldsz - lo) / PGSIZE) as n eqn:En.
  assert (Hidx : forall a, page_aligned a -> lo <= a < PGROUNDUP oldsz ->
            exists k, 0 <= k < n /\ a = lo + PGSIZE * k).
  { intros a Ha Hr. exists (a / PGSIZE - lo / PGSIZE).
    apply page_aligned_mul in Ha, Hlo. unfold PGSIZE in *. lia. }
  exists s'. split; [assumption|].
  split; [|split; [|split; [|split; [|split; [|split; [|split]]]]]].
  - intros a Ha Hr. destruct (Hidx a Ha Hr) as [k [Hk ->]]. split; [now apply Hin|].
    rewrite Hfl. apply in_or_app. left. apply -> in_rev.
    apply range_pas_In. rewrite Z2Nat.id by assumption. assumption.
  - intros a Ha Har Hnr. apply Hout. intros k Hk Hs.
    apply same_entry_aligned in Hs; try assumption.
    + subst a. apply Hnr. unfold PGSIZE in *. lia.
    + unfold PGSIZE in *. lia.
    + now apply page_offset_aligned.
  - intros p Hp. rewrite Hfl. apply in_or_app. now right.
  - assumption.
  - exact Hfl.
  - intros p. rewrite Hfl, in_app_iff, <- in_rev. split.
    + intros [Hp|Hp]; [right | now left].
      destruct (range_pas_inv _ _ _ _ _ Hp) as [k [Hk ->]].
      rewrite Z2Nat.id in Hk by assumption.
      exists (lo + PGSIZE * k). split; [now apply page_offset_aligned|].
      split; [unfold PGSIZE in *; lia | reflexivity].
    + intros [Hp|[a [Ha [Hr ->]]]]; [now right | left].
      destruct (Hidx a Ha Hr) as [k [Hk ->]].
      apply range_pas_In. rewrite Z2Nat.id by assumption. assumption.
  - rewrite Hfl, length_app, length_rev, range_pas_length. lia.
  - exact Hframe.
Qed.

End Uvmdealloc.

(** The state of a successful [mappages] on a booted machine is well
    formed. *)
Lemma mappages_boot_wf MAXVA root va size pa perm fl :
  MAXVA <= 2 ^ 39 -> boot_okb root fl = true ->
  0 <= va -> 0 < size -> va + size <= MAXVA -> 0 <= pa < 2 ^ 64 ->
  wf (state_of (mappages MAXVA root va size pa perm (boot fl)) (boot fl)) root.
Proof.
  intros Hmax Hok Hva Hsz Hrange Hpa.
  pose proof (wf_boot root fl Hok) as Hwf.
  destruct (mappages_spec MAXVA Hmax root va size pa perm (boot fl) Hwf Hva Hsz Hrange Hpa)
    as [r [s' [j [Hrun [Hwf' _]]]]].
  - intros k Hk. reflexivity.
  - rewrite Hrun. exact Hwf'.
Qed.

Lemma uvmdealloc_shrinks_witness :
  let s := state_of (mappages (2 ^ 38) 4096 0 12288 (2 ^ 20) 30
                       (boot [8192; 12288])) (boot []) in
  (8200 <= 4096 -> uvmdealloc (2 ^ 38) 4096 8200 4096 s = Done 8200 s) /\
  (4096 < 8200 ->
   exists s',
     uvmdealloc (2 ^ 38) 4096 8200 4096 s = Done 4096 s' /\
     (forall a, page_aligned a -> PGROUNDUP 4096 <= a < PGROUNDUP 8200 ->
        lookup (ram s') 4096 a = None /\ In (mapped_pa (ram s) 4096 a) (freelist s')) /\
     (forall a, page_aligned a -> 0 <= a < 2 ^ 39 ->
        ~ (PGROUNDUP 4096 <= a < PGROUNDUP 8200) ->
        lookup (ram s') 4096 a = lookup (ram s) 4096 a) /\
     (forall p, In p (freelist s) -> In p (freelist s')) /\
     (forall p, path_ok 2 p -> table_at (ram s') 4096 p = table_at (ram s) 4096 p) /\
     freelist s' =
       rev (range_pas (ram s) 4096 (PGROUNDUP 4096)
              (Z.to_nat ((PGROUNDUP 8200 - PGROUNDUP 4096) / PGSIZE))) ++ freelist s /\
     (forall p, In p (freelist s') <->
        In p (freelist s) \/
        exists a, page_aligned a /\ PGROUNDUP 4096 <= a < PGROUNDUP 8200 /\
                  p = mapped_pa (ram s) 4096 a) /\
     Z.of_nat (List.length (freelist s')) =
       Z.of_nat (List.length (freelist s)) + (PGROUNDUP 8200 - PGROUNDUP 4096) / PGSIZE /\
     (forall x, (forall t, is_table (ram s) 4096 t -> ~ in_page t x) -> ram s' x = ram s x)).
Proof.
  intros s.
  apply (uvmdealloc_shrinks (2 ^ 38) ltac:(lia) 4096 8200 4096 s).
  - assert (Hwf : wf s 4096); [|apply Hwf].
    apply (mappages_boot_wf (2 ^ 38) 4096 0 12288 (2 ^ 20) 30 [8192; 12288]);
      try lia; reflexivity.
  - lia.
  - vm_compute. discriminate.
  - vm_compute. discriminate.
  - intros a Ha Hr.
    change (PGROUNDUP 4096) with 4096 in Hr. change (PGROUNDUP 8200) with 12288 in Hr.
    assert (Hcases : a = 4096 \/ a = 8192).
    { apply page_aligned_mul in Ha. unfold PGSIZE in Ha. lia. }
    destruct Hcases as [-> | ->].
    + exists 263199. split; [vm_compute; reflexivity | vm_compute; discriminate].
    + exists 264223. split; [vm_compute; reflexivity | vm_compute; discriminate].
Defined.

(** ** Taking pages from the free list *)

Lemma allocs_refl root s : allocs root s s.
Proof. split; auto. Qed.

Lemma allocs_is_table root s s' t :
  allocs root s s' -> is_table (ram s) root t -> is_table (ram s') root t.
Proof.
  intros Hal [p [Hp Ht]]. exists p. split; [assumption|]. now apply (al_tables _ _ _ Hal).
Qed.

Lemma allocs_trans root s1 s2 s3 :
  allocs root s1 s2 -> allocs root s2 s3 -> allocs root s1 s3.
Proof.
  intros H12 H23. split.
  - intros p t Hp Ht. apply (al_tables _ _ _ H23); [assumption|].
    now apply (al_tables _ _ _ H12).
  - intros t Ht. destruct (al_new _ _ _ H23 t Ht) as [H|H].
    + apply (al_new _ _ _ H12 t H).
    + right. now apply (al_free _ _ _ H12).
  - intros p Hp. apply (al_free _ _ _ H12). now apply (al_free _ _ _ H23).
  - intros x Ht Hf. rewrite (al_frame _ _ _ H23).
    + apply (al_frame _ _ _ H12); [|assumption].
      intros t Ht2. apply Ht. now apply (allocs_is_table root s2 s3).
    + assumption.
    + intros p Hp. apply Hf. now apply (al_free _ _ _ H12).
Qed.

Lemma grows_allocs root s s' : grows root s s' -> allocs root s s'.
Proof.
  intros [T [used [F U]] N R]. split; try assumption.
  - intros p Hp. rewrite F. apply in_or_app. now right.
  - intros x Ht _. now apply R.
Qed.

(** Taking the first free page and writing into it. *)
Lemma allocs_data_page root s mem fl m' :
  wf s root -> freelist s = mem :: fl ->
  (forall x, ~ in_page mem x -> m' x = ram s x) ->
  wf (mkState m' fl) root /\ allocs root s (mkState m' fl) /\
  (forall va, lookup m' root va = lookup (ram s) root va) /\
  ~ is_table m' root mem.
Proof.
  intros Hwf Hfl Hout.
  destruct (wf_kalloc root s mem fl Hwf Hfl) as [Hwf1 [Hma [Hmr [Hmnt Hmnin]]]].
  assert (Hag : tables_agree (ram s) m' root).
  { apply (data_page_agree root (ram s) m' mem); try assumption. apply Hwf. }
  split; [|split; [|split]].
  - apply (data_page_write root (mkState (ram s) fl) m' mem); assumption.
  - split; cbn [ram freelist].
    + intros p t Hp Ht. rewrite (tables_agree_table_at (ram s) m' root); try assumption. apply Hwf.
    + intros t Ht. left. apply (tables_agree_is_table (ram s) m' root t); try assumption. apply Hwf.
    + intros p Hp. rewrite Hfl. now right.
    + intros x _ Hf. apply Hout. apply Hf. rewrite Hfl. now left.
  - intros va. apply tables_agree_lookup; [apply Hwf | assumption].
  - intros Ht. apply Hmnt. apply (tables_agree_is_table (ram s) m' root mem); try assumption.
    apply Hwf.
Qed.

(** ** Undoing a growth *)

Section Rollback.

Variable MAXVA : Z.
Hypothesis MAXVA_sv39 : MAXVA <= 2 ^ 39.

Lemma rollback_spec root a0 d s :
  wf_tree (ram s) root -> page_aligned a0 -> 0 <= a0 -> 0 <= d ->
  a0 + PGSIZE * d <= MAXVA ->
  (forall k, 0 <= k < d ->
     exists v, lookup (ram s) root (a0 + PGSIZE * k) = Some v /\ PTE_FLAGS v <> PTE_V) ->
  exists s',
    uvmdealloc MAXVA root (a0 + PGSIZE * d) a0 s = Done a0 s' /\
    wf_tree (ram s') root /\
    (forall p, path_ok 2 p -> table_at (ram s') root p = table_at (ram s) root p) /\
    (forall k, 0 <= k < d -> lookup (ram s') root (a0 + PGSIZE * k) = None) /\
    (forall va', (forall k, 0 <= k < d -> ~ same_entry (a0 + PGSIZE * k) va') ->
       lookup (ram s') root va' = lookup (ram s) root va') /\
    freelist s' = rev (range_pas (ram s) root a0 (Z.to_nat d)) ++ freelist s.
Proof.
  intros Hwf Ha Ha0 Hd Hmax Hmapped.
  destruct (Z.eq_dec d 0) as [->|Hd0].
  - exists s. unfold uvmdealloc.
    destruct (Z.leb_spec (a0 + PGSIZE * 0) a0); [|lia].
    replace (a0 + PGSIZE * 0) with a0 by lia.
    split; [reflexivity|]. split; [assumption|]. split; [reflexivity|].
    split; [intros; lia|]. split; [reflexivity | reflexivity].
  - assert (Hhi : PGROUNDUP (a0 + PGSIZE * d) = a0 + PGSIZE * d).
    { apply PGROUNDUP_id; [unfold PGSIZE; lia | unfold PGSIZE in *; lia |].
      now apply page_offset_aligned. }
    assert (Hlo : PGROUNDUP a0 = a0).
    { apply PGROUNDUP_id; [lia | unfold PGSIZE in *; lia | assumption]. }
    assert (Hn : (PGROUNDUP (a0 + PGSIZE * d) - PGROUNDUP a0) / PGSIZE = d).
    { rewrite Hhi, Hlo. replace (a0 + PGSIZE * d - a0) with (d * PGSIZE) by lia.
      apply Z.div_mul. unfold PGSIZE. lia. }
    destruct (uvmdealloc_spec MAXVA MAXVA_sv39 root (a0 + PGSIZE * d) a0 s)
      as [_ [_ [s' [Hrun [Hwf' [Htabs [Hin [Hout [Hfl _]]]]]]]]]; try assumption.
    + unfold PGSIZE. lia.
    + rewrite Hhi. assumption.
    + unfold PGSIZE in *. lia.
    + rewrite Hn, Hlo. assumption.
    + rewrite Hn, Hlo in *. exists s'. auto 10.
Qed.

End Rollback.

(** ** [uvmalloc] *)

Lemma UVM_PERM_val : UVM_PERM = 30.
Proof. reflexivity. Qed.

Lemma leaf_pte_mapped_pa m root va mem perm :
  lookup m root va = Some (leaf_pte mem perm) ->
  0 <= mem < 2 ^ 64 -> page_aligned mem -> 0 <= perm < 1024 ->
  mapped_pa m root va = mem.
Proof. intros H Hr Ha Hp. unfold mapped_pa. rewrite H. now apply leaf_pte_pa. Qed.

Section Uvmalloc.

Variable MAXVA : Z.
Hypothesis MAXVA_sv39 : MAXVA <= 2 ^ 39.

(** Undoing a growth of [d] pages, with [n] more pages that were never
    mapped. *)
Lemma rollback_rolled_back root a0 d n s s0 :
  wf_tree (ram s) root -> page_aligned a0 -> 0 <= a0 -> 0 <= d -> 0 <= n ->
  a0 + PGSIZE * (d + n) <= MAXVA ->
  (forall k, 0 <= k < d ->
     exists v, lookup (ram s) root (a0 + PGSIZE * k) = Some v /\ PTE_FLAGS v <> PTE_V) ->
  (forall k, d <= k < d + n -> lookup (ram s) root (a0 + PGSIZE * k) = None) ->
  (forall va, lookup (ram s) root va = lookup (ram s0) root va) ->
  (forall p, In p (freelist s0) -> In p (freelist s) \/ is_table (ram s) root p) ->
  (forall t, is_table (ram s0) root t -> is_table (ram s) root t) ->
  exists s',
    uvmdealloc MAXVA root (a0 + PGSIZE * d) a0 s = Done a0 s' /\
    rolled_back root a0 d n s0 s'.
Proof.
  intros Hwf Ha Ha0 Hd Hn Hmax Hmapped Hfree Hlk Hfl0 Htab0.
  destruct (rollback_spec MAXVA MAXVA_sv39 root a0 d s)
    as [s' [Hrun [Hwf' [Htabs [Hin [Hout Hfl]]]]]]; try assumption.
  { unfold PGSIZE in *. lia. }
  exists s'. split; [assumption|].
  assert (Hother : forall k j, 0 <= j < d -> d <= k < d + n ->
            ~ same_entry (a0 + PGSIZE * j) (a0 + PGSIZE * k)).
  { intros k j Hj Hk. apply pages_differ; try assumption; unfold PGSIZE in *; lia. }
  split; [assumption|]. split; [|split; [|split; [|split]]].
  - intros k Hk. destruct (Z.lt_ge_cases k d).
    + apply Hin. lia.
    + rewrite Hout; [apply Hfree; lia|]. intros j Hj. apply Hother; lia.
  - intros va' Hva'. rewrite Hout; [apply Hlk|]. intros k Hk. apply Hva'. lia.
  - intros k Hk. rewrite Hfl. apply in_or_app. left. apply -> in_rev.
    unfold mapped_pa. rewrite <- Hlk. fold (mapped_pa (ram s) root (a0 + PGSIZE * k)).
    apply range_pas_In. rewrite Z2Nat.id by assumption. assumption.
  - intros p Hp. destruct (Hfl0 p Hp) as [H|H].
    + left. rewrite Hfl. apply in_or_app. now right.
    + right. now apply (is_table_ext (ram s) (ram s') root p Htabs).
  - intros t Ht. apply (is_table_ext (ram s) (ram s') root t Htabs). now apply Htab0.
Qed.

Lemma uvmalloc_loop_spec root a0 newsz : forall (n fuel : nat) d s,
  (n <= fuel)%nat -> wf s root -> page_aligned a0 -> 0 <= a0 -> 0 <= d ->
  a0 + PGSIZE * (d + Z.of_nat n) <= MAXVA ->
  (forall k, d <= k < d + Z.of_nat n -> a0 + PGSIZE * k < newsz) ->
  newsz <= a0 + PGSIZE * (d + Z.of_nat n) ->
  (forall k, 0 <= k < d ->
     exists v, lookup (ram s) root (a0 + PGSIZE * k) = Some v /\ PTE_FLAGS v <> PTE_V) ->
  (forall k, d <= k < d + Z.of_nat n -> lookup (ram s) root (a0 + PGSIZE * k) = None) ->
  exists r s',
    uvmalloc_loop MAXVA fuel root a0 (a0 + PGSIZE * d) newsz s = Done r s' /\
    ((r = newsz /\ grown root UVM_PERM (a0 + PGSIZE * d) (Z.of_nat n) s s' /\
      (forall k x, 0 <= k < Z.of_nat n ->
         in_page (mapped_pa (ram s') root (a0 + PGSIZE * (d + k))) x -> ram s' x = 0))
     \/ (r = 0 /\ 0 < newsz /\ rolled_back root a0 d (Z.of_nat n) s s')).
Proof.
  induction n as [|n IH]; intros fuel d s Hfuel Hwf Ha Ha0 Hd Hmax Hlt Hge Hmapped Hfree.
  - exists newsz, s.
    assert (Hloop : uvmalloc_loop MAXVA fuel root a0 (a0 + PGSIZE * d) newsz s = Done newsz s).
    { destruct fuel; cbn [uvmalloc_loop];
        (destruct (Z.ltb_spec (a0 + PGSIZE * d) newsz); [unfold PGSIZE in *; lia | reflexivity]). }
    split; [assumption|]. left. split; [reflexivity|]. split; [|intros; lia].
    split; [assumption|]. split; [apply allocs_refl|].
    exists []. split; [reflexivity|]. split; [constructor|].
    split; [intros; lia|]. split; [intros mem []|]. intros. reflexivity.
  - destruct fuel as [|f]; [lia|]. cbn [uvmalloc_loop].
    set (a := a0 + PGSIZE * d) in *.
    assert (Halt : a < newsz) by (apply Hlt; lia).
    destruct (Z.ltb_spec a newsz); [|lia].
    assert (Haa : page_aligned a) by now apply page_offset_aligned.
    assert (Hnone : lookup (ram s) root a = None) by (apply Hfree; lia).
    assert (HSn : Z.of_nat (S n) = Z.of_nat n + 1) by lia.
    destruct (freelist s) as [|mem fl] eqn:Hfl.
    + (* the allocator is exhausted *)
      rewrite bind_kalloc_nil by assumption. cbn [Z.eqb].
      destruct (rollback_rolled_back root a0 d (Z.of_nat (S n)) s s)
        as [s' [Hrun Hrb]]; try assumption; try lia; try apply Hwf.
      { reflexivity. }
      { intros p Hp. now left. }
      { auto. }
      rewrite (bind_Done _ _ _ _ _ Hrun). exists 0, s'. split; [reflexivity|].
      right. split; [reflexivity|]. split; [unfold a, PGSIZE in *; lia | assumption].
    + rewrite (bind_kalloc_cons _ _ mem fl) by assumption.
      destruct (wf_kalloc root s mem fl Hwf Hfl) as [_ [Hma [Hmr [Hmnt Hmnin]]]].
      destruct (Z.eqb_spec mem 0); [lia|].
      rewrite bind_memset. cbn [ram freelist].
      set (m2 := mem_set (ram s) mem 0 PGSIZE).
      destruct (allocs_data_page root s mem fl m2 Hwf Hfl)
        as [Hwf2 [Hal2 [Hlk2 Hmnt2]]].
      { intros x Hx. apply mem_set_other. unfold in_page in Hx. lia. }
      fold UVM_PERM.
      destruct (mappages_one MAXVA MAXVA_sv39 root a mem UVM_PERM (mkState m2 fl))
        as [r1 [s3 [Hrun [Hwf3 [Hgr Hres]]]]]; try assumption; try lia.
      { unfold a, PGSIZE in *. lia. }
      { unfold a, PGSIZE in *. lia. }
      { cbn [ram]. rewrite Hlk2. assumption. }
      rewrite (bind_Done _ _ _ _ _ Hrun). cbn [ram freelist] in *.
      pose proof (gr_free _ _ _ Hgr) as [used [Hused Hut]]. cbn [freelist] in Hused.
      assert (Hfl3 : forall p, In p (freelist s3) -> In p fl).
      { intros p Hp. rewrite Hused. apply in_or_app. now right. }
      assert (Hmnt3 : ~ is_table (ram s3) root mem).
      { intros Ht. destruct (gr_new _ _ _ Hgr mem Ht) as [H1|H1]; cbn [ram freelist] in H1;
          contradiction. }
      assert (Htab3 : forall t, is_table (ram s) root t -> is_table (ram s3) root t).
      { intros t Ht. apply (allocs_is_table root (mkState m2 fl) s3); [now apply grows_allocs|].
        now apply (allocs_is_table root s (mkState m2 fl)). }
      destruct Hres as [[-> [Hlk3 Hout3]]|[-> [_ [Hfl3e Hlk3]]]].
      * (* the page is mapped: go on with the next one *)
        cbn [Z.eqb negb].
        replace (u64 (a + PGSIZE)) with (a0 + PGSIZE * (d + 1))
          by (rewrite u64_small; unfold a, PGSIZE in *; lia).
        assert (Hdiff : forall k, 0 <= k -> k < d + Z.of_nat (S n) -> k <> d ->
                  ~ same_entry a (a0 + PGSIZE * k)).
        { intros k Hk0 Hk Hne. unfold a.
          apply pages_differ; try assumption; unfold PGSIZE in *; lia. }
        assert (Hlk3' : forall k, 0 <= k -> k < d + Z.of_nat (S n) -> k <> d ->
                  lookup (ram s3) root (a0 + PGSIZE * k) = lookup (ram s) root (a0 + PGSIZE * k)).
        { intros k Hk0 Hk Hne. rewrite Hout3 by now apply Hdiff. apply Hlk2. }
        assert (Hperm : 0 <= UVM_PERM < 1024) by (rewrite UVM_PERM_val; lia).
        destruct (IH f (d + 1) s3) as [r [s' [Hrun' Hpost]]]; try assumption; try lia.
        { intros k Hk. apply Hlt. lia. }
        { intros k Hk. destruct (Z.eq_dec k d) as [->|Hne].
          - exists (leaf_pte mem UVM_PERM). split; [assumption|].
            rewrite leaf_pte_flags by lia. rewrite UVM_PERM_val. vm_compute. discriminate.
          - rewrite Hlk3' by lia. apply Hmapped. lia. }
        { intros k Hk. rewrite Hlk3' by lia. apply Hfree. lia. }
        exists r, s'. split; [assumption|].
        destruct Hpost as [[-> [[Hwf' [Hal' [mems [Hlen [Hnd [Hin [Hmems Hout]]]]]]] Hzero]]
                          |[-> [Hnz Hrb]]].
        -- (* the rest succeeded *)
           left. split; [reflexivity|].
           assert (Hal : allocs root s s').
           { eapply allocs_trans; [exact Hal2|].
             eapply allocs_trans; [apply grows_allocs; exact Hgr | exact Hal']. }
           assert (Hmnt' : ~ is_table (ram s') root mem).
           { intros Ht. destruct (al_new _ _ _ Hal' mem Ht) as [H1|H1]; [contradiction|].
             apply Hmnin. now apply Hfl3. }
           assert (Hlka : lookup (ram s') root a = Some (leaf_pte mem UVM_PERM)).
           { rewrite Hout; [assumption|]. intros k Hk Hs. apply same_entry_sym in Hs.
             revert Hs. replace (a0 + PGSIZE * (d + 1) + PGSIZE * k)
               with (a0 + PGSIZE * (d + 1 + k)) by lia.
             apply Hdiff; lia. }
           split; [split; [assumption|]; split; [assumption|]|].
           ++ exists (mem :: mems). split; [cbn [List.length]; lia|].
              split.
              { constructor; [|assumption]. intros Hin'.
                destruct (Hmems mem Hin') as [Hf _]. apply Hmnin. now apply Hfl3. }
              split; [|split].
              { intros k Hk. destruct (Z.eq_dec k 0) as [->|Hk0].
                - rewrite Z.mul_0_r, Z.add_0_r. cbn [Z.to_nat nth]. assumption.
                - replace (a + PGSIZE * k) with (a0 + PGSIZE * (d + 1) + PGSIZE * (k - 1))
                    by (unfold a; lia).
                  rewrite Hin by lia.
                  replace (Z.to_nat k) with (S (Z.to_nat (k - 1))) by lia.
                  reflexivity. }
              { intros m [<-|Hm].
                - split; [rewrite Hfl; now left|]. split; [|assumption].
                  intros Hf. apply Hmnin. apply Hfl3. now apply (al_free _ _ _ Hal').
                - destruct (Hmems m Hm) as [Hf [Hnf Hnt]].
                  split; [rewrite Hfl; right; now apply Hfl3 | auto]. }
              { intros va' Hva'. rewrite Hout.
                - rewrite Hout3; [apply Hlk2|].
                  specialize (Hva' 0 ltac:(lia)). now rewrite Z.mul_0_r, Z.add_0_r in Hva'.
                - intros k Hk.
                  replace (a0 + PGSIZE * (d + 1) + PGSIZE * k) with (a + PGSIZE * (k + 1))
                    by (unfold a; lia).
                  apply Hva'. lia. }
           ++ intros k x Hk Hx. destruct (Z.eq_dec k 0) as [->|Hk0].
              ** rewrite Z.add_0_r in Hx. fold a in Hx.
                 rewrite (leaf_pte_mapped_pa _ _ _ mem UVM_PERM Hlka) in Hx
                   by (assumption || lia).
                 rewrite (al_frame _ _ _ Hal').
                 { rewrite (gr_frame _ _ _ Hgr).
                   - cbn [ram]. unfold m2. apply mem_set_in. unfold in_page in Hx. lia.
                   - intros t Ht Hin'. revert Hx.
                     apply (pages_disjoint t mem x); try assumption.
                     + apply (wf_table_page (ram s3) root t); [apply Hwf3 | assumption].
                     + intros ->. contradiction. }
                 { intros t Ht Hin'. revert Hx.
                   apply (pages_disjoint t mem x); try assumption.
                   - apply (wf_table_page (ram s') root t); [apply Hwf' | assumption].
                   - intros ->. contradiction. }
                 { intros p Hp Hin'. revert Hx.
                   pose proof (wf_free_pages _ _ _ (proj2 Hwf3) p Hp) as [Hpa _].
                   apply (pages_disjoint p mem x); try assumption.
                   intros ->. apply Hmnin. now apply Hfl3. }
              ** apply (Hzero (k - 1) x); [lia|].
                 replace (d + 1 + (k - 1)) with (d + k) by lia. assumption.
        -- (* the rest failed and was undone *)
           right. split; [reflexivity|]. split; [assumption|].
           destruct Hrb as [Hwt' [Hnone' [Hout' [Hfreed [Hfl' Htab']]]]].
           split; [assumption|]. split; [|split; [|split; [|split]]].
           ++ intros k Hk. apply Hnone'. lia.
           ++ intros va' Hva'. rewrite Hout'.
              ** rewrite Hout3; [apply Hlk2|]. apply (Hva' d). lia.
              ** intros k Hk. apply Hva'. lia.
           ++ intros k Hk. unfold mapped_pa. rewrite <- Hlk3' by lia.
              apply (Hfreed k). lia.
           ++ intros p Hp. rewrite Hfl in Hp. destruct Hp as [<-|Hp].
              ** left. rewrite <- (leaf_pte_mapped_pa _ _ _ mem UVM_PERM Hlk3)
                   by (assumption || lia).
                 apply (Hfreed d). lia.
              ** rewrite Hused in Hp. apply in_app_or in Hp. destruct Hp as [Hp|Hp].
                 { right. apply Htab'. now apply Hut. }
                 { now apply Hfl'. }
           ++ intros t Ht. apply Htab'. now apply Htab3.
      * (* [mappages] failed: give the page back and undo *)
        cbn [Z.eqb negb]. rewrite bind_kfree.
        set (s4 := mkState (ram s3) (mem :: freelist s3)).
        destruct (rollback_rolled_back root a0 d (Z.of_nat (S n)) s4 s)
          as [s' [Hrun' Hrb]]; try assumption; try lia; try apply Hwf3.
        { intros k Hk. cbn [ram s4]. rewrite Hlk3, Hlk2. now apply Hmapped. }
        { intros k Hk. cbn [ram s4]. rewrite Hlk3, Hlk2. now apply Hfree. }
        { intros va. cbn [ram s4]. rewrite Hlk3. apply Hlk2. }
        { intros p Hp. rewrite Hfl in Hp. destruct Hp as [<-|Hp]; cbn [ram freelist s4].
          - left. now left.
          - rewrite Hused, Hfl3e, app_nil_r in Hp. right. now apply Hut. }
        fold a in Hrun'.
        rewrite (bind_Done _ _ _ _ _ Hrun'). exists 0, s'. split; [reflexivity|].
        right. split; [reflexivity|]. split; [unfold a, PGSIZE in *; lia | assumption].
Qed.


(** The pages of a growth from [oldsz] to [newsz]. *)
Lemma growth_pages oldsz newsz :
  0 <= oldsz <= newsz -> newsz <= MAXVA ->
  let a0 := PGROUNDUP oldsz in
  let n := (PGROUNDUP newsz - a0) / PGSIZE in
  page_aligned a0 /\ 0 <= a0 /\ 0 <= n /\ PGROUNDUP newsz = a0 + PGSIZE * n /\
  newsz <= a0 + PGSIZE * n /\
  (forall k, 0 <= k < n -> a0 + PGSIZE * k < newsz) /\
  (forall a, page_aligned a -> a0 <= a < newsz ->
             exists k, 0 <= k < n /\ a = a0 + PGSIZE * k).
Proof.
  intros Hsz Hmax a0 n.
  assert (Ea0 : PGROUNDUP oldsz = a0) by reflexivity.
  assert (En : (PGROUNDUP newsz - a0) / PGSIZE = n) by reflexivity.
  clearbody n. clearbody a0.
  pose proof (PGROUNDUP_aligned oldsz) as Hal. rewrite Ea0 in Hal.
  pose proof (PGROUNDUP_aligned newsz) as Hah.
  pose proof (PGROUNDUP_bounds oldsz ltac:(lia) ltac:(unfold PGSIZE; lia)) as Hbl.
  rewrite Ea0 in Hbl.
  pose proof (PGROUNDUP_bounds newsz ltac:(lia) ltac:(unfold PGSIZE; lia)) as Hbh.
  pose proof (PGROUNDUP_mono oldsz newsz ltac:(lia) ltac:(unfold PGSIZE; lia)) as Hmono.
  rewrite Ea0 in Hmono.
  assert (Hn : PGROUNDUP newsz = a0 + PGSIZE * n).
  { rewrite <- En. apply page_aligned_mul in Hal, Hah. unfold PGSIZE in *.
    replace (PGROUNDUP newsz - a0) with ((PGROUNDUP newsz / 4096 - a0 / 4096) * 4096) by lia.
    rewrite Z.div_mul by lia. lia. }
  split; [assumption|]. split; [lia|]. split; [unfold PGSIZE in *; lia|].
  split; [assumption|]. split; [lia|]. split.
  - intros k Hk. unfold PGSIZE in *. lia.
  - intros a Ha Hr. exists (a / PGSIZE - a0 / PGSIZE).
    apply page_aligned_mul in Ha, Hal. unfold PGSIZE in *. lia.
Qed.

Lemma uvmalloc_spec root oldsz newsz s :
  wf s root -> 0 <= oldsz <= newsz -> newsz <= MAXVA -> PGROUNDUP newsz <= MAXVA ->
  (forall a, page_aligned a -> PGROUNDUP oldsz <= a < newsz ->
     lookup (ram s) root a = None) ->
  let a0 := PGROUNDUP oldsz in
  let n := (PGROUNDUP newsz - a0) / PGSIZE in
  exists r s',
    uvmalloc MAXVA root oldsz newsz s = Done r s' /\
    ((r = newsz /\ grown root UVM_PERM a0 n s s' /\
      (forall k x, 0 <= k < n ->
         in_page (mapped_pa (ram s') root (a0 + PGSIZE * k)) x -> ram s' x = 0))
     \/ (r = 0 /\ 0 < newsz /\ rolled_back root a0 0 n s s')).
Proof.
  intros Hwf Hsz Hmax Hmaxr Hfree a0 n.
  destruct (growth_pages oldsz newsz Hsz Hmax) as [Ha [Ha0 [Hn0 [Hhi [Hge [Hlt Hidx]]]]]].
  fold a0 in Ha, Ha0, Hn0, Hhi, Hge, Hlt, Hidx. fold n in Hn0, Hhi, Hge, Hlt, Hidx.
  assert (Ea0 : PGROUNDUP oldsz = a0) by reflexivity. clearbody n. clearbody a0.
  unfold uvmalloc. destruct (Z.ltb_spec newsz oldsz); [lia|]. rewrite Ea0.
  destruct (uvmalloc_loop_spec root a0 newsz (Z.to_nat n)
              (S (Z.to_nat (newsz / PGSIZE))) 0 s) as [r [s' [Hrun Hpost]]];
    try assumption; try lia.
  - assert (n <= newsz / PGSIZE + 1); [|lia].
    assert (newsz / PGSIZE * PGSIZE <= newsz)
      by (rewrite Z.mul_comm; apply Z.mul_div_le; unfold PGSIZE; lia).
    pose proof (Z.div_mod newsz PGSIZE ltac:(unfold PGSIZE; lia)).
    pose proof (Z.mod_pos_bound newsz PGSIZE ltac:(unfold PGSIZE; lia)).
    destruct (Z.eq_dec n 0); [assert (0 <= newsz / PGSIZE) by (apply Z.div_pos; unfold PGSIZE; lia); lia|].
    specialize (Hlt (n - 1) ltac:(lia)). unfold PGSIZE in *. lia.
  - rewrite Z2Nat.id by lia. rewrite Z.add_0_l, <- Hhi. assumption.
  - intros k Hk. rewrite Z2Nat.id in Hk by lia. apply Hlt. lia.
  - rewrite Z2Nat.id by lia. lia.
  - intros k Hk. rewrite Z2Nat.id in Hk by lia. apply Hfree.
    + now apply page_offset_aligned.
    + rewrite Ea0. specialize (Hlt k ltac:(lia)). unfold PGSIZE in *. lia.
  - rewrite Z2Nat.id in Hpost by lia.
    replace (a0 + PGSIZE * 0) with a0 in Hrun, Hpost by lia.
    exists r, s'. split; [assumption|].
    destruct Hpost as [[-> [Hg Hz]]|[-> [Hnz Hrb]]]; [left | right; auto].
    split; [reflexivity|]. split; [assumption|].
    intros k x Hk Hx. apply (Hz k x Hk). now rewrite Z.add_0_l.
Qed.

End Uvmalloc.

Section UvmallocTheorems.

Variable MAXVA : Z.
Hypothesis MAXVA_sv39 : MAXVA <= 2 ^ 39.

(** X9: [uvmalloc] grows an address space page by page: when it returns
    [newsz], every page-aligned address between the rounded-up old size and
    [newsz] is mapped with W|X|R|U to a zero-filled page that was on the
    free list, [walkaddr] returns that page, different addresses get
    different pages, and no address outside the range is mapped
    differently. *)
Theorem uvmalloc_grows root oldsz newsz s :
  wf s root -> 0 <= oldsz <= newsz -> newsz <= MAXVA -> PGROUNDUP newsz <= MAXVA ->
  (forall a, page_aligned a -> PGROUNDUP oldsz <= a < newsz ->
     lookup (ram s) root a = None) ->
  exists r s',
    uvmalloc MAXVA root oldsz newsz s = Done r s' /\
    (r = newsz \/ r = 0) /\
    (r = newsz ->
       wf s' root /\
       (forall a, page_aligned a -> PGROUNDUP oldsz <= a < newsz ->
          exists mem,
            lookup (ram s') root a = Some (leaf_pte mem UVM_PERM) /\
            walkaddr MAXVA root a s' = Done mem s' /\
            In mem (freelist s) /\ ~ In mem (freelist s') /\
            (forall x, in_page mem x -> ram s' x = 0)) /\
       (forall a b, page_aligned a -> PGROUNDUP oldsz <= a < newsz ->
          page_aligned b -> PGROUNDUP oldsz <= b < newsz -> a <> b ->
          mapped_pa (ram s') root a <> mapped_pa (ram s') root b) /\
       (forall a, page_aligned a -> 0 <= a < 2 ^ 39 ->
          ~ (PGROUNDUP oldsz <= a < newsz) ->
          lookup (ram s') root a = lookup (ram s) root a)).
Proof.
  intros Hwf Hsz Hmax Hmaxr Hfree.
  destruct (uvmalloc_spec MAXVA MAXVA_sv39 root oldsz newsz s Hwf Hsz Hmax Hmaxr Hfree)
    as [r [s' [Hrun Hpost]]].
  destruct (growth_pages MAXVA MAXVA_sv39 oldsz newsz Hsz Hmax)
    as [Ha [Ha0 [Hn0 [Hhi [Hge [Hlt Hidx]]]]]].
  remember (PGROUNDUP oldsz) as a0 eqn:Ea0.
  remember ((PGROUNDUP newsz - a0) / PGSIZE) as n eqn:En.
  exists r, s'. split; [assumption|].
  split; [destruct Hpost as [[-> _]|[-> _]]; auto|].
  intros Hr. destruct Hpost as [[_ [Hg Hz]]|[Hr0 [Hnz _]]]; [|lia].
  destruct Hg as [Hwf' [Hal [mems [Hlen [Hnd [Hin [Hmems Hout]]]]]]].
  assert (Hperm : 0 <= UVM_PERM < 1024) by (rewrite UVM_PERM_val; lia).
  assert (Hmem : forall k, 0 <= k < n ->
            In (nth (Z.to_nat k) mems 0) mems /\
            page_aligned (nth (Z.to_nat k) mems 0) /\
            0 <= nth (Z.to_nat k) mems 0 < 2 ^ 64).
  { intros k Hk. assert (Hi : In (nth (Z.to_nat k) mems 0) mems) by (apply nth_In; lia).
    split; [assumption|]. destruct (Hmems _ Hi) as [Hf _].
    destruct (wf_free_pages _ _ _ (proj2 Hwf) _ Hf) as [Hpa [Hpr _]]. split; [assumption | lia]. }
  assert (Hpa : forall k, 0 <= k < n ->
            mapped_pa (ram s') root (a0 + PGSIZE * k) = nth (Z.to_nat k) mems 0).
  { intros k Hk. destruct (Hmem k Hk) as [_ [Hma Hmr]].
    apply (leaf_pte_mapped_pa _ _ _ _ UVM_PERM (Hin k Hk)); assumption. }
  split; [assumption|]. split; [|split].
  - intros a Haa Hr'. destruct (Hidx a Haa Hr') as [k [Hk ->]].
    destruct (Hmem k Hk) as [Hi [Hma Hmr]]. destruct (Hmems _ Hi) as [Hf [Hnf Hnt]].
    exists (nth (Z.to_nat k) mems 0). split; [now apply Hin|].
    split; [|split; [assumption|split; [assumption|]]].
    + rewrite walkaddr_spec. unfold walkaddr_ro.
      destruct (Z.leb_spec MAXVA (a0 + PGSIZE * k)); [lia|].
      rewrite (Hin k Hk). rewrite leaf_pte_user by assumption.
      rewrite UVM_PERM_val. cbn [Z.land Z.eqb PTE_U Z.shiftl].
      rewrite <- UVM_PERM_val. rewrite leaf_pte_pa by assumption. reflexivity.
    + intros x Hx. apply (Hz k x Hk). now rewrite Hpa.
  - intros a b Haa Har Hba Hbr Hne.
    destruct (Hidx a Haa Har) as [k [Hk ->]]. destruct (Hidx b Hba Hbr) as [j [Hj ->]].
    rewrite !Hpa by assumption. intros Heq.
    assert (Hkj : Z.to_nat k = Z.to_nat j).
    { apply (proj1 (NoDup_nth mems 0) Hnd); [lia | lia | exact Heq]. }
    apply Hne. f_equal. f_equal. lia.
  - intros a Haa Har Hnr. apply Hout. intros k Hk Hs.
    apply same_entry_aligned in Hs; try assumption.
    + subst a. apply Hnr. specialize (Hlt k Hk). unfold PGSIZE in *. lia.
    + specialize (Hlt k Hk). unfold PGSIZE in *. lia.
    + now apply page_offset_aligned.
Qed.

(** X10: when [uvmalloc] does not return [newsz] it returns 0 after undoing
    its work: every address translates exactly as before the call, every
    page that was free before the call is free again or has become a
    page-table page of the tree, and no page-table page was removed. *)
Theorem uvmalloc_failure_rolls_back root oldsz newsz s :
  wf s root -> 0 <= oldsz <= newsz -> newsz <= MAXVA -> PGROUNDUP newsz <= MAXVA ->
  (forall a, page_aligned a -> PGROUNDUP oldsz <= a < newsz ->
     lookup (ram s) root a = None) ->
  forall r s', uvmalloc MAXVA root oldsz newsz s = Done r s' -> r <> newsz ->
    r = 0 /\ wf_tree (ram s') root /\
    (forall va, lookup (ram s') root va = lookup (ram s) root va) /\
    (forall p, In p (freelist s) -> In p (freelist s') \/ is_table (ram s') root p) /\
    (forall t, is_table (ram s) root t -> is_table (ram s') root t).
Proof.
  intros Hwf Hsz Hmax Hmaxr Hfree r s' Hrun Hne.
  destruct (uvmalloc_spec MAXVA MAXVA_sv39 root oldsz newsz s Hwf Hsz Hmax Hmaxr Hfree)
    as [r0 [s0 [Hrun0 Hpost]]].
  rewrite Hrun in Hrun0. assert (r0 = r /\ s0 = s') as [-> ->] by (split; congruence).
  destruct (growth_pages MAXVA MAXVA_sv39 oldsz newsz Hsz Hmax)
    as [Ha [Ha0 [Hn0 [Hhi [Hge [Hlt Hidx]]]]]].
  remember (PGROUNDUP oldsz) as a0 eqn:Ea0.
  remember ((PGROUNDUP newsz - a0) / PGSIZE) as n eqn:En.
  destruct Hpost as [[Hr _]|[Hr [Hnz Hrb]]]; [contradiction|].
  destruct Hrb as [Hwt' [Hnone' [Hout' [_ [Hfl' Htab']]]]].
  split; [assumption|]. split; [assumption|]. split; [|split; assumption].
  intros va.
  destruct (Z.eq_dec n 0) as [Hz|Hnz'].
  { apply Hout'. intros k Hk. lia. }
  destruct (bounded_search (fun k => ~ same_entry (a0 + PGSIZE * k) va) (Z.to_nat (n - 1)))
    as [Hall|[k [Hk Hsame]]].
  - intros k. destruct (same_entry_dec (a0 + PGSIZE * k) va); [right | left]; tauto.
  - apply Hout'. intros k Hk. apply Hall. rewrite Z2Nat.id by lia. lia.
  - rewrite Z2Nat.id in Hk by lia.
    destruct (same_entry_dec (a0 + PGSIZE * k) va) as [Hs|]; [|contradiction].
    rewrite <- !(lookup_same_entry _ root _ _ Hs).
    rewrite Hnone' by lia. symmetry. apply Hfree.
    + now apply page_offset_aligned.
    + specialize (Hlt k ltac:(lia)). unfold PGSIZE in *. lia.
Qed.

End UvmallocTheorems.

Lemma uvmalloc_grows_witness :
  let s := boot [8192; 12288; 16384; 20480; 24576] in
  exists r s',
    uvmalloc (2 ^ 38) 4096 0 8200 s = Done r s' /\
    (r = 8200 \/ r = 0) /\
    (r = 8200 ->
       wf s' 4096 /\
       (forall a, page_aligned a -> PGROUNDUP 0 <= a < 8200 ->
          exists mem,
            lookup (ram s') 4096 a = Some (leaf_pte mem UVM_PERM) /\
            walkaddr (2 ^ 38) 4096 a s' = Done mem s' /\
            In mem (freelist s) /\ ~ In mem (freelist s') /\
            (forall x, in_page mem x -> ram s' x = 0)) /\
       (forall a b, page_aligned a -> PGROUNDUP 0 <= a < 8200 ->
          page_aligned b -> PGROUNDUP 0 <= b < 8200 -> a <> b ->
          mapped_pa (ram s') 4096 a <> mapped_pa (ram s') 4096 b) /\
       (forall a, page_aligned a -> 0 <= a < 2 ^ 39 ->
          ~ (PGROUNDUP 0 <= a < 8200) ->
          lookup (ram s') 4096 a = lookup (ram s) 4096 a)).
Proof.
  intros s. apply (uvmalloc_grows (2 ^ 38) ltac:(lia) 4096 0 8200 s).
  - apply wf_boot. reflexivity.
  - lia.
  - lia.
  - vm_compute. discriminate.
  - intros a _ _. reflexivity.
Defined.

Lemma uvmalloc_failure_rolls_back_witness :
  let s := boot [8192; 12288; 16384] in
  let s' := state_of (uvmalloc (2 ^ 38) 4096 0 8200 s) s in
  0 = 0 /\ wf_tree (ram s') 4096 /\
  (forall va, lookup (ram s') 4096 va = lookup (ram s) 4096 va) /\
  (forall p, In p (freelist s) -> In p (freelist s') \/ is_table (ram s') 4096 p) /\
  (forall t, is_table (ram s) 4096 t -> is_table (ram s') 4096 t).
Proof.
  intros s s'.
  apply (uvmalloc_failure_rolls_back (2 ^ 38) ltac:(lia) 4096 0 8200 s).
  - apply wf_boot. reflexivity.
  - lia.
  - lia.
  - vm_compute. discriminate.
  - intros a _ _. reflexivity.
  - apply done_state. vm_compute. reflexivity.
  - discriminate.
Defined.

(** ** The copy routines *)

Lemma PGROUNDDOWN_in_page a x : page_aligned a -> in_page a x -> PGROUNDDOWN x = a.
Proof.
  intros Ha [H1 H2]. apply page_aligned_mul in Ha. rewrite PGROUNDDOWN_eq.
  unfold PGSIZE in *. 
  assert (x / 4096 = a / 4096); [|lia].
  symmetry. apply Z.div_unique with (r := x - a); lia.
Qed.

Lemma aligned_lt_step a b : page_aligned a -> page_aligned b -> a < b -> a + PGSIZE <= b.
Proof.
  intros Ha Hb. apply page_aligned_mul in Ha. apply page_aligned_mul in Hb.
  unfold PGSIZE in *. lia.
Qed.

Lemma walkaddr_ro_aligned MAXVA m root a : page_aligned (walkaddr_ro MAXVA m root a).
Proof.
  unfold walkaddr_ro. destruct (MAXVA <=? a); [reflexivity|].
  destruct (lookup m root a); [|reflexivity].
  destruct (Z.land z PTE_U =? 0); [reflexivity | apply PTE2PA_aligned].
Qed.

Lemma walkaddr_ro_range MAXVA m root a : 0 <= walkaddr_ro MAXVA m root a < 2 ^ 64.
Proof.
  unfold walkaddr_ro. destruct (MAXVA <=? a); [lia|].
  destruct (lookup m root a); [|lia].
  destruct (Z.land z PTE_U =? 0); [lia | apply PTE2PA_range].
Qed.

Lemma walkaddr_ro_agree MAXVA m m' root a :
  wf_tree m root -> tables_agree m m' root ->
  walkaddr_ro MAXVA m' root a = walkaddr_ro MAXVA m root a.
Proof.
  intros Hwf Hag. unfold walkaddr_ro. now rewrite (tables_agree_lookup m m' root a Hwf Hag).
Qed.

Lemma user_pa_in_page MAXVA m root va :
  in_page (walkaddr_ro MAXVA m root (PGROUNDDOWN va)) (user_pa MAXVA m root va).
Proof.
  unfold user_pa, in_page. pose proof (PGROUNDDOWN_bounds va). lia.
Qed.

Lemma user_pa_offset MAXVA m root a x :
  page_aligned a -> in_page a x ->
  user_pa MAXVA m root x = walkaddr_ro MAXVA m root a + (x - a).
Proof.
  intros Ha Hx. unfold user_pa. now rewrite (PGROUNDDOWN_in_page a x Ha Hx).
Qed.

Lemma touches_page va len x :
  0 <= len -> va <= x < va + len -> touches va len (PGROUNDDOWN x).
Proof.
  intros Hl Hx. split; [apply PGROUNDDOWN_aligned|].
  pose proof (PGROUNDDOWN_bounds x). split; [|lia].
  rewrite !PGROUNDDOWN_eq. unfold PGSIZE.
  assert (va / 4096 <= x / 4096) by (apply Z.div_le_mono; lia). lia.
Qed.

Section Copyout.

Variable MAXVA : Z.
Variable root : Z.
Variable m0 : memory.
Variable stop : Z.
Hypothesis wf0 : wf_tree m0 root.

(** The loop of [copyout], run from a state whose page-table pages are
    those of [m0]: the pages below [stop] are user-accessible data pages,
    [stop] (when it lies in the range) is not. *)
Lemma copyout_loop_spec : forall fuel dstva src len s,
  tables_agree m0 (ram s) root ->
  0 <= dstva -> 0 <= len -> dstva + len <= 2 ^ 64 ->
  (dstva - PGROUNDDOWN dstva) + len <= Z.of_nat fuel * PGSIZE ->
  (forall a, touches dstva len a -> a < stop ->
     walkaddr_ro MAXVA m0 root a <> 0 /\
     ~ is_table m0 root (walkaddr_ro MAXVA m0 root a) /\
     (forall i, 0 <= i < len -> ~ in_page (walkaddr_ro MAXVA m0 root a) (src + i)) /\
     (forall b, touches dstva len b -> b < stop -> a <> b ->
        walkaddr_ro MAXVA m0 root a <> walkaddr_ro MAXVA m0 root b)) ->
  (stop < dstva + len ->
     0 < len /\ touches dstva len stop /\ walkaddr_ro MAXVA m0 root stop = 0) ->
  exists s',
    copyout_loop MAXVA fuel root dstva src len s
      = Done (if dstva + len <=? stop then 0 else -1) s' /\
    freelist s' = freelist s /\
    tables_agree m0 (ram s') root /\
    (forall i, 0 <= i < len -> dstva + i < stop ->
       ram s' (user_pa MAXVA m0 root (dstva + i)) = ram s (src + i)) /\
    (forall x, (forall i, 0 <= i < len -> dstva + i < stop ->
                  x <> user_pa MAXVA m0 root (dstva + i)) ->
       ram s' x = ram s x).
Proof.
  induction fuel as [|f IH]; intros dstva src len s Hag Hva Hlen Hmax Hfuel Hgood Hstop.
  - pose proof (PGROUNDDOWN_bounds dstva). assert (len = 0) by lia. subst len.
    exists s. cbn [copyout_loop]. change (0 <? 0) with false. cbv iota.
    destruct (Z.leb_spec (dstva + 0) stop) as [_|Hlt].
    + split; [reflexivity|]. split; [reflexivity|]. split; [assumption|].
      split; [intros; lia | reflexivity].
    + destruct (Hstop Hlt) as [Hr _]. lia.
  - cbn [copyout_loop]. destruct (Z.ltb_spec 0 len) as [Hpos|Hz].
    2:{ assert (len = 0) by lia. subst len. exists s.
        destruct (Z.leb_spec (dstva + 0) stop) as [_|Hlt].
        + split; [reflexivity|]. split; [reflexivity|]. split; [assumption|].
          split; [intros; lia | reflexivity].
        + destruct (Hstop Hlt) as [Hr _]. lia. }
    pose proof (PGROUNDDOWN_bounds dstva) as Hb.
    pose proof (PGROUNDDOWN_aligned dstva) as Hal.
    remember (PGROUNDDOWN dstva) as va0 eqn:Eva0.
    assert (Ht0 : touches dstva len va0).
    { split; [assumption|]. rewrite <- Eva0. lia. }
    rewrite (bind_Done _ _ _ _ _ (walkaddr_spec MAXVA root va0 s)).
    rewrite (walkaddr_ro_agree MAXVA m0 (ram s) root va0 wf0 Hag).
    destruct (Z.le_gt_cases stop va0) as [Hbad|Hok].
    + (* the page of [dstva] is not accessible *)
      assert (Hlt : stop < dstva + len) by lia.
      destruct (Hstop Hlt) as [_ [[Hsa Hsr] Hw]]. rewrite <- Eva0 in Hsr.
      assert (stop = va0) by lia. subst stop.
      rewrite Hw. change (0 =? 0) with true. cbv iota.
      destruct (Z.leb_spec (dstva + len) va0); [lia|].
      exists s. split; [reflexivity|]. split; [reflexivity|]. split; [assumption|].
      split; [intros; lia | reflexivity].
    + destruct (Hgood va0 Ht0 Hok) as [Hw [Hnt [Hsrc Hinj]]].
      pose proof (walkaddr_ro_aligned MAXVA m0 root va0) as Hpa.
      pose proof (walkaddr_ro_range MAXVA m0 root va0) as Hpr.
      remember (walkaddr_ro MAXVA m0 root va0) as pa0 eqn:Epa0.
      destruct (Z.eqb_spec pa0 0) as [|_]; [contradiction|].
      rewrite bind_memmove.
      remember (if len <? PGSIZE - (dstva - va0) then len else PGSIZE - (dstva - va0)) as n eqn:En.
      remember (mkState (mem_move (ram s) (pa0 + (dstva - va0)) src n) (freelist s)) as s1 eqn:Es1.
      assert (Hn : 0 < n <= len /\ n <= PGSIZE - (dstva - va0) /\
                   (n < len -> n = PGSIZE - (dstva - va0))).
      { subst n. destruct (Z.ltb_spec len (PGSIZE - (dstva - va0))); unfold PGSIZE in *; lia. }
      assert (Hag1 : tables_agree m0 (ram s1) root).
      { intros t x Ht Hx. subst s1. cbn [ram].
        rewrite mem_move_other.
        - now apply (Hag t x).
        - assert (Hne : pa0 <> t) by (intros ->; contradiction).
          assert (Hta : page_aligned t).
          { destruct Ht as [p [Hp Htp]]. apply (table_at_aligned _ _ _ _ (wf_root_aligned _ _ wf0) Htp). }
          pose proof (pages_disjoint pa0 t x Hpa Hta Hne) as Hd.
          unfold in_page in *. unfold PGSIZE in *.
          destruct (Z.lt_ge_cases x (pa0 + (dstva - va0))); [lia|].
          destruct (Z.lt_ge_cases x (pa0 + (dstva - va0) + n)); [|lia].
          exfalso. apply Hd; lia. }
      assert (Hstep : va0 + PGSIZE <= stop \/ dstva + len <= stop).
      { destruct (Z.le_gt_cases (dstva + len) stop) as [|Hlt]; [now right|left].
        destruct (Hstop Hlt) as [_ [[Hsa _] _]]. now apply aligned_lt_step. }
      destruct (Z.eq_dec n len) as [Hlast|Hmore].
      * (* the last chunk *)
        subst n. rewrite Hlast. replace (len - len) with 0 by lia.
        assert (Hr : forall d sr, copyout_loop MAXVA f root d sr 0 s1 = Done 0 s1).
        { intros. destruct f; reflexivity. }
        rewrite Hr.
        destruct (Z.leb_spec (dstva + len) stop) as [_|Hlt].
        2:{ destruct Hstep; unfold PGSIZE in *; lia. }
        exists s1. split; [reflexivity|]. split; [subst s1; reflexivity|].
        split; [assumption|]. split.
        -- intros i Hi _. rewrite (user_pa_offset MAXVA m0 root va0 (dstva + i) Hal)
             by (unfold in_page; unfold PGSIZE in *; lia).
           rewrite <- Epa0. subst s1. cbn [ram]. rewrite Hlast.
           rewrite mem_move_in by lia. f_equal. lia.
        -- intros x Hx. subst s1. cbn [ram]. rewrite Hlast. apply mem_move_other.
           destruct (Z.lt_ge_cases x (pa0 + (dstva - va0))); [now left|].
           destruct (Z.lt_ge_cases x (pa0 + (dstva - va0) + len)); [|now right].
           exfalso. apply (Hx (x - (pa0 + (dstva - va0)))); [lia | unfold PGSIZE in *; lia |].
           rewrite (user_pa_offset MAXVA m0 root va0 _ Hal) by (unfold in_page; unfold PGSIZE in *; lia).
           rewrite <- Epa0. lia.
      * (* more pages follow *)
        assert (En' : n = PGSIZE - (dstva - va0)) by lia.
        assert (Hsmall : 0 <= va0 + PGSIZE < 2 ^ 64) by (unfold PGSIZE in *; lia).
        rewrite (u64_small _ Hsmall).
        assert (Hal' : page_aligned (va0 + PGSIZE)) by now apply page_succ_aligned.
        assert (Hrd : PGROUNDDOWN (va0 + PGSIZE) = va0 + PGSIZE) by now apply PGROUNDDOWN_id.
        assert (Hsub : forall a, touches (va0 + PGSIZE) (len - n) a ->
                  touches dstva len a /\ a <> va0).
        { intros a [Haa Har]. rewrite Hrd in Har. split; [split; [assumption|]|];
            rewrite <- ?Eva0; unfold PGSIZE in *; lia. }
        destruct (IH (va0 + PGSIZE) (src + n) (len - n) s1) as [s' [Hrun [Hfl [Hag' [Hby Hfr]]]]].
        -- assumption.
        -- lia.
        -- lia.
        -- unfold PGSIZE in *; lia.
        -- rewrite Hrd. unfold PGSIZE in *. lia.
        -- intros a Ha Hlt. destruct (Hsub a Ha) as [Ha' Hne].
           destruct (Hgood a Ha' Hlt) as [G1 [G2 [G3 G4]]].
           split; [assumption|]. split; [assumption|]. split.
           ++ intros i Hi. replace (src + n + i) with (src + (n + i)) by lia. apply G3. lia.
           ++ intros b Hb' Hbl Hab. destruct (Hsub b Hb') as [Hb'' _]. now apply G4.
        -- intros Hlt. replace (va0 + PGSIZE + (len - n)) with (dstva + len) in Hlt
             by (unfold PGSIZE in *; lia).
           destruct (Hstop Hlt) as [_ [[Hsa Hsr] Hw0]]. split; [lia|]. split; [|assumption].
           split; [assumption|]. rewrite Hrd.
           destruct Hstep as [|]; unfold PGSIZE in *; lia.
        -- replace (va0 + PGSIZE + (len - n)) with (dstva + len) in Hrun
             by (unfold PGSIZE in *; lia).
           exists s'. split; [exact Hrun|]. split; [rewrite Hfl; subst s1; reflexivity|].
           split; [assumption|]. split.
           ++ intros i Hi Hlt. destruct (Z.lt_ge_cases i n) as [Hin|Hin].
              ** (* a byte of the first chunk *)
                 rewrite (user_pa_offset MAXVA m0 root va0 (dstva + i) Hal)
                   by (unfold in_page; unfold PGSIZE in *; lia).
                 rewrite <- Epa0. rewrite Hfr.
                 { subst s1. cbn [ram]. rewrite mem_move_in by lia. f_equal. lia. }
                 intros j Hj Hjl Heq.
                 pose proof (user_pa_in_page MAXVA m0 root (va0 + PGSIZE + j)) as Hip.
                 rewrite <- Heq in Hip.
                 assert (Htj : touches (va0 + PGSIZE) (len - n) (PGROUNDDOWN (va0 + PGSIZE + j))).
                 { apply touches_page; lia. }
                 destruct (Hsub _ Htj) as [Htj' Hne].
                 pose proof (PGROUNDDOWN_bounds (va0 + PGSIZE + j)) as Hbj.
                 assert (Hd : pa0 <> walkaddr_ro MAXVA m0 root (PGROUNDDOWN (va0 + PGSIZE + j))).
                 { apply Hinj; [assumption | lia | congruence]. }
                 apply (pages_disjoint pa0 _ (pa0 + (dstva + i - va0)) Hpa
                          (walkaddr_ro_aligned MAXVA m0 root _) Hd);
                   [unfold in_page; unfold PGSIZE in *; lia | assumption].
              ** (* a byte of a later page *)
                 replace (dstva + i) with (va0 + PGSIZE + (i - n)) by (unfold PGSIZE in *; lia).
                 rewrite Hby by (unfold PGSIZE in *; lia).
                 subst s1. cbn [ram]. rewrite mem_move_other.
                 { f_equal. lia. }
                 specialize (Hsrc (n + (i - n)) ltac:(lia)). unfold in_page in Hsrc.
                 unfold PGSIZE in *.
                 destruct (Z.lt_ge_cases (src + n + (i - n)) (pa0 + (dstva - va0))); [now left|].
                 destruct (Z.lt_ge_cases (src + n + (i - n)) (pa0 + (dstva - va0) + n)); [|now right].
                 exfalso. apply Hsrc. replace (src + (n + (i - n))) with (src + n + (i - n)) by lia. lia.
           ++ intros x Hx. rewrite Hfr.
              ** subst s1. cbn [ram]. apply mem_move_other.
                 destruct (Z.lt_ge_cases x (pa0 + (dstva - va0))); [now left|].
                 destruct (Z.lt_ge_cases x (pa0 + (dstva - va0) + n)); [|now right].
                 exfalso. apply (Hx (x - (pa0 + (dstva - va0)))); [lia | unfold PGSIZE in *; lia |].
                 rewrite (user_pa_offset MAXVA m0 root va0 _ Hal)
                   by (unfold in_page; unfold PGSIZE in *; lia).
                 rewrite <- Epa0. lia.
              ** intros j Hj Hjl. replace (va0 + PGSIZE + j) with (dstva + (n + j))
                   by (unfold PGSIZE in *; lia).
                 apply Hx; [lia | unfold PGSIZE in *; lia].
Qed.

End Copyout.
Lemma copy_fuel va len :
  0 <= len ->
  (va - PGROUNDDOWN va) + len <= Z.of_nat (S (Z.to_nat (len / PGSIZE + 1))) * PGSIZE.
Proof.
  intros Hl. pose proof (PGROUNDDOWN_bounds va).
  assert (0 <= len / PGSIZE) by (apply Z.div_pos; unfold PGSIZE; lia).
  rewrite Nat2Z.inj_succ, Z2Nat.id by lia.
  pose proof (Z.div_mod len PGSIZE ltac:(unfold PGSIZE; lia)).
  pose proof (Z.mod_pos_bound len PGSIZE ltac:(unfold PGSIZE; lia)).
  unfold PGSIZE in *. lia.
Qed.

Lemma mappages_boot_tables MAXVA root va size pa perm fl t :
  MAXVA <= 2 ^ 39 -> boot_okb root fl = true ->
  0 <= va -> 0 < size -> va + size <= MAXVA -> 0 <= pa < 2 ^ 64 ->
  is_table (ram (state_of (mappages MAXVA root va size pa perm (boot fl)) (boot fl))) root t ->
  In t (root :: fl).
Proof.
  intros Hmax Hok Hva Hsz Hrange Hpa.
  pose proof (wf_boot root fl Hok) as Hwf.
  destruct (mappages_spec MAXVA Hmax root va size pa perm (boot fl) Hwf Hva Hsz Hrange Hpa)
    as [r [s' [j [Hrun [_ [Hgr _]]]]]].
  - intros k Hk. reflexivity.
  - rewrite Hrun. cbn [state_of]. intros Ht.
    destruct (gr_new _ _ _ Hgr t Ht) as [H0|Hin].
    + left. symmetry. apply (is_table_zero (ram (boot fl)) root t); [reflexivity | exact H0].
    + right. exact Hin.
Qed.

Lemma aligned_below_two_pages a :
  page_aligned a -> 0 <= a < 2 * PGSIZE -> a = 0 \/ a = PGSIZE.
Proof.
  intros Ha Hr. apply page_aligned_mul in Ha. unfold PGSIZE in *.
  assert (a / 4096 = 0 \/ a / 4096 = 1) by lia. lia.
Qed.

(** X11: [copyout] into user pages that are accessible returns 0 with the
    [len] source bytes stored at the physical addresses the user addresses
    translate to, across page boundaries; no other byte of memory, no
    translation and no free page changes.  The destination pages are data
    pages of their own: no page-table page, not the source, no two of them
    the same physical page. *)
Theorem copyout_copies MAXVA root dstva src len s :
  wf_tree (ram s) root ->
  0 <= dstva -> 0 < len -> dstva + len <= 2 ^ 64 ->
  (forall a, touches dstva len a ->
     walkaddr_ro MAXVA (ram s) root a <> 0 /\
     ~ is_table (ram s) root (walkaddr_ro MAXVA (ram s) root a) /\
     (forall i, 0 <= i < len -> ~ in_page (walkaddr_ro MAXVA (ram s) root a) (src + i)) /\
     (forall b, touches dstva len b -> a <> b ->
        walkaddr_ro MAXVA (ram s) root a <> walkaddr_ro MAXVA (ram s) root b)) ->
  exists s',
    copyout MAXVA root dstva src len s = Done 0 s' /\
    freelist s' = freelist s /\
    (forall va, lookup (ram s') root va = lookup (ram s) root va) /\
    (forall i, 0 <= i < len ->
       ram s' (user_pa MAXVA (ram s) root (dstva + i)) = ram s (src + i)) /\
    (forall x, (forall i, 0 <= i < len -> x <> user_pa MAXVA (ram s) root (dstva + i)) ->
       ram s' x = ram s x).
Proof.
  intros Hwf Hva Hlen Hmax Hgood.
  destruct (copyout_loop_spec MAXVA root (ram s) (dstva + len) Hwf
              (S (Z.to_nat (len / PGSIZE + 1))) dstva src len s)
    as [s' [Hrun [Hfl [Hag [Hby Hfr]]]]].
  - apply tables_agree_refl.
  - assumption.
  - lia.
  - assumption.
  - apply copy_fuel. lia.
  - intros a Ha _. destruct (Hgood a Ha) as [G1 [G2 [G3 G4]]].
    split; [assumption|]. split; [assumption|]. split; [assumption|].
    intros b Hb _. now apply G4.
  - lia.
  - rewrite Z.leb_refl in Hrun. exists s'. split; [exact Hrun|]. split; [assumption|].
    split; [intros va; now apply tables_agree_lookup|]. split.
    + intros i Hi. apply Hby; lia.
    + intros x Hx. apply Hfr. intros i Hi _. now apply Hx.
Qed.

(** X12: [copyout] gives up at the first page of the range that [walkaddr]
    does not return (unmapped, not valid, without [PTE_U], or at or above
    [MAXVA]): it returns -1, and the bytes that go to the pages before that
    one have already been stored and stay stored; nothing else changes. *)
Theorem copyout_stops_at_fault MAXVA root dstva src len bad s :
  wf_tree (ram s) root ->
  0 <= dstva -> 0 < len -> dstva + len <= 2 ^ 64 ->
  touches dstva len bad -> walkaddr_ro MAXVA (ram s) root bad = 0 ->
  (forall a, touches dstva len a -> a < bad ->
     walkaddr_ro MAXVA (ram s) root a <> 0 /\
     ~ is_table (ram s) root (walkaddr_ro MAXVA (ram s) root a) /\
     (forall i, 0 <= i < len -> ~ in_page (walkaddr_ro MAXVA (ram s) root a) (src + i)) /\
     (forall b, touches dstva len b -> b < bad -> a <> b ->
        walkaddr_ro MAXVA (ram s) root a <> walkaddr_ro MAXVA (ram s) root b)) ->
  exists s',
    copyout MAXVA root dstva src len s = Done (-1) s' /\
    freelist s' = freelist s /\
    (forall va, lookup (ram s') root va = lookup (ram s) root va) /\
    (forall i, 0 <= i < len -> dstva + i < bad ->
       ram s' (user_pa MAXVA (ram s) root (dstva + i)) = ram s (src + i)) /\
    (forall x, (forall i, 0 <= i < len -> dstva + i < bad ->
                  x <> user_pa MAXVA (ram s) root (dstva + i)) ->
       ram s' x = ram s x).
Proof.
  intros Hwf Hva Hlen Hmax Hbad Hw Hgood.
  destruct (copyout_loop_spec MAXVA root (ram s) bad Hwf
              (S (Z.to_nat (len / PGSIZE + 1))) dstva src len s)
    as [s' [Hrun [Hfl [Hag [Hby Hfr]]]]].
  - apply tables_agree_refl.
  - assumption.
  - lia.
  - assumption.
  - apply copy_fuel. lia.
  - assumption.
  - intros _. split; [assumption|]. split; assumption.
  - destruct Hbad as [_ Hbr].
    destruct (Z.leb_spec (dstva + len) bad) as [|_]; [lia|].
    exists s'. split; [exact Hrun|]. split; [assumption|].
    split; [intros va; now apply tables_agree_lookup|]. split; assumption.
Qed.
Lemma copyout_copies_witness :
  let s := state_of (mappages (2 ^ 38) 4096 0 8192 40960 22 (boot [8192; 12288])) (boot []) in
  exists s',
    copyout (2 ^ 38) 4096 4000 100000 200 s = Done 0 s' /\
    freelist s' = freelist s /\
    (forall va, lookup (ram s') 4096 va = lookup (ram s) 4096 va) /\
    (forall i, 0 <= i < 200 ->
       ram s' (user_pa (2 ^ 38) (ram s) 4096 (4000 + i)) = ram s (100000 + i)) /\
    (forall x, (forall i, 0 <= i < 200 -> x <> user_pa (2 ^ 38) (ram s) 4096 (4000 + i)) ->
       ram s' x = ram s x).
Proof.
  intros s.
  assert (Hwf : wf_tree (ram s) 4096).
  { apply (mappages_boot_wf (2 ^ 38) 4096 0 8192 40960 22 [8192; 12288]);
      [lia | reflexivity | lia | lia | lia | lia]. }
  assert (Htab : forall t, is_table (ram s) 4096 t -> In t [4096; 8192; 12288]).
  { intros t. apply (mappages_boot_tables (2 ^ 38) 4096 0 8192 40960 22 [8192; 12288]);
      [lia | reflexivity | lia | lia | lia | lia]. }
  assert (E0 : walkaddr_ro (2 ^ 38) (ram s) 4096 0 = 40960) by (vm_compute; reflexivity).
  assert (E1 : walkaddr_ro (2 ^ 38) (ram s) 4096 4096 = 45056) by (vm_compute; reflexivity).
  clearbody s.
  apply (copyout_copies (2 ^ 38) 4096 4000 100000 200 s Hwf); [lia | lia | lia |].
  assert (Hpages : forall a, touches 4000 200 a -> a = 0 \/ a = 4096).
  { intros a [Ha Hr]. change (PGROUNDDOWN 4000) with 0 in Hr.
    apply aligned_below_two_pages; [assumption | unfold PGSIZE; lia]. }
  intros a Ha.
  destruct (Hpages a Ha) as [-> | ->]; rewrite ?E0, ?E1.
  - split; [lia|]. split; [intros Ht; apply Htab in Ht; cbn [In] in Ht; lia|].
    split; [intros i Hi; unfold in_page, PGSIZE; lia|].
    intros b Hb Hne. destruct (Hpages b Hb) as [-> | ->]; rewrite ?E0, ?E1; lia.
  - split; [lia|]. split; [intros Ht; apply Htab in Ht; cbn [In] in Ht; lia|].
    split; [intros i Hi; unfold in_page, PGSIZE; lia|].
    intros b Hb Hne. destruct (Hpages b Hb) as [-> | ->]; rewrite ?E0, ?E1; lia.
Defined.

Lemma copyout_stops_at_fault_witness :
  let s := state_of (mappages (2 ^ 38) 4096 0 8192 40960 22 (boot [8192; 12288])) (boot []) in
  exists s',
    copyout (2 ^ 38) 4096 4000 100000 5000 s = Done (-1) s' /\
    freelist s' = freelist s /\
    (forall va, lookup (ram s') 4096 va = lookup (ram s) 4096 va) /\
    (forall i, 0 <= i < 5000 -> 4000 + i < 8192 ->
       ram s' (user_pa (2 ^ 38) (ram s) 4096 (4000 + i)) = ram s (100000 + i)) /\
    (forall x, (forall i, 0 <= i < 5000 -> 4000 + i < 8192 ->
                  x <> user_pa (2 ^ 38) (ram s) 4096 (4000 + i)) ->
       ram s' x = ram s x).
Proof.
  intros s.
  assert (Hwf : wf_tree (ram s) 4096).
  { apply (mappages_boot_wf (2 ^ 38) 4096 0 8192 40960 22 [8192; 12288]);
      [lia | reflexivity | lia | lia | lia | lia]. }
  assert (Htab : forall t, is_table (ram s) 4096 t -> In t [4096; 8192; 12288]).
  { intros t. apply (mappages_boot_tables (2 ^ 38) 4096 0 8192 40960 22 [8192; 12288]);
      [lia | reflexivity | lia | lia | lia | lia]. }
  assert (E0 : walkaddr_ro (2 ^ 38) (ram s) 4096 0 = 40960) by (vm_compute; reflexivity).
  assert (E1 : walkaddr_ro (2 ^ 38) (ram s) 4096 4096 = 45056) by (vm_compute; reflexivity).
  assert (E2 : walkaddr_ro (2 ^ 38) (ram s) 4096 8192 = 0) by (vm_compute; reflexivity).
  clearbody s.
  apply (copyout_stops_at_fault (2 ^ 38) 4096 4000 100000 5000 8192 s Hwf);
    [lia | lia | lia | | exact E2 |].
  { split; [reflexivity|]. change (PGROUNDDOWN 4000) with 0. lia. }
  assert (Hpages : forall a, touches 4000 5000 a -> a < 8192 -> a = 0 \/ a = 4096).
  { intros a [Ha Hr] Hlt. change (PGROUNDDOWN 4000) with 0 in Hr.
    apply aligned_below_two_pages; [assumption | unfold PGSIZE; lia]. }
  intros a Ha Hlt.
  destruct (Hpages a Ha Hlt) as [-> | ->]; rewrite ?E0, ?E1.
  - split; [lia|]. split; [intros Ht; apply Htab in Ht; cbn [In] in Ht; lia|].
    split; [intros i Hi; unfold in_page, PGSIZE; lia|].
    intros b Hb Hbl Hne. destruct (Hpages b Hb Hbl) as [-> | ->]; rewrite ?E0, ?E1; lia.
  - split; [lia|]. split; [intros Ht; apply Htab in Ht; cbn [In] in Ht; lia|].
    split; [intros i Hi; unfold in_page, PGSIZE; lia|].
    intros b Hb Hbl Hne. destruct (Hpages b Hb Hbl) as [-> | ->]; rewrite ?E0, ?E1; lia.
Defined.
Section Copyin.

Variable MAXVA : Z.
Variable root : Z.
Variable m0 : memory.
Variable stop : Z.
Hypothesis wf0 : wf_tree m0 root.

(** The loop of [copyin], run from a state whose page-table pages are those
    of [m0]: the pages below [stop] are user-accessible, [stop] (when it
    lies in the range) is not; the kernel buffer holds no page-table byte
    and none of the bytes to read. *)
Lemma copyin_loop_spec : forall fuel dst srcva len s,
  tables_agree m0 (ram s) root ->
  0 <= srcva -> 0 <= len -> srcva + len <= 2 ^ 64 ->
  (srcva - PGROUNDDOWN srcva) + len <= Z.of_nat fuel * PGSIZE ->
  (forall a, touches srcva len a -> a < stop -> walkaddr_ro MAXVA m0 root a <> 0) ->
  (stop < srcva + len ->
     0 < len /\ touches srcva len stop /\ walkaddr_ro MAXVA m0 root stop = 0) ->
  (forall i t, 0 <= i < len -> is_table m0 root t -> ~ in_page t (dst + i)) ->
  (forall i j, 0 <= i < len -> 0 <= j < len -> srcva + j < stop ->
     dst + i <> user_pa MAXVA m0 root (srcva + j)) ->
  exists s',
    copyin_loop MAXVA fuel root dst srcva len s
      = Done (if srcva + len <=? stop then 0 else -1) s' /\
    freelist s' = freelist s /\
    tables_agree m0 (ram s') root /\
    (forall i, 0 <= i < len -> srcva + i < stop ->
       ram s' (dst + i) = ram s (user_pa MAXVA m0 root (srcva + i))) /\
    (forall x, (forall i, 0 <= i < len -> srcva + i < stop -> x <> dst + i) ->
       ram s' x = ram s x).
Proof.
  induction fuel as [|f IH];
    intros dst srcva len s Hag Hva Hlen Hmax Hfuel Hgood Hstop Hbuf Hsep.
  - pose proof (PGROUNDDOWN_bounds srcva). assert (len = 0) by lia. subst len.
    exists s. cbn [copyin_loop]. change (0 <? 0) with false. cbv iota.
    destruct (Z.leb_spec (srcva + 0) stop) as [_|Hlt].
    + split; [reflexivity|]. split; [reflexivity|]. split; [assumption|].
      split; [intros; lia | reflexivity].
    + destruct (Hstop Hlt) as [Hr _]. lia.
  - cbn [copyin_loop]. destruct (Z.ltb_spec 0 len) as [Hpos|Hz].
    2:{ assert (len = 0) by lia. subst len. exists s.
        destruct (Z.leb_spec (srcva + 0) stop) as [_|Hlt].
        + split; [reflexivity|]. split; [reflexivity|]. split; [assumption|].
          split; [intros; lia | reflexivity].
        + destruct (Hstop Hlt) as [Hr _]. lia. }
    pose proof (PGROUNDDOWN_bounds srcva) as Hb.
    pose proof (PGROUNDDOWN_aligned srcva) as Hal.
    remember (PGROUNDDOWN srcva) as va0 eqn:Eva0.
    assert (Ht0 : touches srcva len va0).
    { split; [assumption|]. rewrite <- Eva0. lia. }
    rewrite (bind_Done _ _ _ _ _ (walkaddr_spec MAXVA root va0 s)).
    rewrite (walkaddr_ro_agree MAXVA m0 (ram s) root va0 wf0 Hag).
    destruct (Z.le_gt_cases stop va0) as [Hbad|Hok].
    + assert (Hlt : stop < srcva + len) by lia.
      destruct (Hstop Hlt) as [_ [[Hsa Hsr] Hw]]. rewrite <- Eva0 in Hsr.
      assert (stop = va0) by lia. subst stop.
      rewrite Hw. change (0 =? 0) with true. cbv iota.
      destruct (Z.leb_spec (srcva + len) va0); [lia|].
      exists s. split; [reflexivity|]. split; [reflexivity|]. split; [assumption|].
      split; [intros; lia | reflexivity].
    + pose proof (Hgood va0 Ht0 Hok) as Hw.
      remember (walkaddr_ro MAXVA m0 root va0) as pa0 eqn:Epa0.
      destruct (Z.eqb_spec pa0 0) as [|_]; [contradiction|].
      rewrite bind_memmove.
      remember (if len <? PGSIZE - (srcva - va0) then len else PGSIZE - (srcva - va0)) as n eqn:En.
      remember (mkState (mem_move (ram s) dst (pa0 + (srcva - va0)) n) (freelist s)) as s1 eqn:Es1.
      assert (Hn : 0 < n <= len /\ n <= PGSIZE - (srcva - va0) /\
                   (n < len -> n = PGSIZE - (srcva - va0))).
      { subst n. destruct (Z.ltb_spec len (PGSIZE - (srcva - va0))); unfold PGSIZE in *; lia. }
      assert (Hag1 : tables_agree m0 (ram s1) root).
      { intros t x Ht Hx. subst s1. cbn [ram].
        rewrite mem_move_other; [now apply (Hag t x)|].
        destruct (Z.lt_ge_cases x dst); [now left|].
        destruct (Z.lt_ge_cases x (dst + n)); [|now right].
        exfalso. apply (Hbuf (x - dst) t); [lia | assumption |].
        now replace (dst + (x - dst)) with x by lia. }
      assert (Hstep : va0 + PGSIZE <= stop \/ srcva + len <= stop).
      { destruct (Z.le_gt_cases (srcva + len) stop) as [|Hlt]; [now right|left].
        destruct (Hstop Hlt) as [_ [[Hsa _] _]]. now apply aligned_lt_step. }
      assert (Hfirst : forall i, 0 <= i < n ->
                ram s1 (dst + i) = ram s (user_pa MAXVA m0 root (srcva + i))).
      { intros i Hi. subst s1. cbn [ram]. rewrite mem_move_in by lia.
        rewrite (user_pa_offset MAXVA m0 root va0 (srcva + i) Hal)
          by (unfold in_page; unfold PGSIZE in *; lia).
        rewrite <- Epa0. f_equal. lia. }
      assert (Hother : forall x, x < dst \/ dst + n <= x -> ram s1 x = ram s x).
      { intros x Hx. subst s1. cbn [ram]. now apply mem_move_other. }
      destruct (Z.eq_dec n len) as [Hlast|Hmore].
      * replace (len - n) with 0 by lia.
        assert (Hr : forall d sv, copyin_loop MAXVA f root d sv 0 s1 = Done 0 s1).
        { intros. destruct f; reflexivity. }
        rewrite Hr.
        destruct (Z.leb_spec (srcva + len) stop) as [_|Hlt].
        2:{ destruct Hstep; unfold PGSIZE in *; lia. }
        exists s1. split; [reflexivity|]. split; [subst s1; reflexivity|].
        split; [assumption|]. split.
        -- intros i Hi _. apply Hfirst. lia.
        -- intros x Hx. apply Hother.
           destruct (Z.lt_ge_cases x dst); [now left|].
           destruct (Z.lt_ge_cases x (dst + n)); [|now right].
           exfalso. apply (Hx (x - dst)); [lia | unfold PGSIZE in *; lia | lia].
      * assert (En' : n = PGSIZE - (srcva - va0)) by lia.
        assert (Hsmall : 0 <= va0 + PGSIZE < 2 ^ 64) by (unfold PGSIZE in *; lia).
        rewrite (u64_small _ Hsmall).
        assert (Hal' : page_aligned (va0 + PGSIZE)) by now apply page_succ_aligned.
        assert (Hrd : PGROUNDDOWN (va0 + PGSIZE) = va0 + PGSIZE) by now apply PGROUNDDOWN_id.
        assert (Hsub : forall a, touches (va0 + PGSIZE) (len - n) a -> touches srcva len a).
        { intros a [Haa Har]. rewrite Hrd in Har. split; [assumption|].
          rewrite <- Eva0. unfold PGSIZE in *. lia. }
        destruct (IH (dst + n) (va0 + PGSIZE) (len - n) s1) as [s' [Hrun [Hfl [Hag' [Hby Hfr]]]]].
        -- assumption.
        -- lia.
        -- lia.
        -- unfold PGSIZE in *; lia.
        -- rewrite Hrd. unfold PGSIZE in *. lia.
        -- intros a Ha Hlt. apply Hgood; [now apply Hsub | assumption].
        -- intros Hlt. replace (va0 + PGSIZE + (len - n)) with (srcva + len) in Hlt
             by (unfold PGSIZE in *; lia).
           destruct (Hstop Hlt) as [_ [[Hsa Hsr] Hw0]]. split; [lia|]. split; [|assumption].
           split; [assumption|]. rewrite Hrd.
           destruct Hstep as [|]; unfold PGSIZE in *; lia.
        -- intros i t Hi Ht. replace (dst + n + i) with (dst + (n + i)) by lia.
           apply Hbuf; [lia | assumption].
        -- intros i j Hi Hj Hjl. replace (dst + n + i) with (dst + (n + i)) by lia.
           replace (va0 + PGSIZE + j) with (srcva + (n + j)) by (unfold PGSIZE in *; lia).
           apply Hsep; [lia | lia | unfold PGSIZE in *; lia].
        -- replace (va0 + PGSIZE + (len - n)) with (srcva + len) in Hrun
             by (unfold PGSIZE in *; lia).
           exists s'. split; [exact Hrun|]. split; [rewrite Hfl; subst s1; reflexivity|].
           split; [assumption|]. split.
           ++ intros i Hi Hlt. destruct (Z.lt_ge_cases i n) as [Hin|Hin].
              ** rewrite Hfr; [apply Hfirst; lia|].
                 intros j Hj _. lia.
              ** replace (dst + i) with (dst + n + (i - n)) by lia.
                 rewrite Hby by (unfold PGSIZE in *; lia).
                 replace (va0 + PGSIZE + (i - n)) with (srcva + i) by (unfold PGSIZE in *; lia).
                 apply Hother.
                 remember (user_pa MAXVA m0 root (srcva + i)) as x eqn:Ex.
                 destruct (Z.lt_ge_cases x dst); [now left|].
                 destruct (Z.lt_ge_cases x (dst + n)); [|now right].
                 exfalso. apply (Hsep (x - dst) i); [lia | lia | lia |].
                 rewrite <- Ex. lia.
           ++ intros x Hx. rewrite Hfr.
              ** apply Hother.
                 destruct (Z.lt_ge_cases x dst); [now left|].
                 destruct (Z.lt_ge_cases x (dst + n)); [|now right].
                 exfalso. apply (Hx (x - dst)); [lia | unfold PGSIZE in *; lia | lia].
              ** intros j Hj Hjl. replace (dst + n + j) with (dst + (n + j)) by lia.
                 apply Hx; [lia | unfold PGSIZE in *; lia].
Qed.

End Copyin.

(** X13: [copyin] from user pages that are accessible returns 0 with the
    kernel buffer holding, byte for byte, what lies at the physical
    addresses the user addresses translate to, across page boundaries; no
    byte outside the buffer, no translation and no free page changes.  The
    buffer holds no page-table byte and none of the bytes read. *)
Theorem copyin_copies MAXVA root dst srcva len s :
  wf_tree (ram s) root ->
  0 <= srcva -> 0 < len -> srcva + len <= 2 ^ 64 ->
  (forall a, touches srcva len a -> walkaddr_ro MAXVA (ram s) root a <> 0) ->
  (forall i t, 0 <= i < len -> is_table (ram s) root t -> ~ in_page t (dst + i)) ->
  (forall i j, 0 <= i < len -> 0 <= j < len ->
     dst + i <> user_pa MAXVA (ram s) root (srcva + j)) ->
  exists s',
    copyin MAXVA root dst srcva len s = Done 0 s' /\
    freelist s' = freelist s /\
    (forall va, lookup (ram s') root va = lookup (ram s) root va) /\
    (forall i, 0 <= i < len ->
       ram s' (dst + i) = ram s (user_pa MAXVA (ram s) root (srcva + i))) /\
    (forall x, x < dst \/ dst + len <= x -> ram s' x = ram s x).
Proof.
  intros Hwf Hva Hlen Hmax Hgood Hbuf Hsep.
  destruct (copyin_loop_spec MAXVA root (ram s) (srcva + len) Hwf
              (S (Z.to_nat (len / PGSIZE + 1))) dst srcva len s)
    as [s' [Hrun [Hfl [Hag [Hby Hfr]]]]].
  - apply tables_agree_refl.
  - assumption.
  - lia.
  - assumption.
  - apply copy_fuel. lia.
  - intros a Ha _. now apply Hgood.
  - lia.
  - assumption.
  - intros i j Hi Hj _. now apply Hsep.
  - rewrite Z.leb_refl in Hrun. exists s'. split; [exact Hrun|]. split; [assumption|].
    split; [intros va; now apply tables_agree_lookup|]. split.
    + intros i Hi. apply Hby; lia.
    + intros x Hx. apply Hfr. intros i Hi _. lia.
Qed.

(** X14: [copyin] gives up at the first page of the range that [walkaddr]
    does not return: it returns -1 with the kernel buffer already holding
    the bytes of the pages before that one, and the rest of the buffer and
    of memory untouched. *)
Theorem copyin_stops_at_fault MAXVA root dst srcva len bad s :
  wf_tree (ram s) root ->
  0 <= srcva -> 0 < len -> srcva + len <= 2 ^ 64 ->
  touches srcva len bad -> walkaddr_ro MAXVA (ram s) root bad = 0 ->
  (forall a, touches srcva len a -> a < bad -> walkaddr_ro MAXVA (ram s) root a <> 0) ->
  (forall i t, 0 <= i < len -> is_table (ram s) root t -> ~ in_page t (dst + i)) ->
  (forall i j, 0 <= i < len -> 0 <= j < len -> srcva + j < bad ->
     dst + i <> user_pa MAXVA (ram s) root (srcva + j)) ->
  exists s',
    copyin MAXVA root dst srcva len s = Done (-1) s' /\
    freelist s' = freelist s /\
    (forall va, lookup (ram s') root va = lookup (ram s) root va) /\
    (forall i, 0 <= i < len -> srcva + i < bad ->
       ram s' (dst + i) = ram s (user_pa MAXVA (ram s) root (srcva + i))) /\
    (forall x, (forall i, 0 <= i < len -> srcva + i < bad -> x <> dst + i) ->
       ram s' x = ram s x).
Proof.
  intros Hwf Hva Hlen Hmax Hbad Hw Hgood Hbuf Hsep.
  destruct (copyin_loop_spec MAXVA root (ram s) bad Hwf
              (S (Z.to_nat (len / PGSIZE + 1))) dst srcva len s)
    as [s' [Hrun [Hfl [Hag [Hby Hfr]]]]].
  - apply tables_agree_refl.
  - assumption.
  - lia.
  - assumption.
  - apply copy_fuel. lia.
  - assumption.
  - intros _. split; [assumption|]. split; assumption.
  - assumption.
  - assumption.
  - destruct Hbad as [_ Hbr].
    destruct (Z.leb_spec (srcva + len) bad) as [|_]; [lia|].
    exists s'. split; [exact Hrun|]. split; [assumption|].
    split; [intros va; now apply tables_agree_lookup|]. split; assumption.
Qed.
(** X15: what [copyout] stores, [copyin] reads back: copying [len] bytes out
    to accessible user pages and then in from the same user address into a
    kernel buffer leaves the buffer equal to the source. *)
Theorem copyout_copyin_roundtrip MAXVA root va src dst len s :
  wf_tree (ram s) root ->
  0 <= va -> 0 < len -> va + len <= 2 ^ 64 ->
  (forall a, touches va len a ->
     walkaddr_ro MAXVA (ram s) root a <> 0 /\
     ~ is_table (ram s) root (walkaddr_ro MAXVA (ram s) root a) /\
     (forall i, 0 <= i < len -> ~ in_page (walkaddr_ro MAXVA (ram s) root a) (src + i)) /\
     (forall b, touches va len b -> a <> b ->
        walkaddr_ro MAXVA (ram s) root a <> walkaddr_ro MAXVA (ram s) root b)) ->
  (forall i t, 0 <= i < len -> is_table (ram s) root t -> ~ in_page t (dst + i)) ->
  (forall i j, 0 <= i < len -> 0 <= j < len ->
     dst + i <> user_pa MAXVA (ram s) root (va + j)) ->
  exists s1 s2,
    copyout MAXVA root va src len s = Done 0 s1 /\
    copyin MAXVA root dst va len s1 = Done 0 s2 /\
    (forall i, 0 <= i < len -> ram s2 (dst + i) = ram s (src + i)).
Proof.
  intros Hwf Hva Hlen Hmax Hgood Hbuf Hsep.
  destruct (copyout_loop_spec MAXVA root (ram s) (va + len) Hwf
              (S (Z.to_nat (len / PGSIZE + 1))) va src len s)
    as [s1 [Hrun1 [_ [Hag1 [Hby1 _]]]]].
  - apply tables_agree_refl.
  - assumption.
  - lia.
  - assumption.
  - apply copy_fuel. lia.
  - intros a Ha _. destruct (Hgood a Ha) as [G1 [G2 [G3 G4]]].
    split; [assumption|]. split; [assumption|]. split; [assumption|].
    intros b Hb _. now apply G4.
  - lia.
  - destruct (copyin_loop_spec MAXVA root (ram s) (va + len) Hwf
                (S (Z.to_nat (len / PGSIZE + 1))) dst va len s1)
      as [s2 [Hrun2 [_ [_ [Hby2 _]]]]].
    + assumption.
    + assumption.
    + lia.
    + assumption.
    + apply copy_fuel. lia.
    + intros a Ha _. now destruct (Hgood a Ha).
    + lia.
    + assumption.
    + intros i j Hi Hj _. now apply Hsep.
    + rewrite Z.leb_refl in Hrun1, Hrun2. exists s1, s2.
      split; [exact Hrun1|]. split; [exact Hrun2|].
      intros i Hi. rewrite Hby2 by lia. apply Hby1; lia.
Qed.

Lemma two_pages_user_pa MAXVA m root va len p0 p1 x :
  0 <= len -> 0 <= va -> va + len <= 2 * PGSIZE ->
  walkaddr_ro MAXVA m root 0 = p0 -> walkaddr_ro MAXVA m root PGSIZE = p1 ->
  va <= x < va + len ->
  in_page p0 (user_pa MAXVA m root x) \/ in_page p1 (user_pa MAXVA m root x).
Proof.
  intros Hl Hva Hr E0 E1 Hx.
  pose proof (user_pa_in_page MAXVA m root x) as Hin.
  destruct (aligned_below_two_pages (PGROUNDDOWN x) (PGROUNDDOWN_aligned x)) as [E|E].
  - pose proof (PGROUNDDOWN_bounds x). rewrite PGROUNDDOWN_eq in *.
    assert (0 <= x / PGSIZE) by (apply Z.div_pos; unfold PGSIZE; lia). unfold PGSIZE in *. lia.
  - left. rewrite E, E0 in Hin. exact Hin.
  - right. rewrite E, E1 in Hin. exact Hin.
Qed.

Lemma copyin_copies_witness :
  let s := state_of (mappages (2 ^ 38) 4096 0 8192 40960 22 (boot [8192; 12288])) (boot []) in
  exists s',
    copyin (2 ^ 38) 4096 100000 4000 200 s = Done 0 s' /\
    freelist s' = freelist s /\
    (forall va, lookup (ram s') 4096 va = lookup (ram s) 4096 va) /\
    (forall i, 0 <= i < 200 ->
       ram s' (100000 + i) = ram s (user_pa (2 ^ 38) (ram s) 4096 (4000 + i))) /\
    (forall x, x < 100000 \/ 100000 + 200 <= x -> ram s' x = ram s x).
Proof.
  intros s.
  assert (Hwf : wf_tree (ram s) 4096).
  { apply (mappages_boot_wf (2 ^ 38) 4096 0 8192 40960 22 [8192; 12288]);
      [lia | reflexivity | lia | lia | lia | lia]. }
  assert (Htab : forall t, is_table (ram s) 4096 t -> In t [4096; 8192; 12288]).
  { intros t. apply (mappages_boot_tables (2 ^ 38) 4096 0 8192 40960 22 [8192; 12288]);
      [lia | reflexivity | lia | lia | lia | lia]. }
  assert (E0 : walkaddr_ro (2 ^ 38) (ram s) 4096 0 = 40960) by (vm_compute; reflexivity).
  assert (E1 : walkaddr_ro (2 ^ 38) (ram s) 4096 PGSIZE = 45056) by (vm_compute; reflexivity).
  clearbody s.
  apply (copyin_copies (2 ^ 38) 4096 100000 4000 200 s Hwf); [lia | lia | lia | | |].
  - intros a [Ha Hr]. change (PGROUNDDOWN 4000) with 0 in Hr.
    destruct (aligned_below_two_pages a Ha) as [-> | ->];
      [unfold PGSIZE; lia | rewrite E0; lia | rewrite E1; lia].
  - intros i t Hi Ht. apply Htab in Ht. cbn [In] in Ht. unfold in_page, PGSIZE. lia.
  - intros i j Hi Hj.
    destruct (two_pages_user_pa (2 ^ 38) (ram s) 4096 4000 200 _ _ (4000 + j)
                ltac:(lia) ltac:(lia) ltac:(unfold PGSIZE; lia) E0 E1 ltac:(lia)) as [H|H];
      unfold in_page, PGSIZE in H; lia.
Defined.

Lemma copyin_stops_at_fault_witness :
  let s := state_of (mappages (2 ^ 38) 4096 0 8192 40960 22 (boot [8192; 12288])) (boot []) in
  exists s',
    copyin (2 ^ 38) 4096 100000 4000 5000 s = Done (-1) s' /\
    freelist s' = freelist s /\
    (forall va, lookup (ram s') 4096 va = lookup (ram s) 4096 va) /\
    (forall i, 0 <= i < 5000 -> 4000 + i < 8192 ->
       ram s' (100000 + i) = ram s (user_pa (2 ^ 38) (ram s) 4096 (4000 + i))) /\
    (forall x, (forall i, 0 <= i < 5000 -> 4000 + i < 8192 -> x <> 100000 + i) ->
       ram s' x = ram s x).
Proof.
  intros s.
  assert (Hwf : wf_tree (ram s) 4096).
  { apply (mappages_boot_wf (2 ^ 38) 4096 0 8192 40960 22 [8192; 12288]);
      [lia | reflexivity | lia | lia | lia | lia]. }
  assert (Htab : forall t, is_table (ram s) 4096 t -> In t [4096; 8192; 12288]).
  { intros t. apply (mappages_boot_tables (2 ^ 38) 4096 0 8192 40960 22 [8192; 12288]);
      [lia | reflexivity | lia | lia | lia | lia]. }
  assert (E0 : walkaddr_ro (2 ^ 38) (ram s) 4096 0 = 40960) by (vm_compute; reflexivity).
  assert (E1 : walkaddr_ro (2 ^ 38) (ram s) 4096 PGSIZE = 45056) by (vm_compute; reflexivity).
  assert (E2 : walkaddr_ro (2 ^ 38) (ram s) 4096 8192 = 0) by (vm_compute; reflexivity).
  clearbody s.
  apply (copyin_stops_at_fault (2 ^ 38) 4096 100000 4000 5000 8192 s Hwf);
    [lia | lia | lia | | exact E2 | | |].
  - split; [reflexivity|]. change (PGROUNDDOWN 4000) with 0. lia.
  - intros a [Ha Hr] Hlt. change (PGROUNDDOWN 4000) with 0 in Hr.
    destruct (aligned_below_two_pages a Ha) as [-> | ->];
      [unfold PGSIZE; lia | rewrite E0; lia | rewrite E1; lia].
  - intros i t Hi Ht. apply Htab in Ht. cbn [In] in Ht. unfold in_page, PGSIZE. lia.
  - intros i j Hi Hj Hlt.
    destruct (two_pages_user_pa (2 ^ 38) (ram s) 4096 4000 (8192 - 4000) _ _ (4000 + j)
                ltac:(lia) ltac:(lia) ltac:(unfold PGSIZE; lia) E0 E1 ltac:(lia)) as [H|H];
      unfold in_page, PGSIZE in H; lia.
Defined.

Lemma copyout_copyin_roundtrip_witness :
  let s := state_of (mappages (2 ^ 38) 4096 0 8192 40960 22 (boot [8192; 12288])) (boot []) in
  exists s1 s2,
    copyout (2 ^ 38) 4096 4000 100000 200 s = Done 0 s1 /\
    copyin (2 ^ 38) 4096 200000 4000 200 s1 = Done 0 s2 /\
    (forall i, 0 <= i < 200 -> ram s2 (200000 + i) = ram s (100000 + i)).
Proof.
  intros s.
  assert (Hwf : wf_tree (ram s) 4096).
  { apply (mappages_boot_wf (2 ^ 38) 4096 0 8192 40960 22 [8192; 12288]);
      [lia | reflexivity | lia | lia | lia | lia]. }
  assert (Htab : forall t, is_table (ram s) 4096 t -> In t [4096; 8192; 12288]).
  { intros t. apply (mappages_boot_tables (2 ^ 38) 4096 0 8192 40960 22 [8192; 12288]);
      [lia | reflexivity | lia | lia | lia | lia]. }
  assert (E0 : walkaddr_ro (2 ^ 38) (ram s) 4096 0 = 40960) by (vm_compute; reflexivity).
  assert (E1 : walkaddr_ro (2 ^ 38) (ram s) 4096 PGSIZE = 45056) by (vm_compute; reflexivity).
  clearbody s.
  apply (copyout_copyin_roundtrip (2 ^ 38) 4096 4000 100000 200000 200 s Hwf);
    [lia | lia | lia | | |].
  - assert (Hpages : forall a, touches 4000 200 a -> a = 0 \/ a = PGSIZE).
    { intros a [Ha Hr]. change (PGROUNDDOWN 4000) with 0 in Hr.
      apply aligned_below_two_pages; [assumption | unfold PGSIZE; lia]. }
    intros a Ha.
    destruct (Hpages a Ha) as [-> | ->]; rewrite ?E0, ?E1.
    + split; [lia|]. split; [intros Ht; apply Htab in Ht; cbn [In] in Ht; lia|].
      split; [intros i Hi; unfold in_page, PGSIZE; lia|].
      intros b Hb Hne. destruct (Hpages b Hb) as [-> | ->]; rewrite ?E0, ?E1; lia.
    + split; [lia|]. split; [intros Ht; apply Htab in Ht; cbn [In] in Ht; lia|].
      split; [intros i Hi; unfold in_page, PGSIZE; lia|].
      intros b Hb Hne. destruct (Hpages b Hb) as [-> | ->]; rewrite ?E0, ?E1; lia.
  - intros i t Hi Ht. apply Htab in Ht. cbn [In] in Ht. unfold in_page, PGSIZE. lia.
  - intros i j Hi Hj.
    destruct (two_pages_user_pa (2 ^ 38) (ram s) 4096 4000 200 _ _ (4000 + j)
                ltac:(lia) ltac:(lia) ltac:(unfold PGSIZE; lia) E0 E1 ltac:(lia)) as [H|H];
      unfold in_page, PGSIZE in H; lia.
Defined.

(** ** [copyinstr] *)

(** The inner loop of [copyinstr] over [n] bytes of one page: [j] is the
    index of the first zero byte, or [n] when there is none. *)
Lemma copyinstr_page_spec : forall (n : nat) p dst max s j,
  0 <= j <= Z.of_nat n ->
  (forall i, 0 <= i < j -> read8 (ram s) (p + i) <> 0) ->
  (j < Z.of_nat n -> read8 (ram s) (p + j) = 0) ->
  let w := if j <? Z.of_nat n then j + 1 else j in
  (forall i i', 0 <= i < w -> 0 <= i' < w -> dst + i <> p + i') ->
  exists s',
    copyinstr_page n p dst max s = Done (j <? Z.of_nat n, dst + j, max - j) s' /\
    freelist s' = freelist s /\
    (forall i, 0 <= i < w -> ram s' (dst + i) = read8 (ram s) (p + i)) /\
    (forall x, x < dst \/ dst + w <= x -> ram s' x = ram s x).
Proof.
  induction n as [|n IH]; intros p dst max s j Hj Hnz Hz w Hsep;
    assert (Ew : w = if j <? Z.of_nat _ then j + 1 else j) by reflexivity; clearbody w.
  - assert (j = 0) by lia. subst j. cbn [copyinstr_page]. exists s.
    change (0 <? Z.of_nat 0) with false. rewrite Z.add_0_r, Z.sub_0_r.
    split; [reflexivity|]. split; [reflexivity|].
    subst w. change (0 <? Z.of_nat 0) with false. cbv iota.
    split; [intros; lia | reflexivity].
  - cbn [copyinstr_page]. unfold load8 at 1. unfold bind at 1.
    destruct (Z.eq_dec j 0) as [->|Hj0].
    + (* the first byte is the terminator *)
      assert (Hlt : 0 < Z.of_nat (S n)) by lia.
      specialize (Hz Hlt). rewrite Z.add_0_r in Hz. rewrite Hz.
      change (0 =? 0) with true. cbv iota.
      subst w. destruct (Z.ltb_spec 0 (Z.of_nat (S n))) as [_|]; [|lia].
      rewrite Z.add_0_r, Z.sub_0_r.
      exists (mkState (write8 (ram s) dst 0) (freelist s)).
      split; [reflexivity|]. split; [reflexivity|]. split.
      * intros i Hi. assert (i = 0) by lia. subst i. rewrite !Z.add_0_r. cbn [ram].
        rewrite Hz. unfold write8. rewrite Z.eqb_refl. reflexivity.
      * intros x Hx. cbn [ram]. apply write8_other. lia.
    + assert (Hc : read8 (ram s) p <> 0).
      { specialize (Hnz 0 ltac:(lia)). now rewrite Z.add_0_r in Hnz. }
      destruct (Z.eqb_spec (read8 (ram s) p) 0) as [|_]; [contradiction|].
      unfold store8 at 1. unfold bind at 1.
      remember (mkState (write8 (ram s) dst (read8 (ram s) p)) (freelist s)) as s1 eqn:Es1.
      assert (Hw : 1 <= w /\ j <= w <= j + 1).
      { subst w. destruct (Z.ltb_spec j (Z.of_nat (S n))); lia. }
      assert (Hrd : forall i, 1 <= i < w -> read8 (ram s1) (p + i) = read8 (ram s) (p + i)).
      { intros i Hi. subst s1. unfold read8. cbn [ram]. rewrite write8_other; [reflexivity|].
        intros E. apply (Hsep 0 i); lia. }
      destruct (IH (p + 1) (dst + 1) (max - 1) s1 (j - 1)) as [s' [Hrun [Hfl [Hby Hfr]]]].
      * lia.
      * intros i Hi. replace (p + 1 + i) with (p + (1 + i)) by lia.
        rewrite Hrd by lia. apply Hnz. lia.
      * intros Hlt. replace (p + 1 + (j - 1)) with (p + j) by lia.
        assert (Hjn : j < Z.of_nat (S n)) by lia.
        rewrite Hrd; [now apply Hz|].
        subst w. destruct (Z.ltb_spec j (Z.of_nat (S n))); lia.
      * intros i i' Hi Hi'.
        assert (Hw' : (if j - 1 <? Z.of_nat n then j - 1 + 1 else j - 1) = w - 1).
        { subst w. destruct (Z.ltb_spec (j - 1) (Z.of_nat n));
            destruct (Z.ltb_spec j (Z.of_nat (S n))); lia. }
        rewrite Hw' in Hi, Hi'.
        replace (dst + 1 + i) with (dst + (1 + i)) by lia.
        replace (p + 1 + i') with (p + (1 + i')) by lia. apply Hsep; lia.
      * assert (Hw' : (if j - 1 <? Z.of_nat n then j - 1 + 1 else j - 1) = w - 1).
        { subst w. destruct (Z.ltb_spec (j - 1) (Z.of_nat n));
            destruct (Z.ltb_spec j (Z.of_nat (S n))); lia. }
        rewrite Hw' in Hby, Hfr.
        assert (Hb : (j - 1 <? Z.of_nat n) = (j <? Z.of_nat (S n))).
        { destruct (Z.ltb_spec (j - 1) (Z.of_nat n));
            destruct (Z.ltb_spec j (Z.of_nat (S n))); try reflexivity; lia. }
        rewrite Hb in Hrun.
        replace (dst + 1 + (j - 1)) with (dst + j) in Hrun by lia.
        replace (max - 1 - (j - 1)) with (max - j) in Hrun by lia.
        exists s'. split; [exact Hrun|]. split; [rewrite Hfl; subst s1; reflexivity|]. split.
        -- intros i Hi. destruct (Z.eq_dec i 0) as [->|Hi0].
           ++ rewrite !Z.add_0_r. rewrite Hfr by lia. subst s1. cbn [ram].
              unfold write8. rewrite Z.eqb_refl. unfold read8. apply Z.mod_mod. lia.
           ++ replace (dst + i) with (dst + 1 + (i - 1)) by lia.
              rewrite Hby by lia. replace (p + 1 + (i - 1)) with (p + i) by lia.
              apply Hrd. lia.
        -- intros x Hx. rewrite Hfr by lia. subst s1. cbn [ram]. apply write8_other. lia.
Qed.

Section Copyinstr.

Variable MAXVA : Z.
Variable root : Z.
Variable m0 : memory.
Hypothesis wf0 : wf_tree m0 root.

(** The loop of [copyinstr], run from a state whose page-table pages are
    those of [m0].  The first [k] bytes are accessible and not zero; then
    comes a zero byte (result 0, [k+1] bytes stored), the end of the [max]
    bytes, or a page that is not accessible (result -1, [k] bytes stored). *)
Lemma copyinstr_loop_spec : forall fuel dst srcva max s k r w,
  tables_agree m0 (ram s) root ->
  0 <= srcva -> 0 <= k <= max -> srcva + max <= 2 ^ 64 ->
  (srcva - PGROUNDDOWN srcva) + max <= Z.of_nat fuel * PGSIZE ->
  (forall i, 0 <= i < k ->
     walkaddr_ro MAXVA m0 root (PGROUNDDOWN (srcva + i)) <> 0 /\
     read8 (ram s) (user_pa MAXVA m0 root (srcva + i)) <> 0) ->
  ((k < max /\ walkaddr_ro MAXVA m0 root (PGROUNDDOWN (srcva + k)) <> 0 /\
    read8 (ram s) (user_pa MAXVA m0 root (srcva + k)) = 0 /\ r = 0 /\ w = k + 1)
   \/ (k = max /\ r = -1 /\ w = k)
   \/ (k < max /\ walkaddr_ro MAXVA m0 root (PGROUNDDOWN (srcva + k)) = 0 /\
       r = -1 /\ w = k)) ->
  (forall i t, 0 <= i < w -> is_table m0 root t -> ~ in_page t (dst + i)) ->
  (forall i j, 0 <= i < w -> 0 <= j < w -> dst + i <> user_pa MAXVA m0 root (srcva + j)) ->
  exists s',
    copyinstr_loop MAXVA fuel root dst srcva max false s = Done r s' /\
    freelist s' = freelist s /\
    tables_agree m0 (ram s') root /\
    (forall i, 0 <= i < w ->
       ram s' (dst + i) = read8 (ram s) (user_pa MAXVA m0 root (srcva + i))) /\
    (forall x, x < dst \/ dst + w <= x -> ram s' x = ram s x).
Proof.
  assert (Hnone : forall f dst srcva s r w k,
            (k < 0 /\ r = 0 /\ w = k + 1) \/ (k = 0 /\ r = -1 /\ w = k) \/ (k < 0 /\ r = -1 /\ w = k) ->
            0 <= k ->
            exists s', copyinstr_loop MAXVA f root dst srcva 0 false s = Done r s' /\
              freelist s' = freelist s /\ s' = s /\ w = 0).
  { intros f dst srcva s r w k Hend Hk. exists s.
    destruct Hend as [[? _]|[[-> [-> ->]]|[? _]]]; try lia.
    split; [destruct f; reflexivity|]. split; [reflexivity|]. split; reflexivity. }
  induction fuel as [|f IH];
    intros dst srcva max s k r w Hag Hva Hk Hmax Hfuel Hpre Hend Hbuf Hsep.
  - pose proof (PGROUNDDOWN_bounds srcva). assert (max = 0) by lia. subst max.
    destruct (Hnone 0%nat dst srcva s r w k) as [s' [Hrun [Hfl [-> ->]]]].
    + destruct Hend as [[? [_ [_ ?]]]|[[? ?]|[? [_ ?]]]]; [left | right; left | right; right]; tauto.
    + lia.
    + exists s. split; [exact Hrun|]. split; [reflexivity|]. split; [assumption|].
      split; [intros; lia | reflexivity].
  - destruct (Z.eq_dec max 0) as [->|Hmx].
    { destruct (Hnone (S f) dst srcva s r w k) as [s' [Hrun [Hfl [-> ->]]]].
      + destruct Hend as [[? [_ [_ ?]]]|[[? ?]|[? [_ ?]]]]; [left | right; left | right; right]; tauto.
      + lia.
      + exists s. split; [exact Hrun|]. split; [reflexivity|]. split; [assumption|].
        split; [intros; lia | reflexivity]. }
    cbn [copyinstr_loop negb andb]. destruct (Z.ltb_spec 0 max) as [Hpos|]; [|lia].
    pose proof (PGROUNDDOWN_bounds srcva) as Hb.
    pose proof (PGROUNDDOWN_aligned srcva) as Hal.
    remember (PGROUNDDOWN srcva) as va0 eqn:Eva0.
    rewrite (bind_Done _ _ _ _ _ (walkaddr_spec MAXVA root va0 s)).
    rewrite (walkaddr_ro_agree MAXVA m0 (ram s) root va0 wf0 Hag).
    remember (walkaddr_ro MAXVA m0 root va0) as pa0 eqn:Epa0.
    assert (Hsame : forall i, 0 <= i -> srcva + i < va0 + PGSIZE ->
              PGROUNDDOWN (srcva + i) = va0 /\
              user_pa MAXVA m0 root (srcva + i) = pa0 + (srcva - va0) + i).
    { intros i Hi Hlt.
      assert (Hin : in_page va0 (srcva + i)) by (unfold in_page; lia).
      split; [now apply PGROUNDDOWN_in_page|].
      rewrite (user_pa_offset MAXVA m0 root va0 _ Hal Hin). rewrite <- Epa0. lia. }
    destruct (Z.eqb_spec pa0 0) as [Hz|Hnz].
    + (* the page of [srcva] is not accessible *)
      assert (k = 0).
      { destruct (Z.eq_dec k 0) as [|Hk0]; [assumption|exfalso].
        destruct (Hpre 0 ltac:(lia)) as [Hw0 _].
        destruct (Hsame 0 ltac:(lia) ltac:(lia)) as [E _]. rewrite E, <- Epa0 in Hw0.
        contradiction. }
      subst k. destruct (Hsame 0 ltac:(lia) ltac:(lia)) as [E _].
      rewrite E, <- Epa0 in Hend.
      destruct Hend as [[_ [Hc _]]|[[? _]|[_ [_ [-> ->]]]]]; [contradiction | lia |].
      exists s. split; [reflexivity|]. split; [reflexivity|]. split; [assumption|].
      split; [intros; lia | reflexivity].
    + remember (if max <? PGSIZE - (srcva - va0) then max else PGSIZE - (srcva - va0)) as n eqn:En.
      assert (Hn : 0 < n <= max /\ n <= PGSIZE - (srcva - va0) /\
                   (n < max -> n = PGSIZE - (srcva - va0))).
      { subst n. destruct (Z.ltb_spec max (PGSIZE - (srcva - va0))); unfold PGSIZE in *; lia. }
      assert (Hkw : k <= w <= k + 1).
      { destruct Hend as [[_ [_ [_ [_ ->]]]]|[[_ [_ ->]]|[_ [_ [_ ->]]]]]; lia. }
      destruct (Z.lt_ge_cases k n) as [Hkn|Hkn].
      * (* the terminator is in this page *)
        destruct (Hsame k ltac:(lia) ltac:(unfold PGSIZE in *; lia)) as [Ek Eu].
        assert (Hc1 : read8 (ram s) (user_pa MAXVA m0 root (srcva + k)) = 0 /\ r = 0 /\ w = k + 1).
        { destruct Hend as [[_ [_ H]]|[[? _]|[_ [Hc _]]]]; [exact H | lia |].
          rewrite Ek, <- Epa0 in Hc. contradiction. }
        destruct Hc1 as [Hzero [-> ->]].
        destruct (copyinstr_page_spec (Z.to_nat n) (pa0 + (srcva - va0)) dst max s k)
          as [s1 [Hrun [Hfl [Hby Hfr]]]].
        -- lia.
        -- intros i Hi. destruct (Hsame i ltac:(lia) ltac:(unfold PGSIZE in *; lia)) as [_ E].
           rewrite <- E. now apply Hpre.
        -- intros _. rewrite <- Eu. exact Hzero.
        -- destruct (Z.ltb_spec k (Z.of_nat (Z.to_nat n))) as [_|]; [|lia].
           intros i i' Hi Hi'.
           destruct (Hsame i' ltac:(lia) ltac:(unfold PGSIZE in *; lia)) as [_ E].
           rewrite <- E. apply Hsep; lia.
        -- destruct (Z.ltb_spec k (Z.of_nat (Z.to_nat n))) as [_|]; [|lia].
           rewrite (bind_Done _ _ _ _ _ Hrun). cbv beta iota.
           assert (Hr : forall d sv mx, copyinstr_loop MAXVA f root d sv mx true s1 = Done 0 s1).
           { intros. destruct f; reflexivity. }
           rewrite Hr. exists s1. split; [reflexivity|]. split; [assumption|]. split.
           ++ intros t x Ht Hx. rewrite Hfr; [now apply (Hag t x)|].
              destruct (Z.lt_ge_cases x dst); [now left|].
              destruct (Z.lt_ge_cases x (dst + (k + 1))); [|now right].
              exfalso. apply (Hbuf (x - dst) t); [lia | assumption |].
              now replace (dst + (x - dst)) with x by lia.
           ++ split; [|assumption].
              intros i Hi. rewrite Hby by assumption.
              destruct (Hsame i ltac:(lia) ltac:(unfold PGSIZE in *; lia)) as [_ E].
              now rewrite E.
      * (* the whole chunk is copied *)
        destruct (copyinstr_page_spec (Z.to_nat n) (pa0 + (srcva - va0)) dst max s n)
          as [s1 [Hrun [Hfl [Hby Hfr]]]].
        -- lia.
        -- intros i Hi. destruct (Hsame i ltac:(lia) ltac:(unfold PGSIZE in *; lia)) as [_ E].
           rewrite <- E. apply Hpre. lia.
        -- lia.
        -- destruct (Z.ltb_spec n (Z.of_nat (Z.to_nat n))) as [|_]; [lia|].
           intros i i' Hi Hi'.
           destruct (Hsame i' ltac:(lia) ltac:(unfold PGSIZE in *; lia)) as [_ E].
           rewrite <- E. apply Hsep; lia.
        -- destruct (Z.ltb_spec n (Z.of_nat (Z.to_nat n))) as [|_]; [lia|].
           rewrite (bind_Done _ _ _ _ _ Hrun). cbv beta iota.
           assert (Hag1 : tables_agree m0 (ram s1) root).
           { intros t x Ht Hx. rewrite Hfr; [now apply (Hag t x)|].
             destruct (Z.lt_ge_cases x dst); [now left|].
             destruct (Z.lt_ge_cases x (dst + n)); [|now right].
             exfalso. apply (Hbuf (x - dst) t); [lia | assumption |].
             now replace (dst + (x - dst)) with x by lia. }
           assert (Hkeep : forall j, 0 <= j < w ->
                     read8 (ram s1) (user_pa MAXVA m0 root (srcva + j))
                     = read8 (ram s) (user_pa MAXVA m0 root (srcva + j))).
           { intros j Hj. unfold read8. rewrite Hfr; [reflexivity|].
             remember (user_pa MAXVA m0 root (srcva + j)) as x eqn:Ex.
             destruct (Z.lt_ge_cases x dst); [now left|].
             destruct (Z.lt_ge_cases x (dst + n)); [|now right].
             exfalso. apply (Hsep (x - dst) j); [lia | lia |]. rewrite <- Ex. lia. }
           destruct (Z.eq_dec n max) as [Hlast|Hmore].
           ++ (* the [max] bytes are used up *)
              assert (k = max) by lia.
              destruct Hend as [[? _]|[[_ [-> ->]]|[? _]]]; try lia.
              replace (max - n) with 0 by lia.
              assert (Hr : forall d sv, copyinstr_loop MAXVA f root d sv 0 false s1 = Done (-1) s1).
              { intros. destruct f; reflexivity. }
              rewrite Hr. exists s1. split; [reflexivity|]. split; [assumption|].
              split; [assumption|]. split.
              ** intros i Hi. rewrite Hby by lia.
                 destruct (Hsame i ltac:(lia) ltac:(unfold PGSIZE in *; lia)) as [_ E].
                 now rewrite E.
              ** intros x Hx. apply Hfr. lia.
           ++ assert (En' : n = PGSIZE - (srcva - va0)) by lia.
              assert (Hsmall : 0 <= va0 + PGSIZE < 2 ^ 64) by (unfold PGSIZE in *; lia).
              rewrite (u64_small _ Hsmall).
              assert (Hrd : PGROUNDDOWN (va0 + PGSIZE) = va0 + PGSIZE).
              { apply PGROUNDDOWN_id. now apply page_succ_aligned. }
              assert (Hshift : forall i, va0 + PGSIZE + i = srcva + (n + i))
                by (intros; unfold PGSIZE in *; lia).
              destruct (IH (dst + n) (va0 + PGSIZE) (max - n) s1 (k - n) r (w - n))
                as [s' [Hrun' [Hfl' [Hag' [Hby' Hfr']]]]].
              ** assumption.
              ** lia.
              ** lia.
              ** unfold PGSIZE in *; lia.
              ** rewrite Hrd. unfold PGSIZE in *. lia.
              ** intros i Hi. rewrite Hshift. rewrite Hkeep by lia. apply Hpre. lia.
              ** rewrite Hshift. replace (n + (k - n)) with k by lia.
                 destruct Hend as [[H1 [H2 [H3 [H4 H5]]]]|[[H1 [H2 H3]]|[H1 [H2 [H3 H4]]]]].
                 --- left. split; [lia|]. split; [assumption|].
                     split; [rewrite Hkeep by lia; assumption|]. split; [assumption | lia].
                 --- right; left. split; [lia|]. split; [assumption | lia].
                 --- right; right. split; [lia|]. split; [assumption|]. split; [assumption | lia].
              ** intros i t Hi Ht. replace (dst + n + i) with (dst + (n + i)) by lia.
                 apply Hbuf; [lia | assumption].
              ** intros i j Hi Hj. replace (dst + n + i) with (dst + (n + i)) by lia.
                 rewrite Hshift. apply Hsep; lia.
              ** exists s'. split; [exact Hrun'|]. split; [congruence|].
                 split; [assumption|]. split.
                 --- intros i Hi. destruct (Z.lt_ge_cases i n) as [Hin|Hin].
                     +++ rewrite Hfr' by lia. rewrite Hby by lia.
                         destruct (Hsame i ltac:(lia) ltac:(unfold PGSIZE in *; lia)) as [_ E].
                         now rewrite E.
                     +++ replace (dst + i) with (dst + n + (i - n)) by lia.
                         rewrite Hby' by lia. rewrite Hshift.
                         replace (n + (i - n)) with i by lia. apply Hkeep. lia.
                 --- intros x Hx. rewrite Hfr' by lia. apply Hfr. lia.
Qed.

End Copyinstr.
(** X16: [copyinstr] copies a string up to and including its terminator:
    when the first zero byte of user memory from [srcva] on is byte [k],
    with [k < max] and the pages of the bytes up to it accessible, it
    returns 0 with bytes 0 to [k] of the buffer equal to the user bytes (the
    last one the terminator), also when the string crosses a page boundary;
    nothing beyond byte [k] of the buffer is written. *)
Theorem copyinstr_copies MAXVA root dst srcva max k s :
  wf_tree (ram s) root ->
  0 <= srcva -> 0 <= k < max -> srcva + max <= 2 ^ 64 ->
  (forall i, 0 <= i <= k ->
     walkaddr_ro MAXVA (ram s) root (PGROUNDDOWN (srcva + i)) <> 0) ->
  (forall i, 0 <= i < k -> user_byte MAXVA (ram s) root (srcva + i) <> 0) ->
  user_byte MAXVA (ram s) root (srcva + k) = 0 ->
  (forall i t, 0 <= i <= k -> is_table (ram s) root t -> ~ in_page t (dst + i)) ->
  (forall i j, 0 <= i <= k -> 0 <= j <= k ->
     dst + i <> user_pa MAXVA (ram s) root (srcva + j)) ->
  exists s',
    copyinstr MAXVA root dst srcva max s = Done 0 s' /\
    freelist s' = freelist s /\
    (forall va, lookup (ram s') root va = lookup (ram s) root va) /\
    (forall i, 0 <= i <= k ->
       ram s' (dst + i) = user_byte MAXVA (ram s) root (srcva + i)) /\
    (forall x, x < dst \/ dst + k < x -> ram s' x = ram s x).
Proof.
  intros Hwf Hva Hk Hmax Hacc Hnz Hz Hbuf Hsep.
  destruct (copyinstr_loop_spec MAXVA root (ram s) Hwf
              (S (Z.to_nat (max / PGSIZE + 1))) dst srcva max s k 0 (k + 1))
    as [s' [Hrun [Hfl [Hag [Hby Hfr]]]]].
  - apply tables_agree_refl.
  - assumption.
  - lia.
  - assumption.
  - apply copy_fuel. lia.
  - intros i Hi. split; [apply Hacc; lia | apply Hnz; lia].
  - left. split; [lia|]. split; [apply Hacc; lia|]. split; [exact Hz|]. split; reflexivity.
  - intros i t Hi. apply Hbuf. lia.
  - intros i j Hi Hj. apply Hsep; lia.
  - exists s'. split; [exact Hrun|]. split; [assumption|].
    split; [intros va; now apply tables_agree_lookup|]. split.
    + intros i Hi. apply Hby. lia.
    + intros x Hx. apply Hfr. lia.
Qed.

(** X17: without a zero byte among the first [max] bytes [copyinstr] fails:
    it returns -1 after storing all [max] bytes in the buffer, none of them
    a terminator.  A string of exactly [max] non-zero bytes is such a case,
    and so is [max = 0]. *)
Theorem copyinstr_no_terminator MAXVA root dst srcva max s :
  wf_tree (ram s) root ->
  0 <= srcva -> 0 <= max -> srcva + max <= 2 ^ 64 ->
  (forall i, 0 <= i < max ->
     walkaddr_ro MAXVA (ram s) root (PGROUNDDOWN (srcva + i)) <> 0 /\
     user_byte MAXVA (ram s) root (srcva + i) <> 0) ->
  (forall i t, 0 <= i < max -> is_table (ram s) root t -> ~ in_page t (dst + i)) ->
  (forall i j, 0 <= i < max -> 0 <= j < max ->
     dst + i <> user_pa MAXVA (ram s) root (srcva + j)) ->
  exists s',
    copyinstr MAXVA root dst srcva max s = Done (-1) s' /\
    freelist s' = freelist s /\
    (forall va, lookup (ram s') root va = lookup (ram s) root va) /\
    (forall i, 0 <= i < max ->
       ram s' (dst + i) = user_byte MAXVA (ram s) root (srcva + i) /\ ram s' (dst + i) <> 0) /\
    (forall x, x < dst \/ dst + max <= x -> ram s' x = ram s x).
Proof.
  intros Hwf Hva Hmx Hmax Hpre Hbuf Hsep.
  destruct (copyinstr_loop_spec MAXVA root (ram s) Hwf
              (S (Z.to_nat (max / PGSIZE + 1))) dst srcva max s max (-1) max)
    as [s' [Hrun [Hfl [Hag [Hby Hfr]]]]].
  - apply tables_agree_refl.
  - assumption.
  - lia.
  - assumption.
  - apply copy_fuel. lia.
  - assumption.
  - right; left. split; [reflexivity|]. split; reflexivity.
  - assumption.
  - assumption.
  - exists s'. split; [exact Hrun|]. split; [assumption|].
    split; [intros va; now apply tables_agree_lookup|]. split; [|assumption].
    intros i Hi. rewrite (Hby i Hi). split; [reflexivity|]. now apply Hpre.
Qed.

(** X18: [copyinstr] gives up at a page that [walkaddr] does not return:
    when the [k] bytes before that page are accessible and not zero it
    returns -1 with those [k] bytes stored in the buffer and no
    terminator. *)
Theorem copyinstr_stops_at_fault MAXVA root dst srcva max k s :
  wf_tree (ram s) root ->
  0 <= srcva -> 0 <= k < max -> srcva + max <= 2 ^ 64 ->
  (forall i, 0 <= i < k ->
     walkaddr_ro MAXVA (ram s) root (PGROUNDDOWN (srcva + i)) <> 0 /\
     user_byte MAXVA (ram s) root (srcva + i) <> 0) ->
  walkaddr_ro MAXVA (ram s) root (PGROUNDDOWN (srcva + k)) = 0 ->
  (forall i t, 0 <= i < k -> is_table (ram s) root t -> ~ in_page t (dst + i)) ->
  (forall i j, 0 <= i < k -> 0 <= j < k ->
     dst + i <> user_pa MAXVA (ram s) root (srcva + j)) ->
  exists s',
    copyinstr MAXVA root dst srcva max s = Done (-1) s' /\
    freelist s' = freelist s /\
    (forall va, lookup (ram s') root va = lookup (ram s) root va) /\
    (forall i, 0 <= i < k ->
       ram s' (dst + i) = user_byte MAXVA (ram s) root (srcva + i)) /\
    (forall x, x < dst \/ dst + k <= x -> ram s' x = ram s x).
Proof.
  intros Hwf Hva Hk Hmax Hpre Hbad Hbuf Hsep.
  destruct (copyinstr_loop_spec MAXVA root (ram s) Hwf
              (S (Z.to_nat (max / PGSIZE + 1))) dst srcva max s k (-1) k)
    as [s' [Hrun [Hfl [Hag [Hby Hfr]]]]].
  - apply tables_agree_refl.
  - assumption.
  - lia.
  - assumption.
  - apply copy_fuel. lia.
  - assumption.
  - right; right. split; [lia|]. split; [assumption|]. split; reflexivity.
  - assumption.
  - assumption.
  - exists s'. split; [exact Hrun|]. split; [assumption|].
    split; [intros va; now apply tables_agree_lookup|]. split; assumption.
Qed.

(** The example machines. *)

Lemma two_page_state_wf : wf_tree (ram two_page_state) 4096.
Proof.
  apply (mappages_boot_wf (2 ^ 38) 4096 0 8192 40960 22 [8192; 12288]);
    [lia | reflexivity | lia | lia | lia | lia].
Qed.

Lemma two_page_state_tables t :
  is_table (ram two_page_state) 4096 t -> In t [4096; 8192; 12288].
Proof.
  apply (mappages_boot_tables (2 ^ 38) 4096 0 8192 40960 22 [8192; 12288]);
    [lia | reflexivity | lia | lia | lia | lia].
Qed.

Lemma string_state_agree : tables_agree (ram two_page_state) (ram string_state) 4096.
Proof.
  intros t x Ht Hx. apply two_page_state_tables in Ht. cbn [In] in Ht.
  unfold in_page, PGSIZE in Hx. unfold string_state. cbn [ram].
  rewrite !write8_other by lia. reflexivity.
Qed.

Lemma string_state_wf : wf_tree (ram string_state) 4096.
Proof. exact (tables_agree_wf _ _ _ two_page_state_wf string_state_agree). Qed.

Lemma string_state_tables t :
  is_table (ram string_state) 4096 t -> In t [4096; 8192; 12288].
Proof.
  intros Ht. apply two_page_state_tables.
  now apply (tables_agree_is_table _ _ _ t two_page_state_wf string_state_agree).
Qed.

Lemma string_state_user_pa x :
  0 <= x < 2 * PGSIZE ->
  in_page 40960 (user_pa (2 ^ 38) (ram string_state) 4096 x) \/
  in_page 45056 (user_pa (2 ^ 38) (ram string_state) 4096 x).
Proof.
  intros Hx.
  apply (two_pages_user_pa (2 ^ 38) (ram string_state) 4096 0 (2 * PGSIZE) _ _ x);
    [unfold PGSIZE; lia | lia | lia | vm_compute; reflexivity | vm_compute; reflexivity | lia].
Qed.

Lemma copyinstr_copies_witness :
  exists s',
    copyinstr (2 ^ 38) 4096 100000 4095 16 string_state = Done 0 s' /\
    freelist s' = freelist string_state /\
    (forall va, lookup (ram s') 4096 va = lookup (ram string_state) 4096 va) /\
    (forall i, 0 <= i <= 2 ->
       ram s' (100000 + i) = user_byte (2 ^ 38) (ram string_state) 4096 (4095 + i)) /\
    (forall x, x < 100000 \/ 100000 + 2 < x -> ram s' x = ram string_state x).
Proof.
  apply (copyinstr_copies (2 ^ 38) 4096 100000 4095 16 2 string_state string_state_wf);
    [lia | lia | lia | | | | |].
  - intros i Hi. assert (Hc : i = 0 \/ i = 1 \/ i = 2) by lia.
    destruct Hc as [-> | [-> | ->]]; vm_compute; discriminate.
  - intros i Hi. assert (Hc : i = 0 \/ i = 1) by lia.
    destruct Hc as [-> | ->]; vm_compute; discriminate.
  - vm_compute. reflexivity.
  - intros i t Hi Ht. apply string_state_tables in Ht. cbn [In] in Ht.
    unfold in_page, PGSIZE. lia.
  - intros i j Hi Hj.
    destruct (string_state_user_pa (4095 + j) ltac:(unfold PGSIZE; lia)) as [H|H];
      unfold in_page, PGSIZE in H; lia.
Defined.

Lemma copyinstr_no_terminator_witness :
  exists s',
    copyinstr (2 ^ 38) 4096 100000 4095 2 string_state = Done (-1) s' /\
    freelist s' = freelist string_state /\
    (forall va, lookup (ram s') 4096 va = lookup (ram string_state) 4096 va) /\
    (forall i, 0 <= i < 2 ->
       ram s' (100000 + i) = user_byte (2 ^ 38) (ram string_state) 4096 (4095 + i) /\
       ram s' (100000 + i) <> 0) /\
    (forall x, x < 100000 \/ 100000 + 2 <= x -> ram s' x = ram string_state x).
Proof.
  apply (copyinstr_no_terminator (2 ^ 38) 4096 100000 4095 2 string_state string_state_wf);
    [lia | lia | lia | | |].
  - intros i Hi. assert (Hc : i = 0 \/ i = 1) by lia.
    destruct Hc as [-> | ->]; split; vm_compute; discriminate.
  - intros i t Hi Ht. apply string_state_tables in Ht. cbn [In] in Ht.
    unfold in_page, PGSIZE. lia.
  - intros i j Hi Hj.
    destruct (string_state_user_pa (4095 + j) ltac:(unfold PGSIZE; lia)) as [H|H];
      unfold in_page, PGSIZE in H; lia.
Defined.

Lemma copyinstr_stops_at_fault_witness :
  exists s',
    copyinstr (2 ^ 38) 4096 100000 8190 16 string_state = Done (-1) s' /\
    freelist s' = freelist string_state /\
    (forall va, lookup (ram s') 4096 va = lookup (ram string_state) 4096 va) /\
    (forall i, 0 <= i < 2 ->
       ram s' (100000 + i) = user_byte (2 ^ 38) (ram string_state) 4096 (8190 + i)) /\
    (forall x, x < 100000 \/ 100000 + 2 <= x -> ram s' x = ram string_state x).
Proof.
  apply (copyinstr_stops_at_fault (2 ^ 38) 4096 100000 8190 16 2 string_state string_state_wf);
    [lia | lia | lia | | | |].
  - intros i Hi. assert (Hc : i = 0 \/ i = 1) by lia.
    destruct Hc as [-> | ->]; split; vm_compute; discriminate.
  - vm_compute. reflexivity.
  - intros i t Hi Ht. apply string_state_tables in Ht. cbn [In] in Ht.
    unfold in_page, PGSIZE. lia.
  - intros i j Hi Hj.
    destruct (string_state_user_pa (8190 + j) ltac:(unfold PGSIZE; lia)) as [H|H];
      unfold in_page, PGSIZE in H; lia.
Defined.

(** ** [freewalk] *)

Lemma entries_from_In i n idx :
  In idx (entries_from i n) <-> Z.of_nat i <= idx < Z.of_nat (i + n).
Proof.
  unfold entries_from. rewrite in_map_iff. split.
  - intros [k [<- Hk]]. apply in_seq in Hk. lia.
  - intros H. exists (Z.to_nat idx). split; [lia|]. apply in_seq. lia.
Qed.

Lemma entries_In i : In i entries <-> index_ok i.
Proof. unfold entries, index_ok. rewrite entries_from_In. lia. Qed.

Lemma entries_from_S i n : entries_from i (S n) = Z.of_nat i :: entries_from (S i) n.
Proof. reflexivity. Qed.

Lemma forallb_ext_in {A} (f g : A -> bool) l :
  (forall a, In a l -> f a = g a) -> forallb f l = forallb g l.
Proof.
  induction l as [|a l IH]; intros H; [reflexivity|]. cbn [forallb].
  rewrite (H a (or_introl eq_refl)), IH; [reflexivity|].
  intros b Hb. apply H. now right.
Qed.

Lemma flat_map_ext_in {A B} (f g : A -> list B) l :
  (forall a, In a l -> f a = g a) -> flat_map f l = flat_map g l.
Proof.
  induction l as [|a l IH]; intros H; [reflexivity|]. cbn [flat_map].
  rewrite (H a (or_introl eq_refl)), IH; [reflexivity|].
  intros b Hb. apply H. now right.
Qed.

Lemma NoDup_app_disjoint {A} (l1 l2 : list A) x :
  NoDup (l1 ++ l2) -> In x l1 -> ~ In x l2.
Proof.
  induction l1 as [|a l1 IH]; intros Hnd Hin; [contradiction|].
  cbn [app] in Hnd. inversion Hnd as [|? ? Hna Hnd']; subst.
  destruct Hin as [->|Hin].
  - intros H2. apply Hna. apply in_or_app. now right.
  - now apply IH.
Qed.

Lemma entry_read_ext m m' t i :
  index_ok i -> (forall x, in_page t x -> m' x = m x) ->
  read64 m' (t + 8 * i) = read64 m (t + 8 * i).
Proof.
  intros Hi H. apply read64_ext. intros x Hx. apply H.
  unfold in_page, index_ok, PGSIZE in *. lia.
Qed.

Lemma subtree_pages_root level m t : In t (subtree_pages level m t).
Proof.
  destruct level; cbn [subtree_pages]; [now left|]. apply in_or_app. right. now left.
Qed.

Lemma subtree_pages_child l m t i p :
  index_ok i -> pte_link (read64 m (t + 8 * i)) = true ->
  In p (subtree_pages l m (PTE2PA (read64 m (t + 8 * i)))) ->
  In p (subtree_pages (S l) m t).
Proof.
  intros Hi Hl Hp. cbn [subtree_pages]. apply in_or_app. left.
  apply in_flat_map. exists i. split; [now apply entries_In|].
  unfold child_pages. cbv zeta. now rewrite Hl.
Qed.

Lemma subtree_pages_aligned level : forall m t,
  page_aligned t -> Forall page_aligned (subtree_pages level m t).
Proof.
  induction level as [|l IH]; intros m t Ht; cbn [subtree_pages].
  - now constructor.
  - apply Forall_app. split; [|now constructor].
    apply Forall_flat_map. apply Forall_forall. intros i _.
    unfold child_pages. cbv zeta.
    destruct (pte_link (read64 m (t + 8 * i))); [|constructor].
    apply IH. apply PTE2PA_aligned.
Qed.

(** The tree below [t] reads the same in two memories that agree on its
    pages. *)
Lemma subtree_ext level : forall m m' t,
  (forall p x, In p (subtree_pages level m t) -> in_page p x -> m' x = m x) ->
  subtree_pages level m' t = subtree_pages level m t /\
  freeableb level m' t = freeableb level m t /\
  leaves_markedb level m' t = leaves_markedb level m t.
Proof.
  induction level as [|l IH]; intros m m' t H.
  - assert (He : forall i, In i entries -> read64 m' (t + 8 * i) = read64 m (t + 8 * i)).
    { intros i Hi. apply entry_read_ext; [now apply entries_In|].
      intros x Hx. apply (H t x); [now left | assumption]. }
    cbn [subtree_pages freeableb leaves_markedb]. split; [reflexivity|].
    split; apply forallb_ext_in; intros i Hi; now rewrite He.
  - assert (He : forall i, In i entries -> read64 m' (t + 8 * i) = read64 m (t + 8 * i)).
    { intros i Hi. apply entry_read_ext; [now apply entries_In|].
      intros x Hx. apply (H t x); [apply subtree_pages_root | assumption]. }
    assert (Hc : forall i, In i entries -> pte_link (read64 m (t + 8 * i)) = true ->
              subtree_pages l m' (PTE2PA (read64 m (t + 8 * i)))
                = subtree_pages l m (PTE2PA (read64 m (t + 8 * i))) /\
              freeableb l m' (PTE2PA (read64 m (t + 8 * i)))
                = freeableb l m (PTE2PA (read64 m (t + 8 * i))) /\
              leaves_markedb l m' (PTE2PA (read64 m (t + 8 * i)))
                = leaves_markedb l m (PTE2PA (read64 m (t + 8 * i)))).
    { intros i Hi Hl. apply IH. intros p x Hp Hx. apply (H p x); [|assumption].
      apply (subtree_pages_child l m t i p); [now apply entries_In | assumption | assumption]. }
    cbn [subtree_pages freeableb leaves_markedb]. split; [|split].
    + f_equal. apply flat_map_ext_in. intros i Hi. unfold child_pages. cbv zeta.
      rewrite (He i Hi). destruct (pte_link (read64 m (t + 8 * i))) eqn:Hl; [|reflexivity].
      now destruct (Hc i Hi Hl).
    + apply forallb_ext_in. intros i Hi. unfold entry_freeable. cbv zeta.
      rewrite (He i Hi). destruct (pte_valid (read64 m (t + 8 * i))); [|reflexivity].
      destruct (pte_link (read64 m (t + 8 * i))) eqn:Hl; [|reflexivity].
      destruct (Hc i Hi Hl) as [_ [-> _]]. reflexivity.
    + apply forallb_ext_in. intros i Hi. unfold entry_marked. cbv zeta.
      rewrite (He i Hi). destruct (pte_link (read64 m (t + 8 * i))) eqn:Hl; [|reflexivity].
      now destruct (Hc i Hi Hl) as [_ [_ ->]].
Qed.

(** One iteration of the loop of [freewalk]. *)
Lemma freewalk_entries_S child n t i s :
  freewalk_entries child (S n) t i s =
  let v := read64 (ram s) (t + 8 * i) in
  if pte_link v then
    bind (child (PTE2PA v))
      (fun _ => bind (store64 (t + 8 * i) 0)
         (fun _ => freewalk_entries child n t (i + 1))) s
  else if pte_valid v then Panic "freewalk: leaf"
  else freewalk_entries child n t (i + 1) s.
Proof.
  cbn [freewalk_entries]. rewrite bind_load64. cbv zeta.
  unfold pte_link, pte_valid, PTE_RWX.
  destruct (negb (Z.land (read64 (ram s) (t + 8 * i)) PTE_V =? 0)); cbn [andb].
  - destruct (Z.land (read64 (ram s) (t + 8 * i)) (Z.lor (Z.lor PTE_R PTE_W) PTE_X) =? 0).
    + unfold bind. destruct (child (PTE2PA (read64 (ram s) (t + 8 * i))) s); reflexivity.
    + reflexivity.
  - reflexivity.
Qed.

Lemma freewalk_entries_skip child t : forall n i s,
  (forall idx, In idx (entries_from i n) -> pte_valid (read64 (ram s) (t + 8 * idx)) = false) ->
  freewalk_entries child n t (Z.of_nat i) s = Done tt s.
Proof.
  induction n as [|n IH]; intros i s H; [reflexivity|].
  rewrite freewalk_entries_S. cbv zeta.
  assert (Hv : pte_valid (read64 (ram s) (t + 8 * Z.of_nat i)) = false).
  { apply H. rewrite entries_from_S. now left. }
  unfold pte_link. rewrite Hv. cbn [andb].
  replace (Z.of_nat i + 1) with (Z.of_nat (S i)) by lia.
  apply IH. intros idx Hidx. apply H. rewrite entries_from_S. now right.
Qed.
(** [freewalk] follows the link in entry [i] of table [t] to a table [c]
    that it frees, and clears the entry: the entries and subtrees still to
    visit ([rest]) are untouched. *)
Lemma freewalk_link_step (child : Z -> M unit) l t i rest s c :
  c = PTE2PA (read64 (ram s) (t + 8 * i)) ->
  page_aligned t -> index_ok i ->
  (forall idx, In idx rest -> index_ok idx /\ idx <> i) ->
  NoDup ((subtree_pages l (ram s) c
          ++ flat_map (child_pages (subtree_pages l (ram s)) (ram s) t) rest) ++ [t]) ->
  (exists s1, child c s = Done tt s1 /\
     freelist s1 = rev (subtree_pages l (ram s) c) ++ freelist s /\
     (forall x, (forall p, In p (subtree_pages l (ram s) c) -> ~ in_page p x) ->
        ram s1 x = ram s x)) ->
  exists s2,
    (forall K : M unit,
       bind (child c) (fun _ => bind (store64 (t + 8 * i) 0) (fun _ => K)) s = K s2) /\
    freelist s2 = rev (subtree_pages l (ram s) c) ++ freelist s /\
    (forall x, (forall p, In p (subtree_pages l (ram s) c) -> ~ in_page p x) ->
       ~ in_page t x -> ram s2 x = ram s x) /\
    (forall idx, In idx rest ->
       read64 (ram s2) (t + 8 * idx) = read64 (ram s) (t + 8 * idx) /\
       child_pages (subtree_pages l (ram s2)) (ram s2) t idx
         = child_pages (subtree_pages l (ram s)) (ram s) t idx /\
       entry_freeable (freeableb l (ram s2)) (ram s2) t idx
         = entry_freeable (freeableb l (ram s)) (ram s) t idx /\
       entry_marked (leaves_markedb l (ram s2)) (ram s2) t idx
         = entry_marked (leaves_markedb l (ram s)) (ram s) t idx).
Proof.
  intros Ec Ht Hi Hrest Hnd [s1 [Hrun [Hfl Hfr]]].
  pose proof (PTE2PA_aligned (read64 (ram s) (t + 8 * i))) as Hca. rewrite <- Ec in Hca.
  pose proof (subtree_pages_aligned l (ram s) c Hca) as Hall.
  rewrite Forall_forall in Hall.
  remember (subtree_pages l (ram s) c) as A eqn:EA.
  remember (flat_map (child_pages (subtree_pages l (ram s)) (ram s) t) rest) as B eqn:EB.
  assert (HAt : forall p, In p A -> p <> t).
  { intros p Hp ->. apply (NoDup_app_disjoint (A ++ B) [t] t Hnd); [|now left].
    apply in_or_app. now left. }
  assert (HBt : forall p, In p B -> p <> t).
  { intros p Hp ->. apply (NoDup_app_disjoint (A ++ B) [t] t Hnd); [|now left].
    apply in_or_app. now right. }
  assert (HAB : forall p, In p A -> ~ In p B).
  { intros p Hp. apply (NoDup_app_disjoint A B p); [|assumption].
    now apply NoDup_app_remove_r in Hnd. }
  exists (mkState (write64 (ram s1) (t + 8 * i) 0) (freelist s1)).
  assert (Hfr2 : forall x, (forall p, In p A -> ~ in_page p x) ->
            x < t + 8 * i \/ t + 8 * i + 8 <= x ->
            write64 (ram s1) (t + 8 * i) 0 x = ram s x).
  { intros x Hx Hout. rewrite write64_other by assumption. now apply Hfr. }
  split; [|split; [|split]].
  - intros K. rewrite (bind_Done _ _ _ _ _ Hrun). now rewrite bind_store64.
  - exact Hfl.
  - intros x Hx Hnt. cbn [ram]. apply Hfr2; [assumption|].
    unfold in_page, index_ok, PGSIZE in *. lia.
  - intros idx Hidx. destruct (Hrest idx Hidx) as [Hio Hne]. cbn [ram].
    assert (Hent : read64 (write64 (ram s1) (t + 8 * i) 0) (t + 8 * idx)
                   = read64 (ram s) (t + 8 * idx)).
    { apply read64_ext. intros x Hx. apply Hfr2.
      - intros p Hp. apply (pages_disjoint t p x Ht (Hall p Hp)).
        + intros E. apply (HAt p Hp). now symmetry.
        + unfold in_page, index_ok, PGSIZE in *. lia.
      - lia. }
    split; [exact Hent|].
    unfold child_pages, entry_freeable, entry_marked. cbv zeta. rewrite Hent.
    destruct (pte_link (read64 (ram s) (t + 8 * idx))) eqn:Hl.
    + remember (PTE2PA (read64 (ram s) (t + 8 * idx))) as c' eqn:Ec'.
      assert (Hc'a : page_aligned c') by (subst c'; apply PTE2PA_aligned).
      pose proof (subtree_pages_aligned l (ram s) c' Hc'a) as Hall'.
      rewrite Forall_forall in Hall'.
      assert (Hsub : forall p, In p (subtree_pages l (ram s) c') -> In p B).
      { intros p Hp. subst B. apply in_flat_map. exists idx. split; [assumption|].
        unfold child_pages. cbv zeta. rewrite Hl, <- Ec'. exact Hp. }
      destruct (subtree_ext l (ram s) (write64 (ram s1) (t + 8 * i) 0) c') as [E1 [E2 E3]].
      { intros p x Hp Hx. apply Hfr2.
        - intros q Hq. apply (pages_disjoint p q x (Hall' p Hp) (Hall q Hq)); [|assumption].
          intros ->. apply (HAB q Hq). now apply Hsub.
        - assert (Hnt : ~ in_page t x).
          { apply (pages_disjoint p t x (Hall' p Hp) Ht); [|assumption].
            apply HBt. now apply Hsub. }
          unfold in_page, index_ok, PGSIZE in *. lia. }
      rewrite E1, E2, E3. split; [reflexivity|]. split; reflexivity.
    + split; [reflexivity|]. split; reflexivity.
Qed.

Lemma bind_Panic {A B} (c : M A) (k : A -> M B) s msg :
  c s = Panic msg -> bind c k s = Panic msg.
Proof. intros H. unfold bind. now rewrite H. Qed.

Section FreewalkLoop.

Variable child : Z -> M unit.
Variable l : nat.
Variable t : Z.
Hypothesis t_aligned : page_aligned t.

(** What the recursive call does for a table without mappings below it. *)
Hypothesis child_done : forall c s,
  page_aligned c -> freeableb l (ram s) c = true -> NoDup (subtree_pages l (ram s) c) ->
  exists s1, child c s = Done tt s1 /\
    freelist s1 = rev (subtree_pages l (ram s) c) ++ freelist s /\
    (forall x, (forall p, In p (subtree_pages l (ram s) c) -> ~ in_page p x) ->
       ram s1 x = ram s x).

Lemma freewalk_entries_done : forall n i s,
  (i + n = 512)%nat ->
  forallb (entry_freeable (freeableb l (ram s)) (ram s) t) (entries_from i n) = true ->
  NoDup (flat_map (child_pages (subtree_pages l (ram s)) (ram s) t) (entries_from i n) ++ [t]) ->
  exists s',
    freewalk_entries child n t (Z.of_nat i) s = Done tt s' /\
    freelist s' =
      rev (flat_map (child_pages (subtree_pages l (ram s)) (ram s) t) (entries_from i n))
        ++ freelist s /\
    (forall x,
       (forall p, In p (flat_map (child_pages (subtree_pages l (ram s)) (ram s) t)
                          (entries_from i n)) -> ~ in_page p x) ->
       ~ in_page t x -> ram s' x = ram s x).
Proof.
  induction n as [|n IH]; intros i s Hin Hok Hnd.
  - exists s. split; [reflexivity|]. split; [reflexivity|]. reflexivity.
  - rewrite entries_from_S in Hok, Hnd |- *. cbn [forallb flat_map] in Hok, Hnd |- *.
    apply andb_prop in Hok. destruct Hok as [Hok0 Hok].
    rewrite freewalk_entries_S. cbv zeta.
    replace (Z.of_nat i + 1) with (Z.of_nat (S i)) by lia.
    assert (Hrest : forall idx, In idx (entries_from (S i) n) ->
              index_ok idx /\ idx <> Z.of_nat i).
    { intros idx Hidx. apply entries_from_In in Hidx. unfold index_ok. lia. }
    unfold entry_freeable in Hok0. cbv zeta in Hok0.
    assert (Hcp : child_pages (subtree_pages l (ram s)) (ram s) t (Z.of_nat i)
                  = if pte_link (read64 (ram s) (t + 8 * Z.of_nat i))
                    then subtree_pages l (ram s) (PTE2PA (read64 (ram s) (t + 8 * Z.of_nat i)))
                    else []) by reflexivity.
    rewrite Hcp in Hnd |- *. clear Hcp.
    destruct (pte_link (read64 (ram s) (t + 8 * Z.of_nat i))) eqn:Hl.
    + assert (Hv : pte_valid (read64 (ram s) (t + 8 * Z.of_nat i)) = true).
      { unfold pte_link in Hl. now apply andb_prop in Hl. }
      rewrite Hv in Hok0. cbn [andb] in Hok0.
      remember (PTE2PA (read64 (ram s) (t + 8 * Z.of_nat i))) as c eqn:Ec.
      assert (Hca : page_aligned c) by (subst c; apply PTE2PA_aligned).
      assert (Hndc : NoDup (subtree_pages l (ram s) c)).
      { apply NoDup_app_remove_r in Hnd. now apply NoDup_app_remove_r in Hnd. }
      destruct (freewalk_link_step child l t (Z.of_nat i) (entries_from (S i) n) s c Ec
                  t_aligned ltac:(unfold index_ok; lia) Hrest Hnd
                  (child_done c s Hca Hok0 Hndc))
        as [s2 [Hrun [Hfl [Hfr Hkeep]]]].
      rewrite Hrun.
      assert (Hpages : flat_map (child_pages (subtree_pages l (ram s2)) (ram s2) t)
                         (entries_from (S i) n)
                       = flat_map (child_pages (subtree_pages l (ram s)) (ram s) t)
                           (entries_from (S i) n)).
      { apply flat_map_ext_in. intros idx Hidx. now destruct (Hkeep idx Hidx) as [_ [E _]]. }
      destruct (IH (S i) s2) as [s' [Hrun' [Hfl' Hfr']]].
      * lia.
      * rewrite <- Hok. apply forallb_ext_in. intros idx Hidx.
        now destruct (Hkeep idx Hidx) as [_ [_ [E _]]].
      * rewrite Hpages. rewrite <- app_assoc in Hnd. now apply NoDup_app_remove_l in Hnd.
      * rewrite Hpages in Hfl', Hfr'.
        exists s'. split; [exact Hrun'|]. split.
        -- rewrite Hfl', Hfl. rewrite rev_app_distr, <- app_assoc. reflexivity.
        -- intros x Hx Hnt. rewrite Hfr'.
           ++ apply Hfr; [|assumption]. intros p Hp. apply Hx. apply in_or_app. now left.
           ++ intros p Hp. apply Hx. apply in_or_app. now right.
           ++ assumption.
    + destruct (pte_valid (read64 (ram s) (t + 8 * Z.of_nat i))); [discriminate Hok0|].
      cbn [app] in Hnd |- *.
      destruct (IH (S i) s ltac:(lia) Hok Hnd) as [s' [Hrun' [Hfl' Hfr']]].
      exists s'. split; [exact Hrun'|]. split; assumption.
Qed.

(** What the recursive call does for a table with a mapping left below
    it. *)
Hypothesis child_panic : forall c s,
  page_aligned c -> leaves_markedb l (ram s) c = true -> freeableb l (ram s) c = false ->
  NoDup (subtree_pages l (ram s) c) ->
  child c s = Panic "freewalk: leaf".

Lemma freewalk_entries_panic : forall n i s,
  (i + n = 512)%nat ->
  forallb (entry_marked (leaves_markedb l (ram s)) (ram s) t) (entries_from i n) = true ->
  forallb (entry_freeable (freeableb l (ram s)) (ram s) t) (entries_from i n) = false ->
  NoDup (flat_map (child_pages (subtree_pages l (ram s)) (ram s) t) (entries_from i n) ++ [t]) ->
  freewalk_entries child n t (Z.of_nat i) s = Panic "freewalk: leaf".
Proof.
  induction n as [|n IH]; intros i s Hin Hmk Hok Hnd.
  - discriminate Hok.
  - rewrite entries_from_S in Hmk, Hok, Hnd. cbn [forallb flat_map] in Hmk, Hok, Hnd.
    apply andb_prop in Hmk. destruct Hmk as [Hmk0 Hmk].
    rewrite freewalk_entries_S. cbv zeta.
    replace (Z.of_nat i + 1) with (Z.of_nat (S i)) by lia.
    assert (Hrest : forall idx, In idx (entries_from (S i) n) ->
              index_ok idx /\ idx <> Z.of_nat i).
    { intros idx Hidx. apply entries_from_In in Hidx. unfold index_ok. lia. }
    unfold entry_freeable at 1 in Hok. unfold entry_marked in Hmk0.
    cbv zeta in Hok, Hmk0.
    assert (Hcp : child_pages (subtree_pages l (ram s)) (ram s) t (Z.of_nat i)
                  = if pte_link (read64 (ram s) (t + 8 * Z.of_nat i))
                    then subtree_pages l (ram s) (PTE2PA (read64 (ram s) (t + 8 * Z.of_nat i)))
                    else []) by reflexivity.
    rewrite Hcp in Hnd. clear Hcp.
    destruct (pte_link (read64 (ram s) (t + 8 * Z.of_nat i))) eqn:Hl.
    + assert (Hv : pte_valid (read64 (ram s) (t + 8 * Z.of_nat i)) = true).
      { unfold pte_link in Hl. now apply andb_prop in Hl. }
      rewrite Hv in Hok. cbn [andb] in Hok.
      remember (PTE2PA (read64 (ram s) (t + 8 * Z.of_nat i))) as c eqn:Ec.
      assert (Hca : page_aligned c) by (subst c; apply PTE2PA_aligned).
      assert (Hndc : NoDup (subtree_pages l (ram s) c)).
      { apply NoDup_app_remove_r in Hnd. now apply NoDup_app_remove_r in Hnd. }
      destruct (freeableb l (ram s) c) eqn:Hfc.
      * cbn [andb] in Hok.
        destruct (freewalk_link_step child l t (Z.of_nat i) (entries_from (S i) n) s c Ec
                    t_aligned ltac:(unfold index_ok; lia) Hrest Hnd
                    (child_done c s Hca Hfc Hndc))
          as [s2 [Hrun [Hfl [Hfr Hkeep]]]].
        rewrite Hrun. apply IH.
        -- lia.
        -- rewrite <- Hmk. apply forallb_ext_in. intros idx Hidx.
           now destruct (Hkeep idx Hidx) as [_ [_ [_ E]]].
        -- rewrite <- Hok. apply forallb_ext_in. intros idx Hidx.
           now destruct (Hkeep idx Hidx) as [_ [_ [E _]]].
        -- assert (Hpages : flat_map (child_pages (subtree_pages l (ram s2)) (ram s2) t)
                              (entries_from (S i) n)
                            = flat_map (child_pages (subtree_pages l (ram s)) (ram s) t)
                                (entries_from (S i) n)).
           { apply flat_map_ext_in. intros idx Hidx. now destruct (Hkeep idx Hidx) as [_ [E _]]. }
           rewrite Hpages. rewrite <- app_assoc in Hnd. now apply NoDup_app_remove_l in Hnd.
      * apply bind_Panic. exact (child_panic c s Hca Hmk0 Hfc Hndc).
    + destruct (pte_valid (read64 (ram s) (t + 8 * Z.of_nat i))); [reflexivity|].
      cbn [app] in Hnd. cbn [andb] in Hok. apply IH; [lia | assumption | assumption | assumption].
Qed.

End FreewalkLoop.

(** A table of the last level with a valid entry, all valid entries being
    leaves. *)
Lemma freewalk_entries_leaf child t : forall n i s,
  forallb (fun i => negb (pte_link (read64 (ram s) (t + 8 * i)))) (entries_from i n) = true ->
  forallb (fun i => negb (pte_valid (read64 (ram s) (t + 8 * i)))) (entries_from i n) = false ->
  freewalk_entries child n t (Z.of_nat i) s = Panic "freewalk: leaf".
Proof.
  induction n as [|n IH]; intros i s Hmk Hok; [discriminate Hok|].
  rewrite entries_from_S in Hmk, Hok. cbn [forallb] in Hmk, Hok.
  apply andb_prop in Hmk. destruct Hmk as [Hmk0 Hmk].
  rewrite freewalk_entries_S. cbv zeta.
  replace (Z.of_nat i + 1) with (Z.of_nat (S i)) by lia.
  destruct (pte_link (read64 (ram s) (t + 8 * Z.of_nat i))); [discriminate Hmk0|].
  destruct (pte_valid (read64 (ram s) (t + 8 * Z.of_nat i))); [reflexivity|].
  cbn [negb andb] in Hok. now apply IH.
Qed.

(** [freewalk] on a table with nothing mapped below it frees the pages of
    the tree, the table last, and writes only into them. *)
Lemma freewalk_done d : forall level t s,
  page_aligned t -> freeableb level (ram s) t = true ->
  NoDup (subtree_pages level (ram s) t) ->
  exists s',
    freewalk (S level + d) t s = Done tt s' /\
    freelist s' = rev (subtree_pages level (ram s) t) ++ freelist s /\
    (forall x, (forall p, In p (subtree_pages level (ram s) t) -> ~ in_page p x) ->
       ram s' x = ram s x).
Proof.
  induction level as [|l IH]; intros t s Ht Hok Hnd.
  - cbn [Nat.add freewalk]. cbn [freeableb] in Hok.
    rewrite (bind_Done _ _ _ _ _ (freewalk_entries_skip (freewalk d) t 512 0 s
               ltac:(intros idx Hidx; rewrite forallb_forall in Hok;
                     specialize (Hok idx Hidx); now apply negb_true_iff in Hok))).
    exists (mkState (ram s) (t :: freelist s)).
    split; [reflexivity|]. split; [reflexivity|]. reflexivity.
  - cbn [Nat.add freewalk]. cbn [freeableb subtree_pages] in Hok, Hnd |- *.
    destruct (freewalk_entries_done (freewalk (S l + d)) l t Ht IH 512 0 s eq_refl Hok Hnd)
      as [s1 [Hrun [Hfl Hfr]]].
    change (Z.of_nat 0) with 0 in Hrun. fold entries in Hrun, Hfl, Hfr.
    cbn [Nat.add] in Hrun. rewrite (bind_Done _ _ _ _ _ Hrun).
    exists (mkState (ram s1) (t :: freelist s1)).
    split; [reflexivity|]. split.
    + cbn [freelist]. rewrite Hfl, rev_app_distr. reflexivity.
    + intros x Hx. cbn [ram]. apply Hfr.
      * intros p Hp. apply Hx. apply in_or_app. now left.
      * apply Hx. apply in_or_app. right. now left.
Qed.

(** [freewalk] on a tree in which something is still mapped panics. *)
Lemma freewalk_panic d : forall level t s,
  page_aligned t -> leaves_markedb level (ram s) t = true ->
  freeableb level (ram s) t = false ->
  NoDup (subtree_pages level (ram s) t) ->
  freewalk (S level + d) t s = Panic "freewalk: leaf".
Proof.
  induction level as [|l IH]; intros t s Ht Hmk Hok Hnd.
  - cbn [Nat.add freewalk]. cbn [freeableb leaves_markedb] in Hok, Hmk.
    apply bind_Panic. exact (freewalk_entries_leaf (freewalk d) t 512 0 s Hmk Hok).
  - cbn [Nat.add freewalk]. cbn [freeableb leaves_markedb subtree_pages] in Hok, Hmk, Hnd.
    apply bind_Panic.
    exact (freewalk_entries_panic (freewalk (S l + d)) l t Ht
             (fun c s' Hc Hf Hn => freewalk_done d l c s' Hc Hf Hn)
             (fun c s' Hc Hm Hf Hn => IH c s' Hc Hm Hf Hn) 512 0 s eq_refl Hmk Hok Hnd).
Qed.
(** The pages [freewalk] reaches are page-table pages of the tree. *)
Lemma subtree_pages_table level : forall m t x,
  In x (subtree_pages level m t) ->
  exists q, path_ok level q /\ table_at m t q = Some x.
Proof.
  induction level as [|l IH]; intros m t x Hx.
  - destruct Hx as [<-|[]]. exists []. split; [apply path_ok_nil | reflexivity].
  - cbn [subtree_pages] in Hx. apply in_app_or in Hx. destruct Hx as [Hx|[<-|[]]].
    + apply in_flat_map in Hx. destruct Hx as [i [Hi Hx]].
      unfold child_pages in Hx. cbv zeta in Hx.
      destruct (pte_link (read64 m (t + 8 * i))) eqn:Hl; [|contradiction].
      destruct (IH _ _ _ Hx) as [q [Hq Ht]].
      exists (i :: q). split.
      * apply path_ok_cons. split; [now apply entries_In | assumption].
      * cbn [table_at]. unfold pte_link in Hl. apply andb_prop in Hl.
        destruct Hl as [Hv _]. now rewrite Hv.
    + exists []. split; [apply path_ok_nil | reflexivity].
Qed.

Lemma entries_from_NoDup : forall n i, NoDup (entries_from i n).
Proof.
  induction n as [|n IH]; intros i; [constructor|].
  rewrite entries_from_S. constructor; [|apply IH].
  intros H. apply entries_from_In in H. lia.
Qed.

Lemma NoDup_flat_map {A B} (f : A -> list B) l :
  NoDup l -> (forall a, In a l -> NoDup (f a)) ->
  (forall a b x, In a l -> In b l -> In x (f a) -> In x (f b) -> a = b) ->
  NoDup (flat_map f l).
Proof.
  induction l as [|a l IH]; intros Hnd Hf Hdis; [constructor|].
  cbn [flat_map]. inversion Hnd as [|? ? Hna Hnd']; subst.
  apply NoDup_app.
  - apply Hf. now left.
  - apply IH; [assumption | intros b Hb; apply Hf; now right |].
    intros b c x Hb Hc. apply Hdis; now right.
  - intros x Hx Hx'. apply in_flat_map in Hx'. destruct Hx' as [b [Hb Hxb]].
    assert (a = b) by (apply (Hdis a b x); [now left | now right | assumption | assumption]).
    subst b. contradiction.
Qed.

(** In a tree whose tables are reached by one path each, [freewalk] meets
    every page once. *)
Lemma subtree_pages_NoDup level : forall m t,
  (forall p q x, path_ok level p -> path_ok level q ->
     table_at m t p = Some x -> table_at m t q = Some x -> p = q) ->
  NoDup (subtree_pages level m t).
Proof.
  induction level as [|l IH]; intros m t Hinj.
  - cbn [subtree_pages]. constructor; [intros [] | constructor].
  - cbn [subtree_pages].
    assert (Hchild : forall i x, In i entries ->
              In x (child_pages (subtree_pages l m) m t i) ->
              pte_valid (read64 m (t + 8 * i)) = true /\
              exists q, path_ok l q /\ table_at m (PTE2PA (read64 m (t + 8 * i))) q = Some x).
    { intros i x Hi Hx. unfold child_pages in Hx. cbv zeta in Hx.
      destruct (pte_link (read64 m (t + 8 * i))) eqn:Hl; [|contradiction].
      unfold pte_link in Hl. apply andb_prop in Hl. destruct Hl as [Hv _].
      split; [assumption|]. now apply subtree_pages_table. }
    assert (Hup : forall i q x, In i entries -> path_ok l q ->
              pte_valid (read64 m (t + 8 * i)) = true ->
              table_at m (PTE2PA (read64 m (t + 8 * i))) q = Some x ->
              path_ok (S l) (i :: q) /\ table_at m t (i :: q) = Some x).
    { intros i q x Hi Hq Hv Hx. split.
      - apply path_ok_cons. split; [now apply entries_In | assumption].
      - cbn [table_at]. now rewrite Hv. }
    apply NoDup_app.
    + apply NoDup_flat_map.
      * apply entries_from_NoDup.
      * intros i Hi. unfold child_pages. cbv zeta.
        destruct (pte_link (read64 m (t + 8 * i))) eqn:Hl; [|constructor].
        unfold pte_link in Hl. apply andb_prop in Hl. destruct Hl as [Hv _].
        apply IH. intros p q x Hp Hq Hxp Hxq.
        destruct (Hup i p x Hi Hp Hv Hxp) as [Hp' Hxp'].
        destruct (Hup i q x Hi Hq Hv Hxq) as [Hq' Hxq'].
        pose proof (Hinj _ _ _ Hp' Hq' Hxp' Hxq') as E. now inversion E.
      * intros i j x Hi Hj Hxi Hxj.
        destruct (Hchild i x Hi Hxi) as [Hvi [p [Hp Hxp]]].
        destruct (Hchild j x Hj Hxj) as [Hvj [q [Hq Hxq]]].
        destruct (Hup i p x Hi Hp Hvi Hxp) as [Hp' Hxp'].
        destruct (Hup j q x Hj Hq Hvj Hxq) as [Hq' Hxq'].
        pose proof (Hinj _ _ _ Hp' Hq' Hxp' Hxq') as E. now inversion E.
    + constructor; [intros [] | constructor].
    + intros x Hx [E|[]]. apply in_flat_map in Hx. destruct Hx as [i [Hi Hxi]].
      destruct (Hchild i x Hi Hxi) as [Hvi [p [Hp Hxp]]].
      destruct (Hup i p x Hi Hp Hvi Hxp) as [Hp' Hxp'].
      assert (E' : i :: p = []).
      { apply (Hinj _ _ x Hp'); [apply path_ok_nil | assumption | now rewrite <- E]. }
      discriminate E'.
Qed.

(** With nothing mapped, [freewalk] reaches every page-table page. *)
Lemma freeable_tables level : forall m t q x,
  freeableb level m t = true -> path_ok level q -> table_at m t q = Some x ->
  In x (subtree_pages level m t).
Proof.
  induction level as [|l IH]; intros m t q x Hok Hq Hx.
  - destruct q as [|i q]; [|destruct Hq as [Hlen _]; cbn in Hlen; lia].
    cbn [table_at] in Hx. apply Some_inj in Hx. subst x. now left.
  - destruct q as [|i q].
    + cbn [table_at] in Hx. apply Some_inj in Hx. subst x. apply subtree_pages_root.
    + apply path_ok_cons in Hq. destruct Hq as [Hi Hq].
      cbn [table_at] in Hx.
      destruct (pte_valid (read64 m (t + 8 * i))) eqn:Hv; [|discriminate Hx].
      cbn [freeableb] in Hok. rewrite forallb_forall in Hok.
      specialize (Hok i (proj2 (entries_In i) Hi)).
      unfold entry_freeable in Hok. cbv zeta in Hok. rewrite Hv in Hok.
      apply andb_prop in Hok. destruct Hok as [Hl Hc].
      apply (subtree_pages_child l m t i x Hi Hl). now apply (IH _ _ q).
Qed.

(** A mapped address keeps the tree from being freeable. *)
Lemma lookup_not_freeable m root va v :
  lookup m root va = Some v -> freeableb 2 m root = false.
Proof.
  intros Hlk. destruct (freeableb 2 m root) eqn:Hok; [exfalso | reflexivity].
  destruct (lookup_Some _ _ _ _ Hlk) as [Hnz [Hrd Hvalid]].
  cbn [walk_ro] in Hnz, Hrd.
  cbn [freeableb] in Hok. rewrite forallb_forall in Hok.
  pose proof (Hok _ (proj2 (entries_In _) (PX_range 2 va))) as H2.
  unfold entry_freeable in H2. cbv zeta in H2.
  change (Z.of_nat 2) with 2 in Hnz, Hrd.
  destruct (pte_valid (read64 m (root + 8 * PX 2 va))) eqn:Hv2; [|discriminate Hnz].
  apply andb_prop in H2. destruct H2 as [_ H1].
  rewrite forallb_forall in H1.
  pose proof (H1 _ (proj2 (entries_In _) (PX_range 1 va))) as H1'.
  unfold entry_freeable in H1'. cbv zeta in H1'.
  change (Z.of_nat 1) with 1 in Hnz, Hrd.
  destruct (pte_valid (read64 m (PTE2PA (read64 m (root + 8 * PX 2 va)) + 8 * PX 1 va)))
    eqn:Hv1; [|discriminate Hnz].
  apply andb_prop in H1'. destruct H1' as [_ H0].
  rewrite forallb_forall in H0.
  pose proof (H0 _ (proj2 (entries_In _) (PX_range 0 va))) as H0'.
  rewrite Hrd, Hvalid in H0'. discriminate H0'.
Qed.

(** X19: [freewalk] on a well-formed tree in which nothing is mapped (every
    valid entry of the two upper levels is a link without R, W and X, and
    the last tables have no valid entry) returns after giving every
    page-table page of the tree, the root included, back to the allocator,
    each once; it frees nothing else and writes only into page-table
    pages. *)
Theorem freewalk_frees_tables d root s :
  wf s root -> freeableb 2 (ram s) root = true ->
  exists s',
    freewalk (3 + d) root s = Done tt s' /\
    (forall p, In p (freelist s') <-> In p (freelist s) \/ is_table (ram s) root p) /\
    NoDup (freelist s') /\
    (forall x, (forall t, is_table (ram s) root t -> ~ in_page t x) -> ram s' x = ram s x).
Proof.
  intros [Hwt Hwfree] Hok.
  pose proof (subtree_pages_NoDup 2 (ram s) root (wf_inj _ _ Hwt)) as Hnd.
  destruct (freewalk_done d 2 root s (wf_root_aligned _ _ Hwt) Hok Hnd)
    as [s' [Hrun [Hfl Hfr]]].
  assert (Hmem : forall p, In p (subtree_pages 2 (ram s) root) <-> is_table (ram s) root p).
  { intros p. split.
    - intros Hp. now apply subtree_pages_table in Hp.
    - intros [q [Hq Hp]]. now apply (freeable_tables 2 _ _ q). }
  exists s'. split; [exact Hrun|]. split; [|split].
  - intros p. rewrite Hfl, in_app_iff, <- in_rev, Hmem. tauto.
  - rewrite Hfl. apply NoDup_app.
    + now apply NoDup_rev.
    + apply (wf_free_nodup _ _ _ Hwfree).
    + intros p Hp Hp'. apply in_rev in Hp. apply Hmem in Hp.
      now destruct (wf_free_pages _ _ _ Hwfree p Hp') as [_ [_ Hn]].
  - intros x Hx. apply Hfr. intros p Hp. apply Hx. now apply Hmem.
Qed.

(** X20: [freewalk] panics with "freewalk: leaf" whenever an address is
    still mapped in a well-formed tree whose valid last-level entries all
    carry one of R, W and X: leaf mappings have to be removed first. *)
Theorem freewalk_leaf_panics d root va v s :
  wf_tree (ram s) root -> leaves_markedb 2 (ram s) root = true ->
  lookup (ram s) root va = Some v ->
  freewalk (3 + d) root s = Panic "freewalk: leaf".
Proof.
  intros Hwt Hmk Hlk.
  apply (freewalk_panic d 2 root s (wf_root_aligned _ _ Hwt) Hmk).
  - exact (lookup_not_freeable _ _ _ _ Hlk).
  - exact (subtree_pages_NoDup 2 (ram s) root (wf_inj _ _ Hwt)).
Qed.
(** X21: [freewalk] does not know at which level it is: a valid entry
    without R, W and X in a last-level table is followed like a link.  When
    the pages such entries point to hold no valid entry, [freewalk] returns
    without a panic and frees those mapped pages together with the
    page-table pages. *)
Theorem freewalk_follows_bare_entries d root s :
  page_aligned root -> freeableb 3 (ram s) root = true ->
  NoDup (subtree_pages 3 (ram s) root) ->
  exists s',
    freewalk (4 + d) root s = Done tt s' /\
    freelist s' = rev (subtree_pages 3 (ram s) root) ++ freelist s /\
    (forall va v, lookup (ram s) root va = Some v -> In (PTE2PA v) (freelist s')).
Proof.
  intros Ha Hok Hnd.
  destruct (freewalk_done d 3 root s Ha Hok Hnd) as [s' [Hrun [Hfl _]]].
  exists s'. split; [exact Hrun|]. split; [exact Hfl|].
  intros va v Hlk. rewrite Hfl. apply in_or_app. left. rewrite <- in_rev.
  apply (freeable_tables 3 _ _ [PX 2 va; PX 1 va; PX 0 va]); [assumption | |].
  - split; [cbn; lia|]. repeat constructor; apply PX_range.
  - destruct (lookup_Some _ _ _ _ Hlk) as [Hnz [Hrd Hvalid]].
    cbn [walk_ro] in Hnz, Hrd. change (Z.of_nat 2) with 2 in Hnz, Hrd.
    change (Z.of_nat 1) with 1 in Hnz, Hrd. cbn [table_at].
    destruct (pte_valid (read64 (ram s) (root + 8 * PX 2 va))); [|discriminate Hnz].
    destruct (pte_valid (read64 (ram s)
                (PTE2PA (read64 (ram s) (root + 8 * PX 2 va)) + 8 * PX 1 va)));
      [|discriminate Hnz].
    rewrite Hrd, Hvalid. reflexivity.
Qed.

Lemma walk_boot_wf MAXVA root a fl :
  boot_okb root fl = true -> a < MAXVA ->
  wf (state_of (walk MAXVA root a 1 (boot fl)) (boot fl)) root.
Proof.
  intros Hok Ha.
  destruct (walk_for_map MAXVA root a (boot fl) (wf_boot root fl Hok) Ha eq_refl)
    as [[s1 [Hrun [Hwf _]]]|[s1 [t [Hrun [_ [Hwf _]]]]]]; rewrite Hrun; exact Hwf.
Qed.

Lemma freewalk_frees_tables_witness :
  let s := state_of (walk (2 ^ 38) 4096 0 1 (boot [8192; 12288; 16384])) (boot []) in
  exists s',
    freewalk (3 + 0) 4096 s = Done tt s' /\
    (forall p, In p (freelist s') <-> In p (freelist s) \/ is_table (ram s) 4096 p) /\
    NoDup (freelist s') /\
    (forall x, (forall t, is_table (ram s) 4096 t -> ~ in_page t x) -> ram s' x = ram s x).
Proof.
  intros s. apply (freewalk_frees_tables 0 4096 s).
  - apply (walk_boot_wf (2 ^ 38) 4096 0 [8192; 12288; 16384]); [reflexivity | lia].
  - vm_compute. reflexivity.
Defined.

Lemma freewalk_leaf_panics_witness :
  freewalk (3 + 0) 4096 two_page_state = Panic "freewalk: leaf".
Proof.
  apply (freewalk_leaf_panics 0 4096 0 (leaf_pte 40960 22) two_page_state two_page_state_wf).
  - vm_compute. reflexivity.
  - vm_compute. reflexivity.
Defined.

Lemma freewalk_follows_bare_entries_witness :
  let s := state_of (mappages (2 ^ 38) 4096 0 4096 40960 0 (boot [8192; 12288])) (boot []) in
  exists s',
    freewalk (4 + 0) 4096 s = Done tt s' /\
    freelist s' = rev (subtree_pages 3 (ram s) 4096) ++ freelist s /\
    (forall va v, lookup (ram s) 4096 va = Some v -> In (PTE2PA v) (freelist s')).
Proof.
  intros s. apply (freewalk_follows_bare_entries 0 4096 s).
  - reflexivity.
  - vm_compute. reflexivity.
  - assert (E : subtree_pages 3 (ram s) 4096 = [40960; 12288; 8192; 4096])
      by (vm_compute; reflexivity).
    rewrite E. clearbody s. repeat constructor; cbn [In]; lia.
Defined.

(** ** [uvmfree] *)

(** A tree whose upper entries are links and in which no address is mapped
    has nothing for [freewalk] to stumble on. *)
Lemma links_unmapped_freeable m root :
  wf_tree m root -> linksb 2 m root = true ->
  (forall va, lookup m root va = None) ->
  freeableb 2 m root = true.
Proof.
  intros Hwf Hl Hnone. cbn [freeableb linksb] in Hl |- *.
  rewrite forallb_forall in Hl |- *. intros i Hi. specialize (Hl i Hi).
  unfold entry_freeable in Hl |- *. cbv zeta in Hl |- *.
  destruct (pte_valid (read64 m (root + 8 * i))) eqn:Hv2; [|reflexivity].
  apply andb_prop in Hl. destruct Hl as [Hl2 Hl]. rewrite Hl2. cbn [andb].
  rewrite forallb_forall in Hl |- *. intros j Hj. specialize (Hl j Hj).
  unfold entry_freeable in Hl |- *. cbv zeta in Hl |- *.
  remember (PTE2PA (read64 m (root + 8 * i))) as c eqn:Ec.
  destruct (pte_valid (read64 m (c + 8 * j))) eqn:Hv1; [|reflexivity].
  apply andb_prop in Hl. destruct Hl as [Hl1 _]. rewrite Hl1. cbn [andb].
  remember (PTE2PA (read64 m (c + 8 * j))) as g eqn:Eg.
  apply forallb_forall. intros k Hk.
  apply entries_In in Hi, Hj, Hk.
  destruct (PX_compose i j k Hi Hj Hk) as [E2 [E1 E0]].
  remember (i * 2 ^ 30 + j * 2 ^ 21 + k * 2 ^ 12) as va eqn:Eva.
  specialize (Hnone va). unfold lookup in Hnone. cbn [walk_ro] in Hnone.
  change (Z.of_nat 2) with 2 in Hnone. change (Z.of_nat 1) with 1 in Hnone.
  rewrite E2, Hv2, <- Ec, E1, Hv1, <- Eg, E0 in Hnone.
  assert (Hg : g <> 0).
  { apply (wf_nonnull _ _ Hwf [i; j] g).
    - split; [cbn; lia|]. constructor; [assumption|]. constructor; [assumption | constructor].
    - cbn [table_at]. rewrite Hv2, <- Ec, Hv1, <- Eg. reflexivity. }
  assert (Hgr : 0 <= g) by (subst g; apply PTE2PA_range).
  destruct (Z.eqb_spec (g + 8 * k) 0) as [E|_]; [unfold index_ok in Hk; lia|].
  destruct (pte_valid (read64 m (g + 8 * k))); [discriminate Hnone | reflexivity].
Qed.

(** [linksb] looks at the entries of the two upper levels only. *)
Lemma linksb_ext m m' root :
  (forall q t i, path_ok 1 q -> table_at m root q = Some t -> index_ok i ->
     read64 m' (t + 8 * i) = read64 m (t + 8 * i)) ->
  linksb 2 m' root = linksb 2 m root.
Proof.
  intros H. cbn [linksb]. apply forallb_ext_in. intros i Hi.
  apply entries_In in Hi.
  unfold entry_freeable. cbv zeta.
  rewrite (H [] root i (path_ok_nil 1) eq_refl Hi).
  destruct (pte_valid (read64 m (root + 8 * i))) eqn:Hv; [|reflexivity].
  f_equal. apply forallb_ext_in. intros j Hj. apply entries_In in Hj.
  rewrite (H [i] (PTE2PA (read64 m (root + 8 * i))) j).
  - reflexivity.
  - split; [cbn; lia|]. constructor; [assumption | constructor].
  - cbn [table_at]. now rewrite Hv.
  - assumption.
Qed.

Section Uvmfree.

Variable MAXVA : Z.
Hypothesis MAXVA_sv39 : MAXVA <= 2 ^ 39.

(** [uvmunmap] writes into last-level tables only: the entries of the two
    upper levels stay as they are. *)
Lemma uvmunmap_loop_upper root do_free : forall (n fuel : nat) a s s',
  (n <= fuel)%nat -> wf_tree (ram s) root -> page_aligned a -> 0 <= a ->
  a + PGSIZE * Z.of_nat n <= MAXVA ->
  (forall k, 0 <= k < Z.of_nat n ->
     exists v, lookup (ram s) root (a + PGSIZE * k) = Some v /\ PTE_FLAGS v <> PTE_V) ->
  uvmunmap_loop MAXVA fuel root a (a + PGSIZE * Z.of_nat n) do_free s = Done tt s' ->
  forall q t i, path_ok 1 q -> table_at (ram s) root q = Some t -> index_ok i ->
    read64 (ram s') (t + 8 * i) = read64 (ram s) (t + 8 * i).
Proof.
  induction n as [|n IH]; intros fuel a s s' Hfuel Hwf Ha Ha0 Hmax Hmapped Hrun0.
  - replace (a + PGSIZE * Z.of_nat 0) with a in Hrun0 by lia.
    assert (s' = s).
    { destruct fuel; cbn [uvmunmap_loop] in Hrun0; rewrite Z.ltb_irrefl in Hrun0;
        apply Done_inj in Hrun0; now destruct Hrun0. }
    subst s'. reflexivity.
  - destruct fuel as [|f]; [lia|]. cbn [uvmunmap_loop] in Hrun0.
    replace (a <? a + PGSIZE * Z.of_nat (S n)) with true in Hrun0
      by (symmetry; apply Z.ltb_lt; unfold PGSIZE; lia).
    destruct (Hmapped 0 ltac:(lia)) as [v [Hv Hleaf]].
    rewrite Z.mul_0_r, Z.add_0_r in Hv.
    destruct (lookup_Some _ _ _ _ Hv) as [Hnz [Hrd Hvalid]].
    rewrite bind_walk_ro in Hrun0 by (unfold PGSIZE in *; lia).
    rewrite Hnz, bind_load64, Hrd, invalid_test, Hvalid in Hrun0. cbn [negb] in Hrun0.
    destruct (Z.eqb_spec (PTE_FLAGS v) PTE_V) as [|_]; [contradiction|].
    assert (Htab : exists t, table_at (ram s) root (vpath a) = Some t /\
                             walk_ro 2 (ram s) root a = t + 8 * PX 0 a).
    { rewrite walk_ro_eq in Hnz |- *.
      destruct (table_at (ram s) root (vpath a)) as [t|]; [eauto | discriminate]. }
    destruct Htab as [t0 [Ht0 Hslot]]. rewrite Hslot in Hrun0.
    set (fl2 := if do_free =? 0 then freelist s else PTE2PA v :: freelist s) in *.
    set (s2 := mkState (write64 (ram s) (t0 + 8 * PX 0 a) 0) fl2) in *.
    assert (Hstep : forall k : M unit,
      bind (if negb (do_free =? 0) then kfree (PTE2PA v) else ret tt)
           (fun _ => bind (store64 (t0 + 8 * PX 0 a) 0) (fun _ => k)) s = k s2).
    { intros k. unfold s2, fl2. destruct (do_free =? 0); reflexivity. }
    rewrite Hstep in Hrun0. clear Hstep.
    assert (Hua : u64 (a + PGSIZE) = a + PGSIZE).
    { apply u64_small. unfold PGSIZE in *. lia. }
    rewrite Hua in Hrun0.
    replace (a + PGSIZE * Z.of_nat (S n)) with (a + PGSIZE + PGSIZE * Z.of_nat n) in Hrun0
      by lia.
    assert (Hwf2 : wf_tree (ram s2) root) by (eapply write_leaf_wf; eassumption).
    assert (Hlk2 : forall va', ~ same_entry a va' ->
               lookup (ram s2) root va' = lookup (ram s) root va').
    { intros va' Hva'. now apply write_leaf_other. }
    assert (Hdiff : forall k, 0 <= k < Z.of_nat n ->
               ~ same_entry a (a + PGSIZE + PGSIZE * k)).
    { intros k Hk. replace (a + PGSIZE + PGSIZE * k) with (a + PGSIZE * (k + 1)) by lia.
      replace a with (a + PGSIZE * 0) at 1 by lia.
      apply pages_differ; try assumption; unfold PGSIZE in *; lia. }
    pose proof (write_leaf_tables (ram s) root (vpath a) t0 (PX 0 a) 0 Hwf (vpath_ok a)
                  (vpath_length a) Ht0 (PX_range 0 a)) as He.
    intros q t i Hq Ht Hi.
    rewrite (IH f (a + PGSIZE) s2 s') with (q := q); try assumption.
    + unfold s2. cbn [ram]. apply entry_read_ext; [assumption|].
      intros x Hx. apply write_leaf_frame; [apply PX_range|].
      assert (Hne : t <> t0).
      { intros ->. assert (E : q = vpath a).
        { apply (wf_inj _ _ Hwf q (vpath a) t0);
            [now apply (path_ok_weaken 1 2); [lia|] | apply vpath_ok | assumption | assumption]. }
        destruct Hq as [Hlen _]. rewrite E, vpath_length in Hlen. lia. }
      apply (pages_disjoint t t0 x); [| |assumption|assumption].
      * apply (table_at_aligned _ _ _ _ (wf_root_aligned _ _ Hwf) Ht).
      * apply (table_at_aligned _ _ _ _ (wf_root_aligned _ _ Hwf) Ht0).
    + lia.
    + now apply page_succ_aligned.
    + unfold PGSIZE in *. lia.
    + unfold PGSIZE in *. lia.
    + intros k Hk. rewrite Hlk2 by now apply Hdiff.
      replace (a + PGSIZE + PGSIZE * k) with (a + PGSIZE * (k + 1)) by lia.
      apply Hmapped. lia.
    + rewrite He; [assumption|]. now apply (path_ok_weaken 1 2); [lia|].
Qed.

Lemma uvmunmap_upper root va npages do_free s s' :
  wf_tree (ram s) root -> page_aligned va -> 0 <= va -> 0 <= npages ->
  va + PGSIZE * npages <= MAXVA ->
  (forall k, 0 <= k < npages ->
     exists v, lookup (ram s) root (va + PGSIZE * k) = Some v /\ PTE_FLAGS v <> PTE_V) ->
  uvmunmap MAXVA root va npages do_free s = Done tt s' ->
  forall q t i, path_ok 1 q -> table_at (ram s) root q = Some t -> index_ok i ->
    read64 (ram s') (t + 8 * i) = read64 (ram s) (t + 8 * i).
Proof.
  intros Hwf Ha Hva Hn Hmax Hmapped Hrun. unfold uvmunmap in Hrun.
  rewrite Ha in Hrun. cbn [Z.eqb negb] in Hrun.
  rewrite (u64_small (va + npages * PGSIZE)) in Hrun by (unfold PGSIZE in *; lia).
  replace (va + npages * PGSIZE) with (va + PGSIZE * Z.of_nat (Z.to_nat npages)) in Hrun
    by (rewrite Z2Nat.id; lia).
  apply (uvmunmap_loop_upper root do_free (Z.to_nat npages) (Z.to_nat npages) va s s');
    try assumption.
  - lia.
  - rewrite Z2Nat.id by lia. assumption.
  - rewrite Z2Nat.id by lia. assumption.
Qed.

(** [uvmfree] unmaps and frees the pages of [0 .. sz), then frees the tables. *)
Lemma uvmfree_spec d root sz s :
  wf s root -> linksb 2 (ram s) root = true ->
  0 <= sz -> sz <= MAXVA -> PGROUNDUP sz <= MAXVA ->
  let n := PGROUNDUP sz / PGSIZE in
  (forall k, 0 <= k < n ->
     exists v, lookup (ram s) root (PGSIZE * k) = Some v /\ PTE_FLAGS v <> PTE_V) ->
  (forall va, (forall k, 0 <= k < n -> ~ same_entry (PGSIZE * k) va) ->
     lookup (ram s) root va = None) ->
  exists s',
    uvmfree MAXVA (3 + d) root sz s = Done tt s' /\
    (forall p, In p (freelist s') <->
       In p (freelist s) \/ is_table (ram s) root p \/
       exists k, 0 <= k < n /\ p = mapped_pa (ram s) root (PGSIZE * k)).
Proof.
  intros [Hwt Hwfree] Hlinks Hsz Hmax Hmaxr n Hmapped Hrest.
  assert (Hup : PGROUNDUP sz = PGSIZE * n /\ 0 <= n /\ (0 < sz -> 0 < n)).
  { pose proof (PGROUNDUP_aligned sz) as Hal. apply page_aligned_mul in Hal.
    pose proof (PGROUNDUP_bounds sz ltac:(lia)) as Hb.
    subst n. split; [exact Hal|]. unfold PGSIZE in *. lia. }
  destruct Hup as [Hup [Hn0 Hnpos]].
  assert (Hfinish : forall s1,
            wf_tree (ram s1) root -> linksb 2 (ram s1) root = true ->
            (forall va, lookup (ram s1) root va = None) ->
            (forall p, is_table (ram s1) root p <-> is_table (ram s) root p) ->
            exists s', freewalk (3 + d) root s1 = Done tt s' /\
              (forall p, In p (freelist s') <-> is_table (ram s) root p \/ In p (freelist s1))).
  { intros s1 Hwt1 Hl1 Hnone Htabs.
    pose proof (links_unmapped_freeable _ _ Hwt1 Hl1 Hnone) as Hok.
    pose proof (subtree_pages_NoDup 2 (ram s1) root (wf_inj _ _ Hwt1)) as Hnd.
    destruct (freewalk_done d 2 root s1 (wf_root_aligned _ _ Hwt1) Hok Hnd)
      as [s' [Hrun [Hfl _]]].
    exists s'. split; [exact Hrun|].
    intros p. rewrite Hfl, in_app_iff, <- in_rev, <- Htabs.
    assert (Hmem : In p (subtree_pages 2 (ram s1) root) <-> is_table (ram s1) root p).
    { split.
      - intros Hp. now apply subtree_pages_table in Hp.
      - intros [q [Hq Hp]]. now apply (freeable_tables 2 _ _ q). }
    rewrite Hmem. tauto. }
  unfold uvmfree. destruct (Z.ltb_spec 0 sz) as [Hpos|Hzero].
  - destruct (uvmunmap_spec MAXVA MAXVA_sv39 root 0 n 1 s Hwt) as
      [s1 [Hrun1 [Hwt1 [Htabs [Hin [Hout [Hfl1 _]]]]]]].
    + reflexivity.
    + lia.
    + lia.
    + lia.
    + intros k Hk. rewrite Z.add_0_l. now apply Hmapped.
    + fold n. rewrite (bind_Done _ _ _ _ _ Hrun1).
      destruct (Hfinish s1 Hwt1) as [s' [Hrun' Hfl']].
      * rewrite <- Hlinks. apply linksb_ext.
        apply (uvmunmap_upper root 0 n 1 s s1 Hwt);
          [reflexivity | lia | lia | lia | | exact Hrun1].
        intros k Hk. rewrite Z.add_0_l. now apply Hmapped.
      * intros va.
        destruct (bounded_search (fun k => ~ same_entry (PGSIZE * k) va) (Z.to_nat (n - 1)))
          as [Hall|[k [Hk Hsame]]].
        -- intros k. destruct (same_entry_dec (PGSIZE * k) va); [right | left]; tauto.
        -- rewrite Hout; [apply Hrest|].
           ++ intros k Hk. apply Hall. rewrite Z2Nat.id by lia. lia.
           ++ intros k Hk. rewrite Z.add_0_l. apply Hall. rewrite Z2Nat.id by lia. lia.
        -- rewrite Z2Nat.id in Hk by lia.
           destruct (same_entry_dec (PGSIZE * k) va) as [Hs|]; [|contradiction].
           rewrite <- (lookup_same_entry _ root _ _ Hs).
           rewrite <- (Z.add_0_l (PGSIZE * k)). apply Hin. lia.
      * intros p. now apply is_table_ext.
      * exists s'. split; [exact Hrun'|].
        intros p. rewrite Hfl', Hfl1. change (1 =? 0) with false. cbv iota.
        rewrite in_app_iff, <- in_rev. split.
        -- intros [H|[H|H]]; [right; now left | | now left].
           right; right. apply range_pas_inv in H. destruct H as [k [Hk ->]].
           exists k. rewrite Z2Nat.id in Hk by lia. split; [assumption|].
           now rewrite Z.add_0_l.
        -- intros [H|[H|[k [Hk ->]]]]; [right; now right | now left |].
           right; left. rewrite <- (Z.add_0_l (PGSIZE * k)).
           apply range_pas_In. rewrite Z2Nat.id by lia. assumption.
  - assert (Esz : sz = 0) by lia. subst sz.
    assert (En : n = 0) by (subst n; reflexivity).
    rewrite bind_ret.
    destruct (Hfinish s Hwt Hlinks) as [s' [Hrun' Hfl']].
    + intros va. apply Hrest. intros k Hk. lia.
    + intros p. reflexivity.
    + exists s'. split; [exact Hrun'|].
      intros p. rewrite Hfl'. split.
      * intros [H|H]; [right; now left | now left].
      * intros [H|[H|[k [Hk _]]]]; [now right | now left | lia].
Qed.

(** X22: [uvmfree] gives an address space back in full.  On a well-formed
    tree whose upper entries are links and in which exactly the pages of
    [0 .. sz) are mapped, as leaves, it returns with the free list holding
    what it held before, every page-table page of the tree and the physical
    page of every mapped page, and nothing else. *)
Theorem uvmfree_releases d root sz s :
  wf s root -> linksb 2 (ram s) root = true ->
  0 <= sz -> sz <= MAXVA -> PGROUNDUP sz <= MAXVA ->
  let n := PGROUNDUP sz / PGSIZE in
  (forall k, 0 <= k < n ->
     exists v, lookup (ram s) root (PGSIZE * k) = Some v /\ PTE_FLAGS v <> PTE_V) ->
  (forall va, (forall k, 0 <= k < n -> ~ same_entry (PGSIZE * k) va) ->
     lookup (ram s) root va = None) ->
  exists s',
    uvmfree MAXVA (3 + d) root sz s = Done tt s' /\
    (forall p, In p (freelist s') <->
       In p (freelist s) \/ is_table (ram s) root p \/
       exists k, 0 <= k < n /\ p = mapped_pa (ram s) root (PGSIZE * k)).
Proof. exact (uvmfree_spec d root sz s). Qed.

End Uvmfree.
Lemma two_page_state_unmapped va :
  (forall k, 0 <= k < 2 -> ~ same_entry (PGSIZE * k) va) ->
  lookup (ram two_page_state) 4096 va = None.
Proof.
  intros H.
  destruct (mappages_spec (2 ^ 38) ltac:(lia) 4096 0 8192 40960 22 (boot [8192; 12288])
              (wf_boot 4096 [8192; 12288] eq_refl) ltac:(lia) ltac:(lia) ltac:(lia) ltac:(lia))
    as [r [s' [j [Hrun [_ [_ [Hj [_ [Hout _]]]]]]]]].
  - intros k Hk. reflexivity.
  - unfold two_page_state. rewrite Hrun. cbn [state_of]. rewrite Hout; [reflexivity|].
    intros k Hk. change (PGROUNDDOWN 0) with 0. rewrite Z.add_0_l. apply H.
    change ((0 + 8192 - 1) / PGSIZE - 0 / PGSIZE) with 1 in Hj. lia.
Qed.

Lemma uvmfree_releases_witness :
  let n := PGROUNDUP 8000 / PGSIZE in
  exists s',
    uvmfree (2 ^ 38) (3 + 0) 4096 8000 two_page_state = Done tt s' /\
    (forall p, In p (freelist s') <->
       In p (freelist two_page_state) \/ is_table (ram two_page_state) 4096 p \/
       exists k, 0 <= k < n /\ p = mapped_pa (ram two_page_state) 4096 (PGSIZE * k)).
Proof.
  apply (uvmfree_releases (2 ^ 38) ltac:(lia) 0 4096 8000 two_page_state).
  - apply (mappages_boot_wf (2 ^ 38) 4096 0 8192 40960 22 [8192; 12288]);
      [lia | reflexivity | lia | lia | lia | lia].
  - vm_compute. reflexivity.
  - lia.
  - lia.
  - vm_compute. discriminate.
  - change (PGROUNDUP 8000 / PGSIZE) with 2. intros k Hk.
    assert (Hc : k = 0 \/ k = 1) by lia.
    destruct Hc as [-> | ->].
    + exists (leaf_pte 40960 22). split; [vm_compute; reflexivity | vm_compute; discriminate].
    + exists (leaf_pte 45056 22). split; [vm_compute; reflexivity | vm_compute; discriminate].
  - change (PGROUNDUP 8000 / PGSIZE) with 2. apply two_page_state_unmapped.
Defined.

(** ** [uvmcopy] *)

(** Allocation for the tree at [root] leaves alone every page that was
    neither free nor a page-table page of the tree. *)
Lemma allocs_keeps_page root s s' P x :
  allocs root s s' -> wf s root -> wf_tree (ram s') root -> page_aligned P ->
  ~ is_table (ram s) root P -> ~ In P (freelist s) -> in_page P x ->
  ram s' x = ram s x.
Proof.
  intros Hal [Hwt Hwfree] Hwt' HP Hnt Hnf Hx. apply (al_frame _ _ _ Hal).
  - intros t Ht Hin. revert Hx. apply (pages_disjoint t P x); [| | |assumption].
    + now apply (wf_table_page (ram s') root t).
    + assumption.
    + intros ->. destruct (al_new _ _ _ Hal P Ht); contradiction.
  - intros p Hp Hin. revert Hx. apply (pages_disjoint p P x); [| | |assumption].
    + now destruct (wf_free_pages _ _ _ Hwfree p Hp).
    + assumption.
    + intros ->. contradiction.
Qed.

(** Allocation for the tree at [new] does not touch another tree whose
    page-table pages are neither free nor page-table pages of [new]. *)
Lemma allocs_other_tree old new s s' :
  allocs new s s' -> wf s new -> wf_tree (ram s') new -> wf_tree (ram s) old ->
  (forall t, is_table (ram s) old t -> ~ is_table (ram s) new t /\ ~ In t (freelist s)) ->
  tables_agree (ram s) (ram s') old.
Proof.
  intros Hal Hwf Hwt' Hwo Hsep t x Ht Hx.
  destruct (Hsep t Ht) as [Hnt Hnf].
  apply (allocs_keeps_page new s s' t x); try assumption.
  now apply (wf_table_page (ram s) old t).
Qed.

Lemma copied_nil old new d s : wf s new -> copied old new d 0 s s.
Proof.
  intros Hwf. split; [assumption|]. split; [apply allocs_refl|].
  exists []. split; [reflexivity|]. split; [constructor|].
  split; [intros; lia|]. split; [intros mem []|].
  split; [reflexivity|]. intros p Hp. now left.
Qed.

Section Uvmcopy.

Variable MAXVA : Z.
Hypothesis MAXVA_sv39 : MAXVA <= 2 ^ 39.

Lemma uvmcopy_loop_spec old new sz : forall (n fuel : nat) d s,
  (n <= fuel)%nat -> wf s new -> wf_tree (ram s) old ->
  (forall t, is_table (ram s) old t -> ~ is_table (ram s) new t /\ ~ In t (freelist s)) ->
  0 <= d -> PGSIZE * (d + Z.of_nat n) <= MAXVA ->
  (forall k, d <= k < d + Z.of_nat n -> PGSIZE * k < sz) ->
  sz <= PGSIZE * (d + Z.of_nat n) ->
  (forall k, d <= k < d + Z.of_nat n ->
     exists v, lookup (ram s) old (PGSIZE * k) = Some v /\
       ~ is_table (ram s) new (PTE2PA v) /\ ~ In (PTE2PA v) (freelist s)) ->
  (forall k, d <= k < d + Z.of_nat n -> lookup (ram s) new (PGSIZE * k) = None) ->
  exists r s' j,
    uvmcopy_loop MAXVA fuel old new (PGSIZE * d) sz s = Done r s' /\
    0 <= j <= Z.of_nat n /\
    ((r = inr tt /\ j = Z.of_nat n) \/ (r = inl (PGSIZE * (d + j)) /\ j < Z.of_nat n)) /\
    copied old new d j s s'.
Proof.
  induction n as [|n IH];
    intros fuel d s Hfuel Hwf Hwo Hsep Hd Hmax Hlt Hge Hsrc Hfree.
  - exists (inr tt), s, 0.
    assert (Hloop : uvmcopy_loop MAXVA fuel old new (PGSIZE * d) sz s = Done (inr tt) s).
    { destruct fuel; cbn [uvmcopy_loop];
        (destruct (Z.ltb_spec (PGSIZE * d) sz); [unfold PGSIZE in *; lia | reflexivity]). }
    split; [assumption|]. split; [lia|]. split; [left; split; reflexivity|].
    now apply copied_nil.
  - destruct fuel as [|f]; [lia|]. cbn [uvmcopy_loop].
    remember (PGSIZE * d) as a eqn:Ea.
    assert (Halt : a < sz) by (subst a; apply Hlt; lia).
    destruct (Z.ltb_spec a sz); [|lia].
    assert (Haa : page_aligned a).
    { subst a. unfold page_aligned. rewrite Z.mul_comm. apply Z.mod_mul. unfold PGSIZE. lia. }
    assert (Hnone : lookup (ram s) new a = None) by (subst a; apply Hfree; lia).
    assert (HSn : Z.of_nat (S n) = Z.of_nat n + 1) by lia.
    destruct (Hsrc d ltac:(lia)) as [v [Hv [Hpnt Hpnf]]]. rewrite <- Ea in Hv.
    destruct (lookup_Some _ _ _ _ Hv) as [Hnz [Hrd Hvalid]].
    rewrite bind_walk_ro by (unfold PGSIZE in *; lia).
    rewrite Hnz, bind_load64, Hrd, invalid_test, Hvalid. cbn [negb]. cbv zeta.
    assert (Hflags : 0 <= PTE_FLAGS v < 1024).
    { rewrite PTE_FLAGS_eq. apply Z.mod_pos_bound. lia. }
    destruct (freelist s) as [|mem fl] eqn:Hfl.
    + (* the allocator is exhausted *)
      rewrite bind_kalloc_nil by assumption. cbn [Z.eqb].
      exists (inl a), s, 0. split; [reflexivity|]. split; [lia|].
      split; [right; split; [subst a; now rewrite Z.add_0_r | lia]|].
      now apply copied_nil.
    + rewrite <- Hfl in Hsep, Hsrc, Hpnf.
      rewrite (bind_kalloc_cons _ _ mem fl) by assumption.
      destruct (wf_kalloc new s mem fl Hwf Hfl) as [_ [Hma [Hmr [Hmnt Hmnin]]]].
      destruct (Z.eqb_spec mem 0); [lia|].
      rewrite bind_memmove. cbn [ram freelist].
      remember (mem_move (ram s) mem (PTE2PA v) PGSIZE) as m2 eqn:Em2.
      destruct (allocs_data_page new s mem fl m2 Hwf Hfl)
        as [Hwf2 [Hal2 [Hlk2 Hmnt2]]].
      { intros x Hx. subst m2. apply mem_move_other. unfold in_page in Hx. lia. }
      destruct (mappages_one MAXVA MAXVA_sv39 new a mem (PTE_FLAGS v) (mkState m2 fl))
        as [r1 [s3 [Hrun [Hwf3 [Hgr Hres]]]]]; try assumption; try lia.
      { subst a. unfold PGSIZE in *. lia. }
      { subst a. unfold PGSIZE in *. lia. }
      { cbn [ram]. rewrite Hlk2. assumption. }
      rewrite (bind_Done _ _ _ _ _ Hrun). cbn [ram freelist] in *.
      pose proof (gr_free _ _ _ Hgr) as [used [Hused Hut]]. cbn [freelist] in Hused.
      assert (Hfl3 : forall p, In p (freelist s3) -> In p fl).
      { intros p Hp. rewrite Hused. apply in_or_app. now right. }
      assert (Hmnt3 : ~ is_table (ram s3) new mem).
      { intros Ht. destruct (gr_new _ _ _ Hgr mem Ht) as [H1|H1]; cbn [ram freelist] in H1;
          contradiction. }
      assert (Hal3 : allocs new s s3).
      { eapply allocs_trans; [exact Hal2 | now apply grows_allocs]. }
      assert (Hm3 : forall off, 0 <= off < PGSIZE ->
                ram s3 (mem + off) = ram s (PTE2PA v + off)).
      { intros off Hoff. rewrite (gr_frame _ _ _ Hgr).
        - cbn [ram]. subst m2. rewrite mem_move_in by lia. f_equal. lia.
        - intros t Ht. apply (pages_disjoint mem t (mem + off)); try assumption.
          + now apply (wf_table_page (ram s3) new t); [apply Hwf3|].
          + intros ->. contradiction.
          + unfold in_page. lia. }
      destruct Hres as [[-> [Hlk3 Hout3]]|[-> [_ [Hfl3e Hlk3]]]].
      * (* the page is copied and mapped: go on with the next one *)
        cbn [Z.eqb negb].
        replace (u64 (a + PGSIZE)) with (PGSIZE * (d + 1))
          by (rewrite u64_small; subst a; unfold PGSIZE in *; lia).
        assert (Hdiff : forall k, 0 <= k -> k < d + Z.of_nat (S n) -> k <> d ->
                  ~ same_entry a (PGSIZE * k)).
        { intros k Hk0 Hk Hne. subst a.
          replace (PGSIZE * d) with (0 + PGSIZE * d) by lia.
          replace (PGSIZE * k) with (0 + PGSIZE * k) by lia.
          apply pages_differ; try reflexivity; try assumption; unfold PGSIZE in *; lia. }
        assert (Hlk3' : forall k, 0 <= k -> k < d + Z.of_nat (S n) -> k <> d ->
                  lookup (ram s3) new (PGSIZE * k) = lookup (ram s) new (PGSIZE * k)).
        { intros k Hk0 Hk Hne. rewrite Hout3 by now apply Hdiff. apply Hlk2. }
        pose proof (allocs_other_tree old new s s3 Hal3 Hwf (proj1 Hwf3) Hwo Hsep) as Hago.
        assert (Hnew3 : forall t, is_table (ram s3) new t ->
                  is_table (ram s) new t \/ In t (freelist s)).
        { intros t Ht. exact (al_new _ _ _ Hal3 t Ht). }
        destruct (IH f (d + 1) s3) as [r [s' [j [Hrun' [Hj [Hres' Hcp]]]]]];
          try assumption; try lia.
        { now apply (tables_agree_wf (ram s) (ram s3) old). }
        { intros t Ht. apply (tables_agree_is_table _ _ _ t Hwo Hago) in Ht.
          destruct (Hsep t Ht) as [Hn1 Hn2]. split.
          - intros Ht3. destruct (Hnew3 t Ht3); contradiction.
          - intros Hin. apply Hn2. rewrite Hfl. right. now apply Hfl3. }
        { intros k Hk. apply Hlt. lia. }
        { intros k Hk. destruct (Hsrc k ltac:(lia)) as [v' [Hv' [Hn1 Hn2]]].
          exists v'. split; [|split].
          - rewrite (tables_agree_lookup _ _ _ _ Hwo Hago). assumption.
          - intros Ht3. destruct (Hnew3 _ Ht3); contradiction.
          - intros Hin. apply Hn2. rewrite Hfl. right. now apply Hfl3. }
        { intros k Hk. rewrite Hlk3' by lia. apply Hfree. lia. }
        exists r, s', (j + 1). split; [assumption|]. split; [lia|]. split.
        { destruct Hres' as [[-> ->]|[-> Hjn]]; [left; split; [reflexivity | lia]|right].
          split; [|lia]. f_equal. f_equal. lia. }
        destruct Hcp as [Hwf' [Hal' [mems [Hlen [Hnd [Hin [Hmems [Hout Hcls]]]]]]]].
        assert (Hal : allocs new s s') by (eapply allocs_trans; eassumption).
        assert (Hmnt' : ~ is_table (ram s') new mem).
        { intros Ht. destruct (al_new _ _ _ Hal' mem Ht) as [H1|H1]; [contradiction|].
          apply Hmnin. now apply Hfl3. }
        assert (Hmnf3 : ~ In mem (freelist s3)).
        { intros Hin'. apply Hmnin. now apply Hfl3. }
        split; [assumption|]. split; [assumption|].
        exists (mem :: mems). split; [cbn [List.length]; lia|]. split.
        { constructor; [|assumption]. intros Hin'.
          destruct (Hmems mem Hin') as [Hf _]. contradiction. }
        split; [|split; [|split]].
        -- intros k Hk. destruct (Z.eq_dec k 0) as [->|Hk0].
           ++ rewrite Z.add_0_r, <- Ea. cbn [Z.to_nat nth]. exists v.
              split; [assumption|]. split.
              ** rewrite Hout; [assumption|]. intros k' Hk' Hs. apply same_entry_sym in Hs.
                 revert Hs. apply Hdiff; lia.
              ** intros off Hoff. rewrite <- (Hm3 off Hoff).
                 apply (allocs_keeps_page new s3 s' mem); try assumption.
                 --- apply Hwf'.
                 --- unfold in_page. lia.
           ++ destruct (Hin (k - 1) ltac:(lia)) as [v' [Hv' [Hlk' Hcont]]].
              replace (d + 1 + (k - 1)) with (d + k) in Hv', Hlk' by lia.
              replace (Z.to_nat k) with (S (Z.to_nat (k - 1))) by lia. cbn [nth].
              rewrite (tables_agree_lookup _ _ _ _ Hwo Hago) in Hv'.
              exists v'. split; [assumption|]. split; [assumption|].
              intros off Hoff. rewrite (Hcont off Hoff).
              destruct (Hsrc (d + k) ltac:(lia)) as [v'' [Hv'' [Hn1 Hn2]]].
              rewrite Hv' in Hv''. apply Some_inj in Hv''. subst v''.
              apply (allocs_keeps_page new s s3 (PTE2PA v')); try assumption.
              --- apply Hwf3.
              --- apply PTE2PA_aligned.
              --- unfold in_page. lia.
        -- intros m [<-|Hm].
           ++ split; [rewrite Hfl; now left|]. split; [|assumption].
              intros Hf. apply Hmnf3. now apply (al_free _ _ _ Hal').
           ++ destruct (Hmems m Hm) as [Hf [Hnf Hnt]].
              split; [rewrite Hfl; right; now apply Hfl3 | auto].
        -- intros va' Hva'. rewrite Hout.
           ++ rewrite Hout3; [apply Hlk2|].
              specialize (Hva' 0 ltac:(lia)). now rewrite Z.add_0_r, <- Ea in Hva'.
           ++ intros k' Hk'. replace (d + 1 + k') with (d + (k' + 1)) by lia. apply Hva'. lia.
        -- intros p Hp. rewrite Hfl in Hp. destruct Hp as [<-|Hp]; [right; right; now left|].
           rewrite Hused in Hp. apply in_app_or in Hp. destruct Hp as [Hp|Hp].
           ++ right; left. apply (allocs_is_table new s3 s'); [assumption | now apply Hut].
           ++ destruct (Hcls p Hp) as [H1|[H1|H1]]; [now left | right; now left |].
              right; right. now right.
      * (* [mappages] failed: the copy is given back *)
        cbn [Z.eqb negb]. rewrite bind_kfree.
        exists (inl a), (mkState (ram s3) (mem :: freelist s3)), 0.
        split; [reflexivity|]. split; [lia|].
        split; [right; split; [subst a; now rewrite Z.add_0_r | lia]|].
        split; [|split].
        -- split; [apply Hwf3|]. cbn [ram freelist]. split.
           ++ constructor; [|apply (wf_free_nodup _ _ _ (proj2 Hwf3))].
              intros Hin'. apply Hmnin. now apply Hfl3.
           ++ intros p [<-|Hp]; [auto|].
              apply (wf_free_pages _ _ _ (proj2 Hwf3) p Hp).
        -- split; cbn [ram freelist].
           ++ apply (al_tables _ _ _ Hal3).
           ++ intros t Ht. exact (al_new _ _ _ Hal3 t Ht).
           ++ intros p [<-|Hp]; rewrite Hfl; [now left|]. right. now apply Hfl3.
           ++ intros x Hx1 Hx2. exact (al_frame _ _ _ Hal3 x Hx1 Hx2).
        -- exists []. split; [reflexivity|]. split; [constructor|].
           split; [intros; lia|]. split; [intros m []|]. cbn [ram freelist].
           split; [intros va' _; rewrite Hlk3; apply Hlk2|].
           intros p Hp. rewrite Hfl in Hp. destruct Hp as [<-|Hp]; [left; now left|].
           rewrite Hused, Hfl3e, app_nil_r in Hp. right; left. now apply Hut.
Qed.

End Uvmcopy.
Lemma flags_valid v : pte_valid v = true -> Z.lor (PTE_FLAGS v) PTE_V = PTE_FLAGS v.
Proof.
  intros Hv. rewrite pte_valid_testbit in Hv. apply Z.bits_inj'. intros n Hn.
  rewrite Z.lor_spec. destruct (Z.eq_dec n 0) as [->|Hne].
  - unfold PTE_FLAGS. rewrite Z.land_spec, Hv. reflexivity.
  - change PTE_V with (2 ^ 0). rewrite (Z.pow2_bits_false 0 n) by lia. apply orb_false_r.
Qed.

Section UvmcopyCall.

Variable MAXVA : Z.
Hypothesis MAXVA_sv39 : MAXVA <= 2 ^ 39.

(** [uvmcopy] either copies every page or undoes what it did. *)
Lemma uvmcopy_spec old new sz s :
  wf s new -> wf_tree (ram s) old ->
  (forall t, is_table (ram s) old t -> ~ is_table (ram s) new t /\ ~ In t (freelist s)) ->
  0 <= sz -> sz <= MAXVA -> PGROUNDUP sz <= MAXVA ->
  (forall a, page_aligned a -> 0 <= a < sz ->
     exists v, lookup (ram s) old a = Some v /\ PTE_FLAGS v <> PTE_V /\
       ~ is_table (ram s) new (PTE2PA v) /\ ~ In (PTE2PA v) (freelist s)) ->
  (forall a, page_aligned a -> 0 <= a < sz -> lookup (ram s) new a = None) ->
  let n := PGROUNDUP sz / PGSIZE in
  exists r s',
    uvmcopy MAXVA old new sz s = Done r s' /\
    ((r = 0 /\ copied old new 0 n s s') \/
     (r = -1 /\ wf_tree (ram s') new /\
      (forall va, lookup (ram s') new va = lookup (ram s) new va) /\
      (forall va, lookup (ram s') old va = lookup (ram s) old va) /\
      (forall p, In p (freelist s) -> In p (freelist s') \/ is_table (ram s') new p) /\
      (forall t, is_table (ram s) new t -> is_table (ram s') new t) /\
      wf s' new /\ allocs new s s')).
Proof.
  intros Hwf Hwo Hsep Hsz Hmax Hmaxr Hsrc Hfree n.
  destruct (growth_pages MAXVA MAXVA_sv39 0 sz ltac:(lia) Hmax)
    as [_ [_ [Hn0 [Hhi [Hge [Hlt Hidx]]]]]].
  change (PGROUNDUP 0) with 0 in Hn0, Hhi, Hge, Hlt, Hidx.
  rewrite Z.sub_0_r in Hn0, Hhi, Hge, Hlt, Hidx. fold n in Hn0, Hhi, Hge, Hlt, Hidx.
  clearbody n.
  assert (Hpage : forall k, page_aligned (PGSIZE * k)).
  { intros k. unfold page_aligned. rewrite Z.mul_comm. apply Z.mod_mul. unfold PGSIZE. lia. }
  assert (Hin_range : forall k, 0 <= k < n -> 0 <= PGSIZE * k < sz).
  { intros k Hk. specialize (Hlt k Hk). unfold PGSIZE in *. lia. }
  unfold uvmcopy.
  destruct (uvmcopy_loop_spec MAXVA MAXVA_sv39 old new sz (Z.to_nat n)
              (S (Z.to_nat (sz / PGSIZE))) 0 s) as [r [s1 [j [Hrun [Hj [Hres Hcp]]]]]];
    try assumption.
  - assert (n <= sz / PGSIZE + 1); [|lia].
    pose proof (Z.div_mod sz PGSIZE ltac:(unfold PGSIZE; lia)).
    pose proof (Z.mod_pos_bound sz PGSIZE ltac:(unfold PGSIZE; lia)).
    destruct (Z.eq_dec n 0);
      [assert (0 <= sz / PGSIZE) by (apply Z.div_pos; unfold PGSIZE; lia); lia|].
    specialize (Hlt (n - 1) ltac:(lia)). unfold PGSIZE in *. lia.
  - lia.
  - rewrite Z2Nat.id by lia. rewrite Z.add_0_l. lia.
  - intros k Hk. rewrite Z2Nat.id in Hk by lia. specialize (Hlt k ltac:(lia)). lia.
  - rewrite Z2Nat.id by lia. lia.
  - intros k Hk. rewrite Z2Nat.id in Hk by lia.
    destruct (Hsrc (PGSIZE * k) (Hpage k) (Hin_range k ltac:(lia))) as [v [Hv [_ [H1 H2]]]].
    exists v. auto.
  - intros k Hk. rewrite Z2Nat.id in Hk by lia.
    apply Hfree; [apply Hpage | apply Hin_range; lia].
  - rewrite Z2Nat.id in Hj, Hres by lia.
    change (PGSIZE * 0) with 0 in Hrun. rewrite (bind_Done _ _ _ _ _ Hrun).
    destruct Hres as [[-> ->]|[-> Hjn]].
    + exists 0, s1. split; [reflexivity|]. left. split; [reflexivity | assumption].
    + (* undo the [j] pages that were copied *)
      destruct Hcp as [Hwf1 [Hal1 [mems [Hlen [Hnd [Hin [Hmems [Hout Hcls]]]]]]]].
      assert (Hagree : tables_agree (ram s) (ram s1) old).
      { apply (allocs_other_tree old new s s1); try assumption. apply Hwf1. }
      assert (Hmem : forall k, 0 <= k < j ->
                exists v, lookup (ram s) old (PGSIZE * k) = Some v /\
                  lookup (ram s1) new (PGSIZE * k)
                    = Some (leaf_pte (nth (Z.to_nat k) mems 0) (PTE_FLAGS v)) /\
                  mapped_pa (ram s1) new (PGSIZE * k) = nth (Z.to_nat k) mems 0 /\
                  PTE_FLAGS (leaf_pte (nth (Z.to_nat k) mems 0) (PTE_FLAGS v)) = PTE_FLAGS v).
      { intros k Hk. destruct (Hin k Hk) as [v [Hv [Hlk _]]]. rewrite Z.add_0_l in Hv, Hlk.
        assert (Hi : In (nth (Z.to_nat k) mems 0) mems) by (apply nth_In; lia).
        destruct (Hmems _ Hi) as [Hf _].
        destruct (wf_free_pages _ _ _ (proj2 Hwf) _ Hf) as [Hpa [Hpr _]].
        assert (Hfl : 0 <= PTE_FLAGS v < 1024).
        { rewrite PTE_FLAGS_eq. apply Z.mod_pos_bound. lia. }
        destruct (lookup_Some _ _ _ _ Hv) as [_ [_ Hvalid]].
        exists v. split; [assumption|]. split; [assumption|]. split.
        - apply (leaf_pte_mapped_pa _ _ _ _ (PTE_FLAGS v) Hlk); [lia | assumption | assumption].
        - rewrite leaf_pte_flags by lia. now apply flags_valid. }
      replace (PGSIZE * (0 + j) / PGSIZE) with j
        by (rewrite Z.add_0_l, Z.mul_comm, Z.div_mul; [reflexivity | unfold PGSIZE; lia]).
      destruct (uvmunmap_spec MAXVA MAXVA_sv39 new 0 j 1 s1 (proj1 Hwf1))
        as [s2 [Hrun2 [Hwt2 [Htabs [Hin2 [Hout2 [Hfl2 Hfr2]]]]]]].
      * reflexivity.
      * lia.
      * lia.
      * unfold PGSIZE in *. lia.
      * intros k Hk. rewrite Z.add_0_l.
        destruct (Hmem k Hk) as [v [Hv [Hlk [_ Hflags]]]].
        exists (leaf_pte (nth (Z.to_nat k) mems 0) (PTE_FLAGS v)). split; [assumption|].
        rewrite Hflags.
        now destruct (Hsrc (PGSIZE * k) (Hpage k) (Hin_range k ltac:(lia))) as [v' [Hv' [Hnv _]]];
          rewrite Hv in Hv'; apply Some_inj in Hv'; subst v'.
      * rewrite (bind_Done _ _ _ _ _ Hrun2). exists (-1), s2. split; [reflexivity|].
        right. split; [reflexivity|]. split; [assumption|].
        change (1 =? 0) with false in Hfl2. cbv iota in Hfl2.
        assert (Hrange : range_pas (ram s1) new 0 (Z.to_nat j) = mems).
        { apply (nth_ext _ _ 0 0).
          - rewrite range_pas_length. lia.
          - intros i Hi. rewrite range_pas_length in Hi. rewrite range_pas_nth by assumption.
            destruct (Hmem (Z.of_nat i) ltac:(lia)) as [v [_ [_ [Hpa _]]]].
            rewrite Nat2Z.id in Hpa. rewrite Z.add_0_l. exact Hpa. }
        assert (Htab2 : forall t, is_table (ram s2) new t <-> is_table (ram s1) new t).
        { intros t. apply (is_table_ext (ram s1) (ram s2) new t Htabs). }
        assert (Hfree2 : forall p, In p (freelist s2) -> In p (freelist s)).
        { intros p Hp. rewrite Hfl2, Hrange in Hp. apply in_app_or in Hp.
          destruct Hp as [Hp|Hp].
          - rewrite <- in_rev in Hp. now destruct (Hmems p Hp).
          - now apply (al_free _ _ _ Hal1). }
        split; [|split; [|split; [|split; [|split]]]].
        -- intros va.
           destruct (Z.eq_dec j 0) as [Hz|Hnz].
           { rewrite Hout2 by (intros k Hk; lia). apply Hout. intros k Hk. lia. }
           destruct (bounded_search (fun k => ~ same_entry (PGSIZE * k) va) (Z.to_nat (j - 1)))
             as [Hall|[k [Hk Hsame]]].
           ++ intros k. destruct (same_entry_dec (PGSIZE * k) va); [right | left]; tauto.
           ++ rewrite Hout2, Hout; [reflexivity| |].
              ** intros k Hk. rewrite Z.add_0_l. apply Hall. rewrite Z2Nat.id by lia. lia.
              ** intros k Hk. rewrite Z.add_0_l. apply Hall. rewrite Z2Nat.id by lia. lia.
           ++ rewrite Z2Nat.id in Hk by lia.
              destruct (same_entry_dec (PGSIZE * k) va) as [Hs|]; [|contradiction].
              rewrite <- !(lookup_same_entry _ new _ _ Hs).
              rewrite <- (Z.add_0_l (PGSIZE * k)) at 1. rewrite Hin2 by lia.
              symmetry. apply Hfree; [apply Hpage | apply Hin_range; lia].
        -- intros va. rewrite <- (tables_agree_lookup _ _ _ va Hwo Hagree).
           apply tables_agree_lookup.
           ++ now apply (tables_agree_wf (ram s) (ram s1) old).
           ++ intros t x Ht Hx. apply Hfr2. intros t' Ht' Hx'.
              apply (tables_agree_is_table _ _ _ t Hwo Hagree) in Ht.
              destruct (Hsep t Ht) as [Hn1 Hn2].
              revert Hx'. apply (pages_disjoint t t' x); [| | |assumption].
              ** now apply (wf_table_page (ram s) old t).
              ** now apply (wf_table_page (ram s1) new t'); [apply Hwf1|].
              ** intros ->. destruct (al_new _ _ _ Hal1 t' Ht'); contradiction.
        -- intros p Hp. destruct (Hcls p Hp) as [H1|[H1|H1]].
           ++ left. rewrite Hfl2. apply in_or_app. now right.
           ++ right. now apply (is_table_ext (ram s1) (ram s2) new p Htabs).
           ++ left. rewrite Hfl2. apply in_or_app. left. rewrite <- in_rev.
              destruct (In_nth mems p 0 H1) as [i [Hi Hnth]].
              destruct (Hmem (Z.of_nat i) ltac:(lia)) as [v [_ [_ [Hpa _]]]].
              rewrite Nat2Z.id, Hnth in Hpa. rewrite <- Hpa.
              rewrite <- (Z.add_0_l (PGSIZE * Z.of_nat i)).
              apply range_pas_In. lia.
        -- intros t Ht. apply (is_table_ext (ram s1) (ram s2) new t Htabs).
           now apply (allocs_is_table new s s1).
        -- split; [assumption|]. split.
           ++ rewrite Hfl2, Hrange. apply NoDup_app.
              ** now apply NoDup_rev.
              ** apply (wf_free_nodup _ _ _ (proj2 Hwf1)).
              ** intros p Hp. rewrite <- in_rev in Hp. now destruct (Hmems p Hp) as [_ [Hnf _]].
           ++ intros p Hp.
              destruct (wf_free_pages _ _ _ (proj2 Hwf) p (Hfree2 p Hp)) as [Hpa [Hpr _]].
              split; [assumption|]. split; [assumption|].
              rewrite Htab2. rewrite Hfl2, Hrange in Hp. apply in_app_or in Hp.
              destruct Hp as [Hp|Hp].
              ** rewrite <- in_rev in Hp. now destruct (Hmems p Hp) as [_ [_ Hnt]].
              ** now destruct (wf_free_pages _ _ _ (proj2 Hwf1) p Hp) as [_ [_ Hnt]].
        -- split.
           ++ intros q t Hq Ht. rewrite Htabs by assumption.
              now apply (al_tables _ _ _ Hal1).
           ++ intros t Ht. apply Htab2 in Ht. exact (al_new _ _ _ Hal1 t Ht).
           ++ exact Hfree2.
           ++ intros x Hx1 Hx2. rewrite Hfr2.
              ** apply (al_frame _ _ _ Hal1); [|assumption].
                 intros t Ht. apply Hx1. now apply Htab2.
              ** intros t Ht. apply Hx1. now apply Htab2.
Qed.

End UvmcopyCall.
Section UvmcopyTheorems.

Variable MAXVA : Z.
Hypothesis MAXVA_sv39 : MAXVA <= 2 ^ 39.

(** X23: [uvmcopy] returns 0 or -1.  When it returns 0, every page of
    [0 .. sz) is mapped in the new tree with the flags of the entry of the
    old tree, to a page of its own taken from the free list, disjoint from
    the page of the old tree and holding the same bytes, and nothing else is
    mapped differently in the new tree.  The old tree and its pages are
    untouched: no byte of its page-table pages or of its data pages
    changed, and none of them was freed.  Nothing at all was freed: the
    free list only lost pages, each of them now a copy or a page-table page
    of the new tree, and no byte changed outside the pages that were free
    and the page-table pages of the new tree. *)
Theorem uvmcopy_copies old new sz s :
  wf s new -> wf_tree (ram s) old ->
  (forall t, is_table (ram s) old t -> ~ is_table (ram s) new t /\ ~ In t (freelist s)) ->
  0 <= sz -> sz <= MAXVA -> PGROUNDUP sz <= MAXVA ->
  (forall a, page_aligned a -> 0 <= a < sz ->
     exists v, lookup (ram s) old a = Some v /\ PTE_FLAGS v <> PTE_V /\
       ~ is_table (ram s) new (PTE2PA v) /\ ~ In (PTE2PA v) (freelist s)) ->
  (forall a, page_aligned a -> 0 <= a < sz -> lookup (ram s) new a = None) ->
  exists r s',
    uvmcopy MAXVA old new sz s = Done r s' /\ (r = 0 \/ r = -1) /\
    (r = 0 ->
       wf s' new /\
       (forall va, lookup (ram s') old va = lookup (ram s) old va) /\
       (forall a, page_aligned a -> 0 <= a < sz ->
          exists v mem,
            lookup (ram s) old a = Some v /\
            lookup (ram s') new a = Some (leaf_pte mem (PTE_FLAGS v)) /\
            PTE_FLAGS (leaf_pte mem (PTE_FLAGS v)) = PTE_FLAGS v /\
            mapped_pa (ram s') new a = mem /\
            In mem (freelist s) /\ ~ In mem (freelist s') /\
            (forall x, in_page mem x -> ~ in_page (PTE2PA v) x) /\
            (forall off, 0 <= off < PGSIZE ->
               ram s' (mem + off) = ram s (PTE2PA v + off) /\
               ram s' (PTE2PA v + off) = ram s (PTE2PA v + off))) /\
       (forall a b, page_aligned a -> 0 <= a < sz -> page_aligned b -> 0 <= b < sz ->
          a <> b -> mapped_pa (ram s') new a <> mapped_pa (ram s') new b) /\
       (forall a, page_aligned a -> 0 <= a < 2 ^ 39 -> ~ (0 <= a < sz) ->
          lookup (ram s') new a = lookup (ram s) new a) /\
       (forall p, In p (freelist s') -> In p (freelist s)) /\
       (forall p, In p (freelist s) ->
          In p (freelist s') \/ is_table (ram s') new p \/
          exists a, page_aligned a /\ 0 <= a < sz /\ p = mapped_pa (ram s') new a) /\
       (forall t x, is_table (ram s) old t -> in_page t x -> ram s' x = ram s x) /\
       (forall p, path_ok 2 p -> table_at (ram s') old p = table_at (ram s) old p) /\
       (forall t, is_table (ram s') old t -> ~ In t (freelist s')) /\
       (forall a v, page_aligned a -> 0 <= a < sz -> lookup (ram s) old a = Some v ->
          ~ In (PTE2PA v) (freelist s')) /\
       (forall t, is_table (ram s') new t -> is_table (ram s) new t \/ In t (freelist s)) /\
       (forall x, (forall t, is_table (ram s') new t -> ~ in_page t x) ->
                  (forall p, In p (freelist s) -> ~ in_page p x) -> ram s' x = ram s x)).
Proof.
  intros Hwf Hwo Hsep Hsz Hmax Hmaxr Hsrc Hfree.
  destruct (uvmcopy_spec MAXVA MAXVA_sv39 old new sz s Hwf Hwo Hsep Hsz Hmax Hmaxr Hsrc Hfree)
    as [r [s' [Hrun Hpost]]].
  destruct (growth_pages MAXVA MAXVA_sv39 0 sz ltac:(lia) Hmax)
    as [_ [_ [Hn0 [Hhi [Hge [Hlt Hidx]]]]]].
  change (PGROUNDUP 0) with 0 in Hn0, Hhi, Hge, Hlt, Hidx.
  rewrite Z.sub_0_r in Hn0, Hhi, Hge, Hlt, Hidx.
  remember (PGROUNDUP sz / PGSIZE) as n eqn:En.
  exists r, s'. split; [assumption|].
  split; [destruct Hpost as [[-> _]|[-> _]]; auto|].
  intros Hr. destruct Hpost as [[_ Hcp]|[Hr' _]]; [|lia].
  destruct Hcp as [Hwf' [Hal [mems [Hlen [Hnd [Hin [Hmems [Hout Hcls]]]]]]]].
  assert (Hpage : forall k, 0 <= k < n ->
            exists v, lookup (ram s) old (PGSIZE * k) = Some v /\
              lookup (ram s') new (PGSIZE * k)
                = Some (leaf_pte (nth (Z.to_nat k) mems 0) (PTE_FLAGS v)) /\
              mapped_pa (ram s') new (PGSIZE * k) = nth (Z.to_nat k) mems 0 /\
              In (nth (Z.to_nat k) mems 0) mems /\
              (forall off, 0 <= off < PGSIZE ->
                 ram s' (nth (Z.to_nat k) mems 0 + off) = ram s (PTE2PA v + off))).
  { intros k Hk. destruct (Hin k Hk) as [v [Hv [Hlk Hcont]]].
    rewrite Z.add_0_l in Hv, Hlk.
    assert (Hi : In (nth (Z.to_nat k) mems 0) mems) by (apply nth_In; lia).
    destruct (Hmems _ Hi) as [Hf _].
    destruct (wf_free_pages _ _ _ (proj2 Hwf) _ Hf) as [Hpa [Hpr _]].
    exists v. split; [assumption|]. split; [assumption|]. split; [|split; assumption].
    apply (leaf_pte_mapped_pa _ _ _ _ (PTE_FLAGS v) Hlk); [lia | assumption |].
    rewrite PTE_FLAGS_eq. apply Z.mod_pos_bound. lia. }
  assert (Hago : tables_agree (ram s) (ram s') old).
  { apply (allocs_other_tree old new s s'); try assumption. apply Hwf'. }
  assert (Hpk : forall k, page_aligned (PGSIZE * k)).
  { intros k. unfold page_aligned. rewrite Z.mul_comm. apply Z.mod_mul. unfold PGSIZE. lia. }
  split; [assumption|].
  split; [|split; [|split; [|split; [|split; [|split; [|split; [|split; [|split; [|split; [|split]]]]]]]]]].
  - intros va. now apply tables_agree_lookup.
  - intros a Haa Har. destruct (Hidx a Haa Har) as [k [Hk Ea]].
    rewrite Z.add_0_l in Ea. subst a.
    destruct (Hpage k Hk) as [v [Hv [Hlk [Hpa [Hi Hcont]]]]].
    destruct (Hmems _ Hi) as [Hf [Hnf Hnt]].
    destruct (wf_free_pages _ _ _ (proj2 Hwf) _ Hf) as [Hma [Hmr _]].
    destruct (Hsrc (PGSIZE * k) Haa Har) as [v' [Hv' [Hleaf [Hpnt Hpnf]]]].
    rewrite Hv in Hv'. apply Some_inj in Hv'. subst v'.
    destruct (lookup_Some _ _ _ _ Hv) as [_ [_ Hvalid]].
    exists v, (nth (Z.to_nat k) mems 0).
    split; [assumption|]. split; [assumption|]. split.
    { rewrite leaf_pte_flags; [now apply flags_valid | lia |].
      rewrite PTE_FLAGS_eq. apply Z.mod_pos_bound. lia. }
    split; [assumption|]. split; [assumption|]. split; [assumption|]. split.
    { intros x. apply pages_disjoint; [assumption | apply PTE2PA_aligned |].
      intros E. apply Hpnf. now rewrite <- E. }
    intros off Hoff. split; [now apply Hcont|].
    apply (allocs_keeps_page new s s' (PTE2PA v)); try assumption.
    + apply Hwf'.
    + apply PTE2PA_aligned.
    + unfold in_page. lia.
  - intros a b Haa Har Hba Hbr Hne.
    destruct (Hidx a Haa Har) as [k [Hk Ea]]. destruct (Hidx b Hba Hbr) as [i [Hi Eb]].
    rewrite Z.add_0_l in Ea, Eb. subst a b.
    destruct (Hpage k Hk) as [_ [_ [_ [-> _]]]].
    destruct (Hpage i Hi) as [_ [_ [_ [-> _]]]].
    intros Heq. assert (Hki : Z.to_nat k = Z.to_nat i).
    { apply (proj1 (NoDup_nth mems 0) Hnd); [lia | lia | exact Heq]. }
    apply Hne. f_equal. lia.
  - intros a Haa Har Hnr. apply Hout. intros k Hk Hs. rewrite Z.add_0_l in Hs.
    specialize (Hlt k Hk).
    apply same_entry_aligned in Hs; try assumption.
    + subst a. apply Hnr. unfold PGSIZE in *. lia.
    + unfold PGSIZE in *. lia.
    + apply Hpk.
  - exact (al_free _ _ _ Hal).
  - intros p Hp. destruct (Hcls p Hp) as [H1|[H1|H1]]; [now left | right; now left |].
    right; right. destruct (In_nth mems p 0 H1) as [i [Hi Hnth]].
    assert (Hik : 0 <= Z.of_nat i < n) by lia.
    exists (PGSIZE * Z.of_nat i). split; [apply Hpk|]. split.
    + specialize (Hlt _ Hik). unfold PGSIZE in *. lia.
    + destruct (Hpage _ Hik) as [_ [_ [_ [-> _]]]]. now rewrite Nat2Z.id.
  - exact Hago.
  - now apply tables_agree_table_at.
  - intros t Ht Hin'. apply (tables_agree_is_table _ _ _ t Hwo Hago) in Ht.
    destruct (Hsep t Ht) as [_ Hnf]. apply Hnf. now apply (al_free _ _ _ Hal).
  - intros a v Haa Har Hv Hin'.
    destruct (Hsrc a Haa Har) as [v' [Hv' [_ [_ Hpnf]]]].
    rewrite Hv in Hv'. apply Some_inj in Hv'. subst v'.
    apply Hpnf. now apply (al_free _ _ _ Hal).
  - exact (al_new _ _ _ Hal).
  - exact (al_frame _ _ _ Hal).
Qed.

(** X24: when [uvmcopy] does not return 0 it returns -1 after unmapping and
    freeing what it had copied: the new tree translates every address as
    before the call and lost no page-table page.  The old tree is
    untouched: it translates as before, no byte of its page-table pages or
    of its data pages changed, and none of them is on the free list.  The
    free list again holds distinct pages, all of them free before the call,
    and every page that was free is free again or a page-table page of the
    new tree; no byte changed outside the pages that were free and the
    page-table pages of the new tree. *)
Theorem uvmcopy_failure_rolls_back old new sz s :
  wf s new -> wf_tree (ram s) old ->
  (forall t, is_table (ram s) old t -> ~ is_table (ram s) new t /\ ~ In t (freelist s)) ->
  0 <= sz -> sz <= MAXVA -> PGROUNDUP sz <= MAXVA ->
  (forall a, page_aligned a -> 0 <= a < sz ->
     exists v, lookup (ram s) old a = Some v /\ PTE_FLAGS v <> PTE_V /\
       ~ is_table (ram s) new (PTE2PA v) /\ ~ In (PTE2PA v) (freelist s)) ->
  (forall a, page_aligned a -> 0 <= a < sz -> lookup (ram s) new a = None) ->
  forall r s', uvmcopy MAXVA old new sz s = Done r s' -> r <> 0 ->
    r = -1 /\ wf_tree (ram s') new /\
    (forall va, lookup (ram s') new va = lookup (ram s) new va) /\
    (forall va, lookup (ram s') old va = lookup (ram s) old va) /\
    (forall p, In p (freelist s) -> In p (freelist s') \/ is_table (ram s') new p) /\
    (forall t, is_table (ram s) new t -> is_table (ram s') new t) /\
    wf s' new /\
    (forall p, In p (freelist s') -> In p (freelist s)) /\
    (forall t x, is_table (ram s) old t -> in_page t x -> ram s' x = ram s x) /\
    (forall p, path_ok 2 p -> table_at (ram s') old p = table_at (ram s) old p) /\
    (forall t, is_table (ram s') old t -> ~ In t (freelist s')) /\
    (forall a v, page_aligned a -> 0 <= a < sz -> lookup (ram s) old a = Some v ->
       ~ In (PTE2PA v) (freelist s') /\
       forall off, 0 <= off < PGSIZE -> ram s' (PTE2PA v + off) = ram s (PTE2PA v + off)) /\
    (forall t, is_table (ram s') new t -> is_table (ram s) new t \/ In t (freelist s)) /\
    (forall x, (forall t, is_table (ram s') new t -> ~ in_page t x) ->
               (forall p, In p (freelist s) -> ~ in_page p x) -> ram s' x = ram s x).
Proof.
  intros Hwf Hwo Hsep Hsz Hmax Hmaxr Hsrc Hfree r s' Hrun Hne.
  destruct (uvmcopy_spec MAXVA MAXVA_sv39 old new sz s Hwf Hwo Hsep Hsz Hmax Hmaxr Hsrc Hfree)
    as [r0 [s0 [Hrun0 Hpost]]].
  rewrite Hrun in Hrun0. apply Done_inj in Hrun0. destruct Hrun0 as [<- <-].
  destruct Hpost as [[Hr _]|[Hr [Hwt [Hlkn [Hlko [Hcls [Hkeep [Hwf' Hal]]]]]]]]; [contradiction|].
  assert (Hago : tables_agree (ram s) (ram s') old).
  { apply (allocs_other_tree old new s s'); assumption. }
  split; [assumption|]. split; [assumption|]. split; [assumption|]. split; [assumption|].
  split; [assumption|]. split; [assumption|]. split; [assumption|].
  split; [|split; [|split; [|split; [|split; [|split]]]]].
  - exact (al_free _ _ _ Hal).
  - exact Hago.
  - now apply tables_agree_table_at.
  - intros t Ht Hin'. apply (tables_agree_is_table _ _ _ t Hwo Hago) in Ht.
    destruct (Hsep t Ht) as [_ Hnf]. apply Hnf. now apply (al_free _ _ _ Hal).
  - intros a v Haa Har Hv.
    destruct (Hsrc a Haa Har) as [v' [Hv' [_ [Hpnt Hpnf]]]].
    rewrite Hv in Hv'. apply Some_inj in Hv'. subst v'. split.
    + intros Hin'. apply Hpnf. now apply (al_free _ _ _ Hal).
    + intros off Hoff. apply (allocs_keeps_page new s s' (PTE2PA v)); try assumption.
      * apply PTE2PA_aligned.
      * unfold in_page. lia.
  - exact (al_new _ _ _ Hal).
  - exact (al_frame _ _ _ Hal).
Qed.

(** X25: [uvmcopy] insists on a source: when the first page of the old tree
    is not mapped and [sz] is not 0 it panics, with "uvmcopy: pte should
    exist" when the last-level table is missing and with "uvmcopy: page not
    present" when the entry is not valid. *)
Theorem uvmcopy_needs_source old new sz s :
  0 < sz -> 0 < MAXVA -> lookup (ram s) old 0 = None ->
  uvmcopy MAXVA old new sz s =
    Panic (if walk_ro 2 (ram s) old 0 =? 0
           then "uvmcopy: pte should exist" else "uvmcopy: page not present").
Proof.
  intros Hsz Hmax Hlk. unfold uvmcopy. cbn [uvmcopy_loop].
  destruct (Z.ltb_spec 0 sz); [|lia].
  apply bind_Panic. rewrite bind_walk_ro by assumption.
  unfold lookup in Hlk. cbv zeta in Hlk.
  destruct (walk_ro 2 (ram s) old 0 =? 0); [reflexivity|].
  rewrite bind_load64, invalid_test.
  destruct (pte_valid (read64 (ram s) (walk_ro 2 (ram s) old 0))); [discriminate Hlk|].
  reflexivity.
Qed.

End UvmcopyTheorems.

(** The example machine for [uvmcopy]. *)

Lemma mappages_boot_frame MAXVA root va size pa perm fl x :
  MAXVA <= 2 ^ 39 -> boot_okb root fl = true ->
  0 <= va -> 0 < size -> va + size <= MAXVA -> 0 <= pa < 2 ^ 64 ->
  (forall t, In t (root :: fl) -> ~ in_page t x) ->
  ram (state_of (mappages MAXVA root va size pa perm (boot fl)) (boot fl)) x = 0.
Proof.
  intros Hmax Hok Hva Hsz Hrange Hpa Hx.
  pose proof (wf_boot root fl Hok) as Hwf.
  destruct (mappages_spec MAXVA Hmax root va size pa perm (boot fl) Hwf Hva Hsz Hrange Hpa)
    as [r [s' [j [Hrun [_ [Hgr _]]]]]].
  - intros k Hk. reflexivity.
  - rewrite Hrun. cbn [state_of]. rewrite (gr_frame _ _ _ Hgr); [reflexivity|].
    intros t Ht. apply Hx.
    destruct (gr_new _ _ _ Hgr t Ht) as [H0|Hin].
    + left. symmetry. apply (is_table_zero (ram (boot fl)) root t); [reflexivity | exact H0].
    + right. exact Hin.
Qed.

Lemma fork_state_ready fl :
  boot_okb 4096 (8192 :: 12288 :: fl) = true ->
  distinctb (16384 :: 40960 :: 45056 :: 4096 :: 8192 :: 12288 :: fl) = true ->
  freelist (fork_state fl) = fl ->
  lookup (ram (fork_state fl)) 4096 0 = Some (leaf_pte 40960 22) ->
  lookup (ram (fork_state fl)) 4096 4096 = Some (leaf_pte 45056 22) ->
  wf (fork_state fl) 16384 /\ wf_tree (ram (fork_state fl)) 4096 /\
  (forall t, is_table (ram (fork_state fl)) 4096 t ->
     ~ is_table (ram (fork_state fl)) 16384 t /\ ~ In t (freelist (fork_state fl))) /\
  (forall a, page_aligned a -> 0 <= a < 8192 ->
     exists v, lookup (ram (fork_state fl)) 4096 a = Some v /\ PTE_FLAGS v <> PTE_V /\
       ~ is_table (ram (fork_state fl)) 16384 (PTE2PA v) /\
       ~ In (PTE2PA v) (freelist (fork_state fl))) /\
  (forall a, page_aligned a -> 0 <= a < 8192 -> lookup (ram (fork_state fl)) 16384 a = None).
Proof.
  intros Hok Hdis Hfl Hl0 Hl1.
  assert (Hwfo : wf (fork_state fl) 4096).
  { apply (mappages_boot_wf (2 ^ 38) 4096 0 8192 40960 22 (8192 :: 12288 :: fl));
      [lia | assumption | lia | lia | lia | lia]. }
  assert (Htabo : forall t, is_table (ram (fork_state fl)) 4096 t ->
            In t (4096 :: 8192 :: 12288 :: fl)).
  { intros t. apply (mappages_boot_tables (2 ^ 38) 4096 0 8192 40960 22 (8192 :: 12288 :: fl));
      [lia | assumption | lia | lia | lia | lia]. }
  apply distinctb_NoDup in Hdis.
  apply NoDup_cons_iff in Hdis. destruct Hdis as [N0 Hdis].
  apply NoDup_cons_iff in Hdis. destruct Hdis as [N1 Hdis].
  apply NoDup_cons_iff in Hdis. destruct Hdis as [N2 Hdis].
  assert (Hpages : forall t, In t (4096 :: 8192 :: 12288 :: fl) -> page_aligned t /\ 0 < t < 2 ^ 64).
  { intros t Ht. unfold boot_okb in Hok. apply andb_prop in Hok. destruct Hok as [Hpg _].
    rewrite forallb_forall in Hpg. apply page_okb_spec. apply Hpg. exact Ht. }
  assert (Hzero : forall x, in_page 16384 x -> ram (fork_state fl) x = 0).
  { intros x Hx.
    apply (mappages_boot_frame (2 ^ 38) 4096 0 8192 40960 22 (8192 :: 12288 :: fl));
      [lia | assumption | lia | lia | lia | lia |].
    intros t Ht. destruct (Hpages t Ht) as [Hta _].
    apply (pages_disjoint 16384 t x); [reflexivity | assumption | | assumption].
    intros <-. apply N0. right. right. exact Ht. }
  assert (Hroot : forall i, index_ok i -> read64 (ram (fork_state fl)) (16384 + 8 * i) = 0).
  { intros i Hi. rewrite (read64_ext (fun _ => 0) (ram (fork_state fl))); [reflexivity|].
    intros x Hx. apply Hzero. unfold in_page, index_ok, PGSIZE in *. lia. }
  assert (Hnew : forall t, is_table (ram (fork_state fl)) 16384 t -> t = 16384).
  { intros t. apply is_table_zero. exact Hroot. }
  assert (Hnone : forall a, lookup (ram (fork_state fl)) 16384 a = None).
  { intros a. unfold lookup. cbn [walk_ro]. rewrite (Hroot _ (PX_range _ a)). reflexivity. }
  split; [|split; [|split; [|split]]].
  - split; [apply wf_tree_zero; [assumption | reflexivity | lia]|]. rewrite Hfl. split.
    + apply NoDup_cons_iff in Hdis. destruct Hdis as [_ Hdis].
      apply NoDup_cons_iff in Hdis. destruct Hdis as [_ Hdis].
      apply NoDup_cons_iff in Hdis. destruct Hdis as [_ Hdis]. exact Hdis.
    + intros p Hp. destruct (Hpages p (or_intror (or_intror (or_intror Hp)))) as [Hpa Hpr].
      split; [assumption|]. split; [assumption|].
      intros Ht. apply Hnew in Ht. subst p. apply N0. right; right; right; right; right.
      exact Hp.
  - apply Hwfo.
  - intros t Ht. split.
    + intros Ht'. apply Hnew in Ht'. subst t. apply N0. right; right. apply Htabo. exact Ht.
    + intros Hin. destruct (wf_free_pages _ _ _ (proj2 Hwfo) t Hin) as [_ [_ Hn]].
      exact (Hn Ht).
  - intros a Ha Hr.
    destruct (aligned_below_two_pages a Ha ltac:(unfold PGSIZE; lia)) as [-> | ->].
    + exists (leaf_pte 40960 22). split; [assumption|].
      split; [vm_compute; discriminate|].
      change (PTE2PA (leaf_pte 40960 22)) with 40960. rewrite Hfl. split.
      * intros Ht. apply Hnew in Ht. discriminate Ht.
      * intros Hin. apply N1. right; right; right; right. exact Hin.
    + exists (leaf_pte 45056 22). split; [assumption|].
      split; [vm_compute; discriminate|].
      change (PTE2PA (leaf_pte 45056 22)) with 45056. rewrite Hfl. split.
      * intros Ht. apply Hnew in Ht. discriminate Ht.
      * intros Hin. apply N2. right; right; right. exact Hin.
  - intros a _ _. apply Hnone.
Qed.
Lemma uvmcopy_copies_witness :
  let s := fork_state [20480; 24576; 28672; 32768] in
  exists r s',
    uvmcopy (2 ^ 38) 4096 16384 8192 s = Done r s' /\ (r = 0 \/ r = -1) /\
    (r = 0 ->
       wf s' 16384 /\
       (forall va, lookup (ram s') 4096 va = lookup (ram s) 4096 va) /\
       (forall a, page_aligned a -> 0 <= a < 8192 ->
          exists v mem,
            lookup (ram s) 4096 a = Some v /\
            lookup (ram s') 16384 a = Some (leaf_pte mem (PTE_FLAGS v)) /\
            PTE_FLAGS (leaf_pte mem (PTE_FLAGS v)) = PTE_FLAGS v /\
            mapped_pa (ram s') 16384 a = mem /\
            In mem (freelist s) /\ ~ In mem (freelist s') /\
            (forall x, in_page mem x -> ~ in_page (PTE2PA v) x) /\
            (forall off, 0 <= off < PGSIZE ->
               ram s' (mem + off) = ram s (PTE2PA v + off) /\
               ram s' (PTE2PA v + off) = ram s (PTE2PA v + off))) /\
       (forall a b, page_aligned a -> 0 <= a < 8192 -> page_aligned b -> 0 <= b < 8192 ->
          a <> b -> mapped_pa (ram s') 16384 a <> mapped_pa (ram s') 16384 b) /\
       (forall a, page_aligned a -> 0 <= a < 2 ^ 39 -> ~ (0 <= a < 8192) ->
          lookup (ram s') 16384 a = lookup (ram s) 16384 a) /\
       (forall p, In p (freelist s') -> In p (freelist s)) /\
       (forall p, In p (freelist s) ->
          In p (freelist s') \/ is_table (ram s') 16384 p \/
          exists a, page_aligned a /\ 0 <= a < 8192 /\ p = mapped_pa (ram s') 16384 a) /\
       (forall t x, is_table (ram s) 4096 t -> in_page t x -> ram s' x = ram s x) /\
       (forall p, path_ok 2 p -> table_at (ram s') 4096 p = table_at (ram s) 4096 p) /\
       (forall t, is_table (ram s') 4096 t -> ~ In t (freelist s')) /\
       (forall a v, page_aligned a -> 0 <= a < 8192 -> lookup (ram s) 4096 a = Some v ->
          ~ In (PTE2PA v) (freelist s')) /\
       (forall t, is_table (ram s') 16384 t -> is_table (ram s) 16384 t \/ In t (freelist s)) /\
       (forall x, (forall t, is_table (ram s') 16384 t -> ~ in_page t x) ->
                  (forall p, In p (freelist s) -> ~ in_page p x) -> ram s' x = ram s x)).
Proof.
  intros s.
  destruct (fork_state_ready [20480; 24576; 28672; 32768]
              ltac:(vm_compute; reflexivity) ltac:(vm_compute; reflexivity)
              ltac:(vm_compute; reflexivity) ltac:(vm_compute; reflexivity)
              ltac:(vm_compute; reflexivity)) as [H1 [H2 [H3 [H4 H5]]]].
  apply (uvmcopy_copies (2 ^ 38) ltac:(lia) 4096 16384 8192 s H1 H2 H3);
    [lia | lia | vm_compute; discriminate | exact H4 | exact H5].
Defined.

Lemma uvmcopy_failure_rolls_back_witness :
  let s := fork_state [20480; 24576; 28672] in
  let s' := state_of (uvmcopy (2 ^ 38) 4096 16384 8192 s) s in
  -1 = -1 /\ wf_tree (ram s') 16384 /\
    (forall va, lookup (ram s') 16384 va = lookup (ram s) 16384 va) /\
    (forall va, lookup (ram s') 4096 va = lookup (ram s) 4096 va) /\
    (forall p, In p (freelist s) -> In p (freelist s') \/ is_table (ram s') 16384 p) /\
    (forall t, is_table (ram s) 16384 t -> is_table (ram s') 16384 t) /\
    wf s' 16384 /\
    (forall p, In p (freelist s') -> In p (freelist s)) /\
    (forall t x, is_table (ram s) 4096 t -> in_page t x -> ram s' x = ram s x) /\
    (forall p, path_ok 2 p -> table_at (ram s') 4096 p = table_at (ram s) 4096 p) /\
    (forall t, is_table (ram s') 4096 t -> ~ In t (freelist s')) /\
    (forall a v, page_aligned a -> 0 <= a < 8192 -> lookup (ram s) 4096 a = Some v ->
       ~ In (PTE2PA v) (freelist s') /\
       forall off, 0 <= off < PGSIZE -> ram s' (PTE2PA v + off) = ram s (PTE2PA v + off)) /\
    (forall t, is_table (ram s') 16384 t -> is_table (ram s) 16384 t \/ In t (freelist s)) /\
    (forall x, (forall t, is_table (ram s') 16384 t -> ~ in_page t x) ->
               (forall p, In p (freelist s) -> ~ in_page p x) -> ram s' x = ram s x).
Proof.
  intros s s'.
  destruct (fork_state_ready [20480; 24576; 28672]
              ltac:(vm_compute; reflexivity) ltac:(vm_compute; reflexivity)
              ltac:(vm_compute; reflexivity) ltac:(vm_compute; reflexivity)
              ltac:(vm_compute; reflexivity)) as [H1 [H2 [H3 [H4 H5]]]].
  apply (uvmcopy_failure_rolls_back (2 ^ 38) ltac:(lia) 4096 16384 8192 s H1 H2 H3);
    [lia | lia | vm_compute; discriminate | exact H4 | exact H5 | | intros E; discriminate E].
  apply done_state. vm_compute. reflexivity.
Defined.

Lemma uvmcopy_needs_source_witness :
  uvmcopy (2 ^ 38) 4096 16384 8192 (boot []) =
    Panic (if walk_ro 2 (ram (boot [])) 4096 0 =? 0
           then "uvmcopy: pte should exist" else "uvmcopy: page not present").
Proof.
  apply (uvmcopy_needs_source (2 ^ 38) 4096 16384 8192 (boot [])); [lia | lia | reflexivity].
Defined.

(** ** More on [uvmunmap], [mappages] and the copy routines *)

Section Unmap.

Variable MAXVA : Z.
Hypothesis MAXVA_sv39 : MAXVA <= 2 ^ 39.

(** X26: [uvmunmap] of a range of mapped leaves returns with every page of
    the range unmapped and nothing else mapped differently; the page-table
    pages stay as they are; with [do_free = 0] the free list is unchanged,
    otherwise it gains exactly the physical pages of the range; no byte
    outside the page-table pages is written. *)
Theorem uvmunmap_unmaps root va npages do_free s :
  wf_tree (ram s) root -> page_aligned va -> 0 <= va -> 0 <= npages ->
  va + PGSIZE * npages <= MAXVA ->
  (forall k, 0 <= k < npages ->
     exists v, lookup (ram s) root (va + PGSIZE * k) = Some v /\ PTE_FLAGS v <> PTE_V) ->
  exists s',
    uvmunmap MAXVA root va npages do_free s = Done tt s' /\
    wf_tree (ram s') root /\
    (forall t, is_table (ram s') root t <-> is_table (ram s) root t) /\
    (forall a, page_aligned a -> va <= a < va + PGSIZE * npages ->
       lookup (ram s') root a = None) /\
    (forall a, page_aligned a -> 0 <= a < 2 ^ 39 -> ~ (va <= a < va + PGSIZE * npages) ->
       lookup (ram s') root a = lookup (ram s) root a) /\
    (do_free = 0 -> freelist s' = freelist s) /\
    (do_free <> 0 ->
       forall p, In p (freelist s') <->
         In p (freelist s) \/
         exists k, 0 <= k < npages /\ p = mapped_pa (ram s) root (va + PGSIZE * k)) /\
    (forall x, (forall t, is_table (ram s) root t -> ~ in_page t x) -> ram s' x = ram s x).
Proof.
  intros Hwf Ha Hva Hn Hmax Hmapped.
  destruct (uvmunmap_spec MAXVA MAXVA_sv39 root va npages do_free s Hwf Ha Hva Hn Hmax Hmapped)
    as [s' [Hrun [Hwf' [Htabs [Hin [Hout [Hfl Hfr]]]]]]].
  exists s'. split; [assumption|]. split; [assumption|].
  split; [intros t; now apply is_table_ext|].
  split; [|split; [|split; [|split]]].
  - intros a Haa Har.
    assert (Hk : a = va + PGSIZE * ((a - va) / PGSIZE) /\ 0 <= (a - va) / PGSIZE < npages).
    { apply page_aligned_mul in Haa, Ha. unfold PGSIZE in *.
      assert (E : a - va = (a / 4096 - va / 4096) * 4096) by lia.
      rewrite E, Z.div_mul by lia. lia. }
    destruct Hk as [Ea Hk]. rewrite Ea. now apply Hin.
  - intros a Haa Har Hnr. apply Hout. intros k Hk Hs.
    apply same_entry_aligned in Hs; try assumption.
    + subst a. apply Hnr. unfold PGSIZE in *. lia.
    + unfold PGSIZE in *. lia.
    + now apply page_offset_aligned.
  - intros ->. rewrite Hfl. reflexivity.
  - intros Hdf p. rewrite Hfl. destruct (Z.eqb_spec do_free 0) as [|_]; [contradiction|].
    rewrite in_app_iff, <- in_rev. split.
    + intros [H|H]; [right | now left].
      apply range_pas_inv in H. destruct H as [k [Hk ->]].
      exists k. rewrite Z2Nat.id in Hk by lia. split; [assumption | reflexivity].
    + intros [H|[k [Hk ->]]]; [now right | left].
      apply range_pas_In. rewrite Z2Nat.id by lia. assumption.
  - assumption.
Qed.

(** X27: [mappages] returns 0 or -1 and fails for no other reason than an
    exhausted allocator: when it returns -1 the free list is empty, and the
    pages it had mapped before stay mapped, the others of the range stay
    unmapped: it does not undo a partial mapping. *)
Theorem mappages_stops_when_exhausted root va size pa perm s :
  wf s root -> 0 <= va -> 0 < size -> va + size <= MAXVA -> 0 <= pa < 2 ^ 64 ->
  let a := PGROUNDDOWN va in
  let n := (va + size - 1) / PGSIZE - va / PGSIZE in
  (forall k, 0 <= k <= n -> lookup (ram s) root (a + PGSIZE * k) = None) ->
  exists r s',
    mappages MAXVA root va size pa perm s = Done r s' /\ (r = 0 \/ r = -1) /\
    (r = -1 ->
       freelist s' = [] /\ wf s' root /\
       exists j, 0 <= j <= n /\
         (forall k, 0 <= k < j ->
            lookup (ram s') root (a + PGSIZE * k)
              = Some (leaf_pte (u64 (pa + PGSIZE * k)) perm)) /\
         (forall k, j <= k <= n -> lookup (ram s') root (a + PGSIZE * k) = None) /\
         (forall va', (forall k, 0 <= k < j -> ~ same_entry (a + PGSIZE * k) va') ->
            lookup (ram s') root va' = lookup (ram s) root va')).
Proof.
  intros Hwf Hva Hsz Hmax Hpa a n Hnone.
  destruct (mappages_spec MAXVA MAXVA_sv39 root va size pa perm s Hwf Hva Hsz Hmax Hpa Hnone)
    as [r [s' [j [Hrun [Hwf' [_ [Hj [Hin [Hout Hres]]]]]]]]].
  fold a in Hin, Hout. fold n in Hj, Hres.
  assert (Ea : a = PGROUNDDOWN va) by reflexivity.
  assert (En : n = (va + size - 1) / PGSIZE - va / PGSIZE) by reflexivity.
  clearbody a n.
  exists r, s'. split; [assumption|].
  split; [destruct Hres as [[-> _]|[-> _]]; auto|].
  intros Hr. destruct Hres as [[Hr0 _]|[_ [Hjn Hfl]]]; [lia|].
  split; [assumption|]. split; [assumption|].
  exists j. split; [lia|]. split; [assumption|]. split; [|assumption].
  intros k Hk. rewrite Hout; [apply Hnone; lia|].
  intros i Hi.
  assert (Haa : page_aligned a) by (subst a; apply PGROUNDDOWN_aligned).
  pose proof (PGROUNDDOWN_bounds va) as Hb. rewrite <- Ea in Hb.
  assert (Ediv : a = PGSIZE * (va / PGSIZE)) by (subst a; apply PGROUNDDOWN_eq).
  assert (Hdiv : 0 <= va / PGSIZE) by (apply Z.div_pos; unfold PGSIZE; lia).
  assert (Hlast : a + PGSIZE * n < MAXVA).
  { pose proof (Z.div_mod (va + size - 1) PGSIZE ltac:(unfold PGSIZE; lia)).
    pose proof (Z.mod_pos_bound (va + size - 1) PGSIZE ltac:(unfold PGSIZE; lia)).
    unfold PGSIZE in *. lia. }
  apply pages_differ; [assumption | | | lia]; unfold PGSIZE in *; lia.
Qed.

End Unmap.

(** X28: a page whose entry is valid but lacks [PTE_U] is out of reach for
    the copy routines, as a page without a mapping is: [walkaddr] returns 0
    for it, and [copyout], [copyin] and [copyinstr] that start in it return
    -1 without changing anything. *)
Theorem kernel_page_faults MAXVA root va buf len v s :
  0 < len -> lookup (ram s) root (PGROUNDDOWN va) = Some v -> Z.land v PTE_U = 0 ->
  walkaddr MAXVA root (PGROUNDDOWN va) s = Done 0 s /\
  copyout MAXVA root va buf len s = Done (-1) s /\
  copyin MAXVA root buf va len s = Done (-1) s /\
  copyinstr MAXVA root buf va len s = Done (-1) s.
Proof.
  intros Hlen Hlk Hu.
  assert (Hw : walkaddr MAXVA root (PGROUNDDOWN va) s = Done 0 s).
  { rewrite walkaddr_spec. f_equal. unfold walkaddr_ro.
    destruct (MAXVA <=? PGROUNDDOWN va); [reflexivity|]. rewrite Hlk, Hu. reflexivity. }
  split; [exact Hw|]. split; [|split].
  - unfold copyout. cbn [copyout_loop]. destruct (Z.ltb_spec 0 len); [|lia].
    rewrite (bind_Done _ _ _ _ _ Hw). reflexivity.
  - unfold copyin. cbn [copyin_loop]. destruct (Z.ltb_spec 0 len); [|lia].
    rewrite (bind_Done _ _ _ _ _ Hw). reflexivity.
  - unfold copyinstr. cbn [copyinstr_loop negb andb]. destruct (Z.ltb_spec 0 len); [|lia].
    rewrite (bind_Done _ _ _ _ _ Hw). reflexivity.
Qed.

Lemma uvmunmap_unmaps_witness :
  exists s',
    uvmunmap (2 ^ 38) 4096 0 2 1 two_page_state = Done tt s' /\
    wf_tree (ram s') 4096 /\
    (forall t, is_table (ram s') 4096 t <-> is_table (ram two_page_state) 4096 t) /\
    (forall a, page_aligned a -> 0 <= a < 0 + PGSIZE * 2 ->
       lookup (ram s') 4096 a = None) /\
    (forall a, page_aligned a -> 0 <= a < 2 ^ 39 -> ~ (0 <= a < 0 + PGSIZE * 2) ->
       lookup (ram s') 4096 a = lookup (ram two_page_state) 4096 a) /\
    (1 = 0 -> freelist s' = freelist two_page_state) /\
    (1 <> 0 ->
       forall p, In p (freelist s') <->
         In p (freelist two_page_state) \/
         exists k, 0 <= k < 2 /\ p = mapped_pa (ram two_page_state) 4096 (0 + PGSIZE * k)) /\
    (forall x, (forall t, is_table (ram two_page_state) 4096 t -> ~ in_page t x) ->
       ram s' x = ram two_page_state x).
Proof.
  apply (uvmunmap_unmaps (2 ^ 38) ltac:(lia) 4096 0 2 1 two_page_state two_page_state_wf);
    [reflexivity | lia | lia | unfold PGSIZE; lia |].
  intros k Hk. assert (Hc : k = 0 \/ k = 1) by lia.
  destruct Hc as [-> | ->].
  - exists (leaf_pte 40960 22). split; [vm_compute; reflexivity | vm_compute; discriminate].
  - exists (leaf_pte 45056 22). split; [vm_compute; reflexivity | vm_compute; discriminate].
Defined.

Lemma mappages_stops_when_exhausted_witness :
  let s := boot [8192; 12288] in
  let a := PGROUNDDOWN 2093056 in
  let n := (2093056 + 8192 - 1) / PGSIZE - 2093056 / PGSIZE in
  exists r s',
    mappages (2 ^ 38) 4096 2093056 8192 40960 22 s = Done r s' /\ (r = 0 \/ r = -1) /\
    (r = -1 ->
       freelist s' = [] /\ wf s' 4096 /\
       exists j, 0 <= j <= n /\
         (forall k, 0 <= k < j ->
            lookup (ram s') 4096 (a + PGSIZE * k)
              = Some (leaf_pte (u64 (40960 + PGSIZE * k)) 22)) /\
         (forall k, j <= k <= n -> lookup (ram s') 4096 (a + PGSIZE * k) = None) /\
         (forall va', (forall k, 0 <= k < j -> ~ same_entry (a + PGSIZE * k) va') ->
            lookup (ram s') 4096 va' = lookup (ram s) 4096 va')).
Proof.
  apply (mappages_stops_when_exhausted (2 ^ 38) ltac:(lia) 4096 2093056 8192 40960 22
           (boot [8192; 12288])).
  - apply wf_boot. reflexivity.
  - lia.
  - lia.
  - lia.
  - lia.
  - intros k _. reflexivity.
Defined.

Lemma kernel_page_faults_witness :
  let s := state_of (mappages (2 ^ 38) 4096 0 4096 40960 6 (boot [8192; 12288])) (boot []) in
  walkaddr (2 ^ 38) 4096 (PGROUNDDOWN 100) s = Done 0 s /\
  copyout (2 ^ 38) 4096 100 100000 8 s = Done (-1) s /\
  copyin (2 ^ 38) 4096 100000 100 8 s = Done (-1) s /\
  copyinstr (2 ^ 38) 4096 100000 100 8 s = Done (-1) s.
Proof.
  intros s.
  apply (kernel_page_faults (2 ^ 38) 4096 100 100000 8 (leaf_pte 40960 6) s).
  - lia.
  - vm_compute. reflexivity.
  - vm_compute. reflexivity.
Defined.

(** ** [vmprint] *)

Lemma printwalk_entries_dump child level t s (f : Z -> list printf_call) :
  (negb (level =? 0) = true -> forall c, child c s = Done (f c) s) ->
  (level = 0 -> forall c, f c = []) ->
  forall n i,
    printwalk_entries child n t level (Z.of_nat i) s =
    Done (flat_map (fun idx => let pte := read64 (ram s) (t + 8 * idx) in
                               if pte_valid pte
                               then entry_lines level idx pte ++ f (PTE2PA pte)
                               else [])
            (entries_from i n)) s.
Proof.
  intros Hchild Hzero. induction n as [|n IH]; intros i; [reflexivity|].
  cbn [printwalk_entries]. rewrite bind_load64, valid_test.
  rewrite entries_from_S. cbn [flat_map]. cbv zeta.
  replace (Z.of_nat i + 1) with (Z.of_nat (S i)) by lia.
  remember (read64 (ram s) (t + 8 * Z.of_nat i)) as pte eqn:Epte.
  assert (Hhere : (if pte_valid pte
                   then sub <- (if negb (level =? 0) then child (PTE2PA pte) else ret []) ;;
                        ret (entry_lines level (Z.of_nat i) pte ++ sub)
                   else ret []) s
                  = Done (if pte_valid pte
                          then entry_lines level (Z.of_nat i) pte ++ f (PTE2PA pte)
                          else []) s).
  { destruct (pte_valid pte); [|reflexivity].
    destruct (negb (level =? 0)) eqn:Hl.
    - rewrite (bind_Done _ _ _ _ _ (Hchild eq_refl (PTE2PA pte))). reflexivity.
    - assert (E : level = 0).
      { apply negb_false_iff in Hl. now apply Z.eqb_eq in Hl. }
      rewrite bind_ret, (Hzero E). reflexivity. }
  rewrite (bind_Done _ _ _ _ _ Hhere), (bind_Done _ _ _ _ _ (IH (S i))). reflexivity.
Qed.

(** [printwalk] reads the tree and returns: with [level] levels below the
    table, [level + 1] nested calls are enough. *)
Lemma printwalk_dump d : forall (level : nat) t s,
  (level <= 2)%nat ->
  printwalk (S level + d) t (Z.of_nat level) s = Done (dump level (ram s) t) s.
Proof.
  induction level as [|l IH]; intros t s Hl.
  - assert (H0 : negb (Z.of_nat 0 =? 0) = true ->
              forall c, printwalk d c (s32 (Z.of_nat 0 - 1)) s = Done [] s)
      by (intros H; discriminate H).
    exact (printwalk_entries_dump (fun c => printwalk d c (s32 (Z.of_nat 0 - 1)))
             (Z.of_nat 0) t s (fun _ => []) H0 (fun _ _ => eq_refl) 512 0%nat).
  - assert (Hchild : negb (Z.of_nat (S l) =? 0) = true ->
              forall c, printwalk (S l + d) c (s32 (Z.of_nat (S l) - 1)) s
                        = Done (dump l (ram s) c) s).
    { intros _ c.
      replace (s32 (Z.of_nat (S l) - 1)) with (Z.of_nat l) by (rewrite s32_small; lia).
      apply IH. lia. }
    assert (Hz : Z.of_nat (S l) = 0 -> forall c, dump l (ram s) c = []) by (intros H; lia).
    exact (printwalk_entries_dump (fun c => printwalk (S l + d) c (s32 (Z.of_nat (S l) - 1)))
             (Z.of_nat (S l)) t s (fun c => dump l (ram s) c) Hchild Hz 512 0%nat).
Qed.

(** A line of the dump shows a valid entry of a table of the tree, and every
    such entry has its line. *)
Lemma dump_lines level : forall m t pte pa,
  In (("pte %p pa %p" ++ newline)%string, [pte; pa]) (dump level m t) <->
  pa = PTE2PA pte /\ pte_valid pte = true /\
  exists q t' i, path_ok level q /\ table_at m t q = Some t' /\ index_ok i /\
                 read64 m (t' + 8 * i) = pte.
Proof.
  induction level as [|l IH]; intros m t pte pa.
  - cbn [dump]. rewrite in_flat_map. split.
    + intros [i [Hi Hin]]. cbv zeta in Hin.
      destruct (pte_valid (read64 m (t + 8 * i))) eqn:Hv; [|contradiction].
      rewrite app_nil_r in Hin. unfold entry_lines in Hin.
      destruct Hin as [E|[E|[E|[]]]]; inversion E; subst.
      split; [reflexivity|]. split; [assumption|].
      exists [], t, i. split; [apply path_ok_nil|]. split; [reflexivity|].
      split; [now apply entries_In | reflexivity].
    + intros [-> [Hv [q [t' [i [Hq [Ht [Hi <-]]]]]]]].
      destruct q as [|j q]; [|destruct Hq as [Hlen _]; cbn in Hlen; lia].
      cbn [table_at] in Ht. apply Some_inj in Ht. subst t'.
      exists i. split; [now apply entries_In|]. cbv zeta. rewrite Hv, app_nil_r.
      unfold entry_lines. right; right; now left.
  - cbn [dump]. rewrite in_flat_map. split.
    + intros [i [Hi Hin]]. cbv zeta in Hin.
      destruct (pte_valid (read64 m (t + 8 * i))) eqn:Hv; [|contradiction].
      apply in_app_or in Hin. destruct Hin as [Hin|Hin].
      * unfold entry_lines in Hin.
        destruct Hin as [E|[E|[E|[]]]]; inversion E; subst.
        split; [reflexivity|]. split; [assumption|].
        exists [], t, i. split; [apply path_ok_nil|]. split; [reflexivity|].
        split; [now apply entries_In | reflexivity].
      * apply IH in Hin. destruct Hin as [-> [Hvp [q [t' [j [Hq [Ht [Hj Hrd]]]]]]]].
        split; [reflexivity|]. split; [assumption|].
        exists (i :: q), t', j. split.
        { apply path_ok_cons. split; [now apply entries_In | assumption]. }
        split; [cbn [table_at]; now rewrite Hv|]. split; assumption.
    + intros [-> [Hv [q [t' [i [Hq [Ht [Hi <-]]]]]]]].
      destruct q as [|j q].
      * cbn [table_at] in Ht. apply Some_inj in Ht. subst t'.
        exists i. split; [now apply entries_In|]. cbv zeta. rewrite Hv.
        apply in_or_app. left. unfold entry_lines. right; right; now left.
      * apply path_ok_cons in Hq. destruct Hq as [Hj Hq]. cbn [table_at] in Ht.
        destruct (pte_valid (read64 m (t + 8 * j))) eqn:Hvj; [|discriminate Ht].
        exists j. split; [now apply entries_In|]. cbv zeta. rewrite Hvj.
        apply in_or_app. right. apply IH.
        split; [reflexivity|]. split; [assumption|]. exists q, t', i. auto.
Qed.

(** Every call of the dump belongs to a valid entry of a table of the
    tree, and every such entry has its three calls. *)
Lemma dump_calls level : forall m t c,
  In c (dump level m t) <->
  exists q t' i, path_ok level q /\ table_at m t q = Some t' /\ index_ok i /\
    pte_valid (read64 m (t' + 8 * i)) = true /\
    In c (entry_lines (Z.of_nat level - Z.of_nat (List.length q)) i (read64 m (t' + 8 * i))).
Proof.
  induction level as [|l IH]; intros m t c.
  - cbn [dump]. rewrite in_flat_map. split.
    + intros [i [Hi Hin]]. cbv zeta in Hin.
      destruct (pte_valid (read64 m (t + 8 * i))) eqn:Hv; [|contradiction].
      rewrite app_nil_r in Hin.
      exists [], t, i. split; [apply path_ok_nil|]. split; [reflexivity|].
      split; [now apply entries_In|]. split; [assumption|]. exact Hin.
    + intros [q [t' [i [Hq [Ht [Hi [Hv Hin]]]]]]].
      destruct q as [|j q]; [|destruct Hq as [Hlen _]; cbn in Hlen; lia].
      cbn [table_at] in Ht. apply Some_inj in Ht. subst t'.
      exists i. split; [now apply entries_In|]. cbv zeta. rewrite Hv, app_nil_r.
      exact Hin.
  - cbn [dump]. rewrite in_flat_map. split.
    + intros [i [Hi Hin]]. cbv zeta in Hin.
      destruct (pte_valid (read64 m (t + 8 * i))) eqn:Hv; [|contradiction].
      apply in_app_or in Hin. destruct Hin as [Hin|Hin].
      * exists [], t, i. split; [apply path_ok_nil|]. split; [reflexivity|].
        split; [now apply entries_In|]. split; [assumption|].
        cbn [List.length]. rewrite Z.sub_0_r. exact Hin.
      * apply IH in Hin. destruct Hin as [q [t' [j [Hq [Ht [Hj [Hvj Hin]]]]]]].
        exists (i :: q), t', j. split.
        { apply path_ok_cons. split; [now apply entries_In | assumption]. }
        split; [cbn [table_at]; now rewrite Hv|]. split; [assumption|].
        split; [assumption|].
        replace (Z.of_nat (S l) - Z.of_nat (List.length (i :: q)))
          with (Z.of_nat l - Z.of_nat (List.length q)) by (cbn [List.length]; lia).
        exact Hin.
    + intros [q [t' [i [Hq [Ht [Hi [Hv Hin]]]]]]].
      destruct q as [|j q].
      * cbn [table_at] in Ht. apply Some_inj in Ht. subst t'.
        exists i. split; [now apply entries_In|]. cbv zeta. rewrite Hv.
        apply in_or_app. left. cbn [List.length] in Hin. rewrite Z.sub_0_r in Hin. exact Hin.
      * apply path_ok_cons in Hq. destruct Hq as [Hj Hq]. cbn [table_at] in Ht.
        destruct (pte_valid (read64 m (t + 8 * j))) eqn:Hvj; [|discriminate Ht].
        exists j. split; [now apply entries_In|]. cbv zeta. rewrite Hvj.
        apply in_or_app. right. apply IH.
        exists q, t', i. split; [assumption|]. split; [assumption|]. split; [assumption|].
        split; [assumption|].
        replace (Z.of_nat l - Z.of_nat (List.length q))
          with (Z.of_nat (S l) - Z.of_nat (List.length (j :: q))) by (cbn [List.length]; lia).
        exact Hin.
Qed.

(** X29: [vmprint] always returns and changes nothing.  What it prints is
    the header line for the table followed, entry by entry in index order,
    by the three calls of each valid entry of the root (prefix, index, and
    the "pte ... pa ..." line with the entry and the physical address
    [PTE2PA] extracts from it), each followed by the same for the table it
    points to, two levels down; an invalid entry prints nothing.  So every
    call printed belongs to a valid entry of a page-table page of the tree,
    and the "pte ... pa ..." lines are exactly those entries. *)
Theorem vmprint_shows_valid_entries root s :
  exists out,
    vmprint root s = Done ((("page table %p" ++ newline)%string, [root]) :: out) s /\
    out =
      flat_map (fun i2 =>
        let e2 := read64 (ram s) (root + 8 * i2) in
        if pte_valid e2 then
          entry_lines 2 i2 e2 ++
          flat_map (fun i1 =>
            let e1 := read64 (ram s) (PTE2PA e2 + 8 * i1) in
            if pte_valid e1 then
              entry_lines 1 i1 e1 ++
              flat_map (fun i0 =>
                let e0 := read64 (ram s) (PTE2PA e1 + 8 * i0) in
                if pte_valid e0 then entry_lines 0 i0 e0 else [])
                entries
            else [])
            entries
        else [])
        entries /\
    (forall c, In c out <->
       exists p t i, path_ok 2 p /\ table_at (ram s) root p = Some t /\ index_ok i /\
         pte_valid (read64 (ram s) (t + 8 * i)) = true /\
         In c (entry_lines (2 - Z.of_nat (List.length p)) i (read64 (ram s) (t + 8 * i)))) /\
    (forall pte pa,
       In (("pte %p pa %p" ++ newline)%string, [pte; pa]) out <->
       pa = PTE2PA pte /\ pte_valid pte = true /\
       exists t i, is_table (ram s) root t /\ index_ok i /\
                   read64 (ram s) (t + 8 * i) = pte).
Proof.
  exists (dump 2 (ram s) root). split; [|split; [|split]].
  - unfold vmprint. rewrite (bind_Done _ _ _ _ _ (printwalk_dump 0 2 root s (le_n 2))).
    reflexivity.
  - reflexivity.
  - intros c. apply (dump_calls 2).
  - intros pte pa. rewrite dump_lines. unfold is_table. split.
    + intros [E [Hv [q [t [i [Hq [Ht [Hi Hrd]]]]]]]]. split; [assumption|].
      split; [assumption|]. exists t, i. split; [exists q; auto | auto].
    + intros [E [Hv [t [i [[q [Hq Ht]] [Hi Hrd]]]]]]. split; [assumption|].
      split; [assumption|]. exists q, t, i. auto.
Qed.
Lemma flat_map_segment {A B} (f : A -> list B) l i :
  In i l -> exists a d, flat_map f l = a ++ f i ++ d.
Proof.
  intros Hi. apply in_split in Hi. destruct Hi as [l1 [l2 ->]].
  exists (flat_map f l1), (flat_map f l2). rewrite flat_map_app. reflexivity.
Qed.

Lemma dump_segment level m t i :
  index_ok i -> pte_valid (read64 m (t + 8 * i)) = true ->
  exists a d,
    dump level m t =
    a ++ entry_lines (Z.of_nat level) i (read64 m (t + 8 * i))
      ++ match level with
         | O => []
         | S l => dump l m (PTE2PA (read64 m (t + 8 * i)))
         end ++ d.
Proof.
  intros Hi Hv. apply entries_In in Hi.
  assert (Hd : dump level m t =
               flat_map (fun i => let pte := read64 m (t + 8 * i) in
                                  if pte_valid pte
                                  then entry_lines (Z.of_nat level) i pte
                                         ++ match level with
                                            | O => []
                                            | S l => dump l m (PTE2PA pte)
                                            end
                                  else [])
                        entries) by (destruct level; reflexivity).
  rewrite Hd.
  match goal with
  | |- context [flat_map ?f entries] =>
      destruct (flat_map_segment f entries i Hi) as [a [d E]]
  end.
  exists a, d. rewrite E. cbv zeta. rewrite Hv. rewrite <- app_assoc. reflexivity.
Qed.

(** X30: for every mapped address [vmprint] shows the way to it: the entry
    of the root at the level-2 index of the address, after it the level-1
    entry of the table that entry points to, after it the last-level entry
    with the physical page the address is mapped to. *)
Theorem vmprint_trail root va v s :
  lookup (ram s) root va = Some v ->
  exists e2 e1 a b c d,
    vmprint root s =
      Done (a ++ entry_lines 2 (PX 2 va) e2 ++ b ++ entry_lines 1 (PX 1 va) e1
              ++ c ++ entry_lines 0 (PX 0 va) v ++ d) s /\
    e2 = read64 (ram s) (root + 8 * PX 2 va) /\
    e1 = read64 (ram s) (PTE2PA e2 + 8 * PX 1 va) /\
    v = read64 (ram s) (PTE2PA e1 + 8 * PX 0 va) /\
    PTE2PA v = mapped_pa (ram s) root va.
Proof.
  intros Hlk. destruct (lookup_Some _ _ _ _ Hlk) as [Hnz [Hrd Hvalid]].
  cbn [walk_ro] in Hnz, Hrd. change (Z.of_nat 2) with 2 in Hnz, Hrd.
  change (Z.of_nat 1) with 1 in Hnz, Hrd.
  remember (read64 (ram s) (root + 8 * PX 2 va)) as e2 eqn:E2.
  destruct (pte_valid e2) eqn:Hv2; [|discriminate Hnz].
  remember (read64 (ram s) (PTE2PA e2 + 8 * PX 1 va)) as e1 eqn:E1.
  destruct (pte_valid e1) eqn:Hv1; [|discriminate Hnz].
  destruct (dump_segment 2 (ram s) root (PX 2 va) (PX_range 2 va)) as [a [d2 D2]];
    [now rewrite <- E2|].
  destruct (dump_segment 1 (ram s) (PTE2PA e2) (PX 1 va) (PX_range 1 va)) as [b [d1 D1]];
    [now rewrite <- E1|].
  destruct (dump_segment 0 (ram s) (PTE2PA e1) (PX 0 va) (PX_range 0 va)) as [c [d0 D0]];
    [now rewrite Hrd|].
  rewrite <- E2 in D2. rewrite <- E1 in D1. rewrite Hrd in D0.
  rewrite D1 in D2. rewrite D0 in D2. cbn [app] in D2.
  exists e2, e1, ((("page table %p" ++ newline)%string, [root]) :: a), b, c, (d0 ++ d1 ++ d2).
  split; [|split; [first [reflexivity | exact E2]|split; [first [reflexivity | exact E1]|split]]].
  - unfold vmprint. rewrite (bind_Done _ _ _ _ _ (printwalk_dump 0 2 root s (le_n 2))).
    rewrite D2. cbn [ret]. unfold ret. f_equal. cbn [app]. f_equal.
    change (Z.of_nat 2) with 2. change (Z.of_nat 1) with 1. change (Z.of_nat 0) with 0.
    rewrite <- !app_assoc. reflexivity.
  - symmetry. exact Hrd.
  - unfold mapped_pa. now rewrite Hlk.
Qed.

Lemma vmprint_trail_witness :
  exists e2 e1 a b c d,
    vmprint 4096 two_page_state =
      Done (a ++ entry_lines 2 (PX 2 0) e2 ++ b ++ entry_lines 1 (PX 1 0) e1
              ++ c ++ entry_lines 0 (PX 0 0) (leaf_pte 40960 22) ++ d) two_page_state /\
    e2 = read64 (ram two_page_state) (4096 + 8 * PX 2 0) /\
    e1 = read64 (ram two_page_state) (PTE2PA e2 + 8 * PX 1 0) /\
    leaf_pte 40960 22 = read64 (ram two_page_state) (PTE2PA e1 + 8 * PX 0 0) /\
    PTE2PA (leaf_pte 40960 22) = mapped_pa (ram two_page_state) 4096 0.
Proof.
  apply (vmprint_trail 4096 0 (leaf_pte 40960 22) two_page_state).
  vm_compute. reflexivity.
Defined.

(** * Claims on protection, failure paths and reclamation *)

(** ** C1 *)









(** ** C4 *)

Section UvmallocUndo.

Variable MAXVA : Z.
Hypothesis MAXVA_sv39 : MAXVA <= 2 ^ 39.

(** Undoing a growth of [d] pages that were mapped to the pages [mems]:
    the pages go back to the free list and the state is well formed. *)
Lemma undo_growth root a0 d s s0 mems :
  wf s root -> page_aligned a0 -> 0 <= a0 -> 0 <= d -> a0 + PGSIZE * d <= MAXVA ->
  Z.of_nat (List.length mems) = d -> NoDup mems ->
  (forall k, 0 <= k < d ->
     lookup (ram s) root (a0 + PGSIZE * k)
     = Some (leaf_pte (nth (Z.to_nat k) mems 0) UVM_PERM)) ->
  (forall mem, In mem mems ->
     page_aligned mem /\ 0 < mem < 2 ^ 64 /\ ~ In mem (freelist s) /\
     ~ is_table (ram s) root mem /\ In mem (freelist s0)) ->
  allocs root s0 s ->
  exists s',
    uvmdealloc MAXVA root (a0 + PGSIZE * d) a0 s = Done a0 s' /\
    wf s' root /\ allocs root s0 s' /\ freelist s' = rev mems ++ freelist s.
Proof.
  intros Hwf Ha Ha0 Hd Hmax Hlen Hnd Hmapped Hmems Hal.
  destruct (Z.eq_dec d 0) as [Hd0|Hd0].
  - assert (mems = []) as ->
      by (destruct mems; [reflexivity | cbn [List.length] in Hlen; lia]).
    rewrite Hd0. exists s. unfold uvmdealloc.
    destruct (Z.leb_spec (a0 + PGSIZE * 0) a0); [|lia].
    replace (a0 + PGSIZE * 0) with a0 by lia.
    split; [reflexivity|]. split; [assumption|]. split; [assumption | reflexivity].
  - assert (Hhi : PGROUNDUP (a0 + PGSIZE * d) = a0 + PGSIZE * d).
    { apply PGROUNDUP_id; [unfold PGSIZE; lia | unfold PGSIZE in *; lia |].
      now apply page_offset_aligned. }
    assert (Hlo : PGROUNDUP a0 = a0).
    { apply PGROUNDUP_id; [lia | unfold PGSIZE in *; lia | assumption]. }
    assert (Hn : (PGROUNDUP (a0 + PGSIZE * d) - PGROUNDUP a0) / PGSIZE = d).
    { rewrite Hhi, Hlo. replace (a0 + PGSIZE * d - a0) with (d * PGSIZE) by lia.
      apply Z.div_mul. unfold PGSIZE. lia. }
    assert (Hperm : 0 <= UVM_PERM < 1024) by (rewrite UVM_PERM_val; lia).
    assert (Hpa : forall k, 0 <= k < d ->
              mapped_pa (ram s) root (a0 + PGSIZE * k) = nth (Z.to_nat k) mems 0).
    { intros k Hk.
      assert (Hi : In (nth (Z.to_nat k) mems 0) mems) by (apply nth_In; lia).
      destruct (Hmems _ Hi) as [Hma [Hmr _]].
      apply (leaf_pte_mapped_pa _ _ _ _ UVM_PERM (Hmapped k Hk)); [lia | assumption | assumption]. }
    destruct (uvmdealloc_spec MAXVA MAXVA_sv39 root (a0 + PGSIZE * d) a0 s)
      as [_ [_ [s' [Hrun [Hwf' [Htabs [Hin [Hout [Hfl Hfr]]]]]]]]]; try apply Hwf.
    + unfold PGSIZE. lia.
    + rewrite Hhi. assumption.
    + unfold PGSIZE in *. lia.
    + rewrite Hn, Hlo. intros k Hk.
      exists (leaf_pte (nth (Z.to_nat k) mems 0) UVM_PERM). split; [now apply Hmapped|].
      assert (Hi : In (nth (Z.to_nat k) mems 0) mems) by (apply nth_In; lia).
      destruct (Hmems _ Hi) as [_ [Hmr _]].
      rewrite leaf_pte_flags by lia. rewrite UVM_PERM_val. vm_compute. discriminate.
    + rewrite Hn, Hlo in *.
      assert (Hrange : range_pas (ram s) root a0 (Z.to_nat d) = mems).
      { apply (nth_ext _ _ 0 0).
        - rewrite range_pas_length. lia.
        - intros i Hi. rewrite range_pas_length in Hi. rewrite range_pas_nth by assumption.
          rewrite Hpa by lia. now rewrite Nat2Z.id. }
      rewrite Hrange in Hfl.
      assert (Htab2 : forall t, is_table (ram s') root t <-> is_table (ram s) root t).
      { intros t. apply (is_table_ext (ram s) (ram s') root t Htabs). }
      assert (Hfree2 : forall p, In p (freelist s') -> In p (freelist s0)).
      { intros p Hp. rewrite Hfl in Hp. apply in_app_or in Hp. destruct Hp as [Hp|Hp].
        - rewrite <- in_rev in Hp. now destruct (Hmems p Hp) as [_ [_ [_ [_ H0]]]].
        - now apply (al_free _ _ _ Hal). }
      exists s'. split; [assumption|]. split; [|split; [|assumption]].
      * split; [assumption|]. split.
        -- rewrite Hfl. apply NoDup_app.
           ++ now apply NoDup_rev.
           ++ apply (wf_free_nodup _ _ _ (proj2 Hwf)).
           ++ intros p Hp. rewrite <- in_rev in Hp.
              now destruct (Hmems p Hp) as [_ [_ [Hnf _]]].
        -- intros p Hp. rewrite Htab2. rewrite Hfl in Hp. apply in_app_or in Hp.
           destruct Hp as [Hp|Hp].
           ++ rewrite <- in_rev in Hp. destruct (Hmems p Hp) as [H1 [H2 [_ [H4 _]]]]. auto.
           ++ exact (wf_free_pages _ _ _ (proj2 Hwf) p Hp).
      * split.
        -- intros q t Hq Ht. rewrite Htabs by assumption. now apply (al_tables _ _ _ Hal).
        -- intros t Ht. apply Htab2 in Ht. exact (al_new _ _ _ Hal t Ht).
        -- exact Hfree2.
        -- intros x Hx1 Hx2. rewrite Hfr.
           ++ apply (al_frame _ _ _ Hal); [|assumption].
              intros t Ht. apply Hx1. now apply Htab2.
           ++ intros t Ht. apply Hx1. now apply Htab2.
Qed.

(** The loop of [uvmalloc] when it does not reach [newsz]: [mems] are the
    pages of the [d] addresses mapped so far, [s0] is the state the call
    started in. *)
Lemma uvmalloc_loop_undo root a0 newsz s0 : forall (n fuel : nat) d s mems,
  (n <= fuel)%nat -> wf s root -> page_aligned a0 -> 0 <= a0 -> 0 <= d ->
  a0 + PGSIZE * (d + Z.of_nat n) <= MAXVA ->
  (forall k, d <= k < d + Z.of_nat n -> a0 + PGSIZE * k < newsz) ->
  newsz <= a0 + PGSIZE * (d + Z.of_nat n) ->
  Z.of_nat (List.length mems) = d -> NoDup mems ->
  (forall k, 0 <= k < d ->
     lookup (ram s) root (a0 + PGSIZE * k)
     = Some (leaf_pte (nth (Z.to_nat k) mems 0) UVM_PERM)) ->
  (forall mem, In mem mems ->
     page_aligned mem /\ 0 < mem < 2 ^ 64 /\ ~ In mem (freelist s) /\
     ~ is_table (ram s) root mem /\ In mem (freelist s0)) ->
  (forall k, d <= k < d + Z.of_nat n -> lookup (ram s) root (a0 + PGSIZE * k) = None) ->
  allocs root s0 s ->
  forall r s', uvmalloc_loop MAXVA fuel root a0 (a0 + PGSIZE * d) newsz s = Done r s' ->
    r <> newsz -> wf s' root /\ allocs root s0 s'.
Proof.
  induction n as [|n IH];
    intros fuel d s mems Hfuel Hwf Ha Ha0 Hd Hmax Hlt Hge Hlen Hnd Hmapped Hmems Hfree Hal
           r s' Hrun Hne.
  - exfalso. apply Hne.
    assert (Hloop : uvmalloc_loop MAXVA fuel root a0 (a0 + PGSIZE * d) newsz s = Done newsz s).
    { destruct fuel; cbn [uvmalloc_loop];
        (destruct (Z.ltb_spec (a0 + PGSIZE * d) newsz); [unfold PGSIZE in *; lia | reflexivity]). }
    rewrite Hloop in Hrun. apply Done_inj in Hrun. now destruct Hrun.
  - destruct fuel as [|f]; [lia|].
    assert (Hperm : 0 <= UVM_PERM < 1024) by (rewrite UVM_PERM_val; lia).
    revert Hrun. cbn [uvmalloc_loop].
    set (a := a0 + PGSIZE * d) in *.
    assert (Halt : a < newsz) by (apply Hlt; lia).
    destruct (Z.ltb_spec a newsz); [|lia].
    assert (Haa : page_aligned a) by now apply page_offset_aligned.
    assert (Hnone : lookup (ram s) root a = None) by (apply Hfree; lia).
    assert (HSn : Z.of_nat (S n) = Z.of_nat n + 1) by lia.
    destruct (freelist s) as [|mem fl] eqn:Hfl.
    + (* the allocator is exhausted *)
      rewrite bind_kalloc_nil by assumption. cbn [Z.eqb].
      destruct (undo_growth root a0 d s s0 mems) as [su [Hun [Hwfu [Halu _]]]];
        try assumption.
      { unfold PGSIZE in *. lia. }
      { now rewrite Hfl. }
      fold a in Hun. rewrite (bind_Done _ _ _ _ _ Hun). intros Hrun.
      apply Done_inj in Hrun. destruct Hrun as [_ <-]. split; assumption.
    + rewrite (bind_kalloc_cons _ _ mem fl) by assumption.
      destruct (wf_kalloc root s mem fl Hwf Hfl) as [_ [Hma [Hmr [Hmnt Hmnin]]]].
      destruct (Z.eqb_spec mem 0); [lia|].
      rewrite bind_memset. cbn [ram freelist].
      set (m2 := mem_set (ram s) mem 0 PGSIZE).
      destruct (allocs_data_page root s mem fl m2 Hwf Hfl)
        as [Hwf2 [Hal2 [Hlk2 Hmnt2]]].
      { intros x Hx. apply mem_set_other. unfold in_page in Hx. lia. }
      fold UVM_PERM.
      destruct (mappages_one MAXVA MAXVA_sv39 root a mem UVM_PERM (mkState m2 fl))
        as [r1 [s3 [Hrun1 [Hwf3 [Hgr Hres]]]]]; try assumption; try lia.
      { unfold a, PGSIZE in *. lia. }
      { unfold a, PGSIZE in *. lia. }
      { cbn [ram]. rewrite Hlk2. assumption. }
      rewrite (bind_Done _ _ _ _ _ Hrun1). cbn [ram freelist] in *.
      pose proof (gr_free _ _ _ Hgr) as [used [Hused Hut]]. cbn [freelist] in Hused.
      assert (Hfl3 : forall p, In p (freelist s3) -> In p fl).
      { intros p Hp. rewrite Hused. apply in_or_app. now right. }
      assert (Hnt3 : forall p, ~ is_table (ram s) root p -> ~ In p (mem :: fl) ->
                ~ is_table (ram s3) root p).
      { intros p Hp1 Hp2 Ht.
        destruct (gr_new _ _ _ Hgr p Ht) as [H1|H1]; cbn [ram freelist] in H1.
        - destruct (al_new _ _ _ Hal2 p H1) as [H2|H2]; cbn [ram freelist] in H2.
          + contradiction.
          + rewrite Hfl in H2. contradiction.
        - apply Hp2. now right. }
      assert (Hmnt3 : ~ is_table (ram s3) root mem).
      { intros Ht. destruct (gr_new _ _ _ Hgr mem Ht) as [H1|H1]; cbn [ram freelist] in H1;
          contradiction. }
      assert (Hal3 : allocs root s0 s3).
      { eapply allocs_trans; [exact Hal|].
        eapply allocs_trans; [exact Hal2 | apply grows_allocs; exact Hgr]. }
      assert (Hmem0 : In mem (freelist s0)).
      { apply (al_free _ _ _ Hal). rewrite Hfl. now left. }
      destruct Hres as [[-> [Hlk3 Hout3]]|[-> [_ [Hfl3e Hlk3]]]].
      * (* the page is mapped: go on with the next one *)
        cbn [Z.eqb negb].
        replace (u64 (a + PGSIZE)) with (a0 + PGSIZE * (d + 1))
          by (rewrite u64_small; unfold a, PGSIZE in *; lia).
        assert (Hdiff : forall k, 0 <= k -> k < d + Z.of_nat (S n) -> k <> d ->
                  ~ same_entry a (a0 + PGSIZE * k)).
        { intros k Hk0 Hk Hne'. unfold a.
          apply pages_differ; try assumption; unfold PGSIZE in *; lia. }
        assert (Hlk3' : forall k, 0 <= k -> k < d + Z.of_nat (S n) -> k <> d ->
                  lookup (ram s3) root (a0 + PGSIZE * k) = lookup (ram s) root (a0 + PGSIZE * k)).
        { intros k Hk0 Hk Hne'. rewrite Hout3 by now apply Hdiff. apply Hlk2. }
        intros Hrun.
        apply (IH f (d + 1) s3 (mems ++ [mem])) with (r := r); try assumption; try lia.
        -- intros k Hk. apply Hlt. lia.
        -- rewrite length_app. cbn [List.length]. lia.
        -- apply NoDup_app; [assumption | repeat constructor; intros [] |].
           intros p Hp [E|[]]. destruct (Hmems p Hp) as [_ [_ [Hnf _]]].
           apply Hnf. left. exact E.
        -- intros k Hk. destruct (Z.eq_dec k d) as [->|Hne'].
           ++ replace (Z.to_nat d) with (List.length mems) by lia.
              rewrite nth_middle. exact Hlk3.
           ++ rewrite Hlk3' by lia. rewrite app_nth1 by lia. apply Hmapped. lia.
        -- intros p Hp. apply in_app_or in Hp. destruct Hp as [Hp|[<-|[]]].
           ++ destruct (Hmems p Hp) as [H1 [H2 [H3 [H4 H5]]]].
              split; [assumption|]. split; [assumption|]. split; [|split; [|assumption]].
              ** intros Hf. apply H3. right. now apply Hfl3.
              ** now apply Hnt3.
           ++ split; [assumption|]. split; [assumption|]. split; [|split; assumption].
              intros Hf. apply Hmnin. now apply Hfl3.
        -- intros k Hk. rewrite Hlk3' by lia. apply Hfree. lia.
      * (* [mappages] failed: give the page back and undo *)
        cbn [Z.eqb negb]. rewrite bind_kfree.
        set (s4 := mkState (ram s3) (mem :: freelist s3)).
        destruct (undo_growth root a0 d s4 s0 mems) as [su [Hun [Hwfu [Halu _]]]];
          try assumption.
        { split; [apply Hwf3|]. cbn [ram freelist s4]. rewrite Hfl3e. split.
          - repeat constructor. intros [].
          - intros p [<-|[]]. auto. }
        { unfold PGSIZE in *. lia. }
        { intros k Hk. cbn [ram s4]. rewrite Hlk3, Hlk2. now apply Hmapped. }
        { intros p Hp. destruct (Hmems p Hp) as [H1 [H2 [H3 [H4 H5]]]].
          split; [assumption|]. split; [assumption|]. split; [|split; [|assumption]].
          - cbn [freelist s4]. rewrite Hfl3e. intros [<-|[]]. apply H3. now left.
          - cbn [ram s4]. now apply Hnt3. }
        { split.
          - exact (al_tables _ _ _ Hal3).
          - exact (al_new _ _ _ Hal3).
          - cbn [freelist s4]. rewrite Hfl3e. intros p [<-|[]]. assumption.
          - exact (al_frame _ _ _ Hal3). }
        fold a in Hun. rewrite (bind_Done _ _ _ _ _ Hun). intros Hrun.
        apply Done_inj in Hrun. destruct Hrun as [_ <-]. split; assumption.
Qed.

(** C4, amended: a growth that does not reach [newsz] returns 0 and leaves
    a well-formed state in which every address translates exactly as before
    the call; the data pages it had taken are free again: the free pages
    after the call are exactly the pages that were free before it and have
    not become page-table pages of the tree.  Page-table pages that [walk]
    allocated on the way stay linked (they map nothing); no page-table page
    from before the call is moved, and no byte outside the page-table pages
    and the pages that were free changes.  The growth fails whenever the
    free list has fewer pages than the growth has pages to map. *)
Theorem uvmalloc_failure_undone root oldsz newsz s :
  wf s root -> 0 <= oldsz <= newsz -> newsz <= MAXVA -> PGROUNDUP newsz <= MAXVA ->
  (forall a, page_aligned a -> PGROUNDUP oldsz <= a < newsz ->
     lookup (ram s) root a = None) ->
  exists r s',
    uvmalloc MAXVA root oldsz newsz s = Done r s' /\ (r = newsz \/ r = 0) /\
    (Z.of_nat (List.length (freelist s)) < (PGROUNDUP newsz - PGROUNDUP oldsz) / PGSIZE ->
     r <> newsz) /\
    (r <> newsz ->
       r = 0 /\ wf s' root /\
       (forall va, lookup (ram s') root va = lookup (ram s) root va) /\
       (forall p, In p (freelist s') <->
                  In p (freelist s) /\ ~ is_table (ram s') root p) /\
       (forall p t, path_ok 2 p -> table_at (ram s) root p = Some t ->
                    table_at (ram s') root p = Some t) /\
       (forall t, is_table (ram s') root t ->
                  is_table (ram s) root t \/ In t (freelist s)) /\
       (forall x, (forall t, is_table (ram s') root t -> ~ in_page t x) ->
                  (forall p, In p (freelist s) -> ~ in_page p x) ->
                  ram s' x = ram s x)).
Proof.
  intros Hwf Hsz Hmax Hmaxr Hfree.
  destruct (uvmalloc_spec MAXVA MAXVA_sv39 root oldsz newsz s Hwf Hsz Hmax Hmaxr Hfree)
    as [r [s' [Hrun Hpost]]].
  destruct (growth_pages MAXVA MAXVA_sv39 oldsz newsz Hsz Hmax)
    as [Ha [Ha0 [Hn0 [Hhi [Hge [Hlt Hidx]]]]]].
  remember (PGROUNDUP oldsz) as a0 eqn:Ea0.
  remember ((PGROUNDUP newsz - a0) / PGSIZE) as n eqn:En.
  exists r, s'. split; [assumption|].
  split; [destruct Hpost as [[-> _]|[-> _]]; auto|]. split.
  - intros Hshort Hr. destruct Hpost as [[_ [Hg _]]|[Hr0 [Hnz _]]]; [|lia].
    destruct Hg as [_ [_ [mems [Hlen [Hnd [_ [Hmems _]]]]]]].
    assert (Hle : (List.length mems <= List.length (freelist s))%nat).
    { apply NoDup_incl_length; [assumption|]. intros p Hp. now destruct (Hmems p Hp). }
    lia.
  - intros Hne. destruct Hpost as [[Hr _]|[Hr [Hnz Hrb]]]; [contradiction|].
    destruct Hrb as [Hwt' [Hnone' [Hout' [_ [Hfl' Htab']]]]].
    assert (Hundo : wf s' root /\ allocs root s s').
    { revert Hrun. unfold uvmalloc. destruct (Z.ltb_spec newsz oldsz); [lia|].
      rewrite <- Ea0. intros Hrun.
      apply (uvmalloc_loop_undo root a0 newsz s (Z.to_nat n)
               (S (Z.to_nat (newsz / PGSIZE))) 0 s []) with (r := r);
        try assumption; try lia.
      - assert (n <= newsz / PGSIZE + 1); [|lia].
        pose proof (Z.div_mod newsz PGSIZE ltac:(unfold PGSIZE; lia)).
        pose proof (Z.mod_pos_bound newsz PGSIZE ltac:(unfold PGSIZE; lia)).
        destruct (Z.eq_dec n 0);
          [assert (0 <= newsz / PGSIZE) by (apply Z.div_pos; unfold PGSIZE; lia); lia|].
        specialize (Hlt (n - 1) ltac:(lia)). unfold PGSIZE in *. lia.
      - rewrite Z2Nat.id by lia. rewrite Z.add_0_l, <- Hhi. assumption.
      - intros k Hk. rewrite Z2Nat.id in Hk by lia. apply Hlt. lia.
      - rewrite Z2Nat.id by lia. lia.
      - reflexivity.
      - constructor.
      - intros mem [].
      - intros k Hk. rewrite Z2Nat.id in Hk by lia. apply Hfree.
        + now apply page_offset_aligned.
        + specialize (Hlt k ltac:(lia)). unfold PGSIZE in *. lia.
      - apply allocs_refl.
      - replace (a0 + PGSIZE * 0) with a0 by lia. exact Hrun. }
    destruct Hundo as [Hwf' Hal].
    split; [assumption|]. split; [assumption|]. split; [|split; [|split; [|split]]].
    + intros va.
      destruct (Z.eq_dec n 0) as [Hz|Hnz'].
      { apply Hout'. intros k Hk. lia. }
      destruct (bounded_search (fun k => ~ same_entry (a0 + PGSIZE * k) va) (Z.to_nat (n - 1)))
        as [Hall|[k [Hk Hsame]]].
      * intros k. destruct (same_entry_dec (a0 + PGSIZE * k) va); [right | left]; tauto.
      * apply Hout'. intros k Hk. apply Hall. rewrite Z2Nat.id by lia. lia.
      * rewrite Z2Nat.id in Hk by lia.
        destruct (same_entry_dec (a0 + PGSIZE * k) va) as [Hs|]; [|contradiction].
        rewrite <- !(lookup_same_entry _ root _ _ Hs).
        rewrite Hnone' by lia. symmetry. apply Hfree.
        -- now apply page_offset_aligned.
        -- specialize (Hlt k ltac:(lia)). unfold PGSIZE in *. lia.
    + intros p. split.
      * intros Hp. split; [exact (al_free _ _ _ Hal p Hp)|].
        now destruct (wf_free_pages _ _ _ (proj2 Hwf') p Hp) as [_ [_ Hnt]].
      * intros [Hp Hnt]. destruct (Hfl' p Hp); [assumption | contradiction].
    + exact (al_tables _ _ _ Hal).
    + exact (al_new _ _ _ Hal).
    + exact (al_frame _ _ _ Hal).
Qed.

End UvmallocUndo.

(** C4, as stated, fails: with two free pages, growing an empty table by
    one page takes the first for the data and the second, in [walk], for
    the level-1 table; the level-0 table cannot be allocated, the call
    returns 0, the data page is free again, and the page of the level-1
    table is not: it stays linked in the root. *)
Lemma uvmalloc_frees_all_counterexample :
  ~ uvmalloc_frees_all (2 ^ 38) 4096 0 4096 (boot [8192; 12288]).
Proof.
  intros H.
  set (s := boot [8192; 12288]) in *.
  set (s' := state_of (uvmalloc (2 ^ 38) 4096 0 4096 s) s).
  assert (H1 : uvmalloc (2 ^ 38) 4096 0 4096 s = Done 0 s')
    by (apply done_state; vm_compute; reflexivity).
  specialize (H s' H1 12288 ltac:(right; left; reflexivity)).
  assert (E : freelist s' = [8192]) by (vm_compute; reflexivity).
  rewrite E in H. destruct H as [H|[]]. discriminate H.
Qed.

Lemma uvmalloc_failure_undone_witness :
  let s := boot [8192; 12288] in
  exists s',
    uvmalloc (2 ^ 38) 4096 0 8200 s = Done 0 s' /\ wf s' 4096 /\
    (forall va, lookup (ram s') 4096 va = lookup (ram s) 4096 va) /\
    (forall p, In p (freelist s') <-> In p (freelist s) /\ ~ is_table (ram s') 4096 p).
Proof.
  intros s.
  destruct (uvmalloc_failure_undone (2 ^ 38) ltac:(lia) 4096 0 8200 s)
    as [r [s' [Hrun [_ [Hshort Hundo]]]]].
  - apply wf_boot. reflexivity.
  - lia.
  - lia.
  - vm_compute. discriminate.
  - intros a _ _. reflexivity.
  - assert (Hne : r <> 8200) by (apply Hshort; vm_compute; reflexivity).
    destruct (Hundo Hne) as [-> [Hwf' [Hlk [Hfl _]]]].
    exists s'. split; [exact Hrun|]. split; [exact Hwf'|]. split; [exact Hlk | exact Hfl].
Defined.

(** ** C5 *)

(** C5, as stated, fails in its last part: with three free pages, the copy
    of the first page takes one page for the data and two, in [walk], for
    the level-1 and level-0 tables of the new tree; the second page cannot
    be allocated, the call returns -1 after freeing the data page, and the
    two page-table pages stay linked in the new tree instead of going back
    to the free list. *)
Lemma uvmcopy_frees_all_counterexample :
  ~ uvmcopy_frees_all (2 ^ 38) 4096 16384 8192 (fork_state [20480; 24576; 28672]).
Proof.
  intros H.
  set (s := fork_state [20480; 24576; 28672]) in *.
  set (s' := state_of (uvmcopy (2 ^ 38) 4096 16384 8192 s) s).
  assert (H1 : uvmcopy (2 ^ 38) 4096 16384 8192 s = Done (-1) s')
    by (apply done_state; vm_compute; reflexivity).
  assert (H0 : In 24576 (freelist s)) by (vm_compute; right; left; reflexivity).
  specialize (H s' H1 24576 H0).
  assert (E : freelist s' = [20480]) by (vm_compute; reflexivity).
  rewrite E in H. destruct H as [H|[]]. discriminate H.
Qed.

Section UvmcopyClaim.

Variable MAXVA : Z.
Hypothesis MAXVA_sv39 : MAXVA <= 2 ^ 39.

(** C5, amended: [uvmcopy] returns 0 or -1.  With 0, every page of
    [0 .. sz) has in the new tree a leaf entry with the flags of the entry
    of the old tree, for a page of its own that was taken from the free list
    and holds the bytes of the old page; that page is none of the pages and
    page-table pages of the old tree, so whatever is later written into the
    pages of the copy, the old tree translates as before and its pages hold
    the same bytes.  With -1, the copies made so far were unmapped and their
    pages given back: no page of [0 .. sz) is mapped in the new tree, every
    address translates as before the call in both trees, the free list is
    again a list of distinct pages, all of them free before the call, and
    every page that was free is free again unless it has become a
    page-table page of the new tree: the page-table pages that [walk]
    allocated in the new tree stay linked, without mappings.  The call
    fails whenever the free list has fewer pages than [0 .. sz) has. *)
Theorem uvmcopy_duplicates old new sz s :
  wf s new -> wf_tree (ram s) old ->
  (forall t, is_table (ram s) old t -> ~ is_table (ram s) new t /\ ~ In t (freelist s)) ->
  0 <= sz -> sz <= MAXVA -> PGROUNDUP sz <= MAXVA ->
  (forall a, page_aligned a -> 0 <= a < sz ->
     exists v, lookup (ram s) old a = Some v /\ PTE_FLAGS v <> PTE_V /\
       ~ is_table (ram s) new (PTE2PA v) /\ ~ In (PTE2PA v) (freelist s)) ->
  (forall a, page_aligned a -> 0 <= a < sz -> lookup (ram s) new a = None) ->
  exists r s',
    uvmcopy MAXVA old new sz s = Done r s' /\ (r = 0 \/ r = -1) /\
    (Z.of_nat (List.length (freelist s)) < PGROUNDUP sz / PGSIZE -> r = -1) /\
    wf s' new /\
    (forall va, lookup (ram s') old va = lookup (ram s) old va) /\
    (forall t x, is_table (ram s) old t -> in_page t x -> ram s' x = ram s x) /\
    (forall a v off, page_aligned a -> 0 <= a < sz -> lookup (ram s) old a = Some v ->
       0 <= off < PGSIZE -> ram s' (PTE2PA v + off) = ram s (PTE2PA v + off)) /\
    (forall p, In p (freelist s') -> In p (freelist s)) /\
    (forall x, (forall t, is_table (ram s') new t -> ~ in_page t x) ->
               (forall p, In p (freelist s) -> ~ in_page p x) -> ram s' x = ram s x) /\
    (r = 0 ->
       (forall a, page_aligned a -> 0 <= a < sz ->
          exists v mem,
            lookup (ram s) old a = Some v /\
            lookup (ram s') new a = Some (leaf_pte mem (PTE_FLAGS v)) /\
            PTE_FLAGS (leaf_pte mem (PTE_FLAGS v)) = PTE_FLAGS v /\
            PTE2PA (leaf_pte mem (PTE_FLAGS v)) = mem /\
            In mem (freelist s) /\ ~ In mem (freelist s') /\
            ~ is_table (ram s') new mem /\ mem <> PTE2PA v /\
            (forall off, 0 <= off < PGSIZE ->
               ram s' (mem + off) = ram s (PTE2PA v + off))) /\
       (forall a b, page_aligned a -> 0 <= a < sz -> page_aligned b -> 0 <= b < sz ->
          a <> b -> mapped_pa (ram s') new a <> mapped_pa (ram s') new b) /\
       (forall a, page_aligned a -> 0 <= a < 2 ^ 39 -> ~ (0 <= a < sz) ->
          lookup (ram s') new a = lookup (ram s) new a) /\
       (forall m',
          (forall x, (forall a, page_aligned a -> 0 <= a < sz ->
                        ~ in_page (mapped_pa (ram s') new a) x) -> m' x = ram s' x) ->
          (forall va, lookup m' old va = lookup (ram s) old va) /\
          (forall a v off, page_aligned a -> 0 <= a < sz ->
             lookup (ram s) old a = Some v -> 0 <= off < PGSIZE ->
             m' (PTE2PA v + off) = ram s (PTE2PA v + off)))) /\
    (r = -1 ->
       (forall a, page_aligned a -> 0 <= a < sz -> lookup (ram s') new a = None) /\
       (forall va, lookup (ram s') new va = lookup (ram s) new va) /\
       (forall p, In p (freelist s) -> In p (freelist s') \/ is_table (ram s') new p) /\
       (forall t, is_table (ram s) new t -> is_table (ram s') new t)).
Proof.
  intros Hwf Hwo Hsep Hsz Hmax Hmaxr Hsrc Hfree.
  destruct (uvmcopy_spec MAXVA MAXVA_sv39 old new sz s Hwf Hwo Hsep Hsz Hmax Hmaxr Hsrc Hfree)
    as [r [s' [Hrun Hpost]]].
  destruct (growth_pages MAXVA MAXVA_sv39 0 sz ltac:(lia) Hmax)
    as [_ [_ [Hn0 [Hhi [Hge [Hlt Hidx]]]]]].
  change (PGROUNDUP 0) with 0 in Hn0, Hhi, Hge, Hlt, Hidx.
  rewrite Z.sub_0_r in Hn0, Hhi, Hge, Hlt, Hidx.
  remember (PGROUNDUP sz / PGSIZE) as n eqn:En.
  assert (Hpk : forall k, page_aligned (PGSIZE * k)).
  { intros k. unfold page_aligned. rewrite Z.mul_comm. apply Z.mod_mul. unfold PGSIZE. lia. }
  assert (Hboth : wf s' new /\ allocs new s s').
  { destruct Hpost as [[_ [Hwf' [Hal _]]]|[_ [_ [_ [_ [_ [_ [Hwf' Hal]]]]]]]]; auto. }
  destruct Hboth as [Hwf' Hal].
  assert (Hago : tables_agree (ram s) (ram s') old).
  { apply (allocs_other_tree old new s s'); try assumption. apply Hwf'. }
  assert (Hdata : forall a v off, page_aligned a -> 0 <= a < sz ->
            lookup (ram s) old a = Some v -> 0 <= off < PGSIZE ->
            ram s' (PTE2PA v + off) = ram s (PTE2PA v + off)).
  { intros a v off Haa Har Hv Hoff.
    destruct (Hsrc a Haa Har) as [v' [Hv' [_ [Hpnt Hpnf]]]].
    rewrite Hv in Hv'. apply Some_inj in Hv'. subst v'.
    apply (allocs_keeps_page new s s' (PTE2PA v)); try assumption.
    - apply Hwf'.
    - apply PTE2PA_aligned.
    - unfold in_page. lia. }
  exists r, s'. split; [assumption|].
  split; [destruct Hpost as [[-> _]|[-> _]]; auto|].
  split.
  { intros Hshort. destruct Hpost as [[_ Hcp]|[-> _]]; [exfalso | reflexivity].
    destruct Hcp as [_ [_ [mems [Hlen [Hnd [_ [Hmems _]]]]]]].
    assert (Hle : (List.length mems <= List.length (freelist s))%nat).
    { apply NoDup_incl_length; [assumption|]. intros p Hp. now destruct (Hmems p Hp). }
    lia. }
  split; [assumption|]. split; [intros va; now apply tables_agree_lookup|].
  split; [exact Hago|]. split; [exact Hdata|].
  split; [exact (al_free _ _ _ Hal)|]. split; [exact (al_frame _ _ _ Hal)|].
  split.
  - intros Hr. destruct Hpost as [[_ Hcp]|[Hr' _]]; [|lia].
    destruct Hcp as [_ [_ [mems [Hlen [Hnd [Hin [Hmems [Hout Hcls]]]]]]]].
    assert (Hpage : forall k, 0 <= k < n ->
              exists v, lookup (ram s) old (PGSIZE * k) = Some v /\
                lookup (ram s') new (PGSIZE * k)
                  = Some (leaf_pte (nth (Z.to_nat k) mems 0) (PTE_FLAGS v)) /\
                mapped_pa (ram s') new (PGSIZE * k) = nth (Z.to_nat k) mems 0 /\
                In (nth (Z.to_nat k) mems 0) mems /\
                (forall off, 0 <= off < PGSIZE ->
                   ram s' (nth (Z.to_nat k) mems 0 + off) = ram s (PTE2PA v + off))).
    { intros k Hk. destruct (Hin k Hk) as [v [Hv [Hlk Hcont]]].
      rewrite Z.add_0_l in Hv, Hlk.
      assert (Hi : In (nth (Z.to_nat k) mems 0) mems) by (apply nth_In; lia).
      destruct (Hmems _ Hi) as [Hf _].
      destruct (wf_free_pages _ _ _ (proj2 Hwf) _ Hf) as [Hpa [Hpr _]].
      exists v. split; [assumption|]. split; [assumption|]. split; [|split; assumption].
      apply (leaf_pte_mapped_pa _ _ _ _ (PTE_FLAGS v) Hlk); [lia | assumption |].
      rewrite PTE_FLAGS_eq. apply Z.mod_pos_bound. lia. }
    assert (Hdest : forall a, page_aligned a -> 0 <= a < sz ->
              In (mapped_pa (ram s') new a) (freelist s) /\
              page_aligned (mapped_pa (ram s') new a)).
    { intros a Haa Har. destruct (Hidx a Haa Har) as [k [Hk Ea]].
      rewrite Z.add_0_l in Ea. subst a.
      destruct (Hpage k Hk) as [_ [_ [_ [-> [Hi _]]]]].
      destruct (Hmems _ Hi) as [Hf _].
      split; [assumption|]. now destruct (wf_free_pages _ _ _ (proj2 Hwf) _ Hf). }
    split; [|split; [|split]].
    + intros a Haa Har. destruct (Hidx a Haa Har) as [k [Hk Ea]].
      rewrite Z.add_0_l in Ea. subst a.
      destruct (Hpage k Hk) as [v [Hv [Hlk [Hpa [Hi Hcont]]]]].
      destruct (Hmems _ Hi) as [Hf [Hnf Hnt]].
      destruct (wf_free_pages _ _ _ (proj2 Hwf) _ Hf) as [Hma [Hmr _]].
      destruct (Hsrc (PGSIZE * k) Haa Har) as [v' [Hv' [Hleaf [Hpnt Hpnf]]]].
      rewrite Hv in Hv'. apply Some_inj in Hv'. subst v'.
      destruct (lookup_Some _ _ _ _ Hv) as [_ [_ Hvalid]].
      assert (Hfl : 0 <= PTE_FLAGS v < 1024).
      { rewrite PTE_FLAGS_eq. apply Z.mod_pos_bound. lia. }
      exists v, (nth (Z.to_nat k) mems 0).
      split; [assumption|]. split; [assumption|]. split.
      { rewrite leaf_pte_flags; [now apply flags_valid | lia | assumption]. }
      split; [apply leaf_pte_pa; [lia | assumption | assumption]|].
      split; [assumption|]. split; [assumption|]. split; [assumption|]. split.
      { intros E. apply Hpnf. now rewrite <- E. }
      exact Hcont.
    + intros a b Haa Har Hba Hbr Hne.
      destruct (Hidx a Haa Har) as [k [Hk Ea]]. destruct (Hidx b Hba Hbr) as [i [Hi Eb]].
      rewrite Z.add_0_l in Ea, Eb. subst a b.
      destruct (Hpage k Hk) as [_ [_ [_ [-> _]]]].
      destruct (Hpage i Hi) as [_ [_ [_ [-> _]]]].
      intros Heq. assert (Hki : Z.to_nat k = Z.to_nat i).
      { apply (proj1 (NoDup_nth mems 0) Hnd); [lia | lia | exact Heq]. }
      apply Hne. f_equal. lia.
    + intros a Haa Har Hnr. apply Hout. intros k Hk Hs. rewrite Z.add_0_l in Hs.
      specialize (Hlt k Hk).
      apply same_entry_aligned in Hs; try assumption.
      * subst a. apply Hnr. unfold PGSIZE in *. lia.
      * unfold PGSIZE in *. lia.
      * apply Hpk.
    + intros m' Hm'.
      assert (Hkeep : forall P x, page_aligned P -> ~ In P (freelist s) -> in_page P x ->
                m' x = ram s' x).
      { intros P x HP Hnf Hx. apply Hm'. intros a Haa Har Hin'.
        destruct (Hdest a Haa Har) as [Hf Hda].
        revert Hx. apply (pages_disjoint (mapped_pa (ram s') new a) P x); try assumption.
        intros E. apply Hnf. now rewrite <- E. }
      split.
      * intros va. rewrite <- (tables_agree_lookup _ _ _ va Hwo Hago).
        apply tables_agree_lookup; [now apply (tables_agree_wf (ram s) (ram s') old)|].
        intros t x Ht Hx. apply (tables_agree_is_table _ _ _ t Hwo Hago) in Ht.
        apply (Hkeep t x); [|now destruct (Hsep t Ht) | assumption].
        now apply (wf_table_page (ram s) old t).
      * intros a v off Haa Har Hv Hoff.
        rewrite <- (Hdata a v off Haa Har Hv Hoff).
        destruct (Hsrc a Haa Har) as [v' [Hv' [_ [_ Hpnf]]]].
        rewrite Hv in Hv'. apply Some_inj in Hv'. subst v'.
        apply (Hkeep (PTE2PA v)); [apply PTE2PA_aligned | assumption | unfold in_page; lia].
  - intros Hr.
    destruct Hpost as [[Hr' _]|[_ [_ [Hlkn [_ [Hcls [Hkeep _]]]]]]]; [lia|].
    split; [|split; [|split]]; try assumption.
    intros a Haa Har. rewrite Hlkn. now apply Hfree.
Qed.

End UvmcopyClaim.

Lemma uvmcopy_duplicates_witness :
  (* enough free pages: two copies and the two tables they need *)
  (exists s', uvmcopy (2 ^ 38) 4096 16384 8192 (fork_state [20480; 24576; 28672; 32768])
              = Done 0 s' /\
     (forall off, 0 <= off < PGSIZE ->
        ram s' (mapped_pa (ram s') 16384 0 + off)
        = ram (fork_state [20480; 24576; 28672; 32768]) (40960 + off))) /\
  (* one page short: the second copy cannot be made *)
  (exists s', uvmcopy (2 ^ 38) 4096 16384 8192 (fork_state [20480; 24576; 28672])
              = Done (-1) s' /\
     lookup (ram s') 16384 0 = None /\ lookup (ram s') 16384 4096 = None).
Proof.
  split.
  - destruct (fork_state_ready [20480; 24576; 28672; 32768]
                ltac:(vm_compute; reflexivity) ltac:(vm_compute; reflexivity)
                ltac:(vm_compute; reflexivity) ltac:(vm_compute; reflexivity)
                ltac:(vm_compute; reflexivity)) as [H1 [H2 [H3 [H4 H5]]]].
    destruct (uvmcopy_duplicates (2 ^ 38) ltac:(lia) 4096 16384 8192
                (fork_state [20480; 24576; 28672; 32768]) H1 H2 H3
                ltac:(lia) ltac:(lia) ltac:(vm_compute; discriminate) H4 H5)
      as [r [s' [Hrun [_ [_ [_ [_ [_ [_ [_ [_ [Hok _]]]]]]]]]]]].
    assert (Er : r = 0).
    { assert (E : result_of (uvmcopy (2 ^ 38) 4096 16384 8192
                               (fork_state [20480; 24576; 28672; 32768])) = Some 0)
        by (vm_compute; reflexivity).
      rewrite Hrun in E. cbn [result_of] in E. now apply Some_inj in E. }
    subst r. exists s'. split; [exact Hrun|].
    destruct (Hok eq_refl) as [Hpages _].
    destruct (Hpages 0 ltac:(reflexivity) ltac:(lia)) as [v [mem [Hv [Hlk [_ [Hpa [_ [_ [_ [_ Hby]]]]]]]]]].
    assert (Ev : v = leaf_pte 40960 22).
    { assert (E : lookup (ram (fork_state [20480; 24576; 28672; 32768])) 4096 0
                  = Some (leaf_pte 40960 22)) by (vm_compute; reflexivity).
      rewrite Hv in E. now apply Some_inj in E. }
    subst v. intros off Hoff. unfold mapped_pa. rewrite Hlk, Hpa.
    rewrite (Hby off Hoff). reflexivity.
  - destruct (fork_state_ready [20480; 24576; 28672]
                ltac:(vm_compute; reflexivity) ltac:(vm_compute; reflexivity)
                ltac:(vm_compute; reflexivity) ltac:(vm_compute; reflexivity)
                ltac:(vm_compute; reflexivity)) as [H1 [H2 [H3 [H4 H5]]]].
    destruct (uvmcopy_duplicates (2 ^ 38) ltac:(lia) 4096 16384 8192
                (fork_state [20480; 24576; 28672]) H1 H2 H3
                ltac:(lia) ltac:(lia) ltac:(vm_compute; discriminate) H4 H5)
      as [r [s' [Hrun [_ [_ [_ [_ [_ [_ [_ [_ [_ Hfail]]]]]]]]]]]].
    assert (Er : r = -1).
    { assert (E : result_of (uvmcopy (2 ^ 38) 4096 16384 8192
                               (fork_state [20480; 24576; 28672])) = Some (-1))
        by (vm_compute; reflexivity).
      rewrite Hrun in E. cbn [result_of] in E. now apply Some_inj in E. }
    subst r. exists s'. split; [exact Hrun|].
    destruct (Hfail eq_refl) as [Hnone _].
    split; apply Hnone; try reflexivity; lia.
Defined.

(** ** C6 *)

(** C6: [copyinstr] reads the string byte by byte and stops at position [k]
    when the [k] bytes before it are readable and not zero and either byte
    [k] is the first zero byte, or [k = max], or the page of byte [k] is not
    one [walkaddr] returns.  In the first case, and only in it, it returns
    0: the terminator has been written to [dst + k] after the [k] bytes of
    the string, also when the string crosses a page boundary, and nothing
    beyond it is written.  In the two other cases it returns -1 with the
    [k] bytes stored; so a string of exactly [max] non-zero bytes, with no
    room for the terminator, fails. *)
Theorem copyinstr_terminator MAXVA root dst srcva max k s :
  wf_tree (ram s) root ->
  0 <= srcva -> 0 <= k <= max -> srcva + max <= 2 ^ 64 ->
  (forall i, 0 <= i < k ->
     walkaddr_ro MAXVA (ram s) root (PGROUNDDOWN (srcva + i)) <> 0 /\
     user_byte MAXVA (ram s) root (srcva + i) <> 0) ->
  (k < max -> walkaddr_ro MAXVA (ram s) root (PGROUNDDOWN (srcva + k)) <> 0 ->
     user_byte MAXVA (ram s) root (srcva + k) = 0) ->
  let found :=
    (k <? max) && negb (walkaddr_ro MAXVA (ram s) root (PGROUNDDOWN (srcva + k)) =? 0) in
  let w := if found then k + 1 else k in
  (forall i t, 0 <= i < w -> is_table (ram s) root t -> ~ in_page t (dst + i)) ->
  (forall i j, 0 <= i < w -> 0 <= j < w ->
     dst + i <> user_pa MAXVA (ram s) root (srcva + j)) ->
  exists s',
    copyinstr MAXVA root dst srcva max s = Done (if found then 0 else -1) s' /\
    (found = true -> ram s' (dst + k) = 0) /\
    (forall i, 0 <= i < w ->
       ram s' (dst + i) = user_byte MAXVA (ram s) root (srcva + i)) /\
    (forall i, 0 <= i < k -> ram s' (dst + i) <> 0) /\
    (forall x, x < dst \/ dst + w <= x -> ram s' x = ram s x) /\
    freelist s' = freelist s /\
    (forall va, lookup (ram s') root va = lookup (ram s) root va).
Proof.
  intros Hwf Hva Hk Hmax Hpre Hzero found w Hbuf Hsep.
  assert (Hend :
    (k < max /\ walkaddr_ro MAXVA (ram s) root (PGROUNDDOWN (srcva + k)) <> 0 /\
     read8 (ram s) (user_pa MAXVA (ram s) root (srcva + k)) = 0 /\
     (if found then 0 else -1) = 0 /\ w = k + 1)
    \/ (k = max /\ (if found then 0 else -1) = -1 /\ w = k)
    \/ (k < max /\ walkaddr_ro MAXVA (ram s) root (PGROUNDDOWN (srcva + k)) = 0 /\
        (if found then 0 else -1) = -1 /\ w = k)).
  { unfold w, found.
    destruct (Z.ltb_spec k max) as [Hlt|Hge]; cbn [andb].
    - destruct (Z.eqb_spec (walkaddr_ro MAXVA (ram s) root (PGROUNDDOWN (srcva + k))) 0)
        as [E|Hne]; cbn [negb].
      + right; right. auto.
      + left. split; [assumption|]. split; [assumption|].
        split; [exact (Hzero Hlt Hne) | split; reflexivity].
    - right; left. split; [lia | split; reflexivity]. }
  destruct (copyinstr_loop_spec MAXVA root (ram s) Hwf
              (S (Z.to_nat (max / PGSIZE + 1))) dst srcva max s k
              (if found then 0 else -1) w)
    as [s' [Hrun [Hfl [Hag [Hby Hfr]]]]].
  - apply tables_agree_refl.
  - assumption.
  - assumption.
  - assumption.
  - apply copy_fuel. lia.
  - exact Hpre.
  - exact Hend.
  - exact Hbuf.
  - exact Hsep.
  - assert (Hw : k <= w) by (unfold w; destruct found; lia).
    exists s'. split; [exact Hrun|]. split; [|split; [|split; [|split; [|split]]]].
    + intros Hf. rewrite Hby by (unfold w; rewrite Hf; lia).
      destruct Hend as [[_ [_ [Hz _]]]|[[_ [Hr _]]|[_ [_ [Hr _]]]]];
        [exact Hz | rewrite Hf in Hr; discriminate Hr | rewrite Hf in Hr; discriminate Hr].
    + exact Hby.
    + intros i Hi. rewrite Hby by lia. exact (proj2 (Hpre i Hi)).
    + exact Hfr.
    + exact Hfl.
    + intros va. now apply tables_agree_lookup.
Qed.

Ltac eval_bound H :=
  match type of H with
  | _ <= _ < ?W => let v := eval vm_compute in W in
                   replace W with v in H by (vm_compute; reflexivity)
  end.

Lemma copyinstr_terminator_witness :
  (* "hi" and its terminator, from the last byte of a page on *)
  (exists s',
     copyinstr (2 ^ 38) 4096 100000 4095 16 string_state = Done 0 s' /\
     ram s' (100000 + 2) = 0 /\ ram s' 100000 = 104 /\ ram s' 100001 = 105) /\
  (* the same string with [max] equal to its length *)
  (exists s', copyinstr (2 ^ 38) 4096 100000 4095 2 string_state = Done (-1) s') /\
  (* "xy" at the end of the mapped range *)
  (exists s', copyinstr (2 ^ 38) 4096 100000 8190 16 string_state = Done (-1) s').
Proof.
  assert (Hbuf : forall i t, 0 <= i < 3 -> is_table (ram string_state) 4096 t ->
                   ~ in_page t (100000 + i)).
  { intros i t Hi Ht. apply string_state_tables in Ht. cbn [In] in Ht.
    unfold in_page, PGSIZE. lia. }
  assert (Hsep : forall a i j, 0 <= a + j < 2 * PGSIZE -> 0 <= i < 3 ->
                   100000 + i <> user_pa (2 ^ 38) (ram string_state) 4096 (a + j)).
  { intros a i j Ha Hi.
    destruct (string_state_user_pa (a + j) Ha) as [H|H];
      unfold in_page, PGSIZE in H; lia. }
  split; [|split].
  - destruct (copyinstr_terminator (2 ^ 38) 4096 100000 4095 16 2 string_state string_state_wf)
      as [s' [Hrun [Hz [Hby _]]]].
    + lia.
    + lia.
    + lia.
    + intros i Hi. assert (Hc : i = 0 \/ i = 1) by lia.
      destruct Hc as [-> | ->]; split; vm_compute; discriminate.
    + intros _ _. vm_compute. reflexivity.
    + intros i t Hi. eval_bound Hi. apply Hbuf. lia.
    + intros i j Hi Hj. eval_bound Hi. eval_bound Hj.
      apply Hsep; [unfold PGSIZE; lia | lia].
    + exists s'. split; [exact Hrun|]. split; [apply Hz; vm_compute; reflexivity|].
      split.
      * replace 100000 with (100000 + 0) at 1 by lia.
        rewrite Hby; [vm_compute; reflexivity|]. split; [lia | vm_compute; reflexivity].
      * replace 100001 with (100000 + 1) by lia.
        rewrite Hby; [vm_compute; reflexivity|]. split; [lia | vm_compute; reflexivity].
  - destruct (copyinstr_terminator (2 ^ 38) 4096 100000 4095 2 2 string_state string_state_wf)
      as [s' [Hrun _]].
    + lia.
    + lia.
    + lia.
    + intros i Hi. assert (Hc : i = 0 \/ i = 1) by lia.
      destruct Hc as [-> | ->]; split; vm_compute; discriminate.
    + intros Hlt. lia.
    + intros i t Hi. eval_bound Hi. apply Hbuf. lia.
    + intros i j Hi Hj. eval_bound Hi. eval_bound Hj.
      apply Hsep; [unfold PGSIZE; lia | lia].
    + exists s'. exact Hrun.
  - destruct (copyinstr_terminator (2 ^ 38) 4096 100000 8190 16 2 string_state string_state_wf)
      as [s' [Hrun _]].
    + lia.
    + lia.
    + lia.
    + intros i Hi. assert (Hc : i = 0 \/ i = 1) by lia.
      destruct Hc as [-> | ->]; split; vm_compute; discriminate.
    + intros _ Hne. exfalso. apply Hne. vm_compute. reflexivity.
    + intros i t Hi. eval_bound Hi. apply Hbuf. lia.
    + intros i j Hi Hj. eval_bound Hi. eval_bound Hj.
      apply Hsep; [unfold PGSIZE; lia | lia].
    + exists s'. exact Hrun.
Defined.

(** ** What [freewalk] leaves in the tables *)

Lemma child_pages_aligned l m t rest q :
  In q (flat_map (child_pages (subtree_pages l m) m t) rest) -> page_aligned q.
Proof.
  intros Hq. apply in_flat_map in Hq. destruct Hq as [idx [_ Hq]].
  unfold child_pages in Hq. cbv zeta in Hq.
  destruct (pte_link (read64 m (t + 8 * idx))); [|contradiction].
  pose proof (subtree_pages_aligned l m _ (PTE2PA_aligned (read64 m (t + 8 * idx)))) as Hall.
  rewrite Forall_forall in Hall. now apply Hall.
Qed.

Lemma slot_bytes_in_page p j x :
  index_ok j -> p + 8 * j <= x < p + 8 * j + 8 -> in_page p x.
Proof. unfold index_ok, in_page, PGSIZE. lia. Qed.

Section FreewalkClears.

Variable child : Z -> M unit.
Variable l : nat.
Variable t : Z.
Hypothesis t_aligned : page_aligned t.

(** What the recursive call does for a table without mappings below it:
    it frees the pages of the subtree and leaves 0 in every entry that was
    valid. *)
Hypothesis child_clears : forall c s,
  page_aligned c -> freeableb l (ram s) c = true -> NoDup (subtree_pages l (ram s) c) ->
  exists s1, child c s = Done tt s1 /\
    freelist s1 = rev (subtree_pages l (ram s) c) ++ freelist s /\
    (forall x, (forall p, In p (subtree_pages l (ram s) c) -> ~ in_page p x) ->
       ram s1 x = ram s x) /\
    (forall p j, In p (subtree_pages l (ram s) c) -> index_ok j ->
       read64 (ram s1) (p + 8 * j) =
       if pte_valid (read64 (ram s) (p + 8 * j)) then 0 else read64 (ram s) (p + 8 * j)).

Lemma freewalk_entries_clears : forall n i s,
  (i + n = 512)%nat ->
  forallb (entry_freeable (freeableb l (ram s)) (ram s) t) (entries_from i n) = true ->
  NoDup (flat_map (child_pages (subtree_pages l (ram s)) (ram s) t) (entries_from i n) ++ [t]) ->
  exists s',
    freewalk_entries child n t (Z.of_nat i) s = Done tt s' /\
    freelist s' =
      rev (flat_map (child_pages (subtree_pages l (ram s)) (ram s) t) (entries_from i n))
        ++ freelist s /\
    (forall x,
       (forall p, In p (flat_map (child_pages (subtree_pages l (ram s)) (ram s) t)
                          (entries_from i n)) -> ~ in_page p x) ->
       ~ in_page t x \/ x < t + 8 * Z.of_nat i -> ram s' x = ram s x) /\
    (forall p j,
       In p (flat_map (child_pages (subtree_pages l (ram s)) (ram s) t) (entries_from i n)) ->
       index_ok j ->
       read64 (ram s') (p + 8 * j) =
       if pte_valid (read64 (ram s) (p + 8 * j)) then 0 else read64 (ram s) (p + 8 * j)) /\
    (forall idx, In idx (entries_from i n) ->
       read64 (ram s') (t + 8 * idx) =
       if pte_valid (read64 (ram s) (t + 8 * idx)) then 0 else read64 (ram s) (t + 8 * idx)).
Proof.
  induction n as [|n IH]; intros i s Hin Hok Hnd.
  - exists s. split; [reflexivity|]. split; [reflexivity|]. split; [reflexivity|].
    split; [intros p j []|intros idx []].
  - rewrite entries_from_S in Hok, Hnd |- *. cbn [forallb flat_map] in Hok, Hnd |- *.
    apply andb_prop in Hok. destruct Hok as [Hok0 Hok].
    rewrite freewalk_entries_S. cbv zeta.
    replace (Z.of_nat i + 1) with (Z.of_nat (S i)) by lia.
    assert (Hi : index_ok (Z.of_nat i)) by (unfold index_ok; lia).
    assert (Hrest : forall idx, In idx (entries_from (S i) n) ->
              index_ok idx /\ idx <> Z.of_nat i).
    { intros idx Hidx. apply entries_from_In in Hidx. unfold index_ok. lia. }
    unfold entry_freeable in Hok0. cbv zeta in Hok0.
    assert (Hcp : child_pages (subtree_pages l (ram s)) (ram s) t (Z.of_nat i)
                  = if pte_link (read64 (ram s) (t + 8 * Z.of_nat i))
                    then subtree_pages l (ram s) (PTE2PA (read64 (ram s) (t + 8 * Z.of_nat i)))
                    else []) by reflexivity.
    rewrite Hcp in Hnd |- *. clear Hcp.
    remember (flat_map (child_pages (subtree_pages l (ram s)) (ram s) t)
                (entries_from (S i) n)) as B eqn:EB.
    assert (HBa : forall q, In q B -> page_aligned q).
    { intros q Hq. subst B. exact (child_pages_aligned _ _ _ _ _ Hq). }
    assert (HBt : forall p, In p B -> p <> t).
    { intros p Hp ->.
      destruct (pte_link (read64 (ram s) (t + 8 * Z.of_nat i))).
      - apply (NoDup_app_disjoint
                 (subtree_pages l (ram s) (PTE2PA (read64 (ram s) (t + 8 * Z.of_nat i))) ++ B)
                 [t] t Hnd); [|now left].
        apply in_or_app. now right.
      - apply (NoDup_app_disjoint B [t] t Hnd); [assumption | now left]. }
    assert (HtB : forall x, in_page t x -> forall q, In q B -> ~ in_page q x).
    { intros x Hx q Hq. apply (pages_disjoint t q x t_aligned (HBa q Hq)); [|assumption].
      intros E. apply (HBt q Hq). now symmetry. }
    destruct (pte_link (read64 (ram s) (t + 8 * Z.of_nat i))) eqn:Hl.
    + assert (Hv : pte_valid (read64 (ram s) (t + 8 * Z.of_nat i)) = true).
      { unfold pte_link in Hl. now apply andb_prop in Hl. }
      rewrite Hv in Hok0. cbn [andb] in Hok0.
      remember (PTE2PA (read64 (ram s) (t + 8 * Z.of_nat i))) as c eqn:Ec.
      assert (Hca : page_aligned c) by (subst c; apply PTE2PA_aligned).
      assert (Hndc : NoDup (subtree_pages l (ram s) c)).
      { apply NoDup_app_remove_r in Hnd. now apply NoDup_app_remove_r in Hnd. }
      destruct (child_clears c s Hca Hok0 Hndc) as [s1 [Hrun1 [Hfl1 [Hfr1 Hcl1]]]].
      rewrite EB in Hnd.
      destruct (freewalk_link_step child l t (Z.of_nat i) (entries_from (S i) n) s c Ec
                  t_aligned Hi Hrest Hnd
                  (ex_intro _ s1 (conj Hrun1 (conj Hfl1 Hfr1))))
        as [s2 [Hrun [Hfl [Hfr Hkeep]]]].
      rewrite <- EB in Hnd.
      assert (Es2 : s2 = mkState (write64 (ram s1) (t + 8 * Z.of_nat i) 0) (freelist s1)).
      { pose proof (Hrun (ret tt)) as H0.
        rewrite (bind_Done _ _ _ _ _ Hrun1), bind_store64 in H0.
        unfold ret in H0. apply Done_inj in H0. destruct H0 as [_ H0]. symmetry. exact H0. }
      remember (subtree_pages l (ram s) c) as A eqn:EA.
      assert (HAa : forall q, In q A -> page_aligned q).
      { intros q Hq. pose proof (subtree_pages_aligned l (ram s) c Hca) as Hall.
        rewrite Forall_forall in Hall. apply Hall. now rewrite <- EA. }
      assert (HAt : forall p, In p A -> p <> t).
      { intros p Hp ->. apply (NoDup_app_disjoint (A ++ B) [t] t Hnd); [|now left].
        apply in_or_app. now left. }
      assert (HAB : forall p q, In p A -> In q B -> p <> q).
      { intros p q Hp Hq ->. revert Hq. apply (NoDup_app_disjoint A B q); [|assumption].
        now apply NoDup_app_remove_r in Hnd. }
      rewrite Hrun.
      assert (Hpages : flat_map (child_pages (subtree_pages l (ram s2)) (ram s2) t)
                         (entries_from (S i) n) = B).
      { rewrite EB. apply flat_map_ext_in. intros idx Hidx.
        now destruct (Hkeep idx Hidx) as [_ [E _]]. }
      destruct (IH (S i) s2) as [s' [Hrun' [Hfl' [Hfr' [Hcl' Hsl']]]]].
      * lia.
      * rewrite <- Hok. apply forallb_ext_in. intros idx Hidx.
        now destruct (Hkeep idx Hidx) as [_ [_ [E _]]].
      * rewrite Hpages. rewrite <- app_assoc in Hnd. now apply NoDup_app_remove_l in Hnd.
      * rewrite Hpages in Hfl', Hfr', Hcl'.
        assert (Hs2 : forall x, (forall p, In p A -> ~ in_page p x) ->
                  ~ in_page t x \/ x < t + 8 * Z.of_nat i -> ram s2 x = ram s x).
        { intros x Hx Hpos. rewrite Es2. cbn [ram]. rewrite write64_other.
          - now apply Hfr1.
          - destruct Hpos as [Hnt|Hlt]; [|lia].
            unfold in_page, index_ok, PGSIZE in *. lia. }
        assert (HA2 : forall p j, In p A -> index_ok j ->
                  read64 (ram s2) (p + 8 * j) = read64 (ram s1) (p + 8 * j)).
        { intros p j Hp Hj. rewrite Es2. cbn [ram]. apply read64_write64_other.
          pose proof (slot_disjoint p j t (Z.of_nat i) (HAa p Hp) t_aligned Hj Hi
                        (or_introl (HAt p Hp))). lia. }
        exists s'. split; [exact Hrun'|]. split; [|split; [|split]].
        -- rewrite Hfl', Hfl. rewrite rev_app_distr, <- app_assoc. reflexivity.
        -- intros x Hx Hpos. rewrite Hfr'.
           ++ apply Hs2; [|assumption]. intros p Hp. apply Hx. apply in_or_app. now left.
           ++ intros p Hp. apply Hx. apply in_or_app. now right.
           ++ destruct Hpos as [Hnt|Hlt]; [now left | right; lia].
        -- intros p j Hp Hj. apply in_app_or in Hp. destruct Hp as [Hp|Hp].
           ++ rewrite <- (Hcl1 p j Hp Hj), <- (HA2 p j Hp Hj).
              apply read64_ext. intros x Hx.
              pose proof (slot_bytes_in_page p j x Hj Hx) as Hpx.
              apply Hfr'.
              ** intros q Hq. apply (pages_disjoint p q x (HAa p Hp) (HBa q Hq)); [|assumption].
                 now apply HAB.
              ** left. apply (pages_disjoint p t x (HAa p Hp) t_aligned); [|assumption].
                 now apply HAt.
           ++ rewrite (Hcl' p j Hp Hj).
              assert (E : read64 (ram s2) (p + 8 * j) = read64 (ram s) (p + 8 * j)).
              { apply read64_ext. intros x Hx.
                pose proof (slot_bytes_in_page p j x Hj Hx) as Hpx.
                apply Hfr.
                - intros q Hq. apply (pages_disjoint p q x (HBa p Hp) (HAa q Hq)); [|assumption].
                  intros E. apply (HAB q p Hq Hp). now symmetry.
                - apply (pages_disjoint p t x (HBa p Hp) t_aligned); [|assumption].
                  now apply HBt. }
              rewrite E. reflexivity.
        -- intros idx [<-|Hidx].
           ++ rewrite Hv.
              assert (E : read64 (ram s') (t + 8 * Z.of_nat i) = read64 (ram s2) (t + 8 * Z.of_nat i)).
              { apply read64_ext. intros x Hx.
                pose proof (slot_bytes_in_page t _ x Hi Hx) as Htx.
                apply Hfr'; [now apply HtB | right; lia]. }
              rewrite E, Es2. cbn [ram]. rewrite read64_write64_same. reflexivity.
           ++ rewrite (Hsl' idx Hidx). now destruct (Hkeep idx Hidx) as [-> _].
    + destruct (pte_valid (read64 (ram s) (t + 8 * Z.of_nat i))) eqn:Hv; [discriminate Hok0|].
      cbn [app] in Hnd |- *.
      rewrite EB in Hnd.
      destruct (IH (S i) s ltac:(lia) Hok Hnd) as [s' [Hrun' [Hfl' [Hfr' [Hcl' Hsl']]]]].
      rewrite <- EB in Hfl', Hfr', Hcl'.
      exists s'. split; [exact Hrun'|]. split; [exact Hfl'|]. split; [|split].
      * intros x Hx Hpos. apply Hfr'; [assumption|].
        destruct Hpos as [Hnt|Hlt]; [now left | right; lia].
      * exact Hcl'.
      * intros idx [<-|Hidx]; [|now apply Hsl'].
        rewrite Hv. apply read64_ext. intros x Hx.
        pose proof (slot_bytes_in_page t _ x Hi Hx) as Htx.
        apply Hfr'; [now apply HtB | right; lia].
Qed.

End FreewalkClears.

(** [freewalk] on a table with nothing mapped below it frees the pages of
    the tree, the table last, and leaves 0 in every entry that was valid;
    it writes nothing else. *)
Lemma freewalk_clears d : forall level t s,
  page_aligned t -> freeableb level (ram s) t = true ->
  NoDup (subtree_pages level (ram s) t) ->
  exists s',
    freewalk (S level + d) t s = Done tt s' /\
    freelist s' = rev (subtree_pages level (ram s) t) ++ freelist s /\
    (forall x, (forall p, In p (subtree_pages level (ram s) t) -> ~ in_page p x) ->
       ram s' x = ram s x) /\
    (forall p j, In p (subtree_pages level (ram s) t) -> index_ok j ->
       read64 (ram s') (p + 8 * j) =
       if pte_valid (read64 (ram s) (p + 8 * j)) then 0 else read64 (ram s) (p + 8 * j)).
Proof.
  induction level as [|l IH]; intros t s Ht Hok Hnd.
  - cbn [Nat.add freewalk]. cbn [freeableb] in Hok.
    rewrite (bind_Done _ _ _ _ _ (freewalk_entries_skip (freewalk d) t 512 0 s
               ltac:(intros idx Hidx; rewrite forallb_forall in Hok;
                     specialize (Hok idx Hidx); now apply negb_true_iff in Hok))).
    exists (mkState (ram s) (t :: freelist s)).
    split; [reflexivity|]. split; [reflexivity|]. split; [reflexivity|].
    intros p j [<-|[]] Hj. cbn [ram].
    rewrite forallb_forall in Hok. specialize (Hok j (proj2 (entries_In j) Hj)).
    apply negb_true_iff in Hok. now rewrite Hok.
  - cbn [Nat.add freewalk]. cbn [freeableb subtree_pages] in Hok, Hnd |- *.
    destruct (freewalk_entries_clears (freewalk (S l + d)) l t Ht IH 512 0 s eq_refl Hok Hnd)
      as [s1 [Hrun [Hfl [Hfr [Hcl Hsl]]]]].
    change (Z.of_nat 0) with 0 in Hrun, Hfr. fold entries in Hrun, Hfl, Hfr, Hcl, Hsl.
    cbn [Nat.add] in Hrun. rewrite (bind_Done _ _ _ _ _ Hrun).
    exists (mkState (ram s1) (t :: freelist s1)).
    split; [reflexivity|]. split; [|split].
    + cbn [freelist]. rewrite Hfl, rev_app_distr. reflexivity.
    + intros x Hx. cbn [ram]. apply Hfr.
      * intros p Hp. apply Hx. apply in_or_app. now left.
      * left. apply Hx. apply in_or_app. right. now left.
    + intros p j Hp Hj. cbn [ram]. apply in_app_or in Hp. destruct Hp as [Hp|[<-|[]]].
      * now apply Hcl.
      * apply Hsl. now apply entries_In.
Qed.
(** ** C7 *)

(** A valid entry with one of R, W and X, in a page-table page at any
    level, keeps the tree from being freeable. *)
Lemma leaf_not_freeable level : forall m t q x i,
  path_ok level q -> table_at m t q = Some x -> index_ok i ->
  pte_valid (read64 m (x + 8 * i)) = true ->
  pte_link (read64 m (x + 8 * i)) = false ->
  freeableb level m t = false.
Proof.
  induction level as [|l IH]; intros m t q x i Hq Hx Hi Hv Hl.
  - destruct q as [|j q]; [|destruct Hq as [Hlen _]; cbn in Hlen; lia].
    cbn [table_at] in Hx. apply Some_inj in Hx. subst x.
    destruct (freeableb 0 m t) eqn:Hok; [exfalso | reflexivity].
    cbn [freeableb] in Hok. rewrite forallb_forall in Hok.
    specialize (Hok i (proj2 (entries_In i) Hi)). rewrite Hv in Hok. discriminate Hok.
  - destruct (freeableb (S l) m t) eqn:Hok; [exfalso | reflexivity].
    cbn [freeableb] in Hok. rewrite forallb_forall in Hok.
    destruct q as [|j q].
    + cbn [table_at] in Hx. apply Some_inj in Hx. subst x.
      specialize (Hok i (proj2 (entries_In i) Hi)).
      unfold entry_freeable in Hok. cbv zeta in Hok. rewrite Hv, Hl in Hok.
      discriminate Hok.
    + apply path_ok_cons in Hq. destruct Hq as [Hj Hq].
      cbn [table_at] in Hx.
      destruct (pte_valid (read64 m (t + 8 * j))) eqn:Hvj; [|discriminate Hx].
      specialize (Hok j (proj2 (entries_In j) Hj)).
      unfold entry_freeable in Hok. cbv zeta in Hok. rewrite Hvj in Hok.
      apply andb_prop in Hok. destruct Hok as [_ Hc].
      rewrite (IH m _ q x i Hq Hx Hi Hv Hl) in Hc. discriminate Hc.
Qed.

(** C7: reclamation with [freewalk], on a well-formed tree of the three
    levels of the data model (a valid entry of a last-level table is a leaf
    with one of R, W and X).  A call runs over the 512 entries of its
    table from entry 0 on and then frees the page of the table; at a valid
    entry without R, W and X it first calls itself on the table the entry
    points to, then stores 0 in the entry, then goes on with the next
    entry; at any other valid entry it panics.  When every valid entry of the two upper
    levels is an internal node and no address is mapped, so that no leaf
    is left, it never aborts: it returns after freeing every page-table
    page exactly once, each table after the tables below it and the root
    last, and in each of the 512 entries of each table it leaves 0 where it
    found a valid entry; it frees nothing else and writes nowhere else.
    When a valid entry with one of R, W and X is left in a page-table page
    at any level, and so whenever an address is still mapped, it panics
    with "freewalk: leaf".  Called by [uvmfree] for a tree in which exactly
    the pages of [0 .. sz) are mapped, it returns, because [uvmunmap]
    removed those leaves first. *)
Theorem freewalk_reclaims MAXVA d root s :
  MAXVA <= 2 ^ 39 -> wf s root -> leaves_markedb 2 (ram s) root = true ->
  (freewalk (3 + d) root =
     bind (freewalk_entries (freewalk (2 + d)) 512 root 0) (fun _ => kfree root) /\
   forall child n t i s0,
     freewalk_entries child (S n) t i s0 =
     let v := read64 (ram s0) (t + 8 * i) in
     if pte_link v then
       bind (child (PTE2PA v))
         (fun _ => bind (store64 (t + 8 * i) 0)
            (fun _ => freewalk_entries child n t (i + 1))) s0
     else if pte_valid v then Panic "freewalk: leaf"
     else freewalk_entries child n t (i + 1) s0) /\
  (linksb 2 (ram s) root = true ->
   (forall va, lookup (ram s) root va = None) ->
   exists s',
     freewalk (3 + d) root s = Done tt s' /\
     freelist s' = rev (subtree_pages 2 (ram s) root) ++ freelist s /\
     (forall p, In p (subtree_pages 2 (ram s) root) <-> is_table (ram s) root p) /\
     (exists below, freelist s' = root :: below) /\
     NoDup (freelist s') /\
     (forall p, In p (freelist s') <-> In p (freelist s) \/ is_table (ram s) root p) /\
     (forall p i, is_table (ram s) root p -> index_ok i ->
        read64 (ram s') (p + 8 * i) =
        if pte_valid (read64 (ram s) (p + 8 * i)) then 0 else read64 (ram s) (p + 8 * i)) /\
     (forall x, (forall t, is_table (ram s) root t -> ~ in_page t x) -> ram s' x = ram s x)) /\
  (forall p t i, path_ok 2 p -> table_at (ram s) root p = Some t -> index_ok i ->
     pte_valid (read64 (ram s) (t + 8 * i)) = true ->
     Z.land (read64 (ram s) (t + 8 * i)) PTE_RWX <> 0 ->
     freewalk (3 + d) root s = Panic "freewalk: leaf") /\
  (forall va v, lookup (ram s) root va = Some v ->
     freewalk (3 + d) root s = Panic "freewalk: leaf") /\
  (linksb 2 (ram s) root = true ->
   forall sz, 0 <= sz -> sz <= MAXVA -> PGROUNDUP sz <= MAXVA ->
     (forall k, 0 <= k < PGROUNDUP sz / PGSIZE ->
        exists v, lookup (ram s) root (PGSIZE * k) = Some v /\ PTE_FLAGS v <> PTE_V) ->
     (forall va, (forall k, 0 <= k < PGROUNDUP sz / PGSIZE -> ~ same_entry (PGSIZE * k) va) ->
        lookup (ram s) root va = None) ->
     exists s',
       uvmfree MAXVA (3 + d) root sz s = Done tt s' /\
       (forall p, In p (freelist s') <->
          In p (freelist s) \/ is_table (ram s) root p \/
          exists k, 0 <= k < PGROUNDUP sz / PGSIZE /\
                    p = mapped_pa (ram s) root (PGSIZE * k))).
Proof.
  intros Hmax Hwf Hmk. pose proof Hwf as [Hwt Hwfree].
  pose proof (subtree_pages_NoDup 2 (ram s) root (wf_inj _ _ Hwt)) as Hnd.
  split; [|split; [|split; [|split]]].
  - split; [reflexivity|]. intros child n t i s0. apply freewalk_entries_S.
  - intros Hlinks Hnone.
    pose proof (links_unmapped_freeable _ _ Hwt Hlinks Hnone) as Hok.
    destruct (freewalk_clears d 2 root s (wf_root_aligned _ _ Hwt) Hok Hnd)
      as [s' [Hrun [Hfl [Hfr Hcl]]]].
    assert (Hmem : forall p, In p (subtree_pages 2 (ram s) root) <-> is_table (ram s) root p).
    { intros p. split.
      - intros Hp. now apply subtree_pages_table in Hp.
      - intros [q [Hq Hp]]. now apply (freeable_tables 2 _ _ q). }
    exists s'. split; [exact Hrun|]. split; [exact Hfl|]. split; [exact Hmem|].
    split; [|split; [|split; [|split]]].
    + rewrite Hfl. cbn [subtree_pages]. rewrite rev_app_distr. cbn [rev app]. eauto.
    + rewrite Hfl. apply NoDup_app.
      * now apply NoDup_rev.
      * apply (wf_free_nodup _ _ _ Hwfree).
      * intros p Hp Hp'. apply in_rev in Hp. apply Hmem in Hp.
        now destruct (wf_free_pages _ _ _ Hwfree p Hp') as [_ [_ Hn]].
    + intros p. rewrite Hfl, in_app_iff, <- in_rev, Hmem. tauto.
    + intros p i Hp Hi. apply Hcl; [now apply Hmem | assumption].
    + intros x Hx. apply Hfr. intros p Hp. apply Hx. now apply Hmem.
  - intros p t i Hp Ht Hi Hv Hrwx.
    apply (freewalk_panic d 2 root s (wf_root_aligned _ _ Hwt) Hmk); [|exact Hnd].
    apply (leaf_not_freeable 2 (ram s) root p t i Hp Ht Hi Hv).
    unfold pte_link. rewrite Hv. cbn [andb]. now apply Z.eqb_neq.
  - intros va v Hlk.
    apply (freewalk_panic d 2 root s (wf_root_aligned _ _ Hwt) Hmk); [|exact Hnd].
    exact (lookup_not_freeable _ _ _ _ Hlk).
  - intros Hlinks sz Hsz Hszm Hszr Hmapped Hrest.
    exact (uvmfree_spec MAXVA Hmax d root sz s Hwf Hlinks Hsz Hszm Hszr Hmapped Hrest).
Qed.

Lemma freewalk_reclaims_witness :
  (* a tree with its three tables and nothing mapped *)
  (let s := state_of (walk (2 ^ 38) 4096 0 1 (boot [8192; 12288; 16384])) (boot []) in
   exists s', freewalk (3 + 0) 4096 s = Done tt s' /\
     freelist s' = rev (subtree_pages 2 (ram s) 4096) ++ freelist s) /\
  (* the same tree with two pages mapped *)
  freewalk (3 + 0) 4096 two_page_state = Panic "freewalk: leaf" /\
  (exists s', uvmfree (2 ^ 38) (3 + 0) 4096 8000 two_page_state = Done tt s').
Proof.
  split; [|split].
  - intros s.
    destruct (freewalk_reclaims (2 ^ 38) 0 4096 s) as [_ [HA _]].
    + lia.
    + apply (walk_boot_wf (2 ^ 38) 4096 0 [8192; 12288; 16384]); [reflexivity | lia].
    + vm_compute. reflexivity.
    + destruct HA as [s' [Hrun [Hfl _]]].
      * vm_compute. reflexivity.
      * intros va. destruct (lookup (ram s) 4096 va) as [v|] eqn:Hlk; [|reflexivity].
        apply lookup_not_freeable in Hlk.
        assert (Hok : freeableb 2 (ram s) 4096 = true) by (vm_compute; reflexivity).
        rewrite Hok in Hlk. discriminate Hlk.
      * exists s'. split; assumption.
  - destruct (freewalk_reclaims (2 ^ 38) 0 4096 two_page_state) as [_ [_ [HB _]]].
    + lia.
    + apply (mappages_boot_wf (2 ^ 38) 4096 0 8192 40960 22 [8192; 12288]);
        [lia | reflexivity | lia | lia | lia | lia].
    + vm_compute. reflexivity.
    + apply (HB [0; 0] 12288 0).
      * split; [cbn; lia | repeat constructor; unfold index_ok; lia].
      * vm_compute. reflexivity.
      * unfold index_ok. lia.
      * vm_compute. reflexivity.
      * vm_compute. discriminate.
  - destruct (freewalk_reclaims (2 ^ 38) 0 4096 two_page_state) as [_ [_ [_ [_ HC]]]].
    + lia.
    + apply (mappages_boot_wf (2 ^ 38) 4096 0 8192 40960 22 [8192; 12288]);
        [lia | reflexivity | lia | lia | lia | lia].
    + vm_compute. reflexivity.
    + destruct (HC ltac:(vm_compute; reflexivity) 8000) as [s' [Hrun _]].
      * lia.
      * lia.
      * vm_compute. discriminate.
      * change (PGROUNDUP 8000 / PGSIZE) with 2. intros k Hk.
        assert (Hc : k = 0 \/ k = 1) by lia.
        destruct Hc as [-> | ->].
        -- exists (leaf_pte 40960 22).
           split; [vm_compute; reflexivity | vm_compute; discriminate].
        -- exists (leaf_pte 45056 22).
           split; [vm_compute; reflexivity | vm_compute; discriminate].
      * change (PGROUNDUP 8000 / PGSIZE) with 2. apply two_page_state_unmapped.
      * exists s'. exact Hrun.
Defined.
